(* ===== verification/_CoqProject ===== *)
-Q . S2P
Prelude.v
Cbits.v
Hash.v
Crypto.v
ArbState.v
ArbPacket.v
ArbTables.v
ArbWindow.v
ArbNet.v
ArbKiosk.v
ArbRound.v
ArbRecv.v
ArbLoop.v
ArbDemo.v
ArbElect.v
ArbSteps.v
ArbKeep.v
ArbFresh.v
ArbClaims.v
ArbKeys.v
DropIn.v
DropInCalls.v
DropInAudio.v
Json.v
JsonStr.v
JsonDoc.v
JsonPrint.v
Ws.v
WsFrames.v
WsUpgrade.v
LedQ.v
Noise.v
NoiseAgree.v
Improv.v
ImprovSafe.v
ImprovRpc.v
Buttons.v
ButtonsRun.v
BleCrypto.v
BleSpec.v
EspPb.v
EspApi.v
EspServe.v
EspSafe.v
EspDemo.v
EspKey.v
EspRuns.v
StateFile.v
StateFileSafe.v
Wyoming.v
Timers.v
Levels.v
WakeWords.v
Sat.v
SatTalk.v
SatHa.v
SatSafe.v
SatSteps.v
SatRuns.v
SatActs.v
SatStream.v
SatReply.v
SatEnds.v
SatRules.v
SatDemo.v
Ble.v
BleGatt.v
BleTrip.v
BleSafe.v
BleDisc.v
BleBonds.v
BleFrame.v
BlePair.v
BleAgree.v
BlePairSafe.v
BleLink.v
BleLinkSafe.v
BleDemo.v
