(* ===== verification/Prelude.v ===== *)
(** * hassmic: a verification development

    hassmic (src/src/hassmic) is the daemon that makes an Amazon Echo a voice satellite of
    Home Assistant.  It hears a wake word, agrees with the other Echos of the home on who
    answers, streams the microphone to Home Assistant, plays what comes back, rings timers,
    shows the light ring, takes calls from other Echos, and lets itself be set up over
    Bluetooth.  The code is C: one file per part, static variables behind a mutex, threads,
    sockets, fixed buffers.

    ** How a part is modelled

    A part's static variables are the fields of a record, with the source's names where Rocq
    allows them.  A function that changes them takes the record and gives the next one; what
    it sends, writes, plays or asks of other parts is appended to an output list in the
    order of the code.  The clock, random bytes, what the kernel or another part answers, and
    whether an allocation succeeds, are arguments.  A lock held from a function's first access
    to its last makes the function one step; where the code lets the lock go, as in
    proto_esphome.c and statefile.c, the pieces are steps that interleave with those of
    other threads.  A run is a list of steps, and an invariant is proved for all runs.  Bytes
    are [Z] in [0, 256) (Cbits), machine integers are [Z] with the wrap-around written out.
    Log lines are left out everywhere.

    ** The parts

    - Prelude, Cbits: tactics, list lemmas; machine integers, byte strings, decimal and
      little- and big-endian text.
    - Hash (hash.c): SHA-256 as a streaming context, HMAC, SHA-1, base64.  Proved equal to
      the definitions of FIPS 180-4 on the padded message, whatever the cut into calls.
    - Crypto: the interface of the vendored Monocypher and of /dev/urandom.  Classes with
      laws of documented behaviour (an opened box is the one locked, both sides of X25519
      agree); [Toy] instances with the laws proved serve the witnesses.  Secrecy is nowhere
      claimed; authenticity theorems say which key a packet's tag was computed with.
    - ArbState, ArbPacket, ArbTables, ArbWindow, ArbNet, ArbKiosk, ArbRound, ArbRecv,
      ArbLoop (arb.c): wake word arbitration.  Echos of one network share a key K; each hears
      the wake word, opens a round with a claim, and the best claim answers.  [loop_turn] is
      a turn of arb's thread, [on_packet] a datagram, the rest the calls of arb.h.
      Theorems: exactly one Echo answers (ArbElect); the tables are never left, the network
      changes only for an older one, counters are never used twice even across a crash
      (ArbSteps, ArbKeep); a packet counts at most once (ArbFresh); claims arrive and forgeries
      change nothing (ArbClaims); the key goes to whom it was sealed for (ArbKeys).
    - DropIn (dropin.c): calls between two Echos over arb's channel and an encrypted UDP
      stream.  Theorems: a call connects, goes live only when allowed, stays over once it is
      over, its core is told everything in order (DropInCalls); only authentic audio plays,
      nonces are fresh, frames arrive (DropInAudio).
    - Json (json.c): the parser into tokens, look-ups, strings read and written.  Theorems:
      it ends within [parse_fuel] (JsonDoc), reads every printed document as its layout
      (JsonPrint), and escaped strings read back (JsonStr).
    - Ws (ws.c): both sides of the WebSocket upgrade and its frames, which web pages,
      Music Assistant and Sendspin talk through; uses Hash.  Theorems: fragments are joined,
      whatever comes is bounded (WsFrames), the upgrade completes (WsUpgrade).
    - LedQ (ledq.c): the queue of light ring calls; refined to a list, calls run in order.
    - Noise (noise.c): the responder of Noise KKpsk2 and NNpsk0; uses Hash and Crypto.  The
      initiator is the specification; both ends come to the same keys (NoiseAgree).
    - Improv (improv.c): setting up Wi-Fi from a phone.  An Echo that is set up joins another
      network only after its button was pressed (ImprovSafe), but for the case
      [late_phone_needs_no_button] states; packets arrive in pieces (ImprovRpc).
    - Buttons (buttons.c): presses, holds, pairs of keys and the mute latch; a press is told
      once (ButtonsRun).
    - BleCrypto (ble_crypto.c): AES-128, AES-CMAC and the pairing functions, equal to FIPS 197
      and RFC 4493 (BleSpec).
    - EspPb, EspApi, EspServe (proto_esphome.c): the ESPHome native API that Home Assistant
      talks: protobuf fields, the client table, the device key and its file, the requests
      and the connections; uses Noise.  Theorems: no request acts and no key changes without
      the key (EspSafe, EspKey, with the concrete run of EspDemo); the right key gets in, the
      voice assistant keeps its client, the key outlives a restart (EspRuns).
    - StateFile (statefile.c): files replaced whole.  A function is a tree of its calls, and
      threads run theirs one call at a time over a file system that a reset may set back.
      Theorems: a file is always whole, and durable once written (StateFileSafe).
    - Wyoming (wyoming.c): the framing of the Wyoming protocol; an event arrives however the
      socket cuts it.
    - Timers (main.c): the running and ringing timers; the tables, the light, the alarm and
      Home Assistant's view agree in every run.
    - Levels (main.c): the music's volume and the four kinds', the mixer kept in step with
      them, Bluetooth speakers, the files.  Each stream sounds as its own volume says, the
      volume outlives a restart, and the Echo's own comes back after a Bluetooth speaker; but
      for the case [aside_volume_not_kept] shows.
    - WakeWords (main.c): the models found, the one or two that listen, the file of the pick.
      The ones that listen are words there are, none twice, and a pick outlives a restart.
    - Sat, SatTalk (main.c) and SatHa (proto_esphome.c): the satellite at work.  Sat has the
      state under core_lock, runs, the mute switch and what follows a run; SatTalk the wake
      word, the button, "stop", calls, what is played and the microphone's stream; SatHa what
      Home Assistant reports of a run, and the threads that fetch replies, announcements and
      media.  A [world] is one [sat] and one [ha]; [op] lists all that happens to it, [step] does it.
    - The theorems on it.  For every history: the microphone goes out only in a run, a run
      starts only when asked for, the light ring shows the state (SatSafe has the invariant,
      SatSteps takes a step apart into calls of the core, SatRuns concludes).  With the wake
      word found on the Echo: the stream has no gap (SatStream), replies end (SatEnds), a
      cancelled run is silent and what a stop before the audio does (SatReply), on the moves
      SatActs takes each call apart into.  Branch by branch: "stop", the time limit, the run
      that follows (SatRules).  SatDemo has whole conversations, evaluated.
    - Ble, BleGatt, BleBonds, BlePair, BleLink (ble.c, ble.h): Bluetooth LE by hand over a
      raw HCI socket.  Ble is one connection and its GATT client: the queue of requests, long
      reads and writes, discovery of the services.  BleGatt is the server a phone talks to.
      BleBonds is the list of paired devices and its file; BlePair pairing as initiator, legacy
      and LE Secure Connections; BleLink all connections on the controller, ACL packets both
      ways, events, the requests of other threads and the upkeep.
    - The theorems on it: a value crosses from client to server and back whole, at any MTU
      (BleTrip); the server sends nothing longer than fits and writes only what may be
      written (BleSafe); discovery ends and stays in its tables (BleDisc); the bonds' file
      reads back and forgetting forgets one device; both ends of a pairing get
      the same key (BleAgree, the other end following the specification); no bond is kept
      without its checks (BlePairSafe); frames cross the link whole and the controller's
      buffers are never overrun (BleLinkSafe).  BleFrame says what ATT leaves alone; BleDemo
      has concrete runs.

    ** Where parts meet

    DropIn sends its messages as arb's messages and is told the members' keys by it; its
    theorems on a call take two [arb] states of one network.  Ws, Noise and EspApi call Hash,
    EspServe runs Noise's responder and transport.  SatHa joins the core with the protocol:
    the calls one makes of the other take effect on the other's state, in order.  BlePair
    computes with BleCrypto; BleLink gives each frame to Ble, BleGatt or BlePair and sends
    what they answer; BleTrip runs Ble's client against BleGatt's server; BleDemo serves
    Improv's service on it.  Calls into parts that are not modelled are events of the
    caller's output; what such a part answers is an argument of the step.

    ** Loops and fuel

    Loops that are not structural get fuel, and the bound is proved or evident where they
    are used: [Json.value] gets [parse_fuel s = 2 * length s + 4] ([parser_ends]: enough at
    every position and depth); [Ws.recv_loop] one turn per byte to come
    and one more, each turn takes a byte ([received_within_bounds]); [Ws.read_headers_loop]
    the buffer's length less the NUL, as the code's loop; [EspPb.varint_loop] ten bytes, what
    64 bits need; [pb_fields_loop] the length, each field takes a byte;
    [Wyoming.find_key_loop] and [BleSpec.Rfc4493.mac] the length and one; [Cbits.digits] twenty
    digits, what 64 bits have; [Improv.strings] the length.  [ArbNet.draw_id] is the code's
    loop that draws until an id is not 0, bounded by [draw_bound].  statefile.c's loop over
    100 names is the code's own.  In ble.c: [acl_frags] gets the frame's length, each packet
    takes a byte of it; [bonds_read] the file's length, each line takes one; the client's loop
    over what it need not ask of gets [disc_fuel], a turn for each entry of the tables
    ([discovery_ends]).

    ** What is not modelled

    - of modelled files: the JSON of the Kiosk protocol and of arb's status (arb.c), strtod
      and with it json_int, json_num and json_bool (json.c), the echo suppressor and Opus
      (dropin.c), fork, exec and pipes (ledq.c: what becomes of a process is an argument),
      the messages that functions called by [handle] build in turn, entities
      (proto_esphome.c); the playing of sounds, the equalizer and the light's level, noise reduction, gain and the
      removal of the Echo's own sounds, the place of a wake word in the ring and its score
      (main.c: [Heard] names the samples handed to the stream before they are processed);
      scanning, advertising, the controller's setup, events that arrive while a command
      waits, and writes that fail (ble.c); sockets, poll, thread creation and logging
      throughout;
    - floating-point signal processing and vendor code: wake word and sound models, the
      microphone's filters, resampling, SBC, the volume curve, drawing on the screen;
    - glue over the system: HTTPS through other programs, updates, Wi-Fi files asked of
      root, audio devices, the kernel modules, tools.

    ** What would come next

    The entities of proto_esphome.c, scanning and advertising of ble.c, the announcement
    schedule of netaddr.c, tz.c, afe_parcel.c's parcels, and the commands of
    proto_wyoming.c on top of Wyoming.
*)
From stdpp Require Export prelude list list_numbers strings numbers.
From coqutil Require Export Datatypes.RecordSettersUsingExistingGetters.
From Stdlib Require Export ZArith Lia.

#[global] Open Scope Z_scope.
#[export] Set Warnings "-clear-no-such-hyp".

(** ** Records
    [s <| f := v |>] is the C assignment [s.f = v]; projections of an updated
    record compute under [cbn]. *)
#[global] Arguments const {_} _ _ /.

(** ** Tactics of the development *)

(** Split a boolean conjunction or disjunction test into its parts and turn the
    comparisons of [Z] into propositions. *)
Ltac bsimp :=
  repeat match goal with
  | H : _ && _ = true |- _ => apply andb_true_iff in H as [? ?]
  | H : _ || _ = false |- _ => apply orb_false_iff in H as [? ?]
  | H : negb _ = true |- _ => apply negb_true_iff in H
  | H : negb _ = false |- _ => apply negb_false_iff in H
  | H : (_ <? _) = true |- _ => apply Z.ltb_lt in H
  | H : (_ <? _) = false |- _ => apply Z.ltb_ge in H
  | H : (_ <=? _) = true |- _ => apply Z.leb_le in H
  | H : (_ <=? _) = false |- _ => apply Z.leb_gt in H
  | H : (_ =? _) = true |- _ => apply Z.eqb_eq in H
  | H : (_ =? _) = false |- _ => apply Z.eqb_neq in H
  | H : bool_decide _ = true |- _ => apply bool_decide_eq_true in H
  | H : bool_decide _ = false |- _ => apply bool_decide_eq_false in H
  end.

(** Case analysis on every [if] and [match] of the goal, simplifying as it goes. *)
Ltac cases :=
  repeat (case_match; simplify_eq/=; bsimp; try done).

(** ** Lists *)

Section lists.
Context {A : Type}.
Implicit Types l : list A.

(** The first index [>= i] whose element satisfies [f]: a C search loop. *)
Fixpoint find_index (f : A -> bool) l : option nat :=
  match l with
  | [] => None
  | x :: l => if f x then Some 0%nat else S <$> find_index f l
  end.

Lemma find_index_Some f l i :
  find_index f l = Some i ->
  exists x, l !! i = Some x /\ f x = true /\
            forall j y, (j < i)%nat -> l !! j = Some y -> f y = false.
Proof.
  revert i. induction l as [|x l IH]; intros i; simpl; [done|].
  destruct (f x) eqn:Hx; intros H; simplify_eq/=.
  - exists x. split_and!; [done|done|]. intros j y ?; lia.
  - destruct (find_index f l) as [k|]; simplify_eq/=.
    destruct (IH k eq_refl) as (z & ? & ? & Hlt). exists z. split_and!; [done|done|].
    intros [|j] y Hj Hy; simplify_eq/=; [done|]. apply (Hlt j); [lia|done].
Qed.

Lemma find_index_None f l :
  find_index f l = None <-> forall x, x ∈ l -> f x = false.
Proof.
  induction l as [|x l IH]; simpl.
  - split; [intros _ y Hy; by apply elem_of_nil in Hy | done].
  - destruct (f x) eqn:Hx; simpl.
    + split; [done|]. intros H. rewrite H in Hx; [done|]. left.
    + destruct (find_index f l); simpl; split; try done.
      * intros H. exfalso. destruct IH as [_ IH].
        assert (Some n = None) by (apply IH; intros y Hy; apply H; by right). done.
      * intros _ y [->|Hy]%elem_of_cons; [done|]. by apply IH.
Qed.

Lemma find_index_lt f l i : find_index f l = Some i -> (i < length l)%nat.
Proof. intros (x & Hx & _)%find_index_Some. by eapply lookup_lt_Some. Qed.

(** The index a linear "keep the best so far" scan ends with: the C idiom
    [for (i) if (better(x[i], x[best])) best = i]. *)
Definition scan_best (better : A -> A -> bool) (d : A) l : nat :=
  fst (fold_left (fun '(b, i) x => (if better x (nth b l d) then i else b, S i)) l (0%nat, 0%nat)).

Lemma scan_best_lt better d l : l <> [] -> (scan_best better d l < length l)%nat.
Proof.
  unfold scan_best. intros Hne.
  assert (forall l' b i, (b < length l)%nat -> (i + length l' <= length l)%nat ->
    (fst (fold_left (fun '(b, i) x => (if better x (nth b l d) then i else b, S i)) l' (b, i))
      < length l)%nat) as H.
  { induction l' as [|x l' IH]; intros b i Hb Hi; simpl; [done|].
    apply IH; simpl in Hi; [|lia]. destruct (better x _); [lia|done]. }
  apply H; [|lia]. destruct l; [done|]; simpl; lia.
Qed.

(** The scan for the least [f]: nothing before or after is less. *)
Lemma scan_best_min (f : A -> Z) d l j x :
  l !! j = Some x -> f (nth (scan_best (fun a b => f a <? f b) d l) l d) <= f x.
Proof.
  unfold scan_best. intros Hj.
  assert (forall l' b i, l = take i l ++ l' -> length (take i l) = i -> (b <= i)%nat ->
    (forall k y, (k < i)%nat -> l !! k = Some y -> f (nth b l d) <= f y) ->
    forall k y, l !! k = Some y ->
    f (nth (fst (fold_left (fun '(b, i) x => (if f x <? f (nth b l d) then i else b, S i)) l' (b, i))) l d) <= f y) as H.
  { induction l' as [|z l' IH]; intros b i Hl Hi Hb Hmin; simpl.
    - rewrite app_nil_r in Hl. intros k y Hk. apply (Hmin k); [|done].
      apply lookup_lt_Some in Hk. rewrite Hl in Hk. lia.
    - assert (l !! i = Some z) as Hz.
      { rewrite Hl, lookup_app_r by lia. by rewrite Hi, Nat.sub_diag. }
      assert (nth i l d = z) as Hn by (by apply nth_lookup_Some with (d := d) in Hz).
      apply IH.
      + by rewrite (take_S_r _ _ z Hz), <- app_assoc.
      + rewrite (take_S_r _ _ z Hz), length_app. simpl. lia.
      + destruct (f z <? _); lia.
      + intros k y Hk Hy. destruct (Z.ltb_spec (f z) (f (nth b l d))).
        * rewrite Hn. destruct (decide (k = i)) as [->|]; [by simplify_eq|].
          specialize (Hmin k y ltac:(lia) Hy). lia.
        * destruct (decide (k = i)) as [->|]; [by simplify_eq|]. apply (Hmin k); [lia|done]. }
  eapply (H l 0%nat 0%nat); [done|done|lia| |done]. intros; lia.
Qed.
End lists.

(** Induction three elements at a time, for loops that step by three. *)
Lemma list_ind3 {A} (P : list A -> Prop) :
  P [] -> (forall a, P [a]) -> (forall a b, P [a; b]) ->
  (forall a b c l, P l -> P (a :: b :: c :: l)) -> forall l, P l.
Proof.
  intros H0 H1 H2 H3.
  assert (forall n l, (length l <= n)%nat -> P l) as H by
    (induction n as [|n IH]; intros [|a [|b [|c l]]] Hl; simpl in Hl; auto; try lia;
     apply H3, IH; lia).
  intros l. by apply (H (length l)).
Qed.

(** [forallb] and [existsb] against the quantifiers. *)
Lemma existsb_elem {A} (f : A -> bool) l :
  existsb f l = true <-> exists x, x ∈ l /\ f x = true.
Proof. rewrite existsb_exists. setoid_rewrite list_elem_of_In. done. Qed.

Lemma existsb_false_elem {A} (f : A -> bool) l :
  existsb f l = false <-> forall x, x ∈ l -> f x = false.
Proof.
  rewrite <- not_true_iff_false, existsb_elem. split.
  - intros H x Hx. apply not_true_iff_false. intros Hf. apply H. eauto.
  - intros H (x & Hx & Hf). rewrite H in Hf; done.
Qed.

Lemma forallb_elem {A} (f : A -> bool) l :
  forallb f l = true <-> forall x, x ∈ l -> f x = true.
Proof. rewrite forallb_forall. setoid_rewrite list_elem_of_In. done. Qed.

(** ** Elections
    Among finitely many candidates compared by a strict order that is total on
    different candidates, exactly one is beaten by no other. *)
Section elect.
Context {A : Type} (better : A -> A -> bool).

(** Nobody at another place of the list is better. *)
Definition unbeaten (l : list A) (i : nat) : Prop :=
  exists x, l !! i = Some x /\
    forall j y, j <> i -> l !! j = Some y -> better y x = false.

Hypothesis better_asym : forall x y, better x y = true -> better y x = false.
Hypothesis better_trans :
  forall x y z, better x y = true -> better y z = true -> better x z = true.

Lemma better_irrefl x : better x x = false.
Proof. destruct (better x x) eqn:E; [|done]. by rewrite (better_asym _ _ E) in E. Qed.

Lemma elect_max l : l <> [] -> exists x, x ∈ l /\ forall y, y ∈ l -> better y x = false.
Proof.
  induction l as [|a l IH]; [done|]. intros _. destruct l as [|b l].
  - exists a. split; [left|]. intros y ->%list_elem_of_singleton. apply better_irrefl.
  - destruct IH as (x & Hx & Hbest); [done|]. destruct (better a x) eqn:Hax.
    + exists a. split; [left|]. intros y [->|Hy]%elem_of_cons; [apply better_irrefl|].
      destruct (better y a) eqn:Hya; [|done].
      pose proof (better_trans _ _ _ Hya Hax) as Hyx. by rewrite (Hbest _ Hy) in Hyx.
    + exists x. split; [by right|]. intros y [->|Hy]%elem_of_cons; [done|by apply Hbest].
Qed.

Lemma elect_unique l :
  l <> [] ->
  (forall i j x y, i <> j -> l !! i = Some x -> l !! j = Some y ->
    better x y = true \/ better y x = true) ->
  exists! i, unbeaten l i.
Proof.
  intros Hne Htot. destruct (elect_max l Hne) as (x & [i Hi]%list_elem_of_lookup & Hbest).
  exists i. split.
  - exists x. split; [done|]. intros j y _ Hj. apply Hbest. by eapply list_elem_of_lookup_2.
  - intros j (y & Hj & Hy). destruct (decide (i = j)) as [|Hne']; [done|]. exfalso.
    destruct (Htot i j x y Hne' Hi Hj) as [E|E].
    + by rewrite (Hy i x Hne' Hi) in E.
    + by rewrite (Hbest y) in E by (by eapply list_elem_of_lookup_2).
Qed.
End elect.
