(* ===== verification/Cbits.v ===== *)
(** * C data: machine integers, byte strings and their encodings
    Bytes are [Z] in [0, 256); a C string is the list of its bytes without the
    terminating NUL; a buffer is a list of bytes.  The wrap-around of the unsigned
    and signed types is written out ([u8], [u32], [u64], [i32]). *)
From S2P Require Import Prelude.

(** ** Machine integers *)
Definition u8 (x : Z) : Z := x mod 2 ^ 8.
Definition u16 (x : Z) : Z := x mod 2 ^ 16.
Definition u32 (x : Z) : Z := x mod 2 ^ 32.
Definition u64 (x : Z) : Z := x mod 2 ^ 64.
(** conversion to [int32_t], as two's complement compilers do *)
Definition i32 (x : Z) : Z := (x + 2 ^ 31) mod 2 ^ 32 - 2 ^ 31.

Definition INT_MIN : Z := - 2 ^ 31.
Definition INT_MAX : Z := 2 ^ 31 - 1.

Lemma u8_bound x : 0 <= u8 x < 256.
Proof. apply Z.mod_pos_bound. lia. Qed.
Lemma u64_bound x : 0 <= u64 x < 2 ^ 64.
Proof. apply Z.mod_pos_bound. lia. Qed.
Lemma u8_id x : 0 <= x < 256 -> u8 x = x.
Proof. intros. unfold u8. rewrite Z.mod_small; lia. Qed.
Lemma u64_id x : 0 <= x < 2 ^ 64 -> u64 x = x.
Proof. intros. unfold u64. rewrite Z.mod_small; lia. Qed.
Lemma i32_u32 x : INT_MIN <= x <= INT_MAX -> i32 (u32 x) = x.
Proof.
  unfold i32, u32, INT_MIN, INT_MAX. intros.
  rewrite Z.add_mod_idemp_l by lia. rewrite Z.mod_small; lia.
Qed.
Create HintDb cbits.
#[export] Hint Resolve u8_bound u64_bound : cbits.

(** [a << n | v] with [v] below the shift is an addition. *)
Lemma lor_shiftl_add a v n :
  0 <= n -> 0 <= v < 2 ^ n -> Z.lor (Z.shiftl a n) v = a * 2 ^ n + v.
Proof.
  intros Hn Hv. rewrite <- Z.shiftl_mul_pow2 by done.
  assert (Z.land (Z.shiftl a n) v = 0) as Hl.
  { apply Z.bits_inj'. intros i Hi. rewrite Z.land_spec, Z.bits_0.
    destruct (Z.lt_ge_cases i n).
    - by rewrite Z.shiftl_spec_low.
    - rewrite <- (Z.mod_small v (2 ^ n)), Z.mod_pow2_bits_high by lia. apply andb_false_r. }
  by rewrite Z.add_nocarry_lxor, Z.lxor_lor.
Qed.

(** The masks of the code as remainders. *)
Lemma land_mask x n : 0 <= n -> Z.land x (Z.ones n) = x mod 2 ^ n.
Proof. apply Z.land_ones. Qed.
Lemma land_255 x : Z.land x 255 = x mod 256.
Proof. apply (Z.land_ones x 8). lia. Qed.
Lemma land_63 x : Z.land x 63 = x mod 64.
Proof. apply (Z.land_ones x 6). lia. Qed.
Lemma shiftr_div x n : 0 <= n -> Z.shiftr x n = x / 2 ^ n.
Proof. intros. by apply Z.shiftr_div_pow2. Qed.

(** ** Byte strings *)
Abbreviation bytes := (list Z).

Definition is_byte (b : Z) : Prop := 0 <= b < 256.
Definition are_bytes (l : bytes) : Prop := Forall is_byte l.

(** A C string literal. *)
Fixpoint str (s : string) : bytes :=
  match s with
  | EmptyString => []
  | String c s => Z.of_nat (Ascii.nat_of_ascii c) :: str s
  end.

(** [memcmp]: the first difference decides. *)
Fixpoint memcmp (a b : bytes) : comparison :=
  match a, b with
  | x :: a, y :: b => match x ?= y with Eq => memcmp a b | c => c end
  | [], [] => Eq
  | [], _ => Lt
  | _, [] => Gt
  end.

Lemma memcmp_eq a b : memcmp a b = Eq <-> a = b.
Proof.
  revert b. induction a as [|x a IH]; intros [|y b]; simpl; try done.
  destruct (Z.compare_spec x y) as [->|H|H].
  - rewrite IH. split; [by intros ->|by intros [= ->]].
  - split; [done|]. intros [= -> _]. lia.
  - split; [done|]. intros [= -> _]. lia.
Qed.

Lemma memcmp_antisym a b : memcmp b a = CompOpp (memcmp a b).
Proof.
  revert b. induction a as [|x a IH]; intros [|y b]; simpl; try done.
  rewrite (Z.compare_antisym x y). destruct (x ?= y) eqn:?; simpl; [apply IH|done|done].
Qed.

Lemma memcmp_lt_trans a b c : memcmp a b = Lt -> memcmp b c = Lt -> memcmp a c = Lt.
Proof.
  revert b c. induction a as [|x a IH]; intros [|y b] [|z c]; simpl; try done.
  destruct (Z.compare_spec x y), (Z.compare_spec y z), (Z.compare_spec x z);
    subst; try done; try lia. apply IH.
Qed.

(** ** Little and big endian integers *)

(** [n] bytes, least significant first: the loops [(uint8_t)(v >> 8 * i)]. *)
Fixpoint le_bytes (n : nat) (v : Z) : bytes :=
  match n with
  | O => []
  | S n => u8 v :: le_bytes n (v / 256)
  end.

Fixpoint le_value (l : bytes) : Z :=
  match l with
  | [] => 0
  | b :: l => b + 256 * le_value l
  end.

Lemma le_bytes_length n v : length (le_bytes n v) = n.
Proof. revert v. induction n; intros; simpl; auto. Qed.

Lemma le_bytes_are_bytes n v : are_bytes (le_bytes n v).
Proof.
  revert v. induction n; intros; simpl; constructor; [apply u8_bound|apply IHn].
Qed.

Lemma le_value_bytes n v : le_value (le_bytes n v) = v mod 2 ^ (8 * Z.of_nat n).
Proof.
  revert v. induction n as [|n IH]; intros v.
  - simpl. by rewrite Z.mod_1_r.
  - cbn [le_bytes le_value]. rewrite IH. unfold u8. change (2 ^ 8) with 256.
    replace (2 ^ (8 * Z.of_nat (S n))) with (256 * 2 ^ (8 * Z.of_nat n)).
    + rewrite Z.rem_mul_r by lia. done.
    + replace (8 * Z.of_nat (S n)) with (8 + 8 * Z.of_nat n) by lia.
      by rewrite Z.pow_add_r by lia.
Qed.

Lemma le_value_bound l : are_bytes l -> 0 <= le_value l < 2 ^ (8 * Z.of_nat (length l)).
Proof.
  induction 1 as [|b l Hb Hl IH]; [done|].
  cbn [le_value length]. replace (8 * Z.of_nat (S (length l))) with (8 + 8 * Z.of_nat (length l)) by lia.
  rewrite Z.pow_add_r by lia. change (2 ^ 8) with 256. unfold is_byte in *. lia.
Qed.

Lemma le_bytes_value l : are_bytes l -> le_bytes (length l) (le_value l) = l.
Proof.
  induction 1 as [|b l Hb Hl IH]; [done|]. unfold is_byte in *. simpl. f_equal.
  - unfold u8. change (2 ^ 8) with 256. rewrite Z.mul_comm, Z.mod_add by lia.
    rewrite Z.mod_small; lia.
  - rewrite Z.mul_comm, Z.div_add by lia. rewrite Z.div_small by lia. exact IH.
Qed.

(** Most significant first: [v = v << 8 | b] over the bytes. *)
Definition be_value (l : bytes) : Z := fold_left (fun v b => v * 256 + b) l 0.
Definition be_bytes (n : nat) (v : Z) : bytes := rev (le_bytes n v).

Lemma be_value_rev l : be_value l = le_value (rev l).
Proof.
  unfold be_value. rewrite <- fold_left_rev_right. generalize (rev l). clear l.
  induction l as [|b l IH]; [done|]. simpl. rewrite IH. lia.
Qed.

Lemma be_value_bytes n v : be_value (be_bytes n v) = v mod 2 ^ (8 * Z.of_nat n).
Proof. unfold be_bytes. rewrite be_value_rev, rev_involutive. apply le_value_bytes. Qed.

Lemma be_bytes_length n v : length (be_bytes n v) = n.
Proof. unfold be_bytes. by rewrite length_rev, le_bytes_length. Qed.

Lemma le_bytes_mod n w : le_bytes n (w mod 2 ^ (8 * Z.of_nat n)) = le_bytes n w.
Proof.
  revert w. induction n as [|n IH]; intros w; [done|]. cbn [le_bytes].
  replace (2 ^ (8 * Z.of_nat (S n))) with (256 * 2 ^ (8 * Z.of_nat n))
    by (replace (8 * Z.of_nat (S n)) with (8 + 8 * Z.of_nat n) by lia;
        by rewrite Z.pow_add_r by lia).
  f_equal.
  - unfold u8. rewrite Z.mod_mod_divide; [done|]. exists (2 ^ (8 * Z.of_nat n)). lia.
  - rewrite <- (IH (w / 256)). f_equal.
    pose proof (Z.pow_pos_nonneg 2 (8 * Z.of_nat n)).
    rewrite Z.rem_mul_r by lia. rewrite (Z.mul_comm 256), Z.div_add by lia.
    rewrite Z.div_small by (apply Z.mod_pos_bound; lia). lia.
Qed.

Lemma be_bytes_u64 v : be_bytes 8 (u64 v) = be_bytes 8 v.
Proof. unfold be_bytes. f_equal. apply (le_bytes_mod 8). Qed.

(** ** Characters (the C locale) *)
Definition islower (c : Z) : bool := (97 <=? c) && (c <=? 122).
Definition isupper (c : Z) : bool := (65 <=? c) && (c <=? 90).
Definition isdigit (c : Z) : bool := (48 <=? c) && (c <=? 57).
Definition isspace (c : Z) : bool := (c =? 32) || ((9 <=? c) && (c <=? 13)).
Definition tolower (c : Z) : Z := if isupper c then c + 32 else c.

(** A lower-case hex digit, and bytes in hex as [%02x] prints them. *)
Definition hexdigit (n : Z) : Z := if n <? 10 then 48 + n else 87 + n.
Definition hex_of (l : bytes) : bytes := l ≫= fun b => [hexdigit (b / 16); hexdigit (b mod 16)].

(** The C string a buffer of [cap] bytes holds after [snprintf(buf, cap, "%s", s)]. *)
Definition strcap (cap : nat) (s : bytes) : bytes := take (cap - 1) s.

(** [%u] / [%d]: decimal digits; 20 of them are enough for 64 bits. *)
Fixpoint digits (fuel : nat) (v : Z) (acc : bytes) : bytes :=
  match fuel with
  | O => acc
  | S fuel => let acc := (48 + v mod 10) :: acc in
              if v / 10 =? 0 then acc else digits fuel (v / 10) acc
  end.
Definition dec (v : Z) : bytes :=
  if v <? 0 then 45 :: digits 20 (- v) [] else digits 20 v [].
