(* ===== verification/Hash.v ===== *)
(** * Digests and base64 (hash.c)
    SHA-256 as a streaming context, HMAC-SHA-256, one-shot SHA-1, and base64 in
    both alphabets.  The digests are related to the padded-message definition of
    FIPS 180-4: [sha256_spec] and [sha1_spec] split the whole padded message into
    64-byte blocks, which the code never holds. *)
From S2P Require Import Prelude Cbits.

(** ** 32-bit words *)
Definition ROL (x n : Z) : Z := u32 (Z.lor (Z.shiftl x n) (Z.shiftr x (32 - n))).
Definition ROR (x n : Z) : Z := u32 (Z.lor (Z.shiftr x n) (Z.shiftl x (32 - n))).
Definition not32 (x : Z) : Z := u32 (Z.lnot x).

(** [p[4i] << 24 | p[4i+1] << 16 | p[4i+2] << 8 | p[4i+3]] *)
Definition word_be (p : bytes) (i : nat) : Z :=
  Z.lor (Z.lor (Z.lor (Z.shiftl (p !!! (4 * i)%nat) 24) (Z.shiftl (p !!! (4 * i + 1)%nat) 16))
               (Z.shiftl (p !!! (4 * i + 2)%nat) 8)) (p !!! (4 * i + 3)%nat).

(** A message of [n] whole blocks, cut into them. *)
Fixpoint blocks (n : nat) (m : bytes) : list bytes :=
  match n with
  | O => []
  | S n => take 64 m :: blocks n (drop 64 m)
  end.
Definition blocks_of (m : bytes) : list bytes := blocks (length m / 64) m.

Lemma blocks_of_short m : (length m < 64)%nat -> blocks_of m = [].
Proof. intros H. unfold blocks_of. by rewrite Nat.div_small. Qed.

Lemma blocks_app q a b :
  length a = (64 * q)%nat -> blocks (q + length b / 64) (a ++ b) = blocks q a ++ blocks_of b.
Proof.
  revert a. induction q as [|q IH]; intros a Ha; simpl.
  - destruct a; [done|simpl in Ha; lia].
  - rewrite take_app_le, drop_app_le by lia. f_equal. apply IH.
    rewrite length_drop. lia.
Qed.

Lemma blocks_of_app q a b :
  length a = (64 * q)%nat -> blocks_of (a ++ b) = blocks_of a ++ blocks_of b.
Proof.
  intros Ha. unfold blocks_of at 1 2. rewrite length_app, Ha.
  rewrite (Nat.mul_comm 64 q), Nat.div_add_l, Nat.div_mul by lia.
  by apply blocks_app.
Qed.

Lemma blocks_of_one b : length b = 64%nat -> blocks_of b = [b].
Proof. intros H. unfold blocks_of. rewrite H. simpl. by rewrite take_ge by lia. Qed.

Module Sha256.

(** The first 32 bits of the fractional parts of the cube roots of the first 64
    primes, in decimal (the source writes them in hexadecimal). *)
Definition K256 : list Z := [
  1116352408; 1899447441; 3049323471; 3921009573; 961987163; 1508970993; 2453635748; 2870763221;
  3624381080; 310598401; 607225278; 1426881987; 1925078388; 2162078206; 2614888103; 3248222580;
  3835390401; 4022224774; 264347078; 604807628; 770255983; 1249150122; 1555081692; 1996064986;
  2554220882; 2821834349; 2952996808; 3210313671; 3336571891; 3584528711; 113926993; 338241895;
  666307205; 773529912; 1294757372; 1396182291; 1695183700; 1986661051; 2177026350; 2456956037;
  2730485921; 2820302411; 3259730800; 3345764771; 3516065817; 3600352804; 4094571909; 275423344;
  430227734; 506948616; 659060556; 883997877; 958139571; 1322822218; 1537002063; 1747873779;
  1955562222; 2024104815; 2227730452; 2361852424; 2428436474; 2756734187; 3204031479; 3329325298 ].

(** The square roots' of the first 8 *)
Definition iv : list Z := [1779033703; 3144134277; 1013904242; 2773480762; 1359893119; 2600822924; 528734635; 1541459225].

(** [struct sha256]: [buf] holds the bytes [buf[0..n)] of the C buffer, so [n] is
    its length. *)
Record sha256 := mk_sha256 { c_h : list Z; c_len : Z; c_buf : bytes }.

(** The message schedule: [w] grows from 16 to 64 words. *)
Definition extend_w (w : list Z) (i : nat) : list Z :=
  let w15 := w !!! (i - 15)%nat in
  let w2 := w !!! (i - 2)%nat in
  let s0 := Z.lxor (Z.lxor (ROR w15 7) (ROR w15 18)) (Z.shiftr w15 3) in
  let s1 := Z.lxor (Z.lxor (ROR w2 17) (ROR w2 19)) (Z.shiftr w2 10) in
  w ++ [u32 (w !!! (i - 16)%nat + s0 + w !!! (i - 7)%nat + s1)].

Definition round (s : list Z) (kw : Z * Z) : list Z :=
  match s with
  | [s0; s1; s2; s3; s4; s5; s6; s7] =>
      let S1 := Z.lxor (Z.lxor (ROR s4 6) (ROR s4 11)) (ROR s4 25) in
      let ch := Z.lxor (Z.land s4 s5) (Z.land (not32 s4) s6) in
      let t1 := u32 (s7 + S1 + ch + fst kw + snd kw) in
      let S0 := Z.lxor (Z.lxor (ROR s0 2) (ROR s0 13)) (ROR s0 22) in
      let maj := Z.lxor (Z.lxor (Z.land s0 s1) (Z.land s0 s2)) (Z.land s1 s2) in
      [u32 (t1 + S0 + maj); s0; s1; s2; u32 (s3 + t1); s4; s5; s6]
  | _ => s
  end.

Definition sha256_block (h : list Z) (p : bytes) : list Z :=
  let w := fold_left extend_w (seq 16 48) (map (word_be p) (seq 0 16)) in
  let s := fold_left round (zip K256 w) h in
  zip_with (fun a b => u32 (a + b)) h s.

Definition sha256_init : sha256 := mk_sha256 iv 0 [].

(** The [while (len)] loop; [fuel] bounds its iterations, each of which takes at
    least one byte. *)
Fixpoint update_loop (fuel : nat) (c : sha256) (p : bytes) : sha256 :=
  match fuel with
  | O => c
  | S fuel =>
      if decide (p = []) then c else
      let k := Nat.min (64 - length (c_buf c)) (length p) in
      let buf := c_buf c ++ take k p in
      let c := if (length buf =? 64)%nat
               then mk_sha256 (sha256_block (c_h c) buf) (c_len c) []
               else mk_sha256 (c_h c) (c_len c) buf in
      update_loop fuel c (drop k p)
  end.

Definition sha256_update (c : sha256) (data : bytes) : sha256 :=
  update_loop (S (length data))
    (mk_sha256 (c_h c) (u64 (c_len c + Z.of_nat (length data))) (c_buf c)) data.

Definition word_bytes (x : Z) : bytes :=
  [u8 (Z.shiftr x 24); u8 (Z.shiftr x 16); u8 (Z.shiftr x 8); u8 x].

Definition sha256_final (c : sha256) : bytes :=
  let bits := u64 (c_len c * 8) in
  let n := length (c_buf c) in
  let pad := 0x80 :: replicate 71 0 in
  let padlen := ((if (n <? 56)%nat then 56 else 120) - n)%nat in
  let lenb := map (fun i => u8 (Z.shiftr bits (56 - 8 * Z.of_nat i))) (seq 0 8) in
  let c := sha256_update (sha256_update c (take padlen pad)) lenb in
  c_h c ≫= word_bytes.

Definition sha256_of (data : bytes) : bytes := sha256_final (sha256_update sha256_init data).

Definition hmac_sha256 (key a b : bytes) : bytes :=
  let k0 := if (64 <? length key)%nat then sha256_of key else key in
  let k := k0 ++ replicate (64 - length k0) 0 in
  let pad := map (fun x => Z.lxor x 0x36) k in
  let c := sha256_update (sha256_update sha256_init pad) a in
  let c := if decide (b = []) then c else sha256_update c b in
  let inner := sha256_final c in
  let pad := map (fun x => Z.lxor x 0x5c) k in
  sha256_final (sha256_update (sha256_update sha256_init pad) inner).

(** ** The specification: FIPS 180-4 on the whole padded message *)
Definition pad_len (n : nat) : nat :=                      (* zero bytes after 0x80 *)
  ((if (n mod 64 <? 56)%nat then 55 else 119) - n mod 64)%nat.
Definition padded (m : bytes) : bytes :=
  m ++ [0x80] ++ replicate (pad_len (length m)) 0 ++ be_bytes 8 (8 * Z.of_nat (length m)).
Definition sha256_spec (m : bytes) : bytes :=
  fold_left sha256_block (blocks_of (padded m)) iv ≫= word_bytes.
(** RFC 2104 with SHA-256 for keys already cut to one block *)
Definition hmac_spec (key m : bytes) : bytes :=
  let k0 := if (64 <? length key)%nat then sha256_spec key else key in
  let k := k0 ++ replicate (64 - length k0) 0 in
  sha256_spec (map (fun x => Z.lxor x 0x5c) k ++
               sha256_spec (map (fun x => Z.lxor x 0x36) k ++ m)).

(** The context after the message [m]: the whole blocks compressed, the rest held. *)
Definition absorbed (m : bytes) (c : sha256) : Prop :=
  exists a q, length a = (64 * q)%nat /\ m = a ++ c_buf c /\ (length (c_buf c) < 64)%nat /\
    c_h c = fold_left sha256_block (blocks_of a) iv /\ c_len c = u64 (Z.of_nat (length m)).

Lemma absorbed_init : absorbed [] sha256_init.
Proof. exists [], 0%nat. split_and!; done || simpl; lia. Qed.

(** The loop with [len] already set: the part of the invariant it maintains. *)
Lemma update_loop_absorbed fuel c m p :
  (length p < fuel)%nat ->
  (exists a q, length a = (64 * q)%nat /\ m = a ++ c_buf c /\ (length (c_buf c) < 64)%nat /\
    c_h c = fold_left sha256_block (blocks_of a) iv) ->
  c_len c = u64 (Z.of_nat (length (m ++ p))) ->
  absorbed (m ++ p) (update_loop fuel c p).
Proof.
  revert c m p. induction fuel as [|fuel IH]; intros c m p Hf; [lia|].
  intros (a & q & Ha & Hm & Hb & Hh) Hl. cbn [update_loop].
  destruct (decide (p = [])) as [->|Hp].
  { rewrite app_nil_r in *. exists a, q. done. }
  set (k := Nat.min _ _).
  assert (0 < length p)%nat by (destruct p; [done|simpl; lia]).
  assert (0 < k <= length p)%nat as Hk by lia.
  assert (length (c_buf c ++ take k p) = (length (c_buf c) + k)%nat) as Hbl
    by (rewrite length_app, length_take; lia).
  replace (m ++ p) with ((m ++ take k p) ++ drop k p) in * by (by rewrite <- app_assoc, take_drop).
  apply IH.
  - rewrite length_drop. lia.
  - destruct (Nat.eqb_spec (length (c_buf c ++ take k p)) 64) as [He|Hne]; cbn [c_h c_buf].
    + exists (a ++ (c_buf c ++ take k p)), (S q).
      rewrite (blocks_of_app q), fold_left_app, blocks_of_one by done.
      rewrite length_app, He, app_nil_r, Hm, app_assoc, Hh. split_and!; simpl; try done; lia.
    + exists a, q. rewrite Hm, <- app_assoc. split_and!; try done. lia.
  - case_match; done.
Qed.

Lemma sha256_update_absorbed m c d :
  absorbed m c -> absorbed (m ++ d) (sha256_update c d).
Proof.
  intros (a & q & Ha & Hm & Hb & Hh & Hl). unfold sha256_update.
  apply update_loop_absorbed; [lia|by exists a, q|].
  cbn [c_len]. rewrite Hl, length_app, Nat2Z.inj_add. unfold u64.
  by rewrite Z.add_mod_idemp_l.
Qed.

Lemma absorbed_whole m c q :
  absorbed m c -> length m = (64 * q)%nat -> c_h c = fold_left sha256_block (blocks_of m) iv.
Proof.
  intros (a & q' & Ha & Hm & Hb & Hh & _) Hq. rewrite Hh. rewrite Hm in *.
  rewrite length_app in Hq. destruct (c_buf c); [by rewrite app_nil_r|].
  simpl in *. lia.
Qed.

Lemma lenb_be v :
  map (fun i => u8 (Z.shiftr v (56 - 8 * Z.of_nat i))) (seq 0 8) = be_bytes 8 v.
Proof.
  unfold be_bytes. cbn [seq map le_bytes rev app].
  repeat rewrite Z.div_div by lia.
  repeat (rewrite Z.shiftr_div_pow2 by lia). simpl Z.sub.
  change (Z.pow_pos 2 56) with (2 ^ 56). rewrite Z.div_1_r. done.
Qed.

Lemma pad_mult n :
  exists q, (n + (1 + (pad_len n + 8)) = 64 * q)%nat.
Proof.
  unfold pad_len. pose proof (Nat.mod_upper_bound n 64). pose proof (Nat.div_mod_eq n 64).
  destruct (Nat.ltb_spec (n mod 64) 56); [exists (S (n / 64))|exists (S (S (n / 64)))]; lia.
Qed.

Lemma sha256_final_absorbed m c : absorbed m c -> sha256_final c = sha256_spec m.
Proof.
  intros Hc. unfold sha256_final, sha256_spec. cbv zeta. f_equal.
  rewrite lenb_be.
  set (padlen := (_ - length (c_buf c))%nat).
  assert (length (c_buf c) = (length m mod 64)%nat) as Hn.
  { destruct Hc as (a & q & Ha & -> & Hb & _). rewrite length_app, Ha.
    rewrite Nat.add_comm, Nat.mul_comm, Nat.Div0.mod_add. by rewrite Nat.mod_small. }
  assert (take padlen (0x80 :: replicate 71 0) = [0x80] ++ replicate (pad_len (length m)) 0) as ->.
  { unfold padlen, pad_len. rewrite Hn.
    pose proof (Nat.mod_upper_bound (length m) 64).
    destruct (Nat.ltb_spec (length m mod 64) 56).
    - replace (56 - length m mod 64)%nat with (S (55 - length m mod 64)) by lia.
      rewrite firstn_cons, take_replicate. cbn [app]. do 2 f_equal. lia.
    - replace (120 - length m mod 64)%nat with (S (119 - length m mod 64)) by lia.
      rewrite firstn_cons, take_replicate. cbn [app]. do 2 f_equal. lia. }
  assert (be_bytes 8 (u64 (c_len c * 8)) = be_bytes 8 (8 * Z.of_nat (length m))) as ->.
  { destruct Hc as (_ & _ & _ & _ & _ & _ & ->). unfold u64 at 2.
    rewrite <- (be_bytes_u64 (8 * _)). unfold u64. rewrite Z.mul_mod_idemp_l by lia.
    do 2 f_equal. lia. }
  destruct (pad_mult (length m)) as [q Hq].
  erewrite absorbed_whole; [|do 2 apply sha256_update_absorbed; exact Hc|].
  - unfold padded. by rewrite <- !app_assoc.
  - rewrite !length_app, length_replicate, be_bytes_length. instantiate (1 := q). simpl in *. lia.
Qed.

Lemma updates_absorbed chunks m c :
  absorbed m c -> absorbed (m ++ concat chunks) (fold_left sha256_update chunks c).
Proof.
  revert m c. induction chunks as [|d ds IH]; intros m c Hc; simpl.
  - by rewrite app_nil_r.
  - rewrite app_assoc. apply IH. by apply sha256_update_absorbed.
Qed.

Lemma sha256_of_spec m : sha256_of m = sha256_spec m.
Proof.
  apply (sha256_final_absorbed ([] ++ m)), sha256_update_absorbed, absorbed_init.
Qed.

Lemma stream2 x y :
  sha256_final (sha256_update (sha256_update sha256_init x) y) = sha256_of (x ++ y).
Proof.
  rewrite sha256_of_spec. apply (sha256_final_absorbed (([] ++ x) ++ y)).
  do 2 apply sha256_update_absorbed. apply absorbed_init.
Qed.

Lemma stream3 x y z :
  sha256_final (sha256_update (sha256_update (sha256_update sha256_init x) y) z) =
  sha256_of ((x ++ y) ++ z).
Proof.
  rewrite sha256_of_spec. apply (sha256_final_absorbed ((([] ++ x) ++ y) ++ z)).
  do 3 apply sha256_update_absorbed. apply absorbed_init.
Qed.

Example sha256_abc :
  hex_of (sha256_of (str "abc")) =
  str "ba7816bf8f01cfea414140de5dae2223b00361a396177a9cb410ff61f20015ad".
Proof. vm_compute. reflexivity. Qed.

(** However a message is cut into calls of [sha256_update], the digest is
    that of FIPS 180-4 on the whole padded message: buffering across calls, the
    block boundary and both padding lengths are right. *)
Theorem sha256_stream_correct (chunks : list bytes) :
  sha256_final (fold_left sha256_update chunks sha256_init) = sha256_spec (concat chunks).
Proof.
  apply (sha256_final_absorbed ([] ++ concat chunks)), updates_absorbed, absorbed_init.
Qed.

(** [hmac_sha256 key a b] is RFC 2104's HMAC of [a ++ b], for keys shorter
    and longer than a block. *)
Theorem hmac_sha256_correct (key a b : bytes) :
  hmac_sha256 key a b = hmac_spec key (a ++ b).
Proof.
  unfold hmac_sha256, hmac_spec. rewrite <- sha256_of_spec.
  set (k := _ ++ replicate _ 0). rewrite <- !sha256_of_spec.
  set (ip := map (fun x => Z.lxor x 54) k). set (op := map (fun x => Z.lxor x 92) k).
  case_decide; subst.
  - by rewrite !stream2, app_nil_r.
  - by rewrite stream3, stream2, app_assoc.
Qed.

End Sha256.

Module Sha1.

Definition iv : list Z := [0x67452301; 0xefcdab89; 0x98badcfe; 0x10325476; 0xc3d2e1f0].

Definition extend_w (w : list Z) (i : nat) : list Z :=
  w ++ [ROL (Z.lxor (Z.lxor (Z.lxor (w !!! (i - 3)%nat) (w !!! (i - 8)%nat))
                            (w !!! (i - 14)%nat)) (w !!! (i - 16)%nat)) 1].

Definition fk (i : nat) (bb c d : Z) : Z * Z :=
  if (i <? 20)%nat then (Z.lor (Z.land bb c) (Z.land (not32 bb) d), 0x5a827999)
  else if (i <? 40)%nat then (Z.lxor (Z.lxor bb c) d, 0x6ed9eba1)
  else if (i <? 60)%nat
       then (Z.lor (Z.lor (Z.land bb c) (Z.land bb d)) (Z.land c d), 0x8f1bbcdc)
  else (Z.lxor (Z.lxor bb c) d, 0xca62c1d6).

Definition round (s : list Z) (iw : nat * Z) : list Z :=
  match s with
  | [a; bb; c; d; e] =>
      let '(f, k) := fk (fst iw) bb c d in
      [u32 (ROL a 5 + f + e + k + snd iw); a; ROL bb 30; c; d]
  | _ => s
  end.

(** the body of the loop over the blocks *)
Definition block (h : list Z) (b : bytes) : list Z :=
  let w := fold_left extend_w (seq 16 64) (map (word_be b) (seq 0 16)) in
  let s := fold_left round (zip (seq 0 80) w) h in
  zip_with (fun x y => u32 (x + y)) h s.

(** [tail]: the last bytes, 0x80, zeros and the length in bits, [tl] bytes of the
    128-byte buffer (the loop over [i] writes the length from the end). *)
Definition tail (data : bytes) : bytes :=
  let full := (length data / 64 * 64)%nat in
  let rest := (length data - full)%nat in
  let tl := (if (rest <? 56)%nat then 64 else 128)%nat in
  let t := take 128 (drop full data ++ [0x80] ++ replicate 128 0) in
  take (tl - 8) t ++ map (fun i => u8 (Z.shiftr (u64 (Z.of_nat (length data) * 8)) (8 * Z.of_nat (7 - i)%nat))) (seq 0 8).

(** [b = off < full ? p + off : tail + (off - full)] for each block in turn *)
Definition sha1 (data : bytes) : bytes :=
  let full := (length data / 64 * 64)%nat in
  let rest := (length data - full)%nat in
  let tl := (if (rest <? 56)%nat then 64 else 128)%nat in
  let at_ off := if (off <? full)%nat then take 64 (drop off data)
                 else take 64 (drop (off - full) (tail data)) in
  let h := fold_left (fun h i => block h (at_ (64 * i)%nat)) (seq 0 ((full + tl) / 64)) iv in
  h ≫= Sha256.word_bytes.

(** FIPS 180-4, with the padding SHA-256 shares *)
Definition sha1_spec (m : bytes) : bytes :=
  fold_left block (blocks_of (Sha256.padded m)) iv ≫= Sha256.word_bytes.

Lemma blocks_map n m : blocks n m = map (fun i => take 64 (drop (64 * i) m)) (seq 0 n).
Proof.
  revert m. induction n as [|n IH]; intros m; [done|].
  cbn [blocks seq map]. rewrite Nat.mul_0_r, drop_0. f_equal.
  rewrite IH, <- seq_shift, map_map. apply map_ext. intros i.
  rewrite drop_drop. do 2 f_equal. lia.
Qed.

Lemma tail_spec data :
  take (length data / 64 * 64) data ++ tail data = Sha256.padded data.
Proof.
  unfold tail, Sha256.padded, Sha256.pad_len. cbv zeta.
  pose proof (Nat.div_mod_eq (length data) 64) as Hdm.
  pose proof (Nat.mod_upper_bound (length data) 64) as Hr.
  set (full := (length data / 64 * 64)%nat) in *.
  replace (length data - full)%nat with (length data mod 64)%nat by lia.
  set (r := (length data mod 64)%nat) in *. set (lenb := map _ _).
  assert (lenb = be_bytes 8 (8 * Z.of_nat (length data))) as ->.
  { unfold lenb. rewrite <- be_bytes_u64, <- Sha256.lenb_be, (Z.mul_comm 8). apply map_ext_in.
    intros i Hi%in_seq. do 2 f_equal. lia. }
  set (Q := [128] ++ replicate _ 0 ++ be_bytes _ _).
  replace (data ++ Q) with (take full data ++ (drop full data ++ Q))
    by (by rewrite app_assoc, take_drop).
  subst Q. f_equal.
  rewrite take_take.
  assert (length (drop full data) = r) as Hd by (rewrite length_drop; lia).
  rewrite take_app, Hd.
  rewrite (take_ge (drop full data)) by (rewrite Hd; destruct (Nat.ltb_spec r 56); lia).
  rewrite <- app_assoc.
  f_equal. cbn [app].
  destruct (Nat.ltb_spec r 56).
  - replace (Nat.min (64 - 8) 128 - r)%nat with (S (55 - r)) by lia.
    rewrite firstn_cons, take_replicate. cbn [app]. do 3 f_equal. lia.
  - replace (Nat.min (128 - 8) 128 - r)%nat with (S (119 - r)) by lia.
    rewrite firstn_cons, take_replicate. cbn [app]. do 3 f_equal. lia.
Qed.

Lemma fold_left_map {A B C} (f : A -> B -> A) (g : C -> B) l a :
  fold_left f (map g l) a = fold_left (fun a c => f a (g c)) l a.
Proof. revert a. induction l as [|c l IH]; intros a; simpl; auto. Qed.

Lemma fold_left_ext_in {A B} (f g : A -> B -> A) l a :
  (forall a b, In b l -> f a b = g a b) -> fold_left f l a = fold_left g l a.
Proof.
  revert a. induction l as [|b l IH]; intros a H; simpl; [done|].
  rewrite H by by left. apply IH. intros. apply H. by right.
Qed.

(** The one-shot digest, which never copies the whole message, is SHA-1 of
    FIPS 180-4 on the padded message. *)
Theorem sha1_correct (m : bytes) : sha1 m = sha1_spec m.
Proof.
  unfold sha1, sha1_spec. cbv zeta. f_equal.
  pose proof (Nat.div_mod_eq (length m) 64). pose proof (Nat.mod_upper_bound (length m) 64).
  unfold blocks_of. rewrite blocks_map, fold_left_map, <- tail_spec.
  set (full := (length m / 64 * 64)%nat) in *.
  set (tl := (if (length m - full <? 56)%nat then 64 else 128)%nat).
  assert (length (tail m) = tl) as Htl.
  { pose proof (f_equal length (tail_spec m)) as Hl. revert Hl. fold full. unfold Sha256.padded.
    rewrite !length_app, length_take, length_replicate, be_bytes_length. unfold Sha256.pad_len.
    replace (length m mod 64)%nat with (length m - full)%nat by lia.
    unfold tl. cbn [length]. destruct (Nat.ltb_spec (length m - full) 56); lia. }
  rewrite length_app, length_take, Htl, (Nat.min_l full) by lia.
  apply fold_left_ext_in. intros h i Hi%in_seq. f_equal.
  assert (exists q, (full + tl = 64 * q)%nat) as [q Hq].
  { unfold tl, full. case_match; [exists (S (length m / 64))|exists (S (S (length m / 64)))]; lia. }
  rewrite Hq, (Nat.mul_comm 64 q), Nat.div_mul in Hi by lia.
  destruct (Nat.ltb_spec (64 * i) full).
  - assert (64 * i + 64 <= full)%nat by (unfold full in *; lia).
    rewrite drop_app_le, take_app_le by (rewrite ?length_drop, ?length_take; lia).
    rewrite !take_drop_commute, take_take. by rewrite Nat.min_l by lia.
  - rewrite drop_app_ge, length_take, (Nat.min_l full) by (rewrite ?length_take; lia). done.
Qed.

Example sha1_abc :
  hex_of (sha1 (str "abc")) = str "a9993e364706816aba3e25717850c26c9cd0d89d".
Proof. vm_compute. reflexivity. Qed.

End Sha1.

Module Base64.

Definition B64 : bytes := str "ABCDEFGHIJKLMNOPQRSTUVWXYZabcdefghijklmnopqrstuvwxyz0123456789+/".
Definition B64URL : bytes := str "ABCDEFGHIJKLMNOPQRSTUVWXYZabcdefghijklmnopqrstuvwxyz0123456789-_".

Definition pad_char (pad : bool) : bytes := if pad then str "=" else [].

Fixpoint encode_loop (abc : bytes) (pad : bool) (p : bytes) : bytes :=
  let c (v : Z) : Z := abc !!! Z.to_nat v in
  match p with
  | [] => []
  | [p0] =>
      let v := Z.shiftl p0 16 in
      [c (Z.shiftr v 18); c (Z.land (Z.shiftr v 12) 63)] ++ pad_char pad ++ pad_char pad
  | [p0; p1] =>
      let v := Z.lor (Z.shiftl p0 16) (Z.shiftl p1 8) in
      [c (Z.shiftr v 18); c (Z.land (Z.shiftr v 12) 63); c (Z.land (Z.shiftr v 6) 63)] ++ pad_char pad
  | p0 :: p1 :: p2 :: p =>
      let v := Z.lor (Z.lor (Z.shiftl p0 16) (Z.shiftl p1 8)) p2 in
      [c (Z.shiftr v 18); c (Z.land (Z.shiftr v 12) 63); c (Z.land (Z.shiftr v 6) 63); c (Z.land v 63)]
        ++ encode_loop abc pad p
  end.
Definition b64_encode (data : bytes) (url pad : bool) : bytes :=
  encode_loop (if url then B64URL else B64) pad data.

Definition b64_value (ch : Z) : option Z :=
  if (65 <=? ch) && (ch <=? 90) then Some (ch - 65)
  else if (97 <=? ch) && (ch <=? 122) then Some (ch - 97 + 26)
  else if (48 <=? ch) && (ch <=? 57) then Some (ch - 48 + 52)
  else if (ch =? 43) || (ch =? 45) then Some 62
  else if (ch =? 47) || (ch =? 95) then Some 63
  else None.

(** [acc], [bits] and the bytes written so far; [None] is the code's -1. *)
Fixpoint decode_loop (cap : nat) (acc bits : Z) (out : bytes) (s : bytes) : option bytes :=
  match s with
  | [] => Some out
  | ch :: s =>
      if ch =? 61 then Some out else
      match b64_value ch with
      | None => None
      | Some v =>
          let acc := u32 (Z.lor (Z.shiftl acc 6) v) in
          let bits := bits + 6 in
          if 8 <=? bits then
            let bits := bits - 8 in
            if (cap <=? length out)%nat then None
            else decode_loop cap acc bits (out ++ [Z.land (Z.shiftr acc bits) 0xff]) s
          else decode_loop cap acc bits out s
      end
  end.
Definition b64_decode (s : bytes) (cap : nat) : option bytes := decode_loop cap 0 0 [] s.

Definition alphabet (url : bool) : bytes := if url then B64URL else B64.

Lemma alphabet_value url v :
  0 <= v < 64 ->
  b64_value (alphabet url !!! Z.to_nat v) = Some v /\ (alphabet url !!! Z.to_nat v =? 61) = false.
Proof.
  intros Hv.
  assert (forallb (fun n => bool_decide (b64_value (alphabet url !!! n) = Some (Z.of_nat n)) &&
                    negb (alphabet url !!! n =? 61)) (seq 0 64) = true) as H
    by (destruct url; vm_compute; reflexivity).
  rewrite forallb_forall in H. specialize (H (Z.to_nat v)).
  rewrite in_seq in H. specialize (H ltac:(lia)). bsimp.
  rewrite Z2Nat.id in H by lia. split; [done|by apply Z.eqb_neq].
Qed.

(** One sextet in: [acc] stays a 32-bit word whose low bits are the sextets read. *)
Lemma acc_step acc v :
  0 <= v < 64 -> u32 (Z.lor (Z.shiftl acc 6) v) = (64 * acc + v) mod 2 ^ 32.
Proof. intros Hv. unfold u32. rewrite lor_shiftl_add by lia. f_equal. lia. Qed.

Lemma decode_char cap acc bits out url v s :
  0 <= v < 64 ->
  decode_loop cap acc bits out ((alphabet url !!! Z.to_nat v) :: s) =
  let acc := (64 * acc + v) mod 2 ^ 32 in
  if 8 <=? bits + 6 then
    if (cap <=? length out)%nat then None
    else decode_loop cap acc (bits - 2) (out ++ [acc / 2 ^ (bits - 2) mod 256]) s
  else decode_loop cap acc (bits + 6) out s.
Proof.
  intros Hv. cbn [decode_loop]. destruct (alphabet_value url v Hv) as [-> ->].
  rewrite acc_step by done. cbv zeta. destruct (Z.leb_spec 8 (bits + 6)); [|done].
  replace (bits + 6 - 8) with (bits - 2) by lia.
  by rewrite land_255, shiftr_div by lia.
Qed.

Lemma decode_char_hold cap acc bits out url v s :
  0 <= v < 64 -> bits < 2 ->
  decode_loop cap acc bits out ((alphabet url !!! Z.to_nat v) :: s) =
  decode_loop cap ((64 * acc + v) mod 2 ^ 32) (bits + 6) out s.
Proof.
  intros Hv Hb. rewrite decode_char by done. cbv zeta.
  by rewrite (proj2 (Z.leb_gt 8 (bits + 6))) by lia.
Qed.

Lemma decode_char_out cap acc bits out url v s :
  0 <= v < 64 -> 2 <= bits -> (length out < cap)%nat ->
  decode_loop cap acc bits out ((alphabet url !!! Z.to_nat v) :: s) =
  let acc := (64 * acc + v) mod 2 ^ 32 in
  decode_loop cap acc (bits - 2) (out ++ [acc / 2 ^ (bits - 2) mod 256]) s.
Proof.
  intros Hv Hb Hc. rewrite decode_char by done. cbv zeta.
  rewrite (proj2 (Z.leb_le 8 (bits + 6))) by lia.
  by rewrite (proj2 (Nat.leb_gt cap (length out))) by lia.
Qed.

(** The four sextets of a group are numbers below 64. *)
Lemma sextets a b c :
  is_byte a -> is_byte b -> is_byte c ->
  Z.lor (Z.lor (Z.shiftl a 16) (Z.shiftl b 8)) c = 65536 * a + 256 * b + c.
Proof.
  unfold is_byte. intros.
  assert (Z.lor (Z.shiftl a 16) (Z.shiftl b 8) = Z.shiftl (256 * a + b) 8) as ->.
  { replace (Z.shiftl a 16) with (Z.shiftl (Z.shiftl a 8) 8) by (by rewrite Z.shiftl_shiftl by lia).
    rewrite <- Z.shiftl_lor. f_equal. rewrite lor_shiftl_add by lia. lia. }
  rewrite lor_shiftl_add by lia. lia.
Qed.

(** The first two and the third and fourth characters of a group give back its
    bytes from any accumulator: the garbage above the current bits is masked off. *)
Lemma decode_two cap acc out url a r s :
  is_byte a -> 0 <= r < 16 -> (length out < cap)%nat ->
  exists acc', decode_loop cap acc 0 out
    ([alphabet url !!! Z.to_nat (a / 4); alphabet url !!! Z.to_nat (a mod 4 * 16 + r)] ++ s) =
    decode_loop cap acc' 4 (out ++ [a]) s /\ acc' mod 16 = r.
Proof.
  unfold is_byte. intros Ha Hr Hc. cbn [app].
  rewrite decode_char_hold by (Z.div_mod_to_equations; lia).
  rewrite decode_char_out by (Z.div_mod_to_equations; lia). cbv zeta.
  eexists. split; [repeat f_equal|]; simpl (0 + 6 - 2); change (2 ^ 4) with 16;
    Z.div_mod_to_equations; lia.
Qed.

Lemma decode_third cap acc out url b r s :
  is_byte b -> acc mod 16 = b / 16 -> 0 <= r < 4 -> (length out < cap)%nat ->
  exists acc', decode_loop cap acc 4 out ((alphabet url !!! Z.to_nat (b mod 16 * 4 + r)) :: s) =
    decode_loop cap acc' 2 (out ++ [b]) s /\ acc' mod 4 = r.
Proof.
  unfold is_byte. intros Hb Ha Hr Hc.
  rewrite decode_char_out by (Z.div_mod_to_equations; lia). cbv zeta.
  eexists. split; [repeat f_equal|]; simpl (4 - 2); change (2 ^ 2) with 4;
    Z.div_mod_to_equations; lia.
Qed.

Lemma decode_fourth cap acc out url c s :
  is_byte c -> acc mod 4 = c / 64 -> (length out < cap)%nat ->
  exists acc', decode_loop cap acc 2 out ((alphabet url !!! Z.to_nat (c mod 64)) :: s) =
    decode_loop cap acc' 0 (out ++ [c]) s.
Proof.
  unfold is_byte. intros Hb Ha Hc.
  rewrite decode_char_out by (Z.div_mod_to_equations; lia). cbv zeta.
  eexists. repeat f_equal; simpl (2 - 2); rewrite Z.div_1_r; Z.div_mod_to_equations; lia.
Qed.

Lemma sextet_values a b c :
  is_byte a -> is_byte b -> is_byte c ->
  let v := Z.lor (Z.lor (Z.shiftl a 16) (Z.shiftl b 8)) c in
  Z.shiftr v 18 = a / 4 /\ Z.land (Z.shiftr v 12) 63 = a mod 4 * 16 + b / 16 /\
  Z.land (Z.shiftr v 6) 63 = b mod 16 * 4 + c / 64 /\ Z.land v 63 = c mod 64.
Proof.
  intros Ha Hb Hc v. unfold v. rewrite sextets, !land_63, !shiftr_div by (done || lia).
  change (2 ^ 18) with 262144. change (2 ^ 12) with 4096. change (2 ^ 6) with 64.
  unfold is_byte in *. split_and!; Z.div_mod_to_equations; lia.
Qed.

Lemma decode_encode_loop cap acc out url pad p :
  are_bytes p -> (length out + length p <= cap)%nat ->
  decode_loop cap acc 0 out (encode_loop (alphabet url) pad p) = Some (out ++ p).
Proof.
  revert acc out. induction p as [|a|a b|a b c p IH] using list_ind3; intros acc out Hp Hc.
  - simpl. by rewrite app_nil_r.
  - inversion_clear Hp. destruct (sextet_values a 0 0) as (E1 & E2 & _); [done..|].
    rewrite !Z.lor_0_r in *. simpl in Hc. cbn [encode_loop]. cbv zeta. rewrite E1, E2.
    destruct (decode_two cap acc out url a (0 / 16) (pad_char pad ++ pad_char pad))
      as (acc' & -> & _); [done|done|lia|].
    by destruct pad.
  - inversion_clear Hp as [|?? Ha Hp']. inversion_clear Hp' as [|?? Hb _].
    destruct (sextet_values a b 0) as (E1 & E2 & E3 & _); [done..|].
    rewrite !Z.lor_0_r in *. simpl in Hc. cbn [encode_loop]. cbv zeta. rewrite E1, E2, E3.
    unfold is_byte in Hb.
    destruct (decode_two cap acc out url a (b / 16) ([alphabet url !!! Z.to_nat (b mod 16 * 4 + 0 / 64)] ++ pad_char pad))
      as (acc' & Hd & Hr); [done|Z.div_mod_to_equations; lia|lia|].
    etransitivity; [exact Hd|]. cbn [app].
    destruct (decode_third cap acc' (out ++ [a]) url b (0 / 64) (pad_char pad)) as (acc'' & -> & _);
      [done|done|done|rewrite length_app; simpl; lia|].
    rewrite <- app_assoc. by destruct pad.
  - inversion_clear Hp as [|?? Ha Hp']. inversion_clear Hp' as [|?? Hb Hp]. inversion_clear Hp as [|?? Hcc Hp'].
    destruct (sextet_values a b c) as (E1 & E2 & E3 & E4); [done..|].
    simpl in Hc. cbn [encode_loop]. cbv zeta. rewrite E1, E2, E3, E4.
    pose proof Hb as Hb'. pose proof Hcc as Hc'. unfold is_byte in Hb', Hc'.
    set (rest := encode_loop _ _ p).
    destruct (decode_two cap acc out url a (b / 16) ([alphabet url !!! Z.to_nat (b mod 16 * 4 + c / 64);
       alphabet url !!! Z.to_nat (c mod 64)] ++ rest))
      as (acc' & Hd & Hr); [done|Z.div_mod_to_equations; lia|lia|].
    etransitivity; [exact Hd|]. cbn [app].
    destruct (decode_third cap acc' (out ++ [a]) url b (c / 64) ([alphabet url !!! Z.to_nat (c mod 64)] ++ rest))
      as (acc'' & Hd2 & Hr2); [done|done|Z.div_mod_to_equations; lia|rewrite length_app; simpl; lia|].
    etransitivity; [exact Hd2|]. cbn [app].
    destruct (decode_fourth cap acc'' ((out ++ [a]) ++ [b]) url c rest)
      as (acc3 & ->); [done|done|rewrite !length_app; simpl; lia|].
    unfold rest. rewrite IH by (done || (rewrite !length_app; simpl; lia)).
    by rewrite <- !app_assoc.
Qed.

(** Decoding what was encoded gives the bytes back, for either alphabet, with
    or without padding, whenever the output buffer has room for them. *)
Theorem b64_round_trip (data : bytes) (url pad : bool) (cap : nat) :
  are_bytes data -> (length data <= cap)%nat ->
  b64_decode (b64_encode data url pad) cap = Some data.
Proof.
  intros Hd Hc. apply (decode_encode_loop cap 0 [] url pad data Hd). simpl. lia.
Qed.

Lemma b64_round_trip_witness :
  b64_decode (b64_encode (str "any carnal pleas") true false) 16 = Some (str "any carnal pleas").
Proof. apply b64_round_trip; [repeat constructor; done | simpl; lia]. Defined.

End Base64.
