(* ===== verification/Crypto.v ===== *)
(** * What the Echos need of Monocypher and of the kernel's random numbers
    The daemon vendors Monocypher (src/src/third_party/monocypher.c) and reads
    /dev/urandom; both are parameters here.  [Crypto] is the interface of the calls
    the code makes, [CryptoLaws] the documented behaviour the theorems rely on,
    [Entropy] the n-th read of random bytes.  [toy_crypto] and [toy_entropy] are
    concrete instances with the laws proved, for the witnesses; they are not secure
    and nothing is claimed of secrecy. *)
From S2P Require Import Prelude Cbits.

Class Crypto := {
  blake2b : nat -> bytes -> bytes;                      (* hash size, message *)
  blake2b_keyed : nat -> bytes -> bytes -> bytes;       (* hash size, key, message *)
  x25519_public_key : bytes -> bytes;
  x25519 : bytes -> bytes -> bytes;                     (* our secret, their public *)
  (* key, nonce, additional data, plain text: cipher text and MAC *)
  aead_lock : bytes -> bytes -> bytes -> bytes -> bytes * bytes;
  (* MAC, key, nonce, additional data, cipher text: the plain text if the MAC is right *)
  aead_unlock : bytes -> bytes -> bytes -> bytes -> bytes -> option bytes
}.

Class CryptoLaws (C : Crypto) := {
  blake2b_length n m : length (blake2b n m) = n;
  blake2b_keyed_length n k m : length (blake2b_keyed n k m) = n;
  blake2b_keyed_bytes n k m : are_bytes (blake2b_keyed n k m);
  public_key_length s : length (x25519_public_key s) = 32%nat;
  public_key_bytes s : are_bytes (x25519_public_key s);
  (* Diffie-Hellman: both sides compute the same shared secret *)
  x25519_comm a b : x25519 a (x25519_public_key b) = x25519 b (x25519_public_key a);
  aead_lock_length k n ad p :
    length (fst (aead_lock k n ad p)) = length p /\ length (snd (aead_lock k n ad p)) = 16%nat;
  aead_unlock_lock k n ad p :
    let '(c, mac) := aead_lock k n ad p in aead_unlock mac k n ad c = Some p
}.

(** The n-th read of [len] bytes from /dev/urandom ([ws_random]). *)
Class Entropy := {
  entropy : nat -> nat -> bytes;
  entropy_length n len : length (entropy n len) = len;
  entropy_bytes n len : are_bytes (entropy n len);
  (* 8 random bytes are not zero [draw_bound] times in a row *)
  draw_bound : nat;
  entropy_live n : exists k, (k < draw_bound)%nat /\ le_value (entropy (n + k) 8) <> 0
}.

(** ** A concrete instance *)
Module Toy.
Definition mix (m : bytes) : Z := fold_left (fun h b => u64 (h * 1099511628211 + b + 1)) m 14695981039346656037.
Definition digest (n : nat) (m : bytes) : bytes := le_bytes n (mix m * 6364136223846793005 + 1442695040888963407).

(** shared secret: the product of the two public numbers, which commutes *)
Definition num (s : bytes) : Z := le_value s.
Definition pub (s : bytes) : bytes := le_bytes 32 (num s).

Definition xor_pad (k n p : bytes) : bytes :=
  imap (fun i b => Z.lxor b (mix (k ++ n ++ [Z.of_nat i]) mod 256)) p.
Definition mac (k n ad c : bytes) : bytes := digest 16 (k ++ n ++ ad ++ c).

#[export] Instance crypto : Crypto := {
  blake2b n m := digest n m;
  blake2b_keyed n k m := digest n (k ++ m);
  x25519_public_key := pub;
  x25519 a b := le_bytes 32 (num (pub a) * num b);
  aead_lock k n ad p := let c := xor_pad k n p in (c, mac k n ad c);
  aead_unlock m k n ad c :=
    if decide (m = mac k n ad c) then Some (xor_pad k n c) else None
}.

Lemma xor_pad_invol k n p : xor_pad k n (xor_pad k n p) = p.
Proof.
  apply list_eq. intros i. unfold xor_pad. rewrite !list_lookup_imap.
  destruct (p !! i) as [b|]; simpl; [|done].
  by rewrite Z.lxor_assoc, Z.lxor_nilpotent, Z.lxor_0_r.
Qed.

#[export] Instance laws : CryptoLaws crypto.
Proof.
  split; intros.
  - apply le_bytes_length.
  - apply le_bytes_length.
  - apply le_bytes_are_bytes.
  - apply le_bytes_length.
  - apply le_bytes_are_bytes.
  - unfold x25519, x25519_public_key; cbn -[le_bytes num pub]. f_equal. apply Z.mul_comm.
  - split; [apply length_imap|apply le_bytes_length].
  - cbn -[mac xor_pad]. rewrite decide_True by done. by rewrite xor_pad_invol.
Qed.

Definition draw (n len : nat) : bytes := le_bytes len (2 * Z.of_nat n * 81985529216486895 + 1).

Lemma draw_live n : exists k, (k < 1)%nat /\ le_value (draw (n + k) 8) <> 0.
Proof.
  exists 0%nat. split; [lia|]. unfold draw. rewrite le_value_bytes.
  intros H. apply (f_equal (fun x => x mod 2)) in H.
  rewrite Z.mod_mod_divide in H by (exists (2 ^ 63); reflexivity).
  rewrite <- Z.mul_assoc, Z.add_comm, Z.mul_comm, Z.mod_add in H by lia. done.
Qed.

#[export] Instance entropy_ : Entropy := {
  entropy := draw;
  entropy_length n len := le_bytes_length len _;
  entropy_bytes n len := le_bytes_are_bytes len _;
  draw_bound := 1;
  entropy_live := draw_live
}.
End Toy.
