(* ===== verification/ArbState.v ===== *)
(** * Wake word arbitration: constants and state (arb.c, arb.h)
    Every static variable of arb.c that the program reads back is a field of [arb];
    what a handler sends, writes or hands to its caller is appended to [out] in
    order.  Log lines are left out.  Times are the monotonic milliseconds [now_ms]
    returns; a handler gets the one reading it works with as an argument.  The fixed
    arrays are lists of that length; an array filled by a counter (round_.got and
    round_.ngot) is the list of the entries in use. *)
From S2P Require Import Prelude Cbits.

(** ** Constants *)
Definition AUTO_START_MS := 500.
Definition AUTO_MIN_MS := 150.
Definition AUTO_MAX_MS := 1000.
Definition AUTO_MARGIN_MS := 50.
Definition AUTO_LEARN := 10.
Definition AUTO_PEER_MIN := 3.
Definition MEASURE_MS := 1500.
Definition NDELAY := 64.
Definition OBS_KEEP := 64.
Definition RIVAL_DB := 300.
Definition D_NONE := INT_MIN.
Definition D_PRIO := INT_MAX.
Definition COPY_MS : list Z := [30; 80].
Definition LOOKBACK_MS := 1000.
Definition CTR_BLOCK := 4096.
Definition SCAN_N := 12.
Definition NPEER : nat := 16.
Definition NCLAIM : nat := 16.
Definition NLEN : nat := 64.
Definition TLEN : nat := 80.
Definition BLOB : nat := 32 + 24 + 16 + 32.
Definition ARB_MSG_MAX := 160.
Definition NMSG : nat := 8.
Definition T_BEACON := 1.
Definition T_CLAIM := 4.
Definition T_PAIR := 5.
Definition T_GIVE := 6.
Definition T_MSG := 7.
Definition F_QUIET := 1.
Definition F_KIOSK := 2.
Definition F_HELLO := 4.
Definition KIOSK_KEEP_MS := 2000.
Definition KIOSK_GAP_MS := 15.
Definition KIOSK_PHRASE : nat := 64.

(** [PACE]: the network's times, per mille of the real ones *)
Definition PACE (pace ms : Z) : Z := Z.quot (ms * pace) 1000.
Definition BEACON_MIN_MS pace := PACE pace 20000.
Definition BEACON_MAX_MS pace := PACE pace 40000.
Definition LONER_MS pace := PACE pace 10000.
Definition LOOK_MS pace := PACE pace 1200.
Definition PEER_TTL_MS pace := PACE pace 300000.
Definition SAVE_MS pace := PACE pace 60000.
Definition DISCOVER_MS pace := PACE pace 5000.
Definition PUSH_MS pace := PACE pace 30000.
Definition POLL_MS pace := PACE pace 3000.
Definition SCAN_MS pace := PACE pace 10000.
Definition SCAN_SLOW_MS pace := PACE pace 300000.
Definition GIVE_MS pace := PACE pace 5000.
Definition ATTEST_WAIT_MS pace := PACE pace 30000.
Definition PAIR_MS pace := PACE pace 120000.
Definition PAIR_SETTLE_MS pace := PACE pace 2000.

Inductive arb_mode_t := ARB_HASSMIC | ARB_KIOSK.
#[export] Instance arb_mode_eq_dec : EqDecision arb_mode_t.
Proof. solve_decision. Defined.

(** ** Tables *)
Record peer_t := mk_peer {
  p_id : bytes; p_ctr : Z; p_seen : Z; p_node : bytes; p_ip : Z; p_quiet : bool; p_kiosk : bool }.
Record claim_t := mk_claim {
  k_id : bytes; k_kw : bytes; k_score : Z; k_prio : Z; k_won : bool; k_at : Z }.
Record cand_t := mk_cand {
  c_pub : bytes; c_node : bytes; c_net : Z; c_attested : bool; c_tag0 : bytes; c_ip : Z;
  c_seen : Z; c_first : Z; c_pushed : Z; c_gave : Z; c_polled : Z }.
Record push_t := mk_push { u_node : bytes; u_net : bytes; u_key : bytes }.
Record preq_t := mk_preq { q_pub : bytes; q_node : bytes; q_net : Z; q_seen : Z }.
Record obs_t := mk_obs { o_own : Z; o_d : Z }.
Record rival_t := mk_rival { v_id : bytes; v_n : Z; v_next : Z; v_at : Z; v_o : list obs_t }.
Record delay_t := mk_delay { d_id : bytes; d_ms : Z }.
Record got_t := mk_got { g_id : bytes; g_slot : Z; g_when : Z }.
Record want_t := mk_want { w_id : bytes; w_waits : bool }.
Record heard_t := mk_heard { h_id : bytes; h_at : Z; h_score : Z; h_prio : Z; h_won : bool }.
Record round_t := mk_round {
  r_kw : bytes; r_score : Z; r_prio : Z; r_kiosk : bool; r_open : bool; r_decided : bool;
  r_won : bool; r_dirty : bool; r_at : Z; r_due : Z;
  r_got : list got_t; r_want : list want_t; r_heard : list heard_t }.
Record copy_t := mk_copy { y_p : bytes; y_at : Z; y_left : Z }.
Record msg_t := mk_msg { m_from : bytes; m_p : bytes; m_node : bytes; m_ip : Z }.
Record kclaim_t := mk_kclaim { kc_id : bytes; kc_p : bytes; kc_n : Z; kc_at : Z; kc_e : Z }.
Record kround_t := mk_kround { kr_p : bytes; kr_e : Z }.

(** [memset(x, 0, sizeof x)] *)
Definition zeros (n : nat) : bytes := replicate n 0.
Definition no_peer := mk_peer (zeros 8) 0 0 [] 0 false false.
Definition no_claim := mk_claim (zeros 8) (zeros 8) 0 0 false 0.
Definition no_cand := mk_cand (zeros 32) [] 0 false [] 0 0 0 0 0 0.
Definition no_preq := mk_preq (zeros 32) [] 0 0.
Definition no_obs := mk_obs 0 0.
Definition no_rival := mk_rival (zeros 8) 0 0 0 (replicate 64 no_obs).
Definition no_delay := mk_delay (zeros 8) 0.
Definition no_round := mk_round (zeros 8) 0 0 false false false false false 0 0 [] [] [].
Definition no_copy := mk_copy [] 0 0.
Definition no_kclaim := mk_kclaim [] [] 0 0 0.

#[export] Instance peer_inhabited : Inhabited peer_t := populate no_peer.
#[export] Instance claim_inhabited : Inhabited claim_t := populate no_claim.
#[export] Instance cand_inhabited : Inhabited cand_t := populate no_cand.
#[export] Instance preq_inhabited : Inhabited preq_t := populate no_preq.
#[export] Instance obs_inhabited : Inhabited obs_t := populate no_obs.
#[export] Instance rival_inhabited : Inhabited rival_t := populate no_rival.
#[export] Instance delay_inhabited : Inhabited delay_t := populate no_delay.
#[export] Instance copy_inhabited : Inhabited copy_t := populate no_copy.
#[export] Instance kclaim_inhabited : Inhabited kclaim_t := populate no_kclaim.

(** ** The state file, line by line (the file's text is not modelled, its lines are) *)
Inductive state_line :=
  | L_arbitrate (on : bool)
  | L_ctr (v : Z)
  | L_net (id : Z) (key : bytes)
  | L_delay (id : bytes) (ms : Z)
  | L_obs (id : bytes) (o : list (Z * option Z)).       (* own score, difference or "-" *)

(** ** What happens outside *)
Inductive effect :=
  | E_send (p : bytes)                    (* a datagram on the network's port *)
  | E_kiosk_send (p : bytes)              (* a datagram on Kiosk Satellite's port *)
  | E_save (l : list state_line)          (* state/arbitration replaced *)
  | E_wake                                (* a byte into the loop's pipe *)
  | E_send_key (u : push_t)               (* hooks->send_key *)
  | E_request (entity : bytes)            (* hooks->request *)
  | E_scan (tag : bytes)                  (* hooks->scan *)
  | E_paired (result : Z)                 (* hooks->paired *)
  | E_message (m : msg_t)                 (* hooks->message *)
  | E_changed.                            (* hooks->changed *)

(** ** The state *)
Record arb := mk_arb {
  running : bool; arbitrate : bool; node : bytes; sk : bytes; pk : bytes;
  in_net : bool; net_id : Z; net_key : bytes; mac_key : bytes;
  ctr : Z; ctr_saved : Z; ctr_known : bool;
  started : Z; beacon_at : Z; answer_at : Z; beacon_gap : Z; hello_until : Z;
  reported_peers : Z; notify : bool;
  peers : list peer_t; claims : list claim_t; claim_next : Z; cands : list cand_t;
  pushes : list push_t; polls : list bytes; self_tag : bytes;
  scan_at : Z; scans : Z; scan_due : bool; ha_since : Z;
  preqs : list preq_t;
  pair_at : Z; pair_until : Z; pair_sent : Z; give_at : Z; pair_gave : bool; give_left : Z;
  pair_event : Z; give_pkt : bytes;
  round_ : round_t;
  rivals : list rival_t; rivals_on : bool; delays : list delay_t; ndelay : Z;
  wauto : bool; wlogged : Z; unsaved : bool; saved_at : Z;
  mode : arb_mode_t; kwindow : Z; koffset : Z; ksock : bool; kfailed : Z; kid : bytes;
  kclaims : list kclaim_t; kclaim_next : Z; kheard : Z; kround : kround_t;
  copies : list copy_t; msgs : list msg_t; has_wake : bool;
  kpkt : bytes; kcopies : Z; kcopy_at : Z;
  pace : Z; sped : Z; draws : nat;
  out : list effect }.

(** As the program starts, before [arb_start] *)
Definition arb0 : arb := {|
  running := false; arbitrate := true; node := []; sk := zeros 32; pk := zeros 32;
  in_net := false; net_id := 0; net_key := zeros 32; mac_key := zeros 32;
  ctr := 0; ctr_saved := 0; ctr_known := false;
  started := 0; beacon_at := 0; answer_at := 0; beacon_gap := 0; hello_until := 0;
  reported_peers := -1; notify := false;
  peers := replicate NPEER no_peer; claims := replicate NCLAIM no_claim; claim_next := 0;
  cands := replicate NPEER no_cand;
  pushes := []; polls := []; self_tag := [];
  scan_at := 0; scans := 0; scan_due := false; ha_since := 0;
  preqs := replicate NPEER no_preq;
  pair_at := 0; pair_until := 0; pair_sent := 0; give_at := 0; pair_gave := false; give_left := 0;
  pair_event := 0; give_pkt := zeros (5 + 32 + 8 + BLOB);
  round_ := no_round;
  rivals := replicate NPEER no_rival; rivals_on := true;
  delays := replicate 64 no_delay; ndelay := 0;
  wauto := true; wlogged := 0; unsaved := false; saved_at := 0;
  mode := ARB_HASSMIC; kwindow := 400; koffset := 0; ksock := false; kfailed := 0; kid := [];
  kclaims := replicate NCLAIM no_kclaim; kclaim_next := 0; kheard := 0; kround := mk_kround [] 0;
  copies := [no_copy; no_copy]; msgs := []; has_wake := false;
  kpkt := []; kcopies := 0; kcopy_at := 0;
  pace := 1000; sped := 0; draws := 0%nat;
  out := [] |}.

Definition emit (e : effect) (s : arb) : arb := s <| out ::= (fun o => o ++ [e]) |>.

(** [ago]: [t] was set and is less than [ms] back *)
Definition ago (t now ms : Z) : bool := negb (t =? 0) && (now - t <? ms).

(** [memcmp(a, b, n) == 0] on the fixed-size fields *)
Definition same (a b : bytes) : bool := bool_decide (a = b).

Lemma same_true a b : same a b = true <-> a = b.
Proof. apply bool_decide_eq_true. Qed.
Lemma same_refl a : same a a = true.
Proof. by apply same_true. Qed.
Lemma same_false a b : same a b = false <-> a <> b.
Proof. apply bool_decide_eq_false. Qed.
