(* ===== verification/ArbPacket.v ===== *)
(** * Wake word arbitration: packets (arb.c, "packets")
    Building a datagram ([pkt]: at most 256 bytes), its keyed tag, and reading one
    with the bounds-checked reader [rd]. *)
From S2P Require Import Prelude Cbits Crypto ArbState.

(** ** Building *)
Definition PKT_MAX : nat := 256.
Definition put (b d : bytes) : bytes :=
  if (length b + length d <=? PKT_MAX)%nat then b ++ d else b.
Definition put64 (b : bytes) (v : Z) : bytes := put b (le_bytes 8 v).
Definition head (type : Z) : bytes := put (put [] (str "HMA1")) [u8 type].

Section tags.
Context `{Crypto}.
Definition tag (key b : bytes) : bytes := put b (blake2b_keyed 16 key b).
Definition tag_ok (key p : bytes) : bool :=
  if (length p <? 16)%nat then false else
  same (blake2b_keyed 16 key (take (length p - 16) p)) (drop (length p - 16) p).
End tags.

(** ** Reading *)
Record rd := mk_rd { rest : bytes; bad : bool }.

Definition rd_take (n : nat) (r : rd) : option bytes * rd :=
  if bad r || (length (rest r) <? n)%nat then (None, mk_rd (rest r) true)
  else (Some (take n (rest r)), mk_rd (drop n (rest r)) false).

Definition get64 (r : rd) : Z * rd :=
  let '(q, r) := rd_take 8 r in
  (match q with Some q => le_value q | None => 0 end, r).

(** A field read and used only once [bad] was checked *)
Definition field (n : nat) (r : rd) : bytes * rd :=
  let '(q, r) := rd_take n r in (default [] q, r).

(** The C string in a buffer: up to its first NUL. *)
Fixpoint cstr (l : bytes) : bytes :=
  match l with
  | [] => []
  | b :: l => if b =? 0 then [] else b :: cstr l
  end.

(** An ESPHome node name: lower case, digits, '-', not empty *)
Definition valid_node (s : bytes) : bool :=
  match s with
  | [] => false
  | _ => forallb (fun c => islower c || isdigit c || (c =? 45)) s
  end.

Definition get_node (r : rd) : bytes * rd :=
  let '(l, r) := rd_take 1 r in
  match l with
  | Some [l] =>
      if Z.of_nat NLEN <=? l then ([], mk_rd (rest r) true) else
      let '(q, r) := rd_take (Z.to_nat l) r in
      let nd := match q with Some q => cstr q | None => [] end in
      (nd, if negb (bad r) && negb (valid_node nd) then mk_rd (rest r) true else r)
  | _ => ([], mk_rd (rest r) true)
  end.

(** ** Lemmas *)
Lemma put_fits b d : (length b + length d <= PKT_MAX)%nat -> put b d = b ++ d.
Proof. intros H. unfold put. by rewrite (proj2 (Nat.leb_le _ _)). Qed.

(** Every [put] of a packet that fits, the innermost first; [tac] proves the lengths *)
Ltac put_all tac :=
  repeat match goal with
  | |- context [put ?b ?d] =>
      lazymatch b with
      | context [put _ _] => fail
      | _ => rewrite (put_fits b d) by tac
      end
  end.

Lemma put_length b d : (length b <= PKT_MAX)%nat -> (length (put b d) <= PKT_MAX)%nat.
Proof.
  intros H. unfold put. destruct (Nat.leb_spec (length b + length d) PKT_MAX); [|done].
  by rewrite length_app.
Qed.

Lemma head_eq t : head t = str "HMA1" ++ [u8 t].
Proof. reflexivity. Qed.

Lemma rd_take_app a l :
  rd_take (length a) (mk_rd (a ++ l) false) = (Some a, mk_rd l false).
Proof.
  unfold rd_take. cbn [bad rest orb]. rewrite length_app.
  rewrite (proj2 (Nat.ltb_ge _ _)) by lia.
  by rewrite take_app_length, drop_app_length.
Qed.

Lemma rd_take_app' n a l :
  length a = n -> rd_take n (mk_rd (a ++ l) false) = (Some a, mk_rd l false).
Proof. intros <-. apply rd_take_app. Qed.

Lemma field_app n a l :
  length a = n -> field n (mk_rd (a ++ l) false) = (a, mk_rd l false).
Proof. intros Hn. unfold field. by rewrite rd_take_app'. Qed.

Lemma get64_app v l :
  0 <= v < 2 ^ 64 -> get64 (mk_rd (le_bytes 8 v ++ l) false) = (v, mk_rd l false).
Proof.
  intros Hv. unfold get64. rewrite rd_take_app' by apply le_bytes_length.
  rewrite le_value_bytes. rewrite Z.mod_small; done.
Qed.

(** A reader that failed stays failed, and never goes past the end. *)
Lemma rd_take_bad n r q r' : rd_take n r = (q, r') -> bad r = true -> bad r' = true.
Proof. unfold rd_take. intros Hr Hb. rewrite Hb in Hr. by simplify_eq/=. Qed.

Lemma rd_take_rest n r q r' :
  rd_take n r = (Some q, r') ->
  length q = n /\ rest r = q ++ rest r' /\ bad r = false /\ bad r' = false.
Proof.
  unfold rd_take. intros Hr. destruct (bad r); [done|]. simpl in Hr.
  destruct (Nat.ltb_spec (length (rest r)) n); simplify_eq/=.
  split_and!; [rewrite length_take; lia|by rewrite take_drop|done|done].
Qed.

Lemma cstr_valid s : valid_node s = true -> cstr s = s.
Proof.
  intros H. destruct s as [|c s]; [done|].
  assert (forall l, forallb (fun c => islower c || isdigit c || (c =? 45)) l = true -> cstr l = l) as Hl.
  { induction l as [|x l IH]; simpl; [done|]. intros [Hx ?]%andb_true_iff.
    destruct (Z.eqb_spec x 0) as [->|]; [done|]. by rewrite IH. }
  by apply Hl.
Qed.

Lemma get_node_app nd l :
  valid_node nd = true -> (length nd < NLEN)%nat ->
  get_node (mk_rd (Z.of_nat (length nd) :: nd ++ l) false) = (nd, mk_rd l false).
Proof.
  intros Hv Hl. unfold get_node.
  change (Z.of_nat (length nd) :: nd ++ l) with ([Z.of_nat (length nd)] ++ nd ++ l).
  rewrite rd_take_app' by done. rewrite (proj2 (Z.leb_gt _ _)) by lia.
  rewrite Nat2Z.id, rd_take_app', cstr_valid, Hv by done. done.
Qed.

Section tag_lemmas.
Context `{CryptoLaws}.

Lemma tag_eq key b :
  (length b + 16 <= PKT_MAX)%nat -> tag key b = b ++ blake2b_keyed 16 key b.
Proof. intros Hb. unfold tag. by rewrite put_fits by (rewrite blake2b_keyed_length; lia). Qed.

Lemma tag_ok_tag key b :
  (length b + 16 <= PKT_MAX)%nat -> tag_ok key (tag key b) = true.
Proof.
  intros Hb. rewrite tag_eq by done. unfold tag_ok.
  rewrite length_app, blake2b_keyed_length.
  rewrite (proj2 (Nat.ltb_ge _ _)) by lia.
  replace (length b + 16 - 16)%nat with (length b) by lia.
  rewrite take_app_length, drop_app_length. apply same_refl.
Qed.
End tag_lemmas.
