(* ===== verification/ArbTables.v ===== *)
(** * Wake word arbitration: peers, delay samples, rivals, claims (arb.c)
    The tables a round is settled with: who is a member, how late members' claims
    come (the learned window), how likely a member is to beat us (rivals), and
    whether a claim beats ours. *)
From stdpp Require Import sorting.
From Stdlib Require Import PrimFloat.
From Stdlib Require Uint63.
From S2P Require Import Prelude Cbits ArbState.

(** libm's [exp] *)
Class Libm := { exp : float -> float }.

(** ** Members *)

(** The member's slot, or the one silent longest, cleared for it. *)
Definition peer (id : bytes) (ps : list peer_t) : nat * list peer_t :=
  match find_index (fun p => negb (p_seen p =? 0) && same (p_id p) id) ps with
  | Some i => (i, ps)
  | None =>
      let i := scan_best (fun p old => p_seen p <? p_seen old) no_peer ps in
      (i, <[i := no_peer <| p_id := id |>]> ps)
  end.

(** A packet that authenticated: whether its counter is new (not a replay, not a
    second copy), and the table after. *)
Definition fresh (id : bytes) (c now : Z) (ps : list peer_t) : bool * list peer_t :=
  let '(i, ps) := peer id ps in
  let p := ps !!! i in
  if c <=? p_ctr p
  then (false, if p_seen p =? 0 then <[i := no_peer]> ps else ps)
  else (true, <[i := p <| p_ctr := c |> <| p_seen := now |>]> ps).

Definition counted (pace now : Z) (p : peer_t) : bool :=
  ago (p_seen p) now (PEER_TTL_MS pace) && negb (p_quiet p).

Definition count_peers (now : Z) (s : arb) : Z :=
  Z.of_nat (length (filter (fun p => counted (pace s) now p = true) (peers s))).

(** ** The window *)

(** A member's first claim in our round, [ms] after ours (0: before it) *)
Definition sample (id : bytes) (ms at_ : Z) (s : arb) : arb :=
  let r := round_ s in
  if existsb (fun g => same (g_id g) id) (r_got r) then s
  else if (length (r_got r) =? NPEER)%nat then s
  else s
    <| round_ := r <| r_got ::= (fun g => g ++ [mk_got id (ndelay s) at_]) |> <| r_dirty := true |> |>
    <| delays ::= <[Z.to_nat (ndelay s mod NDELAY) := mk_delay id (if ms <? 0 then 0 else i32 ms)]> |>
    <| ndelay := u32 (ndelay s + 1) |>.

(** [qsort] with [cmp_int], then the nearest rank; [n] is the list's length *)
Definition p95 (v : list Z) : Z :=
  let n := Z.of_nat (length v) in
  merge_sort Z.le v !!! Z.to_nat ((n * 95 + 99) / 100 - 1).

Definition samples_of (p : peer_t) (s : arb) : list Z :=
  omap (fun d => if (0 <=? d_ms d) && same (d_id d) (p_id p) then Some (d_ms d) else None)
       (take (Z.to_nat (ndelay s)) (delays s)).

(** ** Rivals *)

(** The member's slot if it has one; with [make], else an empty or the oldest one,
    cleared for it. *)
Definition rival_find (id : bytes) (vs : list rival_t) : option nat :=
  find_index (fun v => negb (v_n v =? 0) && same (v_id v) id) vs.

Definition rival_make (id : bytes) (vs : list rival_t) : nat * list rival_t :=
  match rival_find id vs with
  | Some i => (i, vs)
  | None =>
      let i := scan_best (fun v old => (v_n v =? 0) || (v_at v <? v_at old)) no_rival vs in
      (i, <[i := no_rival <| v_id := id |>]> vs)
  end.

Definition observe (v : rival_t) (own d at_ : Z) : rival_t :=
  let v' := v <| v_o ::= <[Z.to_nat (v_next v mod OBS_KEEP) := mk_obs own d]> |>
              <| v_next := u32 (v_next v + 1) |> <| v_at := at_ |> in
  if v_n v <? OBS_KEEP then v' <| v_n := v_n v + 1 |> else v'.

Definition close_call (d : Z) : bool := negb (d =? D_NONE) && (- RIVAL_DB <? d).

Definition float_of_Z (z : Z) : float :=
  if z <? 0 then PrimFloat.opp (PrimFloat.of_uint63 (Uint63.of_Z (- z)))
  else PrimFloat.of_uint63 (Uint63.of_Z z).

Section rival_waits.
Context `{Libm}.
Local Open Scope float_scope.

Definition KERN_DB := 400.
#[warnings="-inexact-float"]
Definition DECAY := 0.99.
Definition PRIOR_CLOSE := 0.5.
Definition PRIOR_N := 2.
Definition CLOSE_W := 3.
#[warnings="-inexact-float"]
Definition RISK := 0.15.

(** the newest round first: [o[(j - 1) % OBS_KEEP]], [j] going down *)
Fixpoint weigh (n : nat) (v : rival_t) (j : Z) (sc : Z) (close all age : float) : float * float :=
  match n with
  | O => (close, all)
  | S n =>
      let o := v_o v !!! Z.to_nat (u32 (j - 1) mod OBS_KEEP)%Z in
      let w := age * exp (- PrimFloat.abs (float_of_Z (o_own o) - float_of_Z sc) / KERN_DB) in
      let '(close, all) :=
        if close_call (o_d o) then (close + w * CLOSE_W, all + w * CLOSE_W) else (close, all + w) in
      weigh n v (u32 (j - 1)) sc close all (age * DECAY)
  end.

(** Whether a round with our score [sc] waits for this member *)
Definition rival_waits (id : bytes) (sc : Z) (s : arb) : bool :=
  if negb (rivals_on s) then true else
  let '(close, all) :=
    match rival_find id (rivals s) with
    | Some i => let v := rivals s !!! i in
                weigh (Z.to_nat (v_n v)) v (v_next v) sc PRIOR_CLOSE PRIOR_N 1
    | None => (PRIOR_CLOSE, PRIOR_N)
    end in
  PrimFloat.ltb RISK (close / all).
End rival_waits.

Definition close_calls (v : rival_t) : Z :=
  Z.of_nat (length (filter (fun o => close_call (o_d o) = true) (take (Z.to_nat (v_n v)) (v_o v)))).

(** Who claimed in the round, when first, with the best score and priority *)
Definition heard (id : bytes) (at_ score prio : Z) (won : bool) (r : round_t) : round_t :=
  match find_index (fun h => same (h_id h) id) (r_heard r) with
  | Some i =>
      r <| r_heard ::= alter (fun h => h
             <| h_score ::= Z.max score |> <| h_prio ::= Z.max prio |> <| h_won ::= orb won |>) i |>
  | None =>
      if (length (r_heard r) <? NPEER)%nat
      then r <| r_heard ::= (fun l => l ++ [mk_heard id at_ score prio won]) |> else r
  end.

(** A member's claim against ours, [D_NONE] without one; later entries win, though
    an id is in [heard] once *)
Definition difference (r : round_t) (cutoff : Z) (id : bytes) : Z :=
  fold_left (fun d h =>
    if same (h_id h) id && (h_at h <=? cutoff) then
      let x := h_score h - r_score r in
      let d := if r_prio r <? h_prio h then D_PRIO
               else if D_PRIO <=? x then D_PRIO - 1
               else if x <=? D_NONE then D_NONE + 1 else x in
      if r_won r && h_won h && (d <? 0) then 0 else d
    else d) (r_heard r) D_NONE.

(** The round is over: each member's claim against ours; claims after [cutoff] were
    for the next one *)
Definition rivals_take (cutoff : Z) (s : arb) : arb :=
  let r := round_ s in
  let vs := fold_left (fun vs w =>
      let d := difference r cutoff (w_id w) in
      let '(i, vs) := rival_make (w_id w) vs in
      alter (fun v => observe v (r_score r) d cutoff) i vs) (r_want r) (rivals s) in
  s <| rivals := vs |>
    <| round_ := r <| r_dirty := r_dirty r || negb (bool_decide (r_want r = [])) |>
                   <| r_want := [] |> <| r_heard := [] |> |>.

(** A member this round waits for *)
Definition waited (p : peer_t) (now : Z) (s : arb) : bool :=
  if negb (counted (pace s) now p) then false else
  match find_index (fun w => same (w_id w) (p_id p)) (r_want (round_ s)) with
  | Some i => match r_want (round_ s) !! i with Some w => w_waits w | None => true end
  | None => true
  end.

(** The learned window for a round now, the samples it rests on and their 95th
    percentile (-1 without any) *)
Definition learned (now : Z) (s : arb) : Z * Z * Z :=
  let '(all, w) := fold_left (fun '(all, w) p =>
      if waited p now s then
        let mine := samples_of p s in
        let x := p95 mine + AUTO_MARGIN_MS in
        (all ++ mine,
         if (AUTO_PEER_MIN <=? Z.of_nat (length mine)) && (w <? x) then x else w)
      else (all, w)) (peers s) ([], 0) in
  let na := Z.of_nat (length all) in
  let q := if 0 <? na then p95 all else -1 in
  let w := if na <? AUTO_LEARN then Z.max w AUTO_START_MS
           else Z.max w (q + AUTO_MARGIN_MS) in
  ((if w <? AUTO_MIN_MS then AUTO_MIN_MS else if AUTO_MAX_MS <? w then AUTO_MAX_MS else w), na, q).

Definition window_now (now : Z) (s : arb) : Z :=
  if bool_decide (mode s = ARB_KIOSK) || negb (wauto s) then kwindow s
  else fst (fst (learned now s)).

(** ** Claims *)

(** Claim [k] beats the round's [r], ours, made by the Echo with public key [pk] *)
Definition beats (r : round_t) (pk : bytes) (k : claim_t) : bool :=
  k_won k || (r_prio r <? k_prio k)
  || ((k_prio k =? r_prio r) &&
      ((r_score r <? k_score k)
       || ((k_score k =? r_score r) && bool_decide (memcmp (k_id k) (take 8 pk) = Gt)))).

(** A claim of this round: not another round's, not for another keyword *)
Definition of_round (r : round_t) (k : claim_t) : bool :=
  negb ((k_at k =? 0) || (k_at k <? r_at r - LOOKBACK_MS)) && same (k_kw k) (r_kw r).

Definition beaten (s : arb) : bool :=
  existsb (fun k => of_round (round_ s) k && beats (round_ s) (pk s) k) (claims s).

(** ** Echos outside our network *)
Definition cand (pub : bytes) (cs : list cand_t) : nat * list cand_t :=
  match find_index (fun c => negb (c_seen c =? 0) && same (c_pub c) pub) cs with
  | Some i => (i, cs)
  | None =>
      let i := scan_best (fun c old => c_seen c <? c_seen old) no_cand cs in
      (i, <[i := no_cand <| c_pub := pub |>]> cs)
  end.
