(* ===== verification/ArbWindow.v ===== *)
(** * Wake word arbitration: the learned window
    [p95] is the 95th percentile by nearest rank, and the window [learned] gives is
    within its bounds and long enough for the members it waits for. *)
From stdpp Require Import sorting.
From S2P Require Import Prelude Cbits ArbState ArbTables.

Definition below (x : Z) (v : list Z) : Z := Z.of_nat (length (filter (fun y => y < x) v)).
Definition up_to (x : Z) (v : list Z) : Z := Z.of_nat (length (filter (fun y => y <= x) v)).

Lemma filter_length_perm (P : Z -> Prop) `{!forall x, Decision (P x)} v w :
  v ≡ₚ w -> length (filter P v) = length (filter P w).
Proof. intros Hp. by rewrite Hp. Qed.

(** The element at rank [k] of a sorted list *)
Lemma sorted_rank v : StronglySorted Z.le v -> forall k x, v !! k = Some x ->
  (S k <= length (filter (fun y => y <= x)%Z v))%nat /\ (length (filter (fun y => y < x)%Z v) <= k)%nat.
Proof.
  induction 1 as [|a v Hs IH Ha]; intros k x Hk; [done|]. destruct k as [|k]; simplify_eq/=.
  - rewrite filter_cons_True by lia. rewrite filter_cons_False by lia. simpl. split; [lia|].
    clear Hs IH. induction Ha as [|b v Hb Ha IH]; [done|]. by rewrite filter_cons_False by lia.
  - destruct (IH k x Hk) as [Hle Hlt]. assert (a <= x) by (by eapply (Forall_lookup_1 _ _ _ _ Ha)).
    rewrite filter_cons_True by done. split; [simpl; lia|].
    rewrite filter_cons. case_decide; simpl; lia.
Qed.

(** [p95] is the 95th percentile by nearest rank of its samples: one of them, at
    least 95% of them are no larger, and fewer than 95% are smaller. *)
Theorem p95_nearest_rank (v : list Z) :
  v <> [] ->
  p95 v ∈ v /\
  95 * Z.of_nat (length v) <= 100 * up_to (p95 v) v /\
  100 * below (p95 v) v < 95 * Z.of_nat (length v).
Proof.
  intros Hne. unfold p95. set (n := Z.of_nat (length v)). set (w := merge_sort Z.le v).
  assert (w ≡ₚ v) as Hp by apply merge_sort_Permutation.
  assert (0 < n) as Hn by (destruct v; [done|]; subst n; simpl; lia).
  pose proof (Z.div_mod (n * 95 + 99) 100 ltac:(lia)) as Hd.
  pose proof (Z.mod_pos_bound (n * 95 + 99) 100 ltac:(lia)) as Hm.
  set (q := (n * 95 + 99) / 100) in *. set (k := Z.to_nat (q - 1)).
  assert (Z.of_nat k = q - 1) as Hk by (subst k; lia).
  assert (k < length w)%nat as Hlt by (rewrite Hp; subst n; lia).
  destruct (lookup_lt_is_Some_2 w k Hlt) as [x Hx]. rewrite (list_lookup_total_correct _ _ _ Hx).
  assert (StronglySorted Z.le w) as Hs by (apply StronglySorted_merge_sort; apply _).
  destruct (sorted_rank w Hs k x Hx) as [Hle Hbe]. rewrite Hp in Hle, Hbe.
  split; [rewrite <- Hp; by eapply list_elem_of_lookup_2|]. unfold up_to, below. split; lia.
Qed.

Lemma p95_nearest_rank_witness :
  [40; 30; 120; 35] <> [] /\ 100 * below (p95 [40; 30; 120; 35]) [40; 30; 120; 35] < 95 * 4.
Proof. split; [done|]. apply (p95_nearest_rank [40; 30; 120; 35]). done. Defined.

(** ** The window *)
(** What the loop over the members has collected: all samples of those waited for, and
    the largest of their own percentiles with the margin *)
Lemma learned_fold now s ps all w :
  let '(all', w') := fold_left (fun '(all, w) p =>
      if waited p now s then
        let mine := samples_of p s in
        let x := p95 mine + AUTO_MARGIN_MS in
        (all ++ mine,
         if (AUTO_PEER_MIN <=? Z.of_nat (length mine)) && (w <? x) then x else w)
      else (all, w)) ps (all, w) in
  w <= w' /\
  (forall p, p ∈ ps -> waited p now s = true -> AUTO_PEER_MIN <= Z.of_nat (length (samples_of p s)) ->
     p95 (samples_of p s) + AUTO_MARGIN_MS <= w') /\
  all' = all ++ (filter (fun p => waited p now s = true) ps ≫= fun p => samples_of p s).
Proof.
  revert all w. induction ps as [|p ps IH]; intros all w; cbn [fold_left].
  - split; [lia|]. split; [by intros p ?%elem_of_nil|]. by rewrite filter_nil, app_nil_r.
  - destruct (waited p now s) eqn:Hw.
    + cbv zeta. set (mine := samples_of p s). set (x := p95 mine + AUTO_MARGIN_MS).
      set (w1 := if _ && _ then x else w). specialize (IH (all ++ mine) w1).
      destruct (fold_left _ ps _) as [all' w']. destruct IH as (Hle & Hmax & Hall).
      assert (w <= w1 /\ (AUTO_PEER_MIN <= Z.of_nat (length mine) -> x <= w1)) as [Hw1 Hx].
      { subst w1. destruct (Z.leb_spec AUTO_PEER_MIN (Z.of_nat (length mine))), (Z.ltb_spec w x); cbn; lia. }
      split_and!; [lia| |].
      * intros q [->|Hq]%elem_of_cons Hwq Hn; [|by apply Hmax]. specialize (Hx Hn). subst x mine. lia.
      * rewrite Hall, filter_cons_True by done. cbn [mbind list_bind]. by rewrite <- app_assoc.
    + specialize (IH all w). destruct (fold_left _ ps _) as [all' w']. destruct IH as (Hle & Hmax & Hall).
      split_and!; [lia| |].
      * intros q [->|Hq]%elem_of_cons Hwq Hn; [congruence|by apply Hmax].
      * by rewrite Hall, filter_cons_False by congruence.
Qed.

(** The samples of every member the round waits for *)
Definition waited_samples (now : Z) (s : arb) : list Z :=
  filter (fun p => waited p now s = true) (peers s) ≫= fun p => samples_of p s.

(** The learned window is between 150 ms and a second, whatever was measured;
    and unless it is that second, it leaves every member waited for that has three
    samples its own 95th percentile with the margin, and them all together their 95th
    percentile with the margin, or half a second while there are fewer than ten samples. *)
Theorem window_learned (now : Z) (s : arb) :
  let '(w, n, _) := learned now s in
  AUTO_MIN_MS <= w <= AUTO_MAX_MS /\
  n = Z.of_nat (length (waited_samples now s)) /\
  (w < AUTO_MAX_MS ->
   (forall p, p ∈ peers s -> waited p now s = true -> AUTO_PEER_MIN <= Z.of_nat (length (samples_of p s)) ->
      p95 (samples_of p s) + AUTO_MARGIN_MS <= w) /\
   (AUTO_LEARN <= n -> p95 (waited_samples now s) + AUTO_MARGIN_MS <= w) /\
   (n < AUTO_LEARN -> AUTO_START_MS <= w)).
Proof.
  unfold learned. pose proof (learned_fold now s (peers s) [] 0) as Hf.
  destruct (fold_left _ (peers s) _) as [all w]. destruct Hf as (Hw0 & Hmax & ->). cbn [app].
  fold (waited_samples now s). set (all := waited_samples now s). set (n := Z.of_nat (length all)).
  assert (AUTO_LEARN <= n -> (if 0 <? n then p95 all else -1) = p95 all) as Hq
    by (unfold AUTO_LEARN; intros; by rewrite (proj2 (Z.ltb_lt 0 n)) by lia).
  set (q := if 0 <? n then p95 all else -1) in *.
  set (w1 := if n <? AUTO_LEARN then Z.max w AUTO_START_MS else Z.max w (q + AUTO_MARGIN_MS)).
  assert (w <= w1 /\ (AUTO_LEARN <= n -> p95 all + AUTO_MARGIN_MS <= w1) /\ (n < AUTO_LEARN -> AUTO_START_MS <= w1))
    as (Hw1 & Ha & Hb).
  { subst w1. destruct (Z.ltb_spec n AUTO_LEARN); split_and!; lia. }
  clearbody w1. unfold AUTO_MIN_MS, AUTO_MAX_MS.
  destruct (Z.ltb_spec w1 150), (Z.ltb_spec 1000 w1); split_and!; try done; try lia;
    intros Hlt; split_and!; try lia; intros p Hp Hpw Hn; specialize (Hmax p Hp Hpw Hn); lia.
Qed.
