(* ===== verification/ArbNet.v ===== *)
(** * Wake word arbitration: the network (arb.c, "state files" and "network")
    The state file, the counter that never goes back, beacons, and how the key K of
    the network is sealed, taken and handed on. *)
From S2P Require Import Prelude Cbits Hash Crypto ArbState ArbPacket ArbTables.

(** ** The state file *)

(** the ring's entries from the oldest on, [n] of them, the next one [next] *)
Definition ring_read {A} `{Inhabited A} (size next n : Z) (l : list A) : list A :=
  map (fun k => l !!! Z.to_nat (u32 (next - n + k) mod size)) (seqZ 0 n).

Definition obs_line (v : rival_t) : list (Z * option Z) :=
  map (fun o => (o_own o, if o_d o =? D_NONE then None else Some (o_d o)))
      (ring_read OBS_KEEP (v_next v) (v_n v) (v_o v)).

(** What [save] writes *)
Definition saved_lines (s : arb) : list state_line :=
  [L_arbitrate (arbitrate s); L_ctr (ctr_saved s)]
  ++ (if in_net s then [L_net (net_id s) (net_key s)] else [])
  ++ omap (fun d => if d_ms d <? 0 then None else Some (L_delay (d_id d) (d_ms d)))
          (ring_read NDELAY (ndelay s) (Z.min (ndelay s) NDELAY) (delays s))
  ++ omap (fun v => if v_n v =? 0 then None else Some (L_obs (v_id v) (obs_line v))) (rivals s).

Definition save (s : arb) : arb := emit (E_save (saved_lines s)) s.

Section network.
Context `{Crypto}.

Definition derive (key : bytes) : bytes := blake2b_keyed 32 key (str "hassmic arbitration mac").

(** the loop over " own:d" pairs: it stops at the first one out of range *)
Fixpoint load_obs (o : list (Z * option Z)) (v : rival_t) : rival_t :=
  match o with
  | [] => v
  | (own, d) :: o =>
      if (own <? -100000) || (100000 <? own) then v else
      match d with
      | None => load_obs o (observe v own D_NONE 1)
      | Some d => if (d <=? D_NONE) || (D_PRIO <? d) then v else load_obs o (observe v own d 1)
      end
  end.

Definition load_line (s : arb) (l : state_line) : arb :=
  match l with
  | L_arbitrate on => s <| arbitrate := on |>
  | L_ctr v => s <| ctr_saved := v |> <| ctr_known := true |>
  | L_net id key =>
      if negb (id =? 0) && (length key =? 32)%nat
      then s <| net_key := key |> <| net_id := id |> <| in_net := true |> <| mac_key := derive key |>
      else s
  | L_delay id ms =>
      if (0 <=? ms) && (ms <=? MEASURE_MS)
      then s <| delays ::= <[Z.to_nat (ndelay s mod NDELAY) := mk_delay id ms]> |>
             <| ndelay := u32 (ndelay s + 1) |>
      else s
  | L_obs id o =>
      let '(i, vs) := rival_make id (rivals s) in
      let v := load_obs o (vs !!! i) in
      s <| rivals := <[i := if v_n v =? 0 then no_rival else v]> vs |>
  end.

Definition load (file : list state_line) (s : arb) : arb := fold_left load_line file s.

(** ** The counter: reserved on disk in blocks before it is used *)
Definition next_ctr (s : arb) : Z * arb :=
  let c := u64 (ctr s + 1) in
  let s := s <| ctr := c |> in
  (c, if ctr_saved s <=? c then save (s <| ctr_saved := u64 (c + CTR_BLOCK) |>) else s).

(** ** Sending *)
Definition send_pkt (b : bytes) (s : arb) : arb := emit (E_send b) s.

(** Send now, and have the loop send the same packet again COPY_MS later: a free
    slot, else the older one *)
Definition send_spread (b : bytes) (now : Z) (s : arb) : arb :=
  let c0 := copies s !!! 0%nat in let c1 := copies s !!! 1%nat in
  let i := if y_left c0 =? 0 then 0%nat else if y_left c1 =? 0 then 1%nat
           else if y_at c1 <? y_at c0 then 1%nat else 0%nat in
  let s := send_pkt b s in
  let s := s <| copies ::= <[i := mk_copy b now 2]> |> in
  if has_wake s then emit E_wake s else s.

Definition beacon_flags (answer : bool) (now : Z) (s : arb) : Z :=
  Z.lor (Z.lor (if negb (arbitrate s) || bool_decide (mode s = ARB_KIOSK) then F_QUIET else 0)
               (if arbitrate s && bool_decide (mode s = ARB_KIOSK) then F_KIOSK else 0))
        (if negb answer && (now <? hello_until s) then F_HELLO else 0).

(** [answer]: to another's beacon, never F_HELLO *)
Definition beacon (answer : bool) (now : Z) (s : arb) : arb :=
  let l := u8 (Z.of_nat (length (node s))) in
  let b := put (put (put64 (put (head T_BEACON) (pk s)) (if in_net s then net_id s else 0)) [l]) (node s) in
  if in_net s then
    let f := beacon_flags answer now s in
    let '(c, s) := next_ctr s in
    let b := put64 b c in
    let b := if f =? 0 then b else put b [u8 f] in
    send_pkt (tag (mac_key s) b) s
  else send_pkt b s.

(** ** Joining a network *)
Definition adopt (k : bytes) (id now : Z) (s : arb) : arb :=
  let s := s <| net_key := k |> <| net_id := id |> <| in_net := true |> <| mac_key := derive k |>
             <| peers := replicate NPEER no_peer |> <| claims := replicate NCLAIM no_claim |> in
  let s := save s in
  s <| beacon_at := 0 |> <| hello_until := now + BEACON_MAX_MS (pace s) |> <| notify := true |>.

Context `{Entropy}.

Definition ws_random (len : nat) (s : arb) : bytes * arb :=
  (entropy (draws s) len, s <| draws ::= S |>).

(** [while (!id) ws_random(&id, 8)]: [fuel] bounds the draws *)
Fixpoint draw_id (fuel : nat) (id : Z) (s : arb) : Z * arb :=
  match fuel with
  | O => (id, s)
  | S fuel =>
      if id =? 0 then let '(r, s) := ws_random 8 s in draw_id fuel (le_value r) s else (id, s)
  end.

Definition create (now : Z) (s : arb) : arb :=
  let '(k, s) := ws_random 32 s in
  let '(id, s) := draw_id draw_bound 0 s in
  adopt k id now s.

(** The key that wraps K between two Echos; [None]: a low-order point, no secret *)
Definition wrap_key (sk their from to : bytes) (net : Z) : option bytes :=
  let shared := x25519 sk their in
  if same shared (zeros 32) then None else
  Some (blake2b_keyed 32 shared (str "hassmic arb key" ++ [0] ++ from ++ to ++ le_bytes 8 net)).

(** K sealed to another Echo's public key: our key, nonce, MAC, enc(K) *)
Definition seal (to : bytes) (s : arb) : option bytes * arb :=
  match wrap_key (sk s) to (pk s) to (net_id s) with
  | None => (None, s)
  | Some key =>
      let '(nonce, s) := ws_random 24 s in
      let '(cipher, mac) := aead_lock key nonce (pk s) (net_key s) in
      (Some (pk s ++ nonce ++ mac ++ cipher), s)
  end.

Definition blob_pub (blob : bytes) : bytes := take 32 blob.
Definition blob_nonce (blob : bytes) : bytes := take 24 (drop 32 blob).
Definition blob_mac (blob : bytes) : bytes := take 16 (drop 56 blob).
Definition blob_cipher (blob : bytes) : bytes := take 32 (drop 72 blob).

(** Opening a sealed K for network [id] *)
Definition unseal (id : Z) (blob : bytes) (s : arb) : option bytes :=
  if same (blob_pub blob) (pk s) then None else
  match wrap_key (sk s) (blob_pub blob) (blob_pub blob) (pk s) id with
  | None => None
  | Some wrap => aead_unlock (blob_mac blob) wrap (blob_nonce blob) (blob_pub blob) (blob_cipher blob)
  end.

(** A sealed K for network [id]: whether it opened and we took it *)
Definition take_key (id : Z) (blob : bytes) (now : Z) (s : arb) : bool * arb :=
  if negb (running s) then (false, s)
  else if in_net s && (net_id s <=? id) then (false, s)
  else match unseal id blob s with
  | None => (false, s)
  | Some k =>
      let s := adopt k id now s in
      (true, if pair_until s =? 0 then s else s <| pair_until := 0 |> <| pair_event := 2 |>)
  end.

(** ** Handing K on *)
Definition give_packet (to : bytes) (net : Z) (blob : bytes) : bytes :=
  put (put64 (put (head T_GIVE) to) net) blob.

(** To the candidate in slot [i], outside our network or in a younger one: on the LAN
    once Home Assistant confirmed its tag, else (after a while) through its action *)
Definition push (i : nat) (now : Z) (s : arb) : arb :=
  let c := cands s !!! i in
  if negb (in_net s) || (negb (c_net c =? 0) && (c_net c <=? net_id s)) then s
  else if c_attested c then
    if ago (c_gave c) now (GIVE_MS (pace s)) then s else
    match seal (c_pub c) s with
    | (None, s) => s
    | (Some blob, s) =>
        let s := s <| cands ::= alter (fun c => c <| c_gave := now |>) i |> in
        let b := give_packet (c_pub c) (net_id s) blob in
        send_pkt b (send_pkt b s)
    end
  else if ago (c_pushed c) now (PUSH_MS (pace s)) || bool_decide (c_node c = [])
       || (ha_since s =? 0) || (now - Z.max (c_first c) (ha_since s) <? ATTEST_WAIT_MS (pace s))
       || (length (pushes s) =? NPEER)%nat then s
  else match seal (c_pub c) s with
  | (None, s) => s
  | (Some blob, s) =>
      s <| cands ::= alter (fun c => c <| c_pushed := now |>) i |>
        <| pushes ::= (fun l => l ++ [mk_push (c_node c) (hex_of (be_bytes 8 (net_id s)))
                                              (Base64.b64_encode blob false true)]) |>
  end.

Definition tag_entity (pub : bytes) : bytes := str "tag.hassmic_" ++ hex_of pub.

Definition poll_tag (pub : bytes) (s : arb) : arb :=
  if (length (polls s) <? NPEER)%nat then s <| polls ::= (fun l => l ++ [tag_entity pub]) |> else s.

End network.
