(* ===== verification/ArbKiosk.v ===== *)
(** * Wake word arbitration: Kiosk Satellite mode (arb.c)
    Rounds settled by loudness alone, with anyone on the LAN who speaks the
    protocol.  Parsing a datagram (kiosk_parse, with strtod) is not modelled:
    [kiosk_packet] gets the claim it parsed to. *)
From S2P Require Import Prelude Cbits Crypto ArbState ArbPacket ArbNet.

(** Their phrase: lower case, whitespace trimmed and collapsed *)
Fixpoint phrase_loop (o : bytes) (gap : bool) (s : bytes) : bytes :=
  match s with
  | [] => o
  | c :: s =>
      if isspace c then phrase_loop o (0 <? Z.of_nat (length o)) s else
      let o := if gap && (length o + 1 <? KIOSK_PHRASE)%nat then o ++ [32] else o in
      let o := if (length o + 1 <? KIOSK_PHRASE)%nat then o ++ [tolower c] else o in
      phrase_loop o false s
  end.
Definition kiosk_phrase (s : bytes) : bytes := phrase_loop [] false s.

(** A parsed claim [c] from another device; our own broadcast and copies are dropped *)
Definition kiosk_packet (c : kclaim_t) (now : Z) (s : arb) : arb :=
  if same (kc_id c) (kid s) then s
  else if existsb (fun k => ago (kc_at k) now KIOSK_KEEP_MS && (kc_n k =? kc_n c) && same (kc_id k) (kc_id c))
                  (kclaims s) then s
  else s <| kheard := now |>
         <| kclaims ::= <[Z.to_nat (kclaim_next s mod Z.of_nat NCLAIM) := c <| kc_at := now |>]> |>
         <| kclaim_next := u32 (kclaim_next s + 1) |>.

Definition kiosk_send (s : arb) : arb :=
  if ksock s then emit (E_kiosk_send (kpkt s)) s else s.

(** The loop's: the socket open while this Echo settles rounds the kiosk way;
    [opened]: whether socket, setsockopt and bind succeed now *)
Definition kiosk_sync (opened : bool) (now : Z) (s : arb) : arb :=
  let want := running s && arbitrate s && bool_decide (mode s = ARB_KIOSK) in
  let s := if negb want && ksock s then s <| ksock := false |> <| kcopies := 0 |> else s in
  if negb want || ksock s || ago (kfailed s) now 10000 then s
  else if opened then s <| ksock := true |> <| kfailed := 0 |>
  else s <| ksock := false |> <| kfailed := now |>.

Definition kiosk_escape (ph : bytes) : bytes :=
  fold_left (fun esc c =>
    if (length esc + 7 <? KIOSK_PHRASE * 6)%nat then
      if (c =? 34) || (c =? 92) then esc ++ [92; c]
      else if c <? 32 then esc ++ str "\u00" ++ [hexdigit (c / 16); hexdigit (c mod 16)]
      else esc ++ [c]
    else esc) ph [].

(** [lround(score / 10.0)]: the quotient is exact at the halves, which go away from 0 *)
Definition lround10 (n : Z) : Z := if n <? 0 then - ((- n + 5) / 10) else (n + 5) / 10.

(** The claim as JSON: their protocol's kind, version, our id, a random number, the
    phrase and the loudness in dB with one decimal *)
Definition kiosk_text (id ph : bytes) (n e : Z) : bytes :=
  str "{" ++ [34] ++ str "ks" ++ [34; 58; 34] ++ str "wake" ++ [34; 44; 34] ++ str "v" ++ [34; 58]
  ++ str "1," ++ [34] ++ str "id" ++ [34; 58; 34] ++ id ++ [34; 44; 34] ++ str "n" ++ [34; 58]
  ++ dec (Z.land n 0x3fffffff) ++ [44; 34] ++ str "p" ++ [34; 58; 34] ++ kiosk_escape ph
  ++ [34; 44; 34] ++ str "e" ++ [34; 58] ++ (if e <? 0 then str "-" else [])
  ++ dec (Z.abs e / 10) ++ str "." ++ dec (Z.abs e mod 10) ++ str "}".

(** The first copy now, the others from the loop *)
Definition kiosk_out (b : bytes) (now : Z) (s : arb) : Z * arb :=
  if (300 <=? length b)%nat then (0, s) else
  let s := kiosk_send (s <| kpkt := b |>) in
  let s := s <| kcopies := 2 |> <| kcopy_at := now + KIOSK_GAP_MS |> in
  (now + kwindow s, if has_wake s then emit E_wake s else s).

Section kiosk.
Context `{Entropy}.

(** Our claim, first copy now: the time to decide, 0 if there is no round *)
Definition kiosk_claim (keyword : bytes) (score now : Z) (s : arb) : Z * arb :=
  let ph := kiosk_phrase keyword in
  if negb (running s) || negb (arbitrate s) || negb (ksock s) || bool_decide (ph = []) then (0, s) else
  let '(r, s) := ws_random 4 s in
  let e := lround10 score + koffset s * 10 in
  kiosk_out (kiosk_text (kid s) ph (le_value r) e) now (s <| kround := mk_kround ph e |>).

(** A claim for our phrase within the window of ours that beats it: louder, or as
    loud with the lower id *)
Definition kiosk_beats (s : arb) (k : kclaim_t) : bool :=
  negb ((kc_at k =? 0) || (kwindow s <? Z.abs (kc_at k - r_at (round_ s))) || negb (same (kc_p k) (kr_p (kround s))))
  && ((kr_e (kround s) <? kc_e k)
      || ((kc_e k =? kr_e (kround s)) && bool_decide (memcmp (kc_id k) (kid s) = Lt))).

Definition kiosk_decide (s : arb) : bool := negb (existsb (kiosk_beats s) (kclaims s)).

End kiosk.
