(* ===== verification/ArbRound.v ===== *)
(** * Wake word arbitration: a round (arb.c, arb_claim to arb_decide)
    A wake word heard here becomes a claim, the others' claims arrive, and the round
    is decided. *)
From S2P Require Import Prelude Cbits Crypto ArbState ArbPacket ArbTables ArbNet ArbKiosk.

Section round.
Context `{Crypto} `{Entropy} `{Libm}.

Definition claim_body (net : Z) (pk : bytes) (c : Z) (kw : bytes) (score prio : Z) (won : bool) : bytes :=
  put (put (put (put64 (put (put64 (head T_CLAIM) net) (take 8 pk)) c) kw)
           (le_bytes 4 (u32 score))) [u8 prio; if won then 1 else 0].

Definition claim_pkt (score prio : Z) (won : bool) (s : arb) : bytes * arb :=
  let '(c, s) := next_ctr s in
  (tag (mac_key s) (claim_body (net_id s) (pk s) c (r_kw (round_ s)) score prio won), s).

(** the keyword's hash: BLAKE2b of its first 64 bytes in lower case *)
Definition keyword_hash (keyword : bytes) : bytes := blake2b 8 (map tolower (take 64 keyword)).

(** A new wake word while the last round still samples: a claim nearer to this
    detection than to that one was for this one *)
Definition withdraw_late (now : Z) (s : arb) : arb :=
  let r := round_ s in
  if negb (r_open r) then s else
  fold_left (fun s g =>
    if (now - g_when g <? g_when g - r_at r) && (u32 (ndelay s - g_slot g) <=? NDELAY)
    then s <| delays ::= alter (fun d => d <| d_ms := -1 |>) (Z.to_nat (g_slot g mod NDELAY)) |>
           <| round_ ::= (fun r => r <| r_dirty := true |>) |>
    else s) (r_got r) s.

(** whom the round waits for, among the members counted *)
Definition wanted (score now : Z) (s : arb) : list want_t :=
  map (fun p => mk_want (p_id p) (rival_waits (p_id p) score s))
      (filter (fun p => counted (pace s) now p = true) (peers s)).

(** claims that came before ours: those members heard it first *)
Definition early_claims (now : Z) (s : arb) : arb :=
  fold_left (fun s k =>
    if negb (k_at k =? 0) && (now - LOOKBACK_MS <=? k_at k) && same (k_kw k) (r_kw (round_ s))
    then let s := s <| round_ ::= heard (k_id k) (k_at k) (k_score k) (k_prio k) (k_won k) |> in
         if k_won k then s else sample (k_id k) 0 (k_at k) s
    else s) (claims s) s.

(** The last round over, a new one begins with this detection *)
Definition round_start (keyword : bytes) (now : Z) (s : arb) : arb :=
  let s := withdraw_late now s in
  let s := if r_open (round_ s) then rivals_take ((r_at (round_ s) + now) / 2) s else s in
  s <| round_ ::= (fun r => r <| r_kw := keyword_hash keyword |>
                              <| r_kiosk := bool_decide (mode s = ARB_KIOSK) |> <| r_at := now |>
                              <| r_open := false |> <| r_decided := false |> <| r_won := false |>
                              <| r_got := [] |>) |>.

(** Our own claim in it, and whom to wait for; whether for anyone *)
Definition round_open (score prio now : Z) (s : arb) : bool * arb :=
  let s := s <| round_ ::= (fun r => r <| r_score := score |> <| r_prio := prio |> <| r_open := true |>) |> in
  let want := take (NPEER - length (r_want (round_ s))) (wanted score now s) in
  (existsb w_waits want, s <| round_ ::= (fun r => r <| r_want ::= (fun w => w ++ want) |>) |>).

(** The time at which to call [arb_decide], 0: nobody else to ask, answer now *)
Definition arb_claim (keyword : bytes) (score prio now : Z) (s : arb) : Z * arb :=
  let s := round_start keyword now s in
  if r_kiosk (round_ s) then kiosk_claim keyword score now s
  else if running s && arbitrate s && in_net s && negb (count_peers now s =? 0) then
    let '(nw, s) := round_open score prio now s in
    let w := if wauto s then fst (fst (learned now s)) else kwindow s in
    let s := early_claims now s in
    let '(b, s) := claim_pkt score prio false s in
    let s := send_spread b now s in
    let due := now + (if nw then w else 0) in
    (due, s <| round_ ::= (fun r => r <| r_due := due |>) |>)
  else (0, s).

(** Member [p]'s claim for the round is in *)
Definition claimed (s : arb) (p : peer_t) : bool :=
  existsb (fun k => of_round (round_ s) k && same (k_id k) (p_id p)) (claims s).

(** Every member waited for claimed this round, or one beat us *)
Definition arb_settled (now : Z) (s : arb) : bool :=
  negb (r_kiosk (round_ s)) && r_open (round_ s) && negb (r_decided (round_ s))
  && (beaten s || forallb (fun p => negb (waited p now s) || claimed s p) (peers s)).

Definition decided (win : bool) (s : arb) : arb :=
  s <| round_ ::= (fun r => r <| r_decided := true |> <| r_won := win |>) |>.

Definition arb_decide (now : Z) (s : arb) : bool * arb :=
  if r_kiosk (round_ s) then (kiosk_decide s, s) else
  let win := negb (beaten s) in
  let s := decided win s in
  if win && in_net s then
    let '(b, s) := claim_pkt (r_score (round_ s)) (r_prio (round_ s)) true s in
    (win, send_spread b now s)
  else (win, s).

End round.
