(* ===== verification/ArbRecv.v ===== *)
(** * Wake word arbitration: receiving a datagram (arb.c, on_packet)
    One handler per packet type; each leaves the state alone unless every check of
    the code passes. *)
From S2P Require Import Prelude Cbits Crypto ArbState ArbPacket ArbTables ArbNet ArbRound.

Section recv.
Context `{Crypto} `{Entropy} `{Libm}.

(** A member's beacon: it counts (and is no candidate any more); one we did not count
    yet, or one that just started, is answered *)
Definition on_member_beacon (p pub nd : bytes) (r : rd) (now ip : Z) (s : arb) : arb :=
  let '(c, r) := get64 r in
  let left := length (rest r) in
  let flags := if (left =? 17)%nat then rest r !!! 0%nat else 0 in
  if bad r || negb ((left =? 16)%nat || (left =? 17)%nat) || negb (tag_ok (mac_key s) p) then s else
  let known := existsb (fun q => same (p_id q) (take 8 pub) && ago (p_seen q) now (PEER_TTL_MS (pace s))) (peers s) in
  let s := s <| cands ::= map (fun k => if negb (c_seen k =? 0) && same (c_pub k) pub
                                        then k <| c_seen := 0 |> else k) |> in
  let '(f, ps) := fresh (take 8 pub) c now (peers s) in
  let s := s <| peers := ps |> in
  if negb f then s else
  let '(i, ps) := peer (take 8 pub) (peers s) in
  let s := s <| peers := alter (fun q => q <| p_node := nd |> <| p_ip := ip |>
                                           <| p_quiet := negb (Z.land flags F_QUIET =? 0) |>
                                           <| p_kiosk := negb (Z.land flags F_KIOSK =? 0) |>) i ps |> in
  if negb known || negb (Z.land flags F_HELLO =? 0) then beacon true now s else s.

Definition on_beacon (p : bytes) (r : rd) (now ip : Z) (s : arb) : arb :=
  let '(pub, r) := field 32 r in
  let '(net, r) := get64 r in
  let '(nd, r) := get_node r in
  if bad r || same pub (pk s) then s
  else if in_net s && (net =? net_id s) then on_member_beacon p pub nd r now ip s
  else
    let '(i, cs) := cand pub (cands s) in
    let s := s <| cands := cs |> in
    let s :=
      if c_first (cands s !!! i) =? 0 then
        let s := s <| cands ::= alter (fun c => c <| c_first := now |>) i |> in
        if ago (sped s) now (SCAN_SLOW_MS (pace s)) then s else s <| sped := now |> <| scans := 0 |>
      else s in
    let s := s <| cands ::= alter (fun c => c <| c_ip := ip |> <| c_node := nd |> <| c_net := net |>
                                              <| c_seen := now |>) i |> in
    let s := if in_net s && (net =? 0) && negb (ago (answer_at s) now 1000)
             then beacon true now (s <| answer_at := now |>) else s in
    push i now s.

(** A pair request: the requester's slot, else the oldest one, which it takes over *)
Definition on_pair (r : rd) (now : Z) (s : arb) : arb :=
  let '(pub, r) := field 32 r in
  let '(net, r) := get64 r in
  let '(nd, r) := get_node r in
  if bad r || same pub (pk s) then s else
  let i := match find_index (fun q => negb (q_seen q =? 0) && same (q_pub q) pub) (preqs s) with
           | Some i => i
           | None => scan_best (fun q old => q_seen q <? q_seen old) no_preq (preqs s)
           end in
  s <| preqs ::= <[i := mk_preq pub nd net now]> |>.

(** K handed to us: while pairing from anyone, else only from an Echo Home Assistant
    confirmed, for the network it beacons *)
Definition on_give (r : rd) (now : Z) (s : arb) : arb :=
  let '(to, r) := field 32 r in
  let '(net, r) := get64 r in
  let '(blob, r) := field BLOB r in
  if bad r || negb (bool_decide (rest r = [])) || negb (same to (pk s)) then s
  else if negb (pair_until s =? 0) && (now <? pair_until s) then snd (take_key net blob now s)
  else match find_index (fun c => negb (c_seen c =? 0) && c_attested c && (c_net c =? net)
                                  && same (c_pub c) (blob_pub blob)) (cands s) with
  | None => s
  | Some _ => if negb (in_net s) || (net <? net_id s) then snd (take_key net blob now s) else s
  end.

(** A message for us (Drop In) *)
Definition on_msg (p : bytes) (r : rd) (now ip : Z) (s : arb) : arb :=
  let '(net, r) := get64 r in
  let '(from, r) := field 8 r in
  let '(to, r) := field 8 r in
  let '(c, r) := get64 r in
  let '(l, r) := field 1 r in
  let len := l !!! 0%nat in
  let '(q, r) := match l with [] => ([], r) | _ => field (Z.to_nat len) r end in
  if bad r || negb (length (rest r) =? 16)%nat || negb (in_net s) || negb (net =? net_id s)
     || negb (same to (take 8 (pk s))) || same from (take 8 (pk s)) || (ARB_MSG_MAX <? len)
     || negb (tag_ok (mac_key s) p) then s else
  let '(f, ps) := fresh from c now (peers s) in
  let s := s <| peers := ps |> in
  if negb f || (length (msgs s) =? NMSG)%nat then s else
  let '(i, ps) := peer from (peers s) in
  s <| peers := ps |>
    <| msgs ::= (fun l => l ++ [mk_msg from q (p_node (ps !!! i)) ip]) |>.

(** An authentic claim [k], sent under counter [c]: kept, and a sample of our round
    if it belongs to it *)
Definition claim_in (c : Z) (k : claim_t) (now : Z) (s : arb) : arb :=
  let '(f, ps) := fresh (k_id k) c now (peers s) in
  let s := s <| peers := ps |> in
  if negb f then s else
  let s := s <| claims ::= <[Z.to_nat (claim_next s mod Z.of_nat NCLAIM) := k]> |>
             <| claim_next := u32 (claim_next s + 1) |> in
  let d := now - r_at (round_ s) in
  if r_open (round_ s) && same (k_kw k) (r_kw (round_ s)) && (d <=? MEASURE_MS) then
    let s := s <| round_ ::= heard (k_id k) now (k_score k) (k_prio k) (k_won k) |> in
    if k_won k then s else sample (k_id k) d now s
  else s.

Definition on_claim (p : bytes) (r : rd) (now : Z) (s : arb) : arb :=
  let '(net, r) := get64 r in
  let '(id, r) := field 8 r in
  let '(c, r) := get64 r in
  let '(kw, r) := field 8 r in
  let '(sc, r) := field 4 r in
  let '(pw, r) := field 2 r in
  if bad r || negb (length (rest r) =? 16)%nat || negb (in_net s) || negb (net =? net_id s)
     || same id (take 8 (pk s)) || negb (tag_ok (mac_key s) p) then s else
  claim_in c (mk_claim id kw (i32 (le_value sc)) (pw !!! 0%nat) (negb (pw !!! 1%nat =? 0)) now) now s.

Definition on_packet (p : bytes) (now ip : Z) (s : arb) : arb :=
  let '(m, r) := field 5 (mk_rd p false) in
  if bad r || negb (same (take 4 m) (str "HMA1")) then s else
  let t := m !!! 4%nat in
  if t =? T_BEACON then on_beacon p r now ip s
  else if t =? T_PAIR then on_pair r now s
  else if t =? T_GIVE then on_give r now s
  else if t =? T_MSG then on_msg p r now ip s
  else if t =? T_CLAIM then on_claim p r now s
  else s.

End recv.
