(* ===== verification/ArbLoop.v ===== *)
(** * Wake word arbitration: the loop and the interface (arb.c)
    One turn of arb's thread, in the order of the code, and the entry points of
    arb.h.  [loop_turn] is one iteration: a datagram that arrived, then everything
    that is due. *)
From S2P Require Import Prelude Cbits Hash Crypto ArbState ArbPacket ArbTables ArbNet ArbKiosk ArbRound ArbRecv.

Section loop.
Context `{Crypto} `{Entropy} `{Libm}.

(** [copy_at]: when a packet's next copy is due ([y_left] > 0) *)
Definition copy_at (c : copy_t) : Z := y_at c + COPY_MS !!! Z.to_nat (2 - y_left c).

Definition loop_copies (now : Z) (s : arb) : arb :=
  let s := if negb (kcopies s =? 0) && (kcopy_at s <=? now)
           then (kiosk_send s) <| kcopy_at ::= Z.add KIOSK_GAP_MS |> <| kcopies ::= Z.pred |> else s in
  fold_left (fun s i =>
    let c := copies s !!! i in
    if negb (y_left c =? 0) && (copy_at c <=? now)
    then (send_pkt (y_p c) s) <| copies ::= alter (fun c => c <| y_left ::= Z.pred |>) i |> else s)
    (seq 0 2) s.

(** The round over, its samples to disk *)
Definition loop_round (now : Z) (s : arb) : arb :=
  let r := round_ s in
  let s := if r_open r && (MEASURE_MS <=? now - r_at r)
           then rivals_take (r_at r + MEASURE_MS) (s <| round_ := r <| r_open := false |> |>) else s in
  let s := if negb (r_open (round_ s)) && r_dirty (round_ s) then
      let '(w, ns, _) := learned now s in
      let s := s <| round_ ::= (fun r => r <| r_dirty := false |>) |> <| unsaved := true |> in
      if wauto s && (AUTO_LEARN <=? ns)
         && ((wlogged s + Z.quot (wlogged s) 10 <? w) || (w <? wlogged s - Z.quot (wlogged s) 10))
      then s <| wlogged := w |> else s
    else s in
  if unsaved s && negb (ago (saved_at s) now (SAVE_MS (pace s)))
  then save (s <| unsaved := false |> <| saved_at := now |>) else s.

(** Outside a network with no member heard: start one *)
Definition loop_join (now : Z) (s : arb) : arb :=
  if in_net s then s else
  let members := existsb (fun c => negb (c_net c =? 0) && ago (c_seen c) now (PEER_TTL_MS (pace s))) (cands s) in
  if negb members && (DISCOVER_MS (pace s) <? now - started s) then create now s else s.

Definition loop_push (now : Z) (s : arb) : arb :=
  fold_left (fun s i =>
    if ago (c_seen (cands s !!! i)) now (PEER_TTL_MS (pace s)) then push i now s else s) (seq 0 NPEER) s.

Definition loop_beacon (now : Z) (s : arb) : arb :=
  let p := pace s in
  let every := if in_net s then beacon_gap s
               else if now - started s <? DISCOVER_MS p then LOOK_MS p else LONER_MS p in
  if ago (beacon_at s) now every then s else
  let '(r, s) := ws_random 4 s in
  beacon false now
    (s <| beacon_at := now |>
       <| beacon_gap := BEACON_MIN_MS p + le_value r mod (BEACON_MAX_MS p - BEACON_MIN_MS p) |>).

(** Our tag scanned while another Echo may wait for it; the tags of those not
    confirmed yet asked for *)
Definition loop_tags (now : Z) (s : arb) : arb :=
  let ttl := PEER_TTL_MS (pace s) in
  let need := negb (in_net s) || existsb (fun c => ago (c_seen c) now ttl) (cands s) in
  let s := if negb need then s <| scans := 0 |>
           else if ago (scan_at s) now (if scans s <? SCAN_N then SCAN_MS (pace s) else SCAN_SLOW_MS (pace s)) then s
           else s <| scan_at := now |> <| scans ::= Z.succ |> <| scan_due := true |> in
  fold_left (fun s i =>
    let c := cands s !!! i in
    let give := in_net s && ((c_net c =? 0) || (net_id s <? c_net c)) in
    let get := negb (c_net c =? 0) && (negb (in_net s) || (c_net c <? net_id s)) in
    if negb (c_attested c) && ago (c_seen c) now ttl && (give || get) && negb (ago (c_polled c) now (POLL_MS (pace s)))
    then poll_tag (c_pub c) (s <| cands ::= alter (fun c => c <| c_polled := now |>) i |>) else s)
    (seq 0 NPEER) s.

(** The requests a member pairing looks at: from [PAIR_MS] before its press until now *)
Definition pair_requests (s : arb) : list preq_t :=
  filter (fun q => negb ((q_seen q =? 0) || (q_seen q <? pair_at s - PAIR_MS (pace s))) = true) (preqs s).
(** from outside our network, or a younger one *)
Definition asks (s : arb) (q : preq_t) : bool := (q_net q =? 0) || (net_id s <? q_net q).
Definition older (s : arb) (q : preq_t) : bool := negb (asks s q) && (q_net q <? net_id s).

Definition pair_packet (s : arb) : bytes :=
  put (put (put64 (put (head T_PAIR) (pk s)) (if in_net s then net_id s else 0))
           [u8 (Z.of_nat (length (node s)))]) (node s).

(** A member: hand K to the one Echo outside our network that asked *)
Definition pair_hand (now : Z) (s : arb) : arb :=
  if negb (in_net s) || pair_gave s || (now - pair_at s <? PAIR_SETTLE_MS (pace s)) then s else
  let qs := pair_requests s in
  if existsb (older s) qs then s else
  match filter (fun q => asks s q = true) qs with
  | [] => s
  | [one] =>
      match seal (q_pub one) s with
      | (None, s) => s
      | (Some blob, s) =>
          s <| give_pkt := give_packet (q_pub one) (net_id s) blob |> <| give_left := 3 |> <| give_at := 0 |>
            <| pair_gave := true |>
      end
  | _ => s <| pair_until := 0 |> <| pair_event := -1 |>
  end.

Definition loop_pairing (now : Z) (s : arb) : arb :=
  let s := if negb (pair_until s =? 0) && (pair_until s <=? now)
           then let s := s <| pair_until := 0 |> in
                if pair_gave s then s else s <| pair_event := -1 |>
           else s in
  let s := if pair_until s =? 0 then s else
    let s := if ago (pair_sent s) now 1000 then s else send_pkt (pair_packet s) (s <| pair_sent := now |>) in
    pair_hand now s in
  if negb (give_left s =? 0) && negb (ago (give_at s) now 500) then
    let s := (send_pkt (give_pkt s) s) <| give_at := now |> <| give_left ::= Z.pred |> in
    if give_left s =? 0
    then s <| give_pkt := zeros (5 + 32 + 8 + BLOB) |> <| pair_until := 0 |> <| pair_event := 2 |> else s
  else s.

(** What is handed to the hooks outside the lock; [link]: whether Home Assistant took
    the request for a tag *)
Definition loop_hand (link : bytes -> bool) (now : Z) (s : arb) : arb :=
  let np := count_peers now s in
  let s := if np =? reported_peers s then s else s <| reported_peers := np |> <| notify := true |> in
  let s0 := s in
  let s := s <| pushes := [] |> <| polls := [] |> <| scan_due := false |> <| msgs := [] |> in
  let s := fold_left (fun s u => emit (E_send_key u) s) (pushes s0) s in
  let s := fold_left (fun s e =>
      let s := emit (E_request e) s in
      if negb (link e) then s <| ha_since := 0 |>
      else if ha_since s =? 0 then s <| ha_since := now |> else s) (polls s0) s in
  let s := if scan_due s0 then emit (E_scan (self_tag s)) s else s in
  let s := if pair_event s =? 0 then s else emit (E_paired (pair_event s)) (s <| pair_event := 0 |>) in
  let s := fold_left (fun s m => emit (E_message m) s) (msgs s0) s in
  if notify s then emit E_changed (s <| notify := false |>) else s.

(** Everything due in a turn of the loop *)
Definition loop_due (link : bytes -> bool) (now : Z) (s : arb) : arb :=
  loop_hand link now (loop_pairing now (loop_tags now (loop_beacon now (loop_push now
    (loop_join now (loop_round now (loop_copies now s))))))).

(** What a turn of the loop finds: a datagram from an address, a kiosk claim *)
Record input := mk_input { i_packet : option (bytes * Z); i_kiosk : option kclaim_t;
                           i_opened : bool; i_link : bytes -> bool }.

Definition loop_turn (i : input) (now : Z) (s : arb) : arb :=
  let s := kiosk_sync (i_opened i) now s in
  let s := match i_packet i with Some (p, ip) => on_packet p now ip s | None => s end in
  let s := match i_kiosk i with Some c => kiosk_packet c now s | None => s end in
  loop_due (i_link i) now s.

(** ** The interface *)

(** "network" and "key" of the action: [strtoull(network, &end, 16)] as [id] ([None]:
    something follows the number) and the base64 text *)
Definition arb_key (id : option Z) (key : bytes) (now : Z) (s : arb) : arb :=
  match id, Base64.b64_decode key (BLOB + 4) with
  | Some id, Some blob =>
      if (id =? 0) || negb (length blob =? BLOB)%nat then s else snd (take_key id blob now s)
  | _, _ => s
  end.

(** Home Assistant's answer: a tag scanned again since our first read vouches for it *)
Definition arb_ha_state (entity state : bytes) (s : arb) : arb :=
  if bool_decide (state = []) || same state (str "unknown") || same state (str "unavailable") || negb (running s)
  then s else
  s <| cands ::= map (fun c =>
    if (c_seen c =? 0) || c_attested c || negb (same (tag_entity (c_pub c)) entity) then c
    else if bool_decide (c_tag0 c = []) then c <| c_tag0 := take 47 state |>
    else if same (take 47 (c_tag0 c)) (take 47 state) then c
    else c <| c_attested := true |> <| c_pushed := 0 |>) |>.

Definition arb_pair (now : Z) (s : arb) : Z * arb :=
  if negb (running s) then (-1, s) else
  (0, s <| pair_at := now |> <| pair_until := now + PAIR_MS (pace s) |> <| pair_sent := 0 |>
        <| pair_gave := false |> <| pair_event := 1 |>).

Definition arb_arbitrate (set_ : option bool) (s : arb) : bool * arb :=
  let s := match set_ with
    | Some b => if bool_decide (b = arbitrate s) then s else
        (save (s <| arbitrate := b |> <| claims := replicate NCLAIM no_claim |> <| beacon_at := 0 |>))
          <| notify := true |>
    | None => s
    end in
  (arbitrate s, s).

Definition arb_mode (set_ : option arb_mode_t) (s : arb) : arb_mode_t * arb :=
  let s := match set_ with
    | Some m => if decide (m = mode s) then s else
        s <| mode := m |> <| claims := replicate NCLAIM no_claim |> <| kclaims := replicate NCLAIM no_kclaim |>
          <| beacon_at := 0 |> <| notify := true |>
    | None => s
    end in
  (mode s, s).

Definition arb_offset (v : Z) (s : arb) : Z * arb :=
  let s := if (-20 <=? v) && (v <=? 20) then s <| koffset := v |> else s in (koffset s, s).

Definition arb_window (v : Z) (s : arb) : Z * arb :=
  let s := if (100 <=? v) && (v <=? AUTO_MAX_MS) then s <| kwindow := v |> else s in (kwindow s, s).

Definition arb_window_auto (v : Z) (s : arb) : bool * arb :=
  let s := if (0 <=? v) && negb (Bool.eqb (v =? 0) (negb (wauto s)))
           then s <| wauto := negb (v =? 0) |> <| wlogged := 0 |> else s in
  (wauto s, s).

Definition arb_web_key (s : arb) : option bytes :=
  if running s && in_net s then Some (blake2b_keyed 32 (net_key s) (str "hassmic web voucher 1")) else None.

Definition arb_derive (label : bytes) (s : arb) : option bytes :=
  if running s && in_net s then Some (blake2b_keyed 32 (net_key s) label) else None.

(** A member by its node name: its id and address *)
Definition arb_member (nd : bytes) (now : Z) (s : arb) : option (bytes * Z) :=
  if running s && in_net s then
    match find_index (fun p => ago (p_seen p) now (PEER_TTL_MS (pace s)) && negb (p_ip p =? 0)
                               && same (p_node p) nd) (peers s) with
    | Some i => let p := peers s !!! i in Some (p_id p, p_ip p)
    | None => None
    end
  else None.

Definition msg_body (net : Z) (from to : bytes) (c : Z) (p : bytes) : bytes :=
  put (put (put64 (put (put (put64 (head T_MSG) net) from) to) c) [u8 (Z.of_nat (length p))]) p.

(** A message for the member [to] alone *)
Definition arb_tell (to p : bytes) (s : arb) : Z * arb :=
  if (ARB_MSG_MAX <? Z.of_nat (length p)) || negb (running s && in_net s) then (-1, s) else
  let '(c, s) := next_ctr s in
  (0, send_pkt (tag (mac_key s) (msg_body (net_id s) (take 8 (pk s)) to c p)) s).

Definition arb_self (s : arb) : bytes := take 8 (pk s).
Definition arb_peers (now : Z) (s : arb) : Z := if running s then count_peers now s else 0.
Definition arb_rounds (now : Z) (s : arb) : bool :=
  running s && arbitrate s && in_net s && negb (bool_decide (mode s = ARB_KIOSK)) && negb (count_peers now s =? 0).

(** The identity: read from state/arb_key ([stored]), or made up without a counter *)
Definition identity (renew : bool) (stored : option bytes) (s : arb) : arb :=
  let '(k, s) := match stored with
    | Some k => if negb renew && (length k =? 32)%nat then (k, s) else ws_random 32 s
    | None => ws_random 32 s
    end in
  s <| sk := k |> <| pk := x25519_public_key k |>.

(** [arb_start], its sockets and thread opened without an error *)
Definition arb_start (nd : bytes) (file : list state_line) (stored : option bytes) (now : Z) (s : arb) : arb :=
  let s := s <| beacon_gap := BEACON_MIN_MS (pace s) |> <| node := take 63 nd |> in
  let s := load file s in
  let s := identity (negb (ctr_known s)) stored s in
  let s := s <| kid := hex_of (take 8 (pk s)) |> <| self_tag := str "hassmic_" ++ hex_of (pk s) |> in
  let s := s <| ctr := ctr_saved s |> <| ctr_saved := u64 (ctr_saved s + CTR_BLOCK) |> in
  let s := save s in
  s <| has_wake := true |> <| started := now |> <| hello_until := now + BEACON_MAX_MS (pace s) |> <| running := true |>.

End loop.
