(* ===== verification/ArbDemo.v ===== *)
(** * Wake word arbitration: two concrete Echos
    Two Echos of one network, started, heard of each other, in a round of the same wake
    word with their claims exchanged: the inputs at which the theorems are instantiated. *)
From Stdlib Require Import PrimFloat.
From S2P Require Import Prelude Cbits Crypto ArbState ArbPacket ArbTables ArbNet ArbKiosk ArbRound ArbRecv ArbLoop.
Export Toy.

#[export] Instance libm : Libm := { exp _ := 0.5%float }.

Definition boot (n : Z) : arb :=
  arb_start (str "echo") [L_arbitrate true; L_ctr 100; L_net 5 (le_bytes 32 77)] (Some (le_bytes 32 n)) 1000 arb0.

Definition sent (s : arb) : list bytes := omap (fun e => match e with E_send p => Some p | _ => None end) (out s).
Definition nothing : input := mk_input None None false (fun _ => false).
Definition got (p : bytes) : input := mk_input (Some (p, 7)) None false (fun _ => false).

(** [b] hears everything [a] sent *)
Definition hears (b a : arb) (now : Z) : arb := fold_left (fun s p => on_packet p now 7 s) (sent a) b.
Definition quiet (s : arb) : arb := s <| out := [] |>.

Definition a0 : arb := Eval vm_compute in loop_turn nothing 1500 (boot 1).
Definition b0 : arb := Eval vm_compute in loop_turn nothing 1500 (boot 2).
Definition a1 : arb := Eval vm_compute in quiet (hears a0 b0 1600).
Definition b1 : arb := Eval vm_compute in quiet (hears b0 a0 1600).

(** both heard "alexa"; [a] better *)
Definition a2 : arb := Eval vm_compute in snd (arb_claim (str "alexa") 500 0 3000 a1).
Definition b2 : arb := Eval vm_compute in snd (arb_claim (str "alexa") 300 0 3010 b1).
Definition a3 : arb := Eval vm_compute in quiet (hears a2 b2 3050).
Definition b3 : arb := Eval vm_compute in quiet (hears b2 a2 3050).

Example demo_counts : count_peers 3000 a3 = 1 /\ count_peers 3000 b3 = 1.
Proof. vm_compute. done. Qed.
Example demo_decides : fst (arb_decide 3500 a3) = true /\ fst (arb_decide 3500 b3) = false.
Proof. vm_compute. done. Qed.
