(* ===== verification/ArbElect.v ===== *)
(** * Wake word arbitration: one Echo answers
    The order claims are compared by is total on Echos with different keys, so among
    Echos that know each other's claims exactly one decides for itself; and a claim
    that says it won silences whoever gets it before deciding. *)
From S2P Require Import Prelude Cbits Crypto ArbState ArbPacket ArbTables ArbNet ArbKiosk ArbRound ArbRecv ArbLoop ArbDemo.

(** ** The order *)

(** What a claim is compared by: priority, score, id. *)
Definition rank := (Z * Z * bytes)%type.
Definition outranks (a b : rank) : bool :=
  let '(p, sc, id) := a in let '(p', sc', id') := b in
  (p' <? p) || ((p =? p') && ((sc' <? sc) || ((sc =? sc') && bool_decide (memcmp id id' = Gt)))).

Lemma memcmp_gt a b : memcmp a b = Gt <-> memcmp b a = Lt.
Proof. rewrite (memcmp_antisym a b). by destruct (memcmp a b). Qed.

Lemma outranks_spec a b :
  outranks a b = true <->
  let '(p, sc, id) := a in let '(p', sc', id') := b in
  p' < p \/ (p = p' /\ (sc' < sc \/ (sc = sc' /\ memcmp id' id = Lt))).
Proof.
  destruct a as [[p sc] id], b as [[p' sc'] id']. simpl.
  rewrite orb_true_iff, andb_true_iff, orb_true_iff, andb_true_iff, !Z.ltb_lt, !Z.eqb_eq,
    bool_decide_eq_true, memcmp_gt. done.
Qed.

Lemma outranks_asym a b : outranks a b = true -> outranks b a = false.
Proof.
  intros H. apply not_true_iff_false. intros H'. apply outranks_spec in H, H'.
  destruct a as [[p sc] id], b as [[p' sc'] id']. simpl in *.
  assert (memcmp id id' = Lt -> memcmp id' id = Lt -> False)
    by (intros Hm; rewrite (memcmp_antisym id id'), Hm; done).
  intuition lia.
Qed.

Lemma outranks_trans a b c : outranks a b = true -> outranks b c = true -> outranks a c = true.
Proof.
  rewrite !outranks_spec. destruct a as [[p sc] id], b as [[p' sc'] id'], c as [[p'' sc''] id''].
  simpl. pose proof (memcmp_lt_trans id'' id' id) as T. intuition (subst; try lia; auto 6 with lia).
Qed.

Lemma outranks_total a b : a.2 <> b.2 -> outranks a b = true \/ outranks b a = true.
Proof.
  rewrite !outranks_spec. destruct a as [[p sc] id], b as [[p' sc'] id']. simpl. intros Hid.
  pose proof (memcmp_eq id id') as [He _]. pose proof (memcmp_antisym id id') as Ha.
  assert (memcmp id id' = Lt \/ memcmp id' id = Lt) by (destruct (memcmp id id'); naive_solver).
  destruct (Z.lt_trichotomy p p') as [|[|]], (Z.lt_trichotomy sc sc') as [|[|]]; intuition lia.
Qed.

(** [beats] is this order, save that a claim that won always does. *)
Lemma beats_outranks r pk k :
  beats r pk k = k_won k || outranks (k_prio k, k_score k, k_id k) (r_prio r, r_score r, take 8 pk).
Proof. unfold beats, outranks. by rewrite orb_assoc. Qed.

(** ** A round among several Echos *)
Definition own_rank (s : arb) : rank := (r_prio (round_ s), r_score (round_ s), take 8 (pk s)).

(** Echo [s] holds, among the claims of its round, exactly the claims of the Echos [l]:
    the others' that take part. *)
Definition knows (s : arb) (l : list arb) : Prop :=
  (forall k, k ∈ claims s -> of_round (round_ s) k = true ->
    k_won k = false /\ exists t, t ∈ l /\ (k_prio k, k_score k, k_id k) = own_rank t) /\
  (forall t, t ∈ l -> exists k, k ∈ claims s /\ of_round (round_ s) k = true /\ k_won k = false /\
    (k_prio k, k_score k, k_id k) = own_rank t).

(** Every Echo of [ss] is in a round of the network's kind, and has everybody else's claim. *)
Definition heard_all (ss : list arb) : Prop :=
  forall i s, ss !! i = Some s -> r_kiosk (round_ s) = false /\ knows s (take i ss ++ drop (S i) ss).

Definition wins `{Crypto} (now : Z) (s : arb) : bool := fst (arb_decide now s).

Section elect_arb.
Context `{Crypto}.

Lemma arb_decide_fst now s :
  r_kiosk (round_ s) = false -> fst (arb_decide now s) = negb (beaten s).
Proof.
  intros Hk. unfold arb_decide. rewrite Hk. by case_match; [case_match|].
Qed.

Lemma elem_of_others {A} (l : list A) i y :
  y ∈ take i l ++ drop (S i) l <-> exists j, j <> i /\ l !! j = Some y.
Proof.
  rewrite elem_of_app, !list_elem_of_lookup. split.
  - intros [[j Hj]|[j Hj]].
    + apply lookup_take_Some in Hj as [? ?]. exists j. split; [lia|done].
    + rewrite lookup_drop in Hj. exists (S i + j)%nat. split; [lia|done].
  - intros (j & Hne & Hj). destruct (decide (j < i)%nat).
    + left. exists j. by apply lookup_take_Some.
    + right. exists (j - S i)%nat. rewrite lookup_drop.
      by replace (S i + (j - S i))%nat with j by lia.
Qed.

Lemma knows_beaten s l :
  knows s l -> beaten s = existsb (fun t => outranks (own_rank t) (own_rank s)) l.
Proof.
  intros [Hin Hout]. apply eq_true_iff_eq. unfold beaten. rewrite !existsb_elem. split.
  - intros (k & Hk & [Hr Hb]%andb_true_iff). destruct (Hin k Hk Hr) as (Hw & t & Ht & Hkt).
    exists t. split; [done|]. rewrite beats_outranks, Hw, Hkt in Hb. done.
  - intros (t & Ht & Hb). destruct (Hout t Ht) as (k & Hk & Hr & Hw & Hkt).
    exists k. split; [done|]. by rewrite Hr, beats_outranks, Hw, Hkt.
Qed.

(** C1. In a round in which every Echo holds everybody else's claim, exactly one of
    them decides that it won, whatever their scores and priorities: different Echos have
    different ids, and priority, score and id are compared by one total order. *)
Theorem one_echo_answers (now : Z) (ss : list arb) :
  ss <> [] -> NoDup (map arb_self ss) -> heard_all ss ->
  exists! i, exists s, ss !! i = Some s /\ fst (arb_decide now s) = true.
Proof.
  intros Hne Hnd Hall.
  assert (forall i, (exists s, ss !! i = Some s /\ fst (arb_decide now s) = true) <->
    unbeaten (fun a b => outranks (own_rank a) (own_rank b)) ss i) as Hiff.
  { intros i. split; intros (s & Hs & Hw); exists s; (split; [done|]);
      destruct (Hall i s Hs) as [Hk Hkn].
    - rewrite arb_decide_fst, (knows_beaten _ _ Hkn) in Hw by done. apply negb_true_iff in Hw.
      intros j y Hj Hy. apply (proj1 (existsb_false_elem _ _) Hw). apply elem_of_others; eauto.
    - rewrite arb_decide_fst, (knows_beaten _ _ Hkn) by done.
      apply negb_true_iff, existsb_false_elem. intros y (j & Hj & Hy)%elem_of_others. by apply (Hw j). }
  destruct (elect_unique (fun a b => outranks (own_rank a) (own_rank b))
              (fun _ _ => outranks_asym _ _) (fun _ b _ => outranks_trans _ (own_rank b) _) ss Hne)
    as (i & Hi & Hu).
  - intros i j x y Hij Hx Hy. apply outranks_total. intros Hid. apply Hij.
    eapply (NoDup_lookup _ i j (arb_self x) Hnd); rewrite list_lookup_fmap.
    + by rewrite Hx.
    + rewrite Hy. simpl. by f_equal.
  - exists i. split; [by apply Hiff|]. intros j Hj. apply Hu. by apply Hiff.
Qed.
End elect_arb.

(** [knows] on concrete states: every claim of the round is one of [l]'s *)
Ltac know_all :=
  split; [intros k Hk Hr; repeat (apply elem_of_cons in Hk as [->|Hk]; [try (vm_compute in Hr; discriminate)|]);
          try (apply elem_of_nil in Hk; done)|].

Lemma one_echo_answers_witness :
  exists! i, exists s, [a3; b3] !! i = Some s /\ fst (arb_decide 3500 s) = true.
Proof.
  apply (one_echo_answers 3500 [a3; b3]); [done| |].
  - rewrite <- (bool_decide_eq_true (NoDup _)). vm_compute. reflexivity.
  - intros i s Hs. destruct i as [|[|i]]; [| |done].
    + injection Hs as <-. split; [reflexivity|]. know_all.
      * split; [reflexivity|]. exists b3. split; [apply list_elem_of_here|vm_compute; reflexivity].
      * intros t [->|[]%elem_of_nil]%elem_of_cons. eexists. split; [apply list_elem_of_here|].
        split_and!; vm_compute; reflexivity.
    + injection Hs as <-. split; [reflexivity|]. know_all.
      * split; [reflexivity|]. exists a3. split; [apply list_elem_of_here|vm_compute; reflexivity].
      * intros t [->|[]%elem_of_nil]%elem_of_cons. eexists. split; [apply list_elem_of_here|].
        split_and!; vm_compute; reflexivity.
Defined.

(** ** Kiosk Satellite's rounds *)
(** Louder first; as loud, the lower id *)
Definition louder (a b : Z * bytes) : bool :=
  (b.1 <? a.1) || ((a.1 =? b.1) && bool_decide (memcmp a.2 b.2 = Lt)).

Lemma louder_spec a b : louder a b = true <-> b.1 < a.1 \/ (a.1 = b.1 /\ memcmp a.2 b.2 = Lt).
Proof. unfold louder. by rewrite orb_true_iff, andb_true_iff, Z.ltb_lt, Z.eqb_eq, bool_decide_eq_true. Qed.

Lemma louder_asym a b : louder a b = true -> louder b a = false.
Proof.
  intros H. apply not_true_iff_false. intros H'. apply louder_spec in H, H'.
  assert (memcmp a.2 b.2 = Lt -> memcmp b.2 a.2 = Lt -> False)
    by (intros Hm; rewrite (memcmp_antisym a.2 b.2), Hm; done).
  intuition lia.
Qed.

Lemma louder_trans a b c : louder a b = true -> louder b c = true -> louder a c = true.
Proof.
  rewrite !louder_spec. pose proof (memcmp_lt_trans a.2 b.2 c.2) as T.
  intuition (try lia; auto 6 with lia zarith).
Qed.

Lemma louder_total a b : a.2 <> b.2 -> louder a b = true \/ louder b a = true.
Proof.
  rewrite !louder_spec. intros Hid. pose proof (memcmp_eq a.2 b.2) as [He _].
  pose proof (memcmp_antisym a.2 b.2) as Ha.
  assert (memcmp a.2 b.2 = Lt \/ memcmp b.2 a.2 = Lt) by (destruct (memcmp a.2 b.2); naive_solver).
  destruct (Z.lt_trichotomy a.1 b.1) as [|[|]]; intuition lia.
Qed.

Definition kiosk_rank (s : arb) : Z * bytes := (kr_e (kround s), kid s).

(** a claim for our phrase, heard within our window *)
Definition kiosk_of_round (s : arb) (k : kclaim_t) : bool :=
  negb ((kc_at k =? 0) || (kwindow s <? Z.abs (kc_at k - r_at (round_ s))) || negb (same (kc_p k) (kr_p (kround s)))).

Definition kiosk_knows (s : arb) (l : list arb) : Prop :=
  (forall k, k ∈ kclaims s -> kiosk_of_round s k = true -> exists t, t ∈ l /\ (kc_e k, kc_id k) = kiosk_rank t) /\
  (forall t, t ∈ l -> exists k, k ∈ kclaims s /\ kiosk_of_round s k = true /\ (kc_e k, kc_id k) = kiosk_rank t).

Lemma kiosk_knows_decide s l :
  kiosk_knows s l -> kiosk_decide s = negb (existsb (fun t => louder (kiosk_rank t) (kiosk_rank s)) l).
Proof.
  intros [Hin Hout]. unfold kiosk_decide. f_equal. apply eq_true_iff_eq. rewrite !existsb_elem. split.
  - intros (k & Hk & [Hr Hb]%andb_true_iff). destruct (Hin k Hk Hr) as (t & Ht & Hkt).
    exists t. split; [done|]. by rewrite <- Hkt.
  - intros (t & Ht & Hb). destruct (Hout t Ht) as (k & Hk & Hr & Hkt).
    exists k. split; [done|]. unfold kiosk_beats. fold (kiosk_of_round s k). rewrite Hr. by rewrite <- Hkt in Hb.
Qed.

(** In Kiosk Satellite mode too exactly one answers: among devices that hold
    everybody else's claim for their phrase, with different ids, the loudest, and among
    equally loud ones the one with the lowest id, is the only one to decide it won. *)
Theorem one_kiosk_answers (now : Z) (ss : list arb) :
  ss <> [] -> NoDup (map kid ss) ->
  (forall i s, ss !! i = Some s -> r_kiosk (round_ s) = true /\ kiosk_knows s (take i ss ++ drop (S i) ss)) ->
  exists! i, exists s, ss !! i = Some s /\ fst (arb_decide now s) = true.
Proof.
  intros Hne Hnd Hall.
  assert (forall i, (exists s, ss !! i = Some s /\ fst (arb_decide now s) = true) <->
    unbeaten (fun a b => louder (kiosk_rank a) (kiosk_rank b)) ss i) as Hiff.
  { intros i. split; intros (s & Hs & Hw); exists s; (split; [done|]); destruct (Hall i s Hs) as [Hk Hkn].
    - unfold arb_decide in Hw. rewrite Hk in Hw. cbn [fst] in Hw.
      rewrite (kiosk_knows_decide _ _ Hkn) in Hw. apply negb_true_iff in Hw.
      intros j y Hj Hy. apply (proj1 (existsb_false_elem _ _) Hw). apply elem_of_others; eauto.
    - unfold arb_decide. rewrite Hk. cbn [fst]. rewrite (kiosk_knows_decide _ _ Hkn).
      apply negb_true_iff, existsb_false_elem. intros y (j & Hj & Hy)%elem_of_others. by apply (Hw j). }
  destruct (elect_unique (fun a b => louder (kiosk_rank a) (kiosk_rank b))
              (fun _ _ => louder_asym _ _) (fun _ b _ => louder_trans _ (kiosk_rank b) _) ss Hne)
    as (i & Hi & Hu).
  - intros i j x y Hij Hx Hy. apply louder_total. intros Hid. apply Hij.
    eapply (NoDup_lookup _ i j (kid x) Hnd); rewrite list_lookup_fmap; [by rewrite Hx|].
    rewrite Hy. simpl. by f_equal.
  - exists i. split; [by apply Hiff|]. intros j Hj. apply Hu. by apply Hiff.
Qed.

Definition kiosk_echo (id : string) (e : Z) (other : string) (oe : Z) : arb :=
  arb0 <| kid := str id |> <| kround := mk_kround (str "alexa") e |>
       <| round_ := no_round <| r_kiosk := true |> <| r_at := 3000 |> |>
       <| kclaims := [mk_kclaim (str other) (str "alexa") 7 3040 oe] |>.

Lemma one_kiosk_answers_witness :
  exists! i, exists s, [kiosk_echo "aa" 50 "bb" 50; kiosk_echo "bb" 50 "aa" 50] !! i = Some s /\
    fst (arb_decide 3500 s) = true.
Proof.
  apply (one_kiosk_answers 3500 [kiosk_echo "aa" 50 "bb" 50; kiosk_echo "bb" 50 "aa" 50]); [done| |].
  - rewrite <- (bool_decide_eq_true (NoDup _)). vm_compute. reflexivity.
  - intros i s Hs. destruct i as [|[|i]]; [| |done]; injection Hs as <-; (split; [reflexivity|]); split.
    1, 3: intros k [->|[]%elem_of_nil]%elem_of_cons _; eexists; (split; [apply list_elem_of_here|]);
          vm_compute; reflexivity.
    all: intros t [->|[]%elem_of_nil]%elem_of_cons; eexists; (split; [apply list_elem_of_here|]);
         split; vm_compute; reflexivity.
Defined.
