(* ===== verification/ArbSteps.v ===== *)
(** * Wake word arbitration: what every step keeps
    [evolves n s s'] is what holds between the state before and after any operation
    that draws at most [n] counters: the fixed arrays keep their size and the counted
    ones stay within theirs, a network is only left for one with a lower id, the
    counter goes up and stays below the value on disk.  Every operation of arb.h and
    every turn of the loop is such a step ([evolves_step]). *)
From S2P Require Import Prelude Cbits Crypto ArbState ArbPacket ArbTables ArbNet ArbKiosk ArbRound ArbRecv ArbLoop.

(** ** Array bounds *)
Record shape (s : arb) : Prop := mk_shape {
  sh_peers : length (peers s) = NPEER;
  sh_claims : length (claims s) = NCLAIM;
  sh_cands : length (cands s) = NPEER;
  sh_preqs : length (preqs s) = NPEER;
  sh_rivals : length (rivals s) = NPEER;
  sh_obs : Forall (fun v => length (v_o v) = 64%nat /\ 0 <= v_n v <= OBS_KEEP) (rivals s);
  sh_delays : length (delays s) = 64%nat;
  sh_copies : length (copies s) = 2%nat;
  sh_kclaims : length (kclaims s) = NCLAIM;
  sh_got : (length (r_got (round_ s)) <= NPEER)%nat;
  sh_want : (length (r_want (round_ s)) <= NPEER)%nat;
  sh_heard : (length (r_heard (round_ s)) <= NPEER)%nat;
  sh_pushes : (length (pushes s) <= NPEER)%nat;
  sh_polls : (length (polls s) <= NPEER)%nat;
  sh_msgs : (length (msgs s) <= NMSG)%nat }.

Lemma shape0 : shape arb0.
Proof. split; try done; try (cbn; lia). by apply Forall_replicate. Qed.

(** ** The counter and the disk *)

(** state/arbitration after the effects [o], [file] before them *)
Definition disk (file : list state_line) (o : list effect) : list state_line :=
  fold_left (fun d e => match e with E_save l => l | _ => d end) o file.

(** the counter [load] reads *)
Definition disk_ctr (file : list state_line) : Z :=
  fold_left (fun c l => match l with L_ctr v => v | _ => c end) file 0.

#[global] Arguments disk : simpl never.
#[global] Arguments disk_ctr : simpl never.
#[global] Arguments saved_lines : simpl never.

Definition ctr_ok (file : list state_line) (s : arb) : Prop :=
  0 <= ctr s < ctr_saved s /\ ctr_saved s <= ctr s + CTR_BLOCK /\
  disk_ctr (disk file (out s)) = ctr_saved s.

Lemma disk_snoc file o e :
  disk file (o ++ [e]) = match e with E_save l => l | _ => disk file o end.
Proof. unfold disk. by rewrite fold_left_app. Qed.

Lemma disk_ctr_saved s : disk_ctr (saved_lines s) = ctr_saved s.
Proof.
  unfold saved_lines. cbn [app]. unfold disk_ctr. cbn [fold_left].
  rewrite !fold_left_app.
  assert (forall A (f : A -> option state_line) l c,
    (forall x v, f x <> Some (L_ctr v)) ->
    fold_left (fun c l => match l with L_ctr v => v | _ => c end) (omap f l) c = c) as Hf.
  { intros A f l c Hf. revert c. induction l as [|x l IH]; intros c; simpl; [done|].
    destruct (f x) as [y|] eqn:Hx; simpl; [|apply IH].
    rewrite IH. destruct y; try done. by destruct (Hf x v). }
  rewrite !Hf; [|intros; by case_match..]. by destruct (in_net s).
Qed.

(** ** Evolution *)
Record evolves (n : Z) (s s' : arb) : Prop := mk_evolves {
  ev_pos : 0 <= n;
  ev_shape : shape s -> shape s';
  ev_net : in_net s = true -> in_net s' = true /\ net_id s' <= net_id s;
  ev_ctr : forall file, ctr s + n < 2 ^ 63 -> ctr_ok file s ->
    ctr_ok file s' /\ ctr s <= ctr s' <= ctr s + n }.

Lemma evolves_trans n m s s' s'' : evolves n s s' -> evolves m s' s'' -> evolves (n + m) s s''.
Proof.
  intros [? Hs Hn Hc] [? Hs' Hn' Hc']. split; [lia|auto| |].
  - intros Hin. destruct (Hn Hin) as [Hin' ?]. destruct (Hn' Hin'). split; [done|lia].
  - intros file Hb Hok. destruct (Hc file) as [Hok' ?]; [lia|done|].
    destruct (Hc' file) as [? ?]; [lia|done|]. split; [done|lia].
Qed.

Lemma evolves_le n m s s' : evolves n s s' -> n <= m -> evolves m s s'.
Proof.
  intros [? Hs Hn Hc] Hle. split; [lia|done|done|]. intros file Hb Hok.
  destruct (Hc file) as [? ?]; [lia|done|]. split; [done|lia].
Qed.

Lemma evolves_0_1 s s' : evolves 0 s s' -> evolves 1 s s'.
Proof. intros He. by apply (evolves_le 0). Qed.

Lemma evolves_0_trans n s s' s'' : evolves 0 s s' -> evolves n s' s'' -> evolves n s s''.
Proof. intros. change n with (0 + n). by eapply evolves_trans. Qed.

Lemma evolves_trans_0 n s s' s'' : evolves n s s' -> evolves 0 s' s'' -> evolves n s s''.
Proof. intros. replace n with (n + 0) by lia. by eapply evolves_trans. Qed.

Lemma evolves_refl s : evolves 0 s s.
Proof. split; [lia|done|intros; split; done || lia|intros; split; done || lia]. Qed.

(** An update of fields that [evolves] does not speak of, or within its bounds *)
Ltac ev_field :=
  split; [lia
         |intros []; split; cbn;
          rewrite ?length_insert, ?length_alter, ?length_map, ?length_replicate, ?length_app; cbn;
          try done; try (unfold NPEER, NMSG, NCLAIM in *; lia)
         |intros; cbn; try (split; done || lia)
         |intros ? ? (? & ? & ?); unfold ctr_ok; cbn in *; rewrite ?disk_snoc in *; cbn in *; split_and!; try done; try lia].

Lemma evolves_fold {A} (f : arb -> A -> arb) l s :
  (forall s x, evolves 0 s (f s x)) -> evolves 0 s (fold_left f l s).
Proof.
  intros Hf. revert s. induction l as [|x l IH]; intros s; simpl; [apply evolves_refl|].
  eapply evolves_0_trans; [apply Hf|apply IH].
Qed.

Create HintDb evolve.
#[export] Hint Resolve evolves_refl : evolve.

Lemma evolves_emit e s : (forall l, e <> E_save l) -> evolves 0 s (emit e s).
Proof. intros He. unfold emit. ev_field. destruct e; try done. by destruct (He l). Qed.

Lemma evolves_save s : evolves 0 s (save s).
Proof. unfold save, emit. ev_field. apply disk_ctr_saved. Qed.
#[export] Hint Extern 1 (evolves 0 ?s (emit _ ?s)) => (apply evolves_emit; done) : evolve.
#[export] Hint Resolve evolves_save : evolve.

Lemma evolves_next_ctr s : evolves 1 s (next_ctr s).2.
Proof.
  unfold next_ctr. split; [lia| | |].
  - intros []. case_match; by split.
  - intros. case_match; cbn; split; done || lia.
  - intros file Hb (? & ? & Hd). unfold CTR_BLOCK in *. cbn.
    rewrite (u64_id (ctr s + 1)) by lia. case_match; bsimp; unfold ctr_ok; cbn -[saved_lines disk].
    + rewrite disk_snoc, disk_ctr_saved. cbn. rewrite u64_id by lia. unfold CTR_BLOCK. lia.
    + unfold CTR_BLOCK. split_and!; try done; lia.
Qed.
#[export] Hint Resolve evolves_next_ctr : evolve.

(** Compositions: the goal's outermost operation last. *)
Ltac ev_step H := eapply evolves_trans_0; [|H].
Ltac ev_auto := eauto 2 with evolve.

(** ** Tables *)
Lemma peer_length id ps : length (peer id ps).2 = length ps.
Proof. unfold peer. case_match; simpl; [done|apply length_insert]. Qed.

Lemma fresh_length id c now ps : length (fresh id c now ps).2 = length ps.
Proof.
  unfold fresh. pose proof (peer_length id ps) as Hl. destruct (peer id ps) as [i ps'].
  simpl in Hl. repeat case_match; simpl; rewrite ?length_insert; done.
Qed.

Lemma cand_length pub cs : length (cand pub cs).2 = length cs.
Proof. unfold cand. case_match; simpl; [done|apply length_insert]. Qed.

Lemma rival_make_length id vs : length (rival_make id vs).2 = length vs.
Proof. unfold rival_make. case_match; simpl; [done|apply length_insert]. Qed.

Definition obs_ok (v : rival_t) : Prop := length (v_o v) = 64%nat /\ 0 <= v_n v <= OBS_KEEP.

Lemma no_rival_ok id : obs_ok (no_rival <| v_id := id |>).
Proof. by split. Qed.

Lemma rival_make_obs id vs : Forall obs_ok vs -> Forall obs_ok (rival_make id vs).2.
Proof.
  intros Hv. unfold rival_make. case_match; simpl; [done|].
  apply Forall_insert; [done|apply no_rival_ok].
Qed.

Lemma observe_ok v own d at_ : obs_ok v -> obs_ok (observe v own d at_).
Proof.
  intros [Hl Hn]. unfold observe, obs_ok, OBS_KEEP in *.
  case_match; bsimp; cbn; rewrite length_insert; lia.
Qed.

Lemma evolves_peers s ps :
  length ps = length (peers s) -> evolves 0 s (s <| peers := ps |>).
Proof. intros. ev_field. Qed.

Lemma evolves_cands s cs :
  length cs = length (cands s) -> evolves 0 s (s <| cands := cs |>).
Proof. intros. ev_field. Qed.

Lemma evolves_pushes s u :
  length (pushes s) <> NPEER -> evolves 0 s (s <| pushes ::= (fun l => l ++ [u]) |>).
Proof. intros. ev_field. Qed.

Lemma evolves_pair s u e : evolves 0 s (s <| pair_until := u |> <| pair_event := e |>).
Proof. ev_field. Qed.

Lemma evolves_sample id ms at_ s : evolves 0 s (sample id ms at_ s).
Proof.
  unfold sample. case_match; [ev_auto|]. destruct (Nat.eqb_spec (length (r_got (round_ s))) NPEER); [ev_auto|].
  ev_field.
Qed.

Lemma heard_length id at_ sc prio won r :
  (length (r_heard r) <= NPEER)%nat -> (length (r_heard (heard id at_ sc prio won r)) <= NPEER)%nat.
Proof.
  unfold heard. intros. case_match; [cbn; by rewrite length_alter|].
  destruct (Nat.ltb_spec (length (r_heard r)) NPEER); cbn; rewrite ?length_app; cbn; unfold NPEER in *; lia.
Qed.

Lemma heard_frame id at_ sc prio won r :
  r_got (heard id at_ sc prio won r) = r_got r /\ r_want (heard id at_ sc prio won r) = r_want r.
Proof. unfold heard. by repeat case_match. Qed.

Lemma evolves_heard id at_ sc prio won s :
  evolves 0 s (s <| round_ ::= heard id at_ sc prio won |>).
Proof.
  destruct (heard_frame id at_ sc prio won (round_ s)) as [Hg Hw].
  split; [lia| |intros; split; done || lia|intros ? ? (? & ? & ?); unfold ctr_ok; cbn; split_and!; done || lia].
  intros []; split; cbn; rewrite ?Hg, ?Hw; try done. by apply heard_length.
Qed.

(** A change of the round's other fields *)
Lemma evolves_round s r :
  (length (r_got r) <= NPEER)%nat \/ r_got r = r_got (round_ s) ->
  (length (r_want r) <= NPEER)%nat \/ r_want r = r_want (round_ s) ->
  (length (r_heard r) <= NPEER)%nat \/ r_heard r = r_heard (round_ s) ->
  evolves 0 s (s <| round_ := r |>).
Proof. intros Hg Hw Hh. ev_field; destruct Hg, Hw, Hh; congruence. Qed.

Lemma evolves_rivals_take cutoff s : evolves 0 s (rivals_take cutoff s).
Proof.
  assert (forall ws vs, length vs = NPEER -> Forall obs_ok vs ->
    let vs' := fold_left (fun vs w =>
      let d := difference (round_ s) cutoff (w_id w) in
      let '(i, vs) := rival_make (w_id w) vs in
      alter (fun v => observe v (r_score (round_ s)) d cutoff) i vs) ws vs in
    length vs' = NPEER /\ Forall obs_ok vs') as Hf.
  { induction ws as [|w ws IH]; intros vs Hl Ho; simpl; [done|]. apply IH.
    - pose proof (rival_make_length (w_id w) vs). destruct (rival_make _ _). simpl in *.
      rewrite length_alter. congruence.
    - pose proof (rival_make_obs (w_id w) vs Ho). destruct (rival_make _ _). simpl in *.
      apply Forall_alter; [done|]. intros. by apply observe_ok. }
  unfold rivals_take. split; [lia| |intros; split; done || lia
    |intros ? ? (? & ? & ?); unfold ctr_ok; cbn; split_and!; done || lia].
  intros []. destruct (Hf (r_want (round_ s)) (rivals s)) as [? ?]; [done..|].
  split; cbn; try done; lia.
Qed.
#[export] Hint Resolve evolves_sample evolves_heard evolves_rivals_take : evolve.

(** ** Sending, joining *)
Section net.
Context `{Crypto} `{Entropy} `{Libm}.

Lemma evolves_send_pkt b s : evolves 0 s (send_pkt b s).
Proof. apply evolves_emit. done. Qed.

Lemma evolves_send_spread b now s : evolves 0 s (send_spread b now s).
Proof.
  unfold send_spread.
  assert (forall i, evolves 0 s ((send_pkt b s) <| copies ::= <[i := mk_copy b now 2]> |>)) as Hc.
  { intros i. eapply evolves_0_trans; [apply (evolves_send_pkt b)|]. ev_field. }
  destruct (has_wake _); [|apply Hc]. eapply evolves_0_trans; [apply Hc|]. by apply evolves_emit.
Qed.
#[local] Hint Resolve evolves_send_pkt evolves_send_spread : evolve.

Lemma evolves_draws s n : evolves 0 s (s <| draws := n |>).
Proof. ev_field. Qed.
#[local] Hint Resolve evolves_draws : evolve.

Lemma evolves_beacon answer now s : evolves 1 s (beacon answer now s).
Proof.
  unfold beacon. case_match.
  - pose proof (evolves_next_ctr s) as Hc. destruct (next_ctr s) as [c s1]. simpl in Hc.
    eapply evolves_trans_0; [exact Hc|]. apply evolves_send_pkt.
  - eapply evolves_le; [apply evolves_send_pkt|lia].
Qed.

(** A network is joined outside one, or when its id is lower. *)
Lemma evolves_adopt k id now s :
  (in_net s = true -> id <= net_id s) -> evolves 0 s (adopt k id now s).
Proof.
  intros Hid. unfold adopt, save, emit. ev_field.
  - split; [done|]. auto.
  - by rewrite disk_ctr_saved.
Qed.

Lemma evolves_draw_id fuel id s : evolves 0 s (draw_id fuel id s).2.
Proof.
  revert id s. induction fuel as [|fuel IH]; intros id s; simpl; [ev_auto|].
  case_match; [|ev_auto]. eapply evolves_0_trans; [|apply IH]. ev_field.
Qed.

Lemma draw_id_frame fuel id s : in_net (draw_id fuel id s).2 = in_net s.
Proof.
  revert id s. induction fuel as [|fuel IH]; intros id s; simpl; [done|].
  case_match; [|done]. by rewrite IH.
Qed.

Lemma evolves_create now s : in_net s = false -> evolves 0 s (create now s).
Proof.
  intros Hn. unfold create, ws_random.
  set (s1 := s <| draws ::= S |>).
  pose proof (evolves_draw_id draw_bound 0 s1) as Hd.
  pose proof (draw_id_frame draw_bound 0 s1) as Hf.
  destruct (draw_id draw_bound 0 s1) as [id s2]. simpl in Hd, Hf.
  eapply evolves_0_trans; [apply (evolves_draws s (S (draws s)))|].
  eapply evolves_0_trans; [exact Hd|]. apply evolves_adopt. congruence.
Qed.

Lemma evolves_seal to s : evolves 0 s (seal to s).2.
Proof.
  unfold seal, ws_random. case_match; [|ev_auto]. destruct (aead_lock _ _ _ _). simpl. ev_auto.
Qed.

Lemma seal_frame to s : (seal to s).2 = s \/ (seal to s).2 = s <| draws ::= S |>.
Proof. unfold seal, ws_random. case_match; [|by left]. destruct (aead_lock _ _ _ _). by right. Qed.

Lemma evolves_take_key id blob now s : evolves 0 s (take_key id blob now s).2.
Proof.
  unfold take_key. case_match; [ev_auto|]. destruct (in_net s && (net_id s <=? id)) eqn:Hn; [ev_auto|].
  case_match; [|ev_auto]. simpl.
  assert (evolves 0 s (adopt l id now s)) as Ha.
  { apply evolves_adopt. intros Hin. rewrite Hin in Hn. simpl in Hn. bsimp. lia. }
  case_match; [done|]. eapply evolves_0_trans; [exact Ha|apply evolves_pair].
Qed.

Lemma evolves_push i now s : evolves 0 s (push i now s).
Proof.
  unfold push. case_match; [ev_auto|].
  pose proof (evolves_seal (c_pub (cands s !!! i)) s) as Hs.
  pose proof (seal_frame (c_pub (cands s !!! i)) s) as Hf.
  case_match.
  - case_match; [ev_auto|]. destruct (seal _ s) as [[blob|] s1]; simpl in Hs; [|done].
    eapply evolves_0_trans; [exact Hs|]. do 2 (eapply evolves_trans_0; [|apply evolves_send_pkt]).
    apply evolves_cands. apply length_alter.
  - destruct (Nat.eqb_spec (length (pushes s)) NPEER).
    + rewrite orb_true_r. ev_auto.
    + rewrite orb_false_r. case_match; [ev_auto|]. destruct (seal _ s) as [[blob|] s1]; simpl in Hs, Hf; [|done].
      eapply evolves_0_trans; [exact Hs|]. eapply evolves_0_trans; [apply evolves_cands, length_alter|].
      apply evolves_pushes. by destruct Hf as [->| ->].
Qed.

Lemma evolves_poll_tag pub s : evolves 0 s (poll_tag pub s).
Proof.
  unfold poll_tag. destruct (Nat.ltb_spec (length (polls s)) NPEER); [|ev_auto]. ev_field.
Qed.
End net.
#[export] Hint Resolve evolves_send_pkt evolves_send_spread evolves_draws evolves_beacon evolves_draw_id
  evolves_seal evolves_take_key evolves_push evolves_poll_tag : evolve.

(** ** Receiving *)
(** Run the outermost operation of the goal as one step *)
Ltac ev_last L := eapply evolves_trans_0; [|apply L].
Ltac ev_fst L := eapply evolves_0_trans; [apply L|].

(** one of the round's fields that no bound is on *)
Ltac ev_round := apply evolves_round; cbn; auto.

Section receive.
Context `{Crypto} `{Entropy} `{Libm}.

Lemma evolves_claims s l n :
  length l = length (claims s) -> evolves 0 s (s <| claims := l |> <| claim_next := n |>).
Proof. intros. ev_field. Qed.

Lemma evolves_msgs s m :
  (length (msgs s) <> NMSG)%nat -> evolves 0 s (s <| msgs ::= (fun l => l ++ [m]) |>).
Proof. intros. ev_field. Qed.

Lemma evolves_preqs s l : length l = length (preqs s) -> evolves 0 s (s <| preqs := l |>).
Proof. intros. ev_field. Qed.

Lemma evolves_beacons s at_ : evolves 0 s (s <| answer_at := at_ |>).
Proof. ev_field. Qed.

Lemma evolves_sped s a n : evolves 0 s (s <| sped := a |> <| scans := n |>).
Proof. ev_field. Qed.

Lemma evolves_claim_in c k now s : evolves 0 s (claim_in c k now s).
Proof.
  unfold claim_in. pose proof (fresh_length (k_id k) c now (peers s)) as Hl.
  destruct (fresh _ _ _ _) as [f ps]. simpl in Hl.
  ev_fst (evolves_peers s ps Hl). destruct f; [|ev_auto]. cbn [negb].
  set (s1 := s <| peers := ps |>).
  ev_fst (evolves_claims s1 (<[Z.to_nat (claim_next s1 mod Z.of_nat NCLAIM) := k]> (claims s1))
            (u32 (claim_next s1 + 1))); [apply length_insert|].
  case_match; [|ev_auto]. destruct (k_won k); [ev_auto|]. ev_fst evolves_heard. ev_auto.
Qed.

Lemma evolves_on_claim p r now s : evolves 0 s (on_claim p r now s).
Proof. unfold on_claim. repeat case_match; try ev_auto. apply evolves_claim_in. Qed.

Lemma evolves_on_msg p r now ip s : evolves 0 s (on_msg p r now ip s).
Proof.
  unfold on_msg. repeat (case_match; try ev_auto).
  all: match goal with Hf : fresh ?id ?c ?n ?p = (_, ?ps), Hp : peer ?id' ?ps' = (_, ?qs) |- _ =>
    pose proof (fresh_length id c n p) as Hl; rewrite Hf in Hl;
    pose proof (peer_length id' ps') as Hl'; rewrite Hp in Hl' | Hf : fresh ?id ?c ?n ?p = (_, ?ps) |- _ =>
    pose proof (fresh_length id c n p) as Hl; rewrite Hf in Hl end.
  all: simpl in *; ev_fst evolves_peers; [exact Hl|]; try ev_auto.
  all: ev_fst evolves_peers; [exact Hl'|]; apply evolves_msgs; simpl.
  all: match goal with H : negb _ || (?a =? ?b)%nat = false |- _ =>
         apply orb_false_iff in H as [_ H]; by apply Nat.eqb_neq in H end.
Qed.

Lemma evolves_on_give r now s : evolves 0 s (on_give r now s).
Proof. unfold on_give. repeat (case_match; try ev_auto). Qed.

Lemma evolves_on_pair r now s : evolves 0 s (on_pair r now s).
Proof.
  unfold on_pair. repeat (case_match; try ev_auto); apply evolves_preqs, length_insert.
Qed.

Lemma evolves_on_member_beacon p pub nd r now ip s : evolves 1 s (on_member_beacon p pub nd r now ip s).
Proof.
  unfold on_member_beacon. case_match. case_match; [apply evolves_0_1; ev_auto|].
  match goal with |- context [fresh _ _ _ (peers ?s0)] => set (s1 := s0) end.
  assert (evolves 0 s s1) as Hs1 by (apply evolves_cands, length_map).
  eapply evolves_0_trans; [exact Hs1|]. clearbody s1. clear Hs1.
  pose proof (fresh_length (take 8 pub) z now (peers s1)) as Hl.
  destruct (fresh _ _ _ _) as [f ps]. simpl in Hl.
  ev_fst (evolves_peers s1 ps Hl). destruct f; cbn [negb]; [|apply evolves_0_1; ev_auto].
  pose proof (peer_length (take 8 pub) (peers (s1 <| peers := ps |>))) as Hp.
  destruct (peer _ _) as [i qs]. simpl in Hp.
  match goal with |- context [alter ?f i qs] => set (g := f) end.
  ev_fst (evolves_peers (s1 <| peers := ps |>) (alter g i qs)); [simpl; rewrite length_alter; congruence|].
  case_match; [ev_auto|]. apply evolves_0_1; ev_auto.
Qed.

Lemma evolves_on_beacon p r now ip s : evolves 1 s (on_beacon p r now ip s).
Proof.
  unfold on_beacon. do 3 case_match. case_match; [apply evolves_0_1; ev_auto|].
  case_match; [apply evolves_on_member_beacon|].
  pose proof (cand_length l (cands s)) as Hl. destruct (cand _ _) as [i cs]. simpl in Hl.
  ev_fst (evolves_cands s cs Hl). set (s1 := s <| cands := cs |>). clearbody s1.
  eapply evolves_trans_0; [|apply evolves_push].
  match goal with |- context [if c_first ?c =? 0 then ?a else ?b] => set (s2 := if c_first c =? 0 then a else b) end.
  assert (evolves 0 s1 s2) as Hs2.
  { subst s2. case_match; [|ev_auto]. eapply evolves_0_trans; [apply evolves_cands, length_alter|].
    case_match; [ev_auto|]. apply evolves_sped. }
  eapply evolves_0_trans; [exact Hs2|]. clearbody s2. clear Hs2.
  eapply evolves_0_trans; [apply evolves_cands, length_alter|].
  case_match; [|apply evolves_0_1; ev_auto].
  eapply evolves_0_trans; [|apply evolves_beacon]. apply evolves_beacons.
Qed.

Lemma evolves_on_packet p now ip s : evolves 1 s (on_packet p now ip s).
Proof.
  unfold on_packet. case_match. case_match; [apply evolves_0_1; ev_auto|].
  case_match; [apply evolves_on_beacon|]. apply evolves_0_1.
  case_match; [apply evolves_on_pair|]. case_match; [apply evolves_on_give|].
  case_match; [apply evolves_on_msg|]. case_match; [apply evolves_on_claim|ev_auto].
Qed.
End receive.

(** ** Rounds, the loop, the interface *)

(** What can happen to a running arbitration: a turn of its loop, a call of arb.h *)
Inductive event :=
  | Ev_turn (i : input)
  | Ev_claim (keyword : bytes) (score prio : Z)
  | Ev_decide
  | Ev_key (id : option Z) (key : bytes)
  | Ev_ha_state (entity state : bytes)
  | Ev_pair
  | Ev_arbitrate (on : option bool)
  | Ev_mode (m : option arb_mode_t)
  | Ev_offset (v : Z)
  | Ev_window (v : Z)
  | Ev_window_auto (v : Z)
  | Ev_tell (to p : bytes).

Section steps.
Context `{Crypto} `{Entropy} `{Libm}.

Definition arb_event (e : event) (now : Z) (s : arb) : arb :=
  match e with
  | Ev_turn i => loop_turn i now s
  | Ev_claim kw sc prio => (arb_claim kw sc prio now s).2
  | Ev_decide => (arb_decide now s).2
  | Ev_key id key => arb_key id key now s
  | Ev_ha_state en st => arb_ha_state en st s
  | Ev_pair => (arb_pair now s).2
  | Ev_arbitrate b => (arb_arbitrate b s).2
  | Ev_mode m => (arb_mode m s).2
  | Ev_offset v => (arb_offset v s).2
  | Ev_window v => (arb_window v s).2
  | Ev_window_auto v => (arb_window_auto v s).2
  | Ev_tell to p => (arb_tell to p s).2
  end.

Definition arb_events (l : list (event * Z)) (s : arb) : arb :=
  fold_left (fun s e => arb_event e.1 e.2 s) l s.

Lemma evolves_kpkt s b : evolves 0 s (s <| kpkt := b |>).
Proof. ev_field. Qed.

Lemma evolves_kcopies s k t : evolves 0 s (s <| kcopies := k |> <| kcopy_at := t |>).
Proof. ev_field. Qed.

Lemma evolves_kiosk_send s : evolves 0 s (kiosk_send s).
Proof. unfold kiosk_send. case_match; [|ev_auto]. by apply evolves_emit. Qed.

Lemma evolves_kiosk_packet c now s : evolves 0 s (kiosk_packet c now s).
Proof. unfold kiosk_packet. case_match; [ev_auto|]. case_match; [ev_auto|]. ev_field. Qed.

Lemma evolves_kiosk_sync opened now s : evolves 0 s (kiosk_sync opened now s).
Proof.
  unfold kiosk_sync.
  match goal with |- context [ksock (if ?c then ?a else ?b)] => set (s1 := if c then a else b) end.
  assert (evolves 0 s s1) as Hs1 by (subst s1; case_match; [ev_field|ev_auto]).
  eapply evolves_0_trans; [exact Hs1|]. clearbody s1. clear Hs1.
  repeat case_match; try ev_auto; ev_field.
Qed.

Lemma evolves_kiosk_out b now s : evolves 0 s (kiosk_out b now s).2.
Proof.
  unfold kiosk_out. case_match; [ev_auto|]. cbn [snd].
  eapply evolves_0_trans; [apply (evolves_kpkt s b)|]. ev_fst evolves_kiosk_send.
  generalize (kiosk_send (s <| kpkt := b |>)). intros s1.
  eapply evolves_0_trans; [apply (evolves_kcopies s1 2 (now + KIOSK_GAP_MS))|].
  case_match; [by apply evolves_emit|ev_auto].
Qed.

Lemma evolves_kiosk_claim kw sc now s : evolves 0 s (kiosk_claim kw sc now s).2.
Proof.
  unfold kiosk_claim, ws_random. case_match; [ev_auto|].
  generalize (kiosk_text (kid (s <| draws ::= S |>))). intros text.
  eapply evolves_0_trans; [|apply evolves_kiosk_out]. ev_field.
Qed.

Lemma evolves_withdraw_late now s : evolves 0 s (withdraw_late now s).
Proof.
  unfold withdraw_late. case_match; [ev_auto|]. apply evolves_fold. intros s' g.
  case_match; [ev_field|ev_auto].
Qed.

Lemma evolves_early_claims now s : evolves 0 s (early_claims now s).
Proof.
  unfold early_claims. apply evolves_fold. intros s' k. case_match; [|ev_auto].
  destruct (k_won k); [ev_auto|]. ev_fst evolves_heard. ev_auto.
Qed.

Lemma evolves_claim_pkt sc prio won s : evolves 1 s (claim_pkt sc prio won s).2.
Proof.
  unfold claim_pkt. pose proof (evolves_next_ctr s) as Hc. by destruct (next_ctr s).
Qed.

Lemma evolves_round_start kw now s : evolves 0 s (round_start kw now s).
Proof.
  unfold round_start. ev_fst (evolves_withdraw_late now s).
  generalize (withdraw_late now s). clear s. intros s. destruct (r_open (round_ s)); [|ev_field].
  ev_fst (evolves_rivals_take ((r_at (round_ s) + now) / 2) s).
  generalize (rivals_take ((r_at (round_ s) + now) / 2) s). intros. ev_field.
Qed.

Lemma evolves_round_open sc prio now s : evolves 0 s (round_open sc prio now s).2.
Proof.
  unfold round_open. generalize (wanted sc now). intros want. cbn [snd].
  ev_field. pose proof (length_take (want (s <| round_ ::= (fun r => r <| r_score := sc |>
    <| r_prio := prio |> <| r_open := true |>) |>)) (NPEER - length (r_want (round_ s)))).
  unfold NPEER in *. cbn -[take plus] in *. lia.
Qed.

Lemma evolves_arb_claim kw sc prio now s : evolves 1 s (arb_claim kw sc prio now s).2.
Proof.
  unfold arb_claim. ev_fst (evolves_round_start kw now s).
  generalize (round_start kw now s). clear s. intros s.
  case_match; [apply evolves_0_1, evolves_kiosk_claim|]. case_match; [|apply evolves_0_1; ev_auto].
  pose proof (evolves_round_open sc prio now s) as Ho. destruct (round_open sc prio now s) as [nw s1].
  cbn [snd] in Ho. eapply evolves_0_trans; [exact Ho|]. ev_fst (evolves_early_claims now s1).
  pose proof (evolves_claim_pkt sc prio false (early_claims now s1)) as Hp.
  destruct (claim_pkt _ _ _ _) as [b s2]. cbn [snd] in *.
  eapply evolves_trans_0; [exact Hp|]. ev_fst (evolves_send_spread b now s2).
  apply evolves_round; cbn; auto.
Qed.

Lemma evolves_decided win s : evolves 0 s (decided win s).
Proof. unfold decided. ev_field. Qed.

Lemma evolves_arb_decide now s : evolves 1 s (arb_decide now s).2.
Proof.
  unfold arb_decide. case_match; [apply evolves_0_1; ev_auto|].
  ev_fst (evolves_decided (negb (beaten s)) s). set (s1 := decided _ s). clearbody s1.
  case_match; [|apply evolves_0_1; ev_auto].
  pose proof (evolves_claim_pkt (r_score (round_ s1)) (r_prio (round_ s1)) true s1) as Hp.
  destruct (claim_pkt _ _ _ _) as [b s2]. cbn [snd] in *.
  eapply evolves_trans_0; [exact Hp|]. ev_auto.
Qed.

Lemma evolves_arb_tell to p s : evolves 1 s (arb_tell to p s).2.
Proof.
  unfold arb_tell. case_match; [apply evolves_0_1; ev_auto|].
  pose proof (evolves_next_ctr s) as Hc. destruct (next_ctr s) as [c s1]. cbn [snd] in *.
  eapply evolves_trans_0; [exact Hc|]. ev_auto.
Qed.
End steps.

(** ** The loop *)
Section loop_steps.
Context `{Crypto} `{Entropy} `{Libm}.

Lemma evolves_loop_copies now s : evolves 0 s (loop_copies now s).
Proof.
  unfold loop_copies. case_match.
  - ev_fst evolves_kiosk_send. generalize (kiosk_send s). intros s1.
    eapply evolves_0_trans; [|apply evolves_fold].
    + ev_field.
    + intros s2 i. case_match; [|ev_auto]. ev_fst (evolves_send_pkt (y_p (copies s2 !!! i))).
      generalize (send_pkt (y_p (copies s2 !!! i)) s2). intros s3. ev_field.
  - apply evolves_fold. intros s2 i. case_match; [|ev_auto].
    ev_fst (evolves_send_pkt (y_p (copies s2 !!! i))).
    generalize (send_pkt (y_p (copies s2 !!! i)) s2). intros s3. ev_field.
Qed.

Lemma evolves_loop_join now s : evolves 0 s (loop_join now s).
Proof.
  unfold loop_join. destruct (in_net s) eqn:Hn; [ev_auto|]. case_match; [|ev_auto].
  by apply evolves_create.
Qed.

Lemma evolves_loop_push now s : evolves 0 s (loop_push now s).
Proof. unfold loop_push. apply evolves_fold. intros. case_match; ev_auto. Qed.

Lemma evolves_loop_beacon now s : evolves 1 s (loop_beacon now s).
Proof.
  unfold loop_beacon, ws_random. case_match; [apply evolves_0_1; ev_auto|].
  eapply evolves_0_trans; [|apply evolves_beacon]. ev_field.
Qed.

Lemma evolves_loop_tags now s : evolves 0 s (loop_tags now s).
Proof.
  unfold loop_tags. eapply evolves_0_trans; [|apply evolves_fold].
  - repeat case_match; try ev_auto; ev_field.
  - intros s1 i. case_match; [|ev_auto].
    eapply evolves_0_trans; [apply evolves_cands, length_alter|apply evolves_poll_tag].
Qed.

Lemma evolves_give s p l a g : 
  evolves 0 s (s <| give_pkt := p |> <| give_left := l |> <| give_at := a |> <| pair_gave := g |>).
Proof. ev_field. Qed.

Lemma evolves_pair_hand now s : evolves 0 s (pair_hand now s).
Proof.
  unfold pair_hand. case_match; [ev_auto|]. case_match; [ev_auto|].
  case_match; [ev_auto|]. case_match; [|ev_field].
  pose proof (evolves_seal (q_pub p) s) as Hs. destruct (seal _ s) as [[blob|] s1]; cbn [snd] in Hs; [|done].
  eapply evolves_0_trans; [exact Hs|]. generalize (give_packet (q_pub p) (net_id s1) blob). intros.
  apply evolves_give.
Qed.

Lemma evolves_loop_pairing now s : evolves 0 s (loop_pairing now s).
Proof.
  unfold loop_pairing.
  match goal with |- context [if pair_until ?x =? 0 then ?x else _] => set (s1 := x) end.
  assert (evolves 0 s s1) as Hs1.
  { subst s1. case_match; [|ev_auto]. case_match; [ev_field|]. ev_field. }
  eapply evolves_0_trans; [exact Hs1|]. clearbody s1. clear Hs1 s.
  match goal with |- context [negb (give_left ?x =? 0)] => set (s2 := x) end.
  assert (evolves 0 s1 s2) as Hs2.
  { subst s2. case_match; [ev_auto|]. ev_last evolves_pair_hand. case_match; [ev_auto|].
    ev_last evolves_send_pkt. ev_field. }
  eapply evolves_0_trans; [exact Hs2|]. clearbody s2. clear Hs2 s1.
  case_match; [|ev_auto]. ev_fst (evolves_send_pkt (give_pkt s2)).
  generalize (send_pkt (give_pkt s2) s2). intros s3. case_match; ev_field.
Qed.

Lemma evolves_loop_round now s : evolves 0 s (loop_round now s).
Proof.
  unfold loop_round.
  match goal with |- context [if negb (r_open (round_ ?x)) && _ then _ else _] => set (s1 := x) end.
  assert (evolves 0 s s1) as Hs1.
  { subst s1. case_match; [|ev_auto]. ev_last evolves_rivals_take. ev_field. }
  eapply evolves_0_trans; [exact Hs1|]. clearbody s1. clear Hs1 s.
  match goal with |- context [unsaved ?x && _] => set (s2 := x) end.
  assert (evolves 0 s1 s2) as Hs2.
  { subst s2. case_match; [|ev_auto]. destruct (learned now s1) as [[w ns] q]. case_match; ev_field. }
  eapply evolves_0_trans; [exact Hs2|]. clearbody s2. clear Hs2 s1.
  case_match; [|ev_auto]. ev_last evolves_save. ev_field.
Qed.

Lemma evolves_loop_hand link now s : evolves 0 s (loop_hand link now s).
Proof.
  unfold loop_hand.
  match goal with |- context [pushes ?x] => set (s1 := x) end.
  assert (evolves 0 s s1) as Hs1 by (subst s1; case_match; [ev_auto|ev_field]).
  eapply evolves_0_trans; [exact Hs1|]. clearbody s1. clear Hs1 s.
  match goal with |- context [fold_left _ (pushes s1) ?x] => set (s2 := x) end.
  assert (evolves 0 s1 s2) as Hs2 by (subst s2; ev_field).
  eapply evolves_0_trans; [exact Hs2|]. clearbody s2. clear Hs2.
  match goal with |- context [fold_left _ (polls s1) ?x] => set (s3 := x) end.
  assert (evolves 0 s2 s3) as Hs3 by (subst s3; apply evolves_fold; intros; by apply evolves_emit).
  eapply evolves_0_trans; [exact Hs3|]. clearbody s3. clear Hs3 s2.
  match goal with |- context [if scan_due s1 then _ else ?x] => set (s4 := x) end.
  assert (evolves 0 s3 s4) as Hs4.
  { subst s4. apply evolves_fold. intros s4 e. cbv zeta. ev_fst (evolves_emit (E_request e)); [done|].
    generalize (emit (E_request e) s4). intros s5. case_match; [ev_field|]. case_match; [ev_field|ev_auto]. }
  eapply evolves_0_trans; [exact Hs4|]. clearbody s4. clear Hs4 s3.
  match goal with |- context [if pair_event ?x =? 0 then _ else _] => set (s5 := x) end.
  assert (evolves 0 s4 s5) as Hs5 by (subst s5; case_match; [by apply evolves_emit|ev_auto]).
  eapply evolves_0_trans; [exact Hs5|]. clearbody s5. clear Hs5 s4.
  match goal with |- context [fold_left _ (msgs s1) ?x] => set (s6 := x) end.
  assert (evolves 0 s5 s6) as Hs6.
  { subst s6. case_match; [ev_auto|]. ev_last evolves_emit; [ev_field|done]. }
  eapply evolves_0_trans; [exact Hs6|]. clearbody s6. clear Hs6 s5.
  match goal with |- context [if notify ?x then _ else _] => set (s7 := x) end.
  assert (evolves 0 s6 s7) as Hs7 by (subst s7; apply evolves_fold; intros; by apply evolves_emit).
  eapply evolves_0_trans; [exact Hs7|]. clearbody s7. clear Hs7 s6.
  case_match; [|ev_auto]. ev_last evolves_emit; [ev_field|done].
Qed.

Lemma evolves_loop_turn i now s : evolves 2 s (loop_turn i now s).
Proof.
  unfold loop_turn, loop_due. ev_fst (evolves_kiosk_sync (i_opened i) now s).
  generalize (kiosk_sync (i_opened i) now s). clear s. intros s.
  change 2 with (1 + 1). eapply (evolves_trans 1 1 s).
  - instantiate (1 := match i_packet i with Some (p, ip) => on_packet p now ip s | None => s end).
    destruct (i_packet i) as [[p ip]|]; [apply evolves_on_packet|apply evolves_0_1; ev_auto].
  - match goal with |- evolves 1 ?x _ => generalize x end. clear s. intros s.
    ev_last evolves_loop_hand. ev_last evolves_loop_pairing. ev_last evolves_loop_tags.
    eapply evolves_0_trans; [|apply evolves_loop_beacon].
    ev_last evolves_loop_push. ev_last evolves_loop_join. ev_last evolves_loop_round.
    ev_last evolves_loop_copies. case_match; [apply evolves_kiosk_packet|ev_auto].
Qed.

(** ** The interface *)
Lemma evolves_notify s b : evolves 0 s (s <| notify := b |>).
Proof. ev_field. Qed.

Lemma evolves_event e now s : evolves 2 s (arb_event e now s).
Proof.
  assert (forall n s', evolves n s s' -> n <= 2 -> evolves 2 s s') as Hle
    by (intros; by eapply evolves_le).
  assert (forall s', evolves 0 s s' -> evolves 2 s s') as Hle0 by (intros; by apply (evolves_le 0)).
  destruct e; simpl; [apply evolves_loop_turn|..].
  - eapply Hle; [apply evolves_arb_claim|lia].
  - eapply Hle; [apply evolves_arb_decide|lia].
  - apply Hle0. unfold arb_key. repeat (case_match; try ev_auto).
  - apply Hle0. unfold arb_ha_state. case_match; [ev_auto|].
    apply evolves_cands, length_map.
  - apply Hle0. unfold arb_pair. case_match; [ev_auto|]. ev_field.
  - apply Hle0. unfold arb_arbitrate. destruct on as [b|]; [|ev_auto].
    case_match; [ev_auto|]. ev_last evolves_notify. ev_last evolves_save. ev_field.
  - apply Hle0. unfold arb_mode. destruct m as [m|]; [|ev_auto].
    case_match; [ev_auto|]. ev_field.
  - apply Hle0. unfold arb_offset. case_match; [ev_field|ev_auto].
  - apply Hle0. unfold arb_window. case_match; [ev_field|ev_auto].
  - apply Hle0. unfold arb_window_auto. case_match; [ev_field|ev_auto].
  - eapply Hle; [apply evolves_arb_tell|lia].
Qed.
End loop_steps.
