(* ===== verification/ArbKeep.v ===== *)
(** * Wake word arbitration: invariants of every history
    What holds after any sequence of turns and calls, across restarts: the arrays of
    arb.c are never left, the network only changes for an older one, and no counter is
    used twice. *)
From S2P Require Import Prelude Cbits Crypto ArbState ArbPacket ArbTables ArbNet ArbKiosk ArbRound ArbRecv ArbLoop ArbDemo ArbSteps.

Section keep.
Context `{Crypto} `{Entropy} `{Libm}.




Lemma load_line_ctr s l :
  ctr_saved (load_line s l) = match l with L_ctr v => v | _ => ctr_saved s end.
Proof. destruct l; simpl; repeat case_match; done. Qed.

Lemma load_ctr file s :
  ctr_saved (load file s) =
  fold_left (fun c l => match l with L_ctr v => v | _ => c end) file (ctr_saved s).
Proof.
  revert s. induction file as [|l file IH]; intros s; simpl; [done|].
  by rewrite IH, load_line_ctr.
Qed.



Lemma arb_start_ctr nd file stored now s :
  ctr_saved s = 0 -> 0 <= disk_ctr file < 2 ^ 63 ->
  ctr (arb_start nd file stored now s) = disk_ctr file /\
  (forall f, ctr_ok f (arb_start nd file stored now s)).
Proof.
  intros H0' Hb. unfold arb_start.
  assert (ctr_saved (s <| beacon_gap := BEACON_MIN_MS (pace s) |> <| node := take 63 nd |>) = 0) as Hc by done.
  generalize dependent (s <| beacon_gap := BEACON_MIN_MS (pace s) |> <| node := take 63 nd |>).
  clear H0' s. intros s Hc. pose proof (load_ctr file s) as Hl. rewrite Hc in Hl. fold (disk_ctr file) in Hl.
  generalize dependent (load file s). clear Hc s. intros s Hl.
  assert (ctr_saved (identity (negb (ctr_known s)) stored s) = disk_ctr file) as Hi.
  { unfold identity, ws_random. repeat case_match; simplify_eq; done. }
  generalize dependent (identity (negb (ctr_known s)) stored s). clear Hl s. intros s Hi.
  cbn [ctr out]. split; [done|]. intros f. unfold ctr_ok, save, emit. cbn.
  rewrite disk_snoc, disk_ctr_saved. cbn. rewrite Hi, u64_id by (unfold CTR_BLOCK; lia).
  unfold CTR_BLOCK. lia.
Qed.

(** ** Histories *)
Lemma evolves_events l s : evolves (2 * Z.of_nat (length l)) s (arb_events l s).
Proof.
  revert s. induction l as [|[e now] l IH]; intros s; [apply evolves_refl|].
  eapply evolves_le; [eapply (evolves_trans 2); [apply (evolves_event e now)|apply IH]|].
  cbn [length]. lia.
Qed.


(** An Echo in a network never leaves it, except for one with a lower id: two
    networks only merge into the older one, and nothing sent to an Echo, by anyone, can
    put it into a younger network or out of its own. *)
Theorem network_only_goes_down (l : list (event * Z)) (s : arb) :
  in_net s = true ->
  in_net (arb_events l s) = true /\ net_id (arb_events l s) <= net_id s.
Proof. apply (ev_net _ _ _ (evolves_events l s)). Qed.

(** No counter is used twice, not even across a crash: after any history and
    a restart from what was last written to disk, the next counter drawn is above
    every counter drawn before. *)
Theorem counters_survive_restart nd file stored start l nd' stored' start' :
  0 <= disk_ctr file ->
  disk_ctr file + 2 * Z.of_nat (length l) + CTR_BLOCK < 2 ^ 63 ->
  let before := arb_events l (arb_start nd file stored start arb0) in
  let after := arb_start nd' (disk file (out before)) stored' start' arb0 in
  disk_ctr file <= ctr before < fst (next_ctr after).
Proof.
  intros Hpos Hb before after. unfold CTR_BLOCK in Hb.
  destruct (arb_start_ctr nd file stored start arb0) as [Hc Hok]; [done|lia|].
  destruct (ev_ctr _ _ _ (evolves_events l (arb_start nd file stored start arb0)) file) as [(Hp & Hs & Hd) Hm];
    [lia|apply Hok|]. fold before in Hp, Hs, Hd, Hm. unfold CTR_BLOCK in Hs.
  destruct (arb_start_ctr nd' (disk file (out before)) stored' start' arb0) as [Hc' _]; [done|lia|].
  unfold next_ctr, after. cbn [fst]. rewrite Hc', u64_id; lia.
Qed.
End keep.

Lemma network_only_goes_down_witness :
  in_net a0 = true /\ net_id (arb_events [(Ev_turn nothing, 2000); (Ev_pair, 2100)] a0) <= net_id a0.
Proof.
  split; [reflexivity|]. apply (network_only_goes_down [(Ev_turn nothing, 2000); (Ev_pair, 2100)] a0). reflexivity.
Defined.

Lemma counters_survive_restart_witness :
  let before := arb_events [(Ev_turn nothing, 2000); (Ev_tell [1] [2], 2100)]
    (arb_start (str "echo") [L_ctr 100; L_net 5 (le_bytes 32 77)] None 1000 arb0) in
  100 <= ctr before <
  fst (next_ctr (arb_start (str "echo") (disk [L_ctr 100; L_net 5 (le_bytes 32 77)] (out before)) None 9000 arb0)).
Proof.
  apply (counters_survive_restart (str "echo") [L_ctr 100; L_net 5 (le_bytes 32 77)] None 1000
    [(Ev_turn nothing, 2000); (Ev_tell [1] [2], 2100)] (str "echo") None 9000); vm_compute; done.
Defined.
