(* ===== verification/ArbFresh.v ===== *)
(** * Wake word arbitration: no packet counts twice
    [fresh] against replays: as long as the network has at most [NPEER] members, the
    counters it accepts from each member only go up, whatever order and copies the
    packets arrive in. *)
From S2P Require Import Prelude Cbits ArbState ArbTables.

Definition live (p : peer_t) : bool := negb (p_seen p =? 0).

(** The table of peers: a member has one slot, times are not negative *)
Record table (ids : list bytes) (ps : list peer_t) : Prop := mk_table {
  tb_length : length ps = NPEER;
  tb_seen : forall i p, ps !! i = Some p -> 0 <= p_seen p;
  tb_ids : forall i p, ps !! i = Some p -> live p = true -> p_id p ∈ ids /\ 0 < p_ctr p;
  tb_one : forall i j p q, ps !! i = Some p -> ps !! j = Some q ->
    live p = true -> live q = true -> p_id p = p_id q -> i = j }.

Lemma table_empty ids : table ids (replicate NPEER no_peer).
Proof.
  split; [done| | |].
  - by intros i p [-> ?]%lookup_replicate.
  - by intros i p [-> ?]%lookup_replicate.
  - by intros i j p q [-> ?]%lookup_replicate.
Qed.

(** A change of one slot *)
Lemma table_insert ids ps i p :
  table ids ps -> 0 <= p_seen p -> (live p = true -> p_id p ∈ ids /\ 0 < p_ctr p) ->
  (live p = true -> forall j q, j <> i -> ps !! j = Some q -> live q = true -> p_id q <> p_id p) ->
  table ids (<[i := p]> ps).
Proof.
  intros [Hl Hs Hi Ho] Hp Hid Hone. split.
  - by rewrite length_insert.
  - intros j q [(-> & <- & _)|[? Hq]]%list_lookup_insert_Some; eauto.
  - intros j q [(-> & <- & _)|[? Hq]]%list_lookup_insert_Some; eauto.
  - intros j k q r Hj Hk Hq Hr Heq.
    apply list_lookup_insert_Some in Hj as [(-> & <- & _)|[? Hj]],
      Hk as [(-> & <- & _)|[? Hk]]; [done| | |eauto].
    + by destruct (Hone Hq k r).
    + by destruct (Hone Hr j q).
Qed.

(** With a slot per member there is a free one for a new member *)
Lemma free_slot ids ps id :
  table ids ps -> (length ids <= NPEER)%nat -> id ∈ ids ->
  (forall i p, ps !! i = Some p -> live p = true -> p_id p <> id) ->
  exists i p, ps !! i = Some p /\ p_seen p = 0.
Proof.
  intros [Hl Hs Hi Ho] Hids Hid Hnone.
  destruct (find_index (fun p => p_seen p =? 0) ps) as [i|] eqn:Hf.
  { apply find_index_Some in Hf as (p & Hp & Hz & _). exists i, p. by bsimp. }
  exfalso. rewrite find_index_None in Hf.
  assert (forall p, p ∈ ps -> live p = true) as Hlive by (intros p Hp; unfold live; by rewrite Hf).
  assert (NoDup (id :: map p_id ps)) as Hnd.
  { constructor.
    - intros (p & -> & [i Hp]%list_elem_of_lookup)%list_elem_of_fmap.
      apply (Hnone i p); [done|apply Hlive; by eapply list_elem_of_lookup_2|done].
    - apply NoDup_alt. intros i j x Hx Hy. apply list_lookup_fmap_Some in Hx as (p & Hp & Hx'), Hy as (q & Hq & Hy').
      eapply (Ho i j p q); try done; try congruence; apply Hlive; by eapply list_elem_of_lookup_2. }
  assert (id :: map p_id ps ⊆+ ids) as Hsub.
  { apply NoDup_submseteq; [done|]. intros x [->|(p & -> & [i Hp]%list_elem_of_lookup)%list_elem_of_fmap]%elem_of_cons;
      [done|]. apply (Hi i p Hp). apply Hlive. by eapply list_elem_of_lookup_2. }
  apply submseteq_length in Hsub. cbn [length] in Hsub. rewrite length_map in Hsub. lia.
Qed.

(** Where [peer] puts a member *)
Lemma peer_slot ids ps id :
  table ids ps -> (length ids <= NPEER)%nat -> id ∈ ids ->
  exists i p, ps !! i = Some p /\
    ((live p = true /\ p_id p = id /\ peer id ps = (i, ps)) \/
     (live p = false /\ (forall j q, ps !! j = Some q -> live q = true -> p_id q <> id) /\
      peer id ps = (i, <[i := no_peer <| p_id := id |>]> ps))).
Proof.
  intros Ht Hids Hid. unfold peer.
  destruct (find_index _ ps) as [i|] eqn:Hf.
  - apply find_index_Some in Hf as (p & Hp & [Hl Hs]%andb_true_iff & _). apply same_true in Hs.
    exists i, p. split; [done|]. by left.
  - rewrite find_index_None in Hf.
    assert (forall j q, ps !! j = Some q -> live q = true -> p_id q <> id) as Hnone.
    { intros j q Hq Hl Heq. specialize (Hf q ltac:(by eapply list_elem_of_lookup_2)).
      unfold live in Hl. by rewrite Hl, (proj2 (same_true _ _) Heq) in Hf. }
    destruct (free_slot _ _ _ Ht Hids Hid Hnone) as (j & q & Hq & Hz).
    set (i := scan_best _ no_peer ps).
    assert (i < length ps)%nat as Hlt by (apply scan_best_lt; by destruct ps).
    destruct (lookup_lt_is_Some_2 ps i Hlt) as [p Hp]. exists i, p. split; [done|]. right.
    split; [|by split]. unfold live. apply negb_false_iff, Z.eqb_eq.
    pose proof (scan_best_min p_seen no_peer ps j q Hq) as Hmin. fold i in Hmin.
    rewrite (nth_lookup_Some _ _ _ _ Hp) in Hmin. pose proof (tb_seen _ _ Ht _ _ Hp). lia.
Qed.

(** Member [id] had a counter of [c] or above accepted *)
Definition recorded (id : bytes) (c : Z) (ps : list peer_t) : Prop :=
  exists i p, ps !! i = Some p /\ live p = true /\ p_id p = id /\ c <= p_ctr p.

Lemma live_seen p now : 0 < now -> live (p <| p_seen := now |>) = true.
Proof. intros. unfold live. cbn. by rewrite (proj2 (Z.eqb_neq now 0)) by lia. Qed.

(** the slot [i] of [id], or a free one, takes the counter [c] *)
Lemma recorded_insert ids ps i p p' :
  table ids ps -> ps !! i = Some p -> live p' = true ->
  (live p = true -> p_id p = p_id p' /\ p_ctr p < p_ctr p') ->
  forall id c, recorded id c (<[i := p']> ps) <-> recorded id c ps \/ (id = p_id p' /\ c <= p_ctr p').
Proof.
  intros Ht Hp Hl Hold id c. assert (i < length ps)%nat as Hlt by (by eapply lookup_lt_Some). split.
  - intros (j & q & [(-> & <- & _)|[Hne Hq]]%list_lookup_insert_Some & Hlq & <- & Hc); [by right|].
    left. by exists j, q.
  - intros [(j & q & Hq & Hlq & <- & Hc)|[-> Hc]].
    + destruct (decide (j = i)) as [->|Hne].
      * simplify_eq. destruct (Hold Hlq). exists i, p'. rewrite list_lookup_insert_eq by done. split_and!; done || lia.
      * exists j, q. by rewrite list_lookup_insert_ne.
    + exists i, p'. by rewrite list_lookup_insert_eq.
Qed.

(** [fresh]: a counter is accepted exactly above what was recorded, and recorded *)
Lemma fresh_table ids ps id c now :
  table ids ps -> (length ids <= NPEER)%nat -> id ∈ ids -> 0 < now ->
  let '(ok, ps') := fresh id c now ps in
  table ids ps' /\
  (ok = true <-> 0 < c /\ forall c', recorded id c' ps -> c' < c) /\
  (forall id' c', recorded id' c' ps' <-> recorded id' c' ps \/ (ok = true /\ id' = id /\ c' <= c)).
Proof.
  intros Ht Hids Hid Hnow. destruct (peer_slot ids ps id Ht Hids Hid) as (i & p & Hp & Hcase).
  assert (i < length ps)%nat as Hlt by (by eapply lookup_lt_Some).
  unfold fresh. destruct Hcase as [(Hl & Hpid & ->)|(Hl & Hnone & ->)].
  - rewrite (list_lookup_total_correct _ _ _ Hp).
    assert (recorded id (p_ctr p) ps) as Hrec by (by exists i, p).
    destruct (tb_ids _ _ Ht _ _ Hp Hl) as [_ Hpos].
    destruct (Z.leb_spec c (p_ctr p)).
    + unfold live in Hl. apply negb_true_iff in Hl. rewrite Hl.
      split_and!; [done| |naive_solver]. split; [done|]. intros [? Hc']. specialize (Hc' _ Hrec). lia.
    + set (p' := p <| p_ctr := c |> <| p_seen := now |>).
      pose proof (live_seen (p <| p_ctr := c |>) now Hnow) as Hl'. fold p' in Hl'.
      split_and!.
      * apply table_insert; [done|cbn; lia|intros _; cbn; split; [congruence|lia]|].
        intros _ j q Hne Hq Hlq Heq. apply Hne. by apply (tb_one _ _ Ht j i q p).
      * split; [intros _|done]. split; [lia|]. intros c' (j & q & Hq & Hlq & Hid' & Hc').
        assert (j = i) as -> by (apply (tb_one _ _ Ht j i q p); congruence). simplify_eq. lia.
      * intros id' c'. rewrite (recorded_insert ids ps i p p') by (done || intros; cbn; split; done || lia).
        cbn. rewrite Hpid. naive_solver.
  - rewrite list_lookup_total_insert_eq by done.
    change (p_ctr (no_peer <| p_id := id |>)) with 0. change (p_seen (no_peer <| p_id := id |>)) with 0.
    destruct (Z.leb_spec c 0); cbn [Z.eqb]; rewrite ?list_insert_insert_eq.
    + split_and!; [by apply table_insert|split; [done|lia]|]. intros id' c'. split.
      * intros (j & q & [(-> & <- & _)|[Hne Hq]]%list_lookup_insert_Some & Hlq & <- & Hc); [done|].
        left. by exists j, q.
      * intros [(j & q & Hq & Hlq & <- & Hc)|[]]; [|done]. exists j, q.
        by rewrite list_lookup_insert_ne by (intros <-; congruence).
    + set (p' := no_peer <| p_id := id |> <| p_ctr := c |> <| p_seen := now |>).
      pose proof (live_seen (no_peer <| p_id := id |> <| p_ctr := c |>) now Hnow) as Hl'. fold p' in Hl'.
      split_and!.
      * apply table_insert; [done|cbn; lia|done|]. intros _ j q Hne Hq Hlq. by apply (Hnone j).
      * split; [intros _|done]. split; [lia|]. intros c' (j & q & Hq & Hlq & Hid' & Hc').
        by destruct (Hnone j q).
      * intros id' c'. rewrite (recorded_insert ids ps i p p') by (done || congruence).
        cbn. naive_solver.
Qed.

(** ** Packets in the order they arrive *)
Record arrival := mk_arrival { a_id : bytes; a_ctr : Z; a_at : Z }.

(** The counters accepted from each, and the table after *)
Fixpoint arrivals (l : list arrival) (ps : list peer_t) : list (bytes * Z) * list peer_t :=
  match l with
  | [] => ([], ps)
  | a :: l =>
      let '(ok, ps) := fresh (a_id a) (a_ctr a) (a_at a) ps in
      let '(acc, ps) := arrivals l ps in
      (if ok then (a_id a, a_ctr a) :: acc else acc, ps)
  end.

Definition from_members (ids : list bytes) (l : list arrival) : Prop :=
  Forall (fun a => a_id a ∈ ids /\ 0 < a_at a) l.

Lemma arrivals_table ids l ps :
  (length ids <= NPEER)%nat -> from_members ids l -> table ids ps ->
  table ids (arrivals l ps).2 /\
  forall id c, recorded id c (arrivals l ps).2 <->
    recorded id c ps \/ exists c', (id, c') ∈ (arrivals l ps).1 /\ c <= c'.
Proof.
  intros Hids Hl. revert ps. induction Hl as [|a l [Hid Hnow] Hl IH]; intros ps Ht; cbn [arrivals].
  - split; [done|]. intros id c. split; [by left|]. intros [?|(c' & []%elem_of_nil & _)]; done.
  - pose proof (fresh_table ids ps (a_id a) (a_ctr a) (a_at a) Ht Hids Hid Hnow) as Hf.
    destruct (fresh _ _ _ _) as [ok ps1]. destruct Hf as (Ht1 & _ & Hrec). specialize (IH ps1 Ht1).
    destruct (arrivals l ps1) as [acc ps2]. cbn [fst snd] in *. destruct IH as [Ht2 IH].
    split; [done|]. intros id c. rewrite IH, Hrec. destruct ok; [|naive_solver].
    setoid_rewrite elem_of_cons. naive_solver.
Qed.

(** C10. Every packet counts at most once: among packets of at most [NPEER]
    members, copied, reordered and replayed in any way, one is accepted exactly when
    its counter is above every counter accepted from that member before. *)
Theorem no_packet_counts_twice (ids : list bytes) (l : list arrival) (a : arrival) :
  (length ids <= NPEER)%nat -> from_members ids (l ++ [a]) ->
  let '(acc, ps) := arrivals l (replicate NPEER no_peer) in
  fst (fresh (a_id a) (a_ctr a) (a_at a) ps) = true <->
  0 < a_ctr a /\ forall c, (a_id a, c) ∈ acc -> c < a_ctr a.
Proof.
  unfold from_members. rewrite Forall_app, Forall_singleton. intros Hids [Hl Ha].
  destruct (arrivals_table ids l (replicate NPEER no_peer) Hids Hl (table_empty ids)) as [Ht Hrec].
  destruct (arrivals l _) as [acc ps]. cbn [fst snd] in *.
  pose proof (fresh_table ids ps (a_id a) (a_ctr a) (a_at a) Ht Hids (proj1 Ha) (proj2 Ha)) as Hf.
  destruct (fresh _ _ _ _) as [ok ps1]. destruct Hf as (_ & Hok & _). cbn [fst]. rewrite Hok.
  assert (forall id c, ~ recorded id c (replicate NPEER no_peer)) as Hno
    by (intros id c (i & p & [-> _]%lookup_replicate & Hp & _); done).
  split; intros [Hc H]; (split; [done|]).
  - intros c Hin. apply H, Hrec. right. by exists c.
  - intros c' [Hr|(c & Hin & Hle)]%Hrec; [by destruct (Hno _ _ Hr)|]. specialize (H c Hin). lia.
Qed.

Definition three_arrivals : list arrival :=
  [mk_arrival [1] 5 10; mk_arrival [2] 9 11; mk_arrival [1] 6 12].

Lemma no_packet_counts_twice_witness :
  fst (fresh [1] 6 13 (arrivals (three_arrivals) (replicate NPEER no_peer)).2) = true <->
  0 < 6 /\ forall c, ([1], c) ∈ (arrivals (three_arrivals) (replicate NPEER no_peer)).1 -> c < 6.
Proof.
  apply (no_packet_counts_twice [[1]; [2]] (three_arrivals) (mk_arrival [1] 6 13)).
  - vm_compute. lia.
  - repeat constructor; vm_compute; done.
Defined.
