(* ===== verification/ArbClaims.v ===== *)
(** * Wake word arbitration: claims on the wire
    A claim arrives as it was sent; the claim of the winner silences the others; what
    does not carry the network's tag changes nothing the network goes by. *)
From S2P Require Import Prelude Cbits Crypto ArbState ArbPacket ArbTables ArbNet ArbKiosk ArbRound ArbRecv ArbLoop ArbDemo ArbElect ArbSteps.

(** Two Echos of one network *)
Record network_of (a b : arb) : Prop := mk_network_of {
  no_a : in_net a = true;
  no_b : in_net b = true;
  no_id : net_id a = net_id b;
  no_range : 0 <= net_id a < 2 ^ 64;
  no_key : mac_key a = mac_key b;
  no_pka : length (pk a) = 32%nat;
  no_pkb : length (pk b) = 32%nat;
  no_other : take 8 (pk a) <> take 8 (pk b) }.

Section claims.
Context `{CryptoLaws} `{Entropy} `{Libm}.

(** ** The packet *)
Lemma claim_body_eq net pk c kw sc prio won :
  (8 <= length pk)%nat -> length kw = 8%nat ->
  claim_body net pk c kw sc prio won =
  (str "HMA1" ++ [T_CLAIM]) ++ le_bytes 8 net ++ take 8 pk ++ le_bytes 8 c ++ kw ++ le_bytes 4 (u32 sc)
    ++ [u8 prio; if won then 1 else 0].
Proof.
  intros Hpk Hkw. unfold claim_body. rewrite head_eq. unfold put64.
  assert (length (take 8 pk) = 8%nat) as Hid by (rewrite length_take; lia).
  put_all ltac:(rewrite ?length_app, ?le_bytes_length, ?Hid, ?Hkw; simpl; unfold PKT_MAX; lia).
  by rewrite <- !app_assoc.
Qed.

Lemma claim_body_length net pk c kw sc prio won :
  (8 <= length pk)%nat -> length kw = 8%nat -> length (claim_body net pk c kw sc prio won) = 43%nat.
Proof.
  intros Hpk Hkw. rewrite claim_body_eq by done.
  rewrite !length_app, !le_bytes_length, length_take, Hkw, Nat.min_l by done.
  reflexivity.
Qed.

Lemma on_packet_claim net pka c kw sc prio won now ip s :
  in_net s = true -> net_id s = net -> 0 <= net < 2 ^ 64 -> 0 <= c < 2 ^ 64 ->
  (8 <= length pka)%nat -> length kw = 8%nat -> take 8 pka <> take 8 (pk s) ->
  INT_MIN <= sc <= INT_MAX -> 0 <= prio < 256 ->
  on_packet (tag (mac_key s) (claim_body net pka c kw sc prio won)) now ip s =
  claim_in c (mk_claim (take 8 pka) kw sc prio won now) now s.
Proof.
  intros Hin Hid Hnet Hc Hpk Hkw Hne Hsc Hprio.
  pose proof (claim_body_length net pka c kw sc prio won Hpk Hkw) as Hlen.
  pose proof (tag_ok_tag (mac_key s) (claim_body net pka c kw sc prio won) ltac:(rewrite Hlen; unfold PKT_MAX; lia)) as Htag.
  set (p := tag _ _) in *.
  assert (p = (str "HMA1" ++ [T_CLAIM]) ++ le_bytes 8 net ++ take 8 pka ++ le_bytes 8 c ++ kw
    ++ le_bytes 4 (u32 sc) ++ [u8 prio; if won then 1 else 0]
    ++ blake2b_keyed 16 (mac_key s) (claim_body net pka c kw sc prio won)) as Hp.
  { unfold p. rewrite tag_eq by (rewrite Hlen; unfold PKT_MAX; lia).
    rewrite claim_body_eq at 1 by done. by rewrite <- !app_assoc. }
  unfold on_packet. rewrite Hp at 1. rewrite field_app by done. cbn [bad rest negb orb].
  change (same (take 4 (str "HMA1" ++ [T_CLAIM])) (str "HMA1")) with true. cbn [negb].
  change ((str "HMA1" ++ [T_CLAIM]) !!! 4%nat) with T_CLAIM.
  change (T_CLAIM =? T_BEACON) with false. change (T_CLAIM =? T_PAIR) with false.
  change (T_CLAIM =? T_GIVE) with false. change (T_CLAIM =? T_MSG) with false.
  change (T_CLAIM =? T_CLAIM) with true. cbv iota.
  unfold on_claim. rewrite get64_app by done.
  rewrite field_app by (rewrite length_take; lia). rewrite get64_app by done.
  rewrite field_app by done. rewrite field_app by apply le_bytes_length. rewrite field_app by done.
  cbn [bad rest orb]. rewrite blake2b_keyed_length, Hin, Hid, Htag, Z.eqb_refl.
  rewrite (proj2 (same_false _ _) Hne). cbn [negb orb Nat.eqb].
  rewrite le_value_bytes. change (2 ^ (8 * Z.of_nat 4)) with (2 ^ 32).
  assert (i32 (u32 sc mod 2 ^ 32) = sc) as -> by
    (unfold u32; rewrite Z.mod_mod by lia; fold (u32 sc); by apply i32_u32).
  change ([u8 prio; if won then 1 else 0] !!! 0%nat) with (u8 prio). rewrite u8_id by done.
  by destruct won.
Qed.

(** Where a fresh claim ends up *)
Lemma claim_in_claims c k now s :
  shape s -> fst (fresh (k_id k) c now (peers s)) = true ->
  k ∈ claims (claim_in c k now s) /\
  r_at (round_ (claim_in c k now s)) = r_at (round_ s) /\
  r_kw (round_ (claim_in c k now s)) = r_kw (round_ s) /\
  r_kiosk (round_ (claim_in c k now s)) = r_kiosk (round_ s).
Proof.
  intros Hs Hf. unfold claim_in. destruct (fresh _ _ _ _) as [ok ps]. cbn [fst] in Hf. subst ok.
  cbn [negb].
  assert (k ∈ <[Z.to_nat (claim_next s mod Z.of_nat NCLAIM) := k]> (claims s)) as Hk.
  { apply list_elem_of_insert. rewrite (sh_claims _ Hs).
    pose proof (Z.mod_pos_bound (claim_next s) 16). change (Z.of_nat NCLAIM) with 16. unfold NCLAIM. lia. }
  assert (forall id at_ sc prio won r, r_at (heard id at_ sc prio won r) = r_at r /\
    r_kw (heard id at_ sc prio won r) = r_kw r /\ r_kiosk (heard id at_ sc prio won r) = r_kiosk r) as Hh.
  { intros. unfold heard. by repeat case_match. }
  case_match; [|done]. cbv zeta. destruct (k_won k).
  - cbn. destruct (Hh (k_id k) now (k_score k) (k_prio k) true (round_ s)) as (-> & -> & ->). done.
  - unfold sample. destruct (Hh (k_id k) now (k_score k) (k_prio k) false (round_ s)) as (Ha & Hb & Hc).
    case_match; [by cbn; rewrite Ha, Hb, Hc|]. case_match; cbn; rewrite Ha, Hb, Hc; done.
Qed.

Lemma next_ctr_frame s :
  let '(c, s') := next_ctr s in
  0 <= c < 2 ^ 64 /\ mac_key s' = mac_key s /\ net_id s' = net_id s /\ pk s' = pk s /\
  round_ s' = round_ s /\ ctr s' = c /\ exists more, out s' = out s ++ more.
Proof.
  unfold next_ctr. pose proof (u64_bound (ctr s + 1)). case_match; split_and!; try done; try lia.
  - by eexists.
  - exists []. by rewrite app_nil_r.
Qed.

Lemma claim_pkt_read sc prio now ip won a b :
  network_of a b -> length (r_kw (round_ a)) = 8%nat ->
  INT_MIN <= sc <= INT_MAX -> 0 <= prio < 256 ->
  let '(p, a') := claim_pkt sc prio won a in
  on_packet p now ip b =
  claim_in (ctr a') (mk_claim (arb_self a) (r_kw (round_ a)) sc prio won now) now b.
Proof.
  intros [] Hkw Hsc Hprio. unfold claim_pkt.
  pose proof (next_ctr_frame a) as Hf. destruct (next_ctr a) as [c a'].
  destruct Hf as (Hc & Hm & Hi & Hp & Hr & Ht & _). rewrite Hm, Hi, Hp, Hr, Ht, no_key0, no_id0.
  apply on_packet_claim; try done; try congruence; lia.
Qed.

(** A claim crosses the network intact: what an Echo sends for its round is,
    at every other one of its network that gets it, entered as a claim of the sender
    with the same keyword, score, priority and answer flag if its counter is new there,
    and is dropped without a trace if it is not. *)
Theorem claim_round_trip (sc prio now ip : Z) (won : bool) (a b : arb) :
  network_of a b -> shape b -> length (r_kw (round_ a)) = 8%nat ->
  INT_MIN <= sc <= INT_MAX -> 0 <= prio < 256 ->
  let '(p, a') := claim_pkt sc prio won a in
  let b' := on_packet p now ip b in
  if fst (fresh (arb_self a) (ctr a') now (peers b))
  then mk_claim (arb_self a) (r_kw (round_ a)) sc prio won now ∈ claims b'
  else claims b' = claims b /\ round_ b' = round_ b /\ delays b' = delays b.
Proof.
  intros Hn Hsh Hkw Hsc Hprio. pose proof (claim_pkt_read sc prio now ip won a b Hn Hkw Hsc Hprio) as Hr.
  destruct (claim_pkt _ _ _ _) as [p a']. cbv zeta. rewrite Hr.
  destruct (fresh (arb_self a) (ctr a') now (peers b)) as [f ps] eqn:Hf. cbn [fst].
  set (k := mk_claim _ _ _ _ _ _). destruct f.
  - apply (claim_in_claims (ctr a') k now b Hsh). change (k_id k) with (arb_self a). by rewrite Hf.
  - unfold claim_in. change (k_id k) with (arb_self a). by rewrite Hf.
Qed.

Lemma claim_pkt_out sc prio won a p a' :
  claim_pkt sc prio won a = (p, a') -> exists more, out a' = out a ++ more.
Proof.
  unfold claim_pkt. pose proof (next_ctr_frame a) as Hf. destruct (next_ctr a) as [c a1].
  intros Hp. simplify_eq. by destruct Hf as (_ & _ & _ & _ & _ & _ & ?).
Qed.

Lemma send_spread_out b now s :
  out (send_spread b now s) = out s ++ [E_send b] ++ (if has_wake s then [E_wake] else []).
Proof. unfold send_spread, send_pkt, emit. cbn. case_match; cbn; by rewrite <- ?app_assoc. Qed.

Lemma send_spread_ctr b now s : ctr (send_spread b now s) = ctr s.
Proof. unfold send_spread. by case_match. Qed.

(** The winner silences the others: whoever gets the claim an Echo sends on
    winning, before deciding a round of the same keyword that began at most a second
    later, decides against itself, however good its own score. *)
Theorem winner_silences (a b : arb) (now now' ip later : Z) :
  network_of a b -> shape b -> length (r_kw (round_ a)) = 8%nat ->
  INT_MIN <= r_score (round_ a) <= INT_MAX -> 0 <= r_prio (round_ a) < 256 ->
  r_kiosk (round_ a) = false -> fst (arb_decide now a) = true ->
  exists p, E_send p ∈ drop (length (out a)) (out (snd (arb_decide now a))) /\
  (fst (fresh (arb_self a) (ctr (snd (arb_decide now a))) now' (peers b)) = true ->
   r_kw (round_ b) = r_kw (round_ a) -> r_kiosk (round_ b) = false ->
   now' <> 0 -> r_at (round_ b) - LOOKBACK_MS <= now' ->
   fst (arb_decide later (on_packet p now' ip b)) = false).
Proof.
  intros Hn Hsh Hkw Hsc Hprio Hka Hwin. pose proof (arb_decide_fst now a Hka) as Hd. rewrite Hwin in Hd.
  set (a1 := decided true a).
  assert (network_of a1 b) as Hn1 by (by destruct Hn).
  pose proof (claim_pkt_read (r_score (round_ a1)) (r_prio (round_ a1)) now' ip true a1 b Hn1 Hkw Hsc Hprio) as Hread.
  destruct (claim_pkt (r_score (round_ a1)) (r_prio (round_ a1)) true a1) as [p a2] eqn:Hp.
  assert (arb_decide now a = (true, send_spread p now a2)) as ->.
  { unfold arb_decide. rewrite Hka, <- Hd. fold a1. change (in_net a1) with (in_net a).
    by rewrite (no_a _ _ Hn), Hp. }
  exists p. cbn [snd]. split.
  { rewrite send_spread_out. destruct (claim_pkt_out _ _ _ _ _ _ Hp) as [more ->].
    change (out a1) with (out a). rewrite <- app_assoc, drop_app_length. set_solver. }
  rewrite send_spread_ctr, Hread. set (k := mk_claim _ _ _ _ _ _).
  intros Hf Hkwb Hkb Hnow Hat.
  destruct (claim_in_claims (ctr a2) k now' b Hsh Hf) as (Hk & Hra & Hrk & Hki).
  rewrite arb_decide_fst by congruence. apply negb_false_iff, existsb_elem. exists k. split; [done|].
  apply andb_true_iff. split; [|done]. unfold of_round. rewrite Hra, Hrk, Hkwb.
  change (k_at k) with now'. change (k_kw k) with (r_kw (round_ a)).
  rewrite (proj2 (Z.eqb_neq _ _) Hnow), (proj2 (Z.ltb_ge _ _) Hat). apply same_refl.
Qed.
End claims.

(** ** What is not authentic *)
(** What an Echo goes by: members, claims, messages, the round, the window's samples,
    the network. *)
Definition trusted (s : arb) :=
  (peers s, claims s, msgs s, round_ s, (delays s, ndelay s, rivals s), (in_net s, net_id s, net_key s)).

Section forged.
Context `{Crypto} `{Entropy} `{Libm}.

Lemma trusted_next_ctr s : trusted (next_ctr s).2 = trusted s /\ mac_key (next_ctr s).2 = mac_key s.
Proof. unfold next_ctr. by case_match. Qed.

Lemma trusted_beacon answer now s : trusted (beacon answer now s) = trusted s.
Proof.
  unfold beacon, send_pkt, emit. case_match; [|done].
  destruct (trusted_next_ctr s) as [Ht _]. destruct (next_ctr s). exact Ht.
Qed.

Lemma trusted_push i now s : trusted (push i now s) = trusted s.
Proof.
  unfold push. case_match; [done|]. pose proof (seal_frame (c_pub (cands s !!! i)) s) as Hf.
  destruct (seal _ s) as [[blob|] s1]; cbn [snd] in Hf; destruct Hf as [->| ->]; repeat case_match; done.
Qed.

(** The guard of a handler that let a packet with a bad tag through *)
Ltac tag_fails :=
  match goal with
  | Ht : tag_ok ?k ?p = false, H : _ || negb (tag_ok ?k ?p) = false |- _ =>
      by rewrite Ht, orb_true_r in H
  end.

(** C13. Nothing without the network's tag counts: whatever the datagram (a forged
    or damaged claim, message or beacon, anything but a key handed over), an Echo in a
    network keeps the members, claims, messages, round, samples and network it had. *)
Theorem forged_changes_nothing (p : bytes) (now ip : Z) (s : arb) :
  in_net s = true -> tag_ok (mac_key s) p = false -> p !! 4%nat <> Some T_GIVE ->
  trusted (on_packet p now ip s) = trusted s.
Proof.
  intros Hin Htag Hty.
  unfold on_packet. destruct (field 5 (mk_rd p false)) as [m r] eqn:Hm.
  destruct (bad r || negb (same (take 4 m) (str "HMA1"))) eqn:Hbad; [done|].
  assert (m !!! 4%nat <> T_GIVE) as Hnot.
  { unfold field, rd_take in Hm. cbn [bad rest orb] in Hm.
    destruct (Nat.ltb_spec (length p) 5); simplify_eq/=. intros Heq. apply Hty.
    destruct p as [|? [|? [|? [|? [|x p]]]]]; simpl in *; try lia. by f_equal. }
  case_match.
  - unfold on_beacon. do 3 case_match. case_match; [done|]. rewrite Hin. cbn [andb].
    case_match.
    + unfold on_member_beacon. case_match. rewrite Htag, orb_true_r. done.
    + destruct (cand l (cands s)) as [i cs]. rewrite trusted_push.
      case_match; [rewrite trusted_beacon|]; by repeat case_match.
  - case_match; [unfold on_pair; by repeat case_match|].
    case_match; [bsimp; lia|]. case_match.
    + unfold on_msg. repeat case_match; try done; by tag_fails.
    + case_match; [|done]. unfold on_claim. repeat case_match; try done; by tag_fails.
Qed.
End forged.

(** ** Instances *)
Lemma demo_network : network_of a3 b3.
Proof. split; try (vm_compute; done). Qed.

Lemma demo_shape : shape b3.
Proof. split; try (vm_compute; (reflexivity || lia)). repeat constructor; vm_compute; done. Qed.

Lemma claim_round_trip_witness :
  let '(p, a') := claim_pkt 500 0 false a3 in
  let b' := on_packet p 3100 7 b3 in
  if fst (fresh (arb_self a3) (ctr a') 3100 (peers b3))
  then mk_claim (arb_self a3) (r_kw (round_ a3)) 500 0 false 3100 ∈ claims b'
  else claims b' = claims b3 /\ round_ b' = round_ b3 /\ delays b' = delays b3.
Proof.
  apply (claim_round_trip 500 0 3100 7 false a3 b3 demo_network demo_shape); [reflexivity|vm_compute; done..].
Defined.

Lemma winner_silences_witness :
  exists p, E_send p ∈ drop (length (out a3)) (out (snd (arb_decide 3500 a3))) /\
  (fst (fresh (arb_self a3) (ctr (snd (arb_decide 3500 a3))) 3510 (peers b3)) = true ->
   r_kw (round_ b3) = r_kw (round_ a3) -> r_kiosk (round_ b3) = false ->
   3510 <> 0 -> r_at (round_ b3) - LOOKBACK_MS <= 3510 ->
   fst (arb_decide 3520 (on_packet p 3510 7 b3)) = false).
Proof.
  apply (winner_silences a3 b3 3500 3510 7 3520 demo_network demo_shape); vm_compute; done.
Defined.

Lemma forged_changes_nothing_witness :
  in_net a3 = true /\ trusted (on_packet (str "HMA1" ++ [T_MSG] ++ zeros 60) 3600 9 a3) = trusted a3.
Proof.
  split; [reflexivity|]. apply forged_changes_nothing; vm_compute; done.
Defined.
