(* ===== verification/ArbKeys.v ===== *)
(** * Wake word arbitration: the network's key
    The key K sealed by one Echo is taken by the other it was sealed to, from the LAN
    packet that carries it; K leaves an Echo on the LAN only for an Echo Home Assistant
    confirmed or for the only one that asked while pairing; a new network has an id. *)
From S2P Require Import Prelude Cbits Crypto ArbState ArbPacket ArbTables ArbNet ArbKiosk ArbRound ArbRecv ArbLoop ArbDemo ArbSteps.

(** Echo [a] is in a network that [b] may join: outside one, or in a younger one *)
Record may_join (a b : arb) : Prop := mk_may_join {
  mj_in : in_net a = true;
  mj_range : 0 <= net_id a < 2 ^ 64;
  mj_younger : in_net b = false \/ net_id a < net_id b;
  mj_running : running b = true;
  mj_key : length (net_key a) = 32%nat }.

Section keys.
Context `{CL : CryptoLaws} `{Entropy} `{Libm}.

(** The keys of the two belong together, and their shared secret is one *)
Record identities (a b : arb) : Prop := mk_identities {
  id_a : pk a = x25519_public_key (sk a);
  id_b : pk b = x25519_public_key (sk b);
  id_ne : pk a <> pk b;
  id_secret : x25519 (sk a) (pk b) <> zeros 32 }.

Lemma wrap_key_sym a b net :
  identities a b ->
  wrap_key (sk b) (pk a) (pk a) (pk b) net = wrap_key (sk a) (pk b) (pk a) (pk b) net /\
  exists key, wrap_key (sk a) (pk b) (pk a) (pk b) net = Some key.
Proof.
  intros [Ha Hb Hne Hs]. unfold wrap_key.
  assert (x25519 (sk b) (pk a) = x25519 (sk a) (pk b)) as -> by (rewrite Ha, Hb; apply x25519_comm).
  rewrite (proj2 (same_false _ _) Hs). eauto.
Qed.

(** Taking a sealed blob apart *)
Lemma blob_parts (pub nonce mac cipher : bytes) :
  length pub = 32%nat -> length nonce = 24%nat -> length mac = 16%nat -> length cipher = 32%nat ->
  let blob := pub ++ nonce ++ mac ++ cipher in
  length blob = BLOB /\ blob_pub blob = pub /\ blob_nonce blob = nonce /\ blob_mac blob = mac /\ blob_cipher blob = cipher.
Proof.
  intros Hp Hn Hm Hc. cbv zeta. split_and!.
  - rewrite !length_app, Hp, Hn, Hm, Hc. done.
  - unfold blob_pub. by rewrite take_app_length'.
  - unfold blob_nonce. by rewrite drop_app_length', take_app_length'.
  - unfold blob_mac. change 56%nat with (32 + 24)%nat. rewrite <- drop_drop.
    by rewrite !drop_app_length', take_app_length'.
  - unfold blob_cipher. change 72%nat with (32 + (24 + 16))%nat. rewrite <- !drop_drop, !drop_app_length' by done.
    by rewrite <- Hc, firstn_all.
Qed.

Lemma seal_unseal a b :
  identities a b -> length (net_key a) = 32%nat ->
  exists blob, (seal (pk b) a).1 = Some blob /\ length blob = BLOB /\ blob_pub blob = pk a /\
    unseal (net_id a) blob b = Some (net_key a).
Proof.
  intros Hid Hk. destruct (wrap_key_sym a b (net_id a) Hid) as [Hsym [key Hkey]].
  unfold seal. rewrite Hkey. unfold ws_random.
  pose proof (aead_lock_length key (entropy (draws a) 24) (pk a) (net_key a)) as [Hcl Hml].
  pose proof (aead_unlock_lock key (entropy (draws a) 24) (pk a) (net_key a)) as Hun.
  cbn [pk net_key]. destruct (aead_lock _ _ _ _) as [cipher mac]. cbn [fst snd] in *.
  destruct (blob_parts (pk a) (entropy (draws a) 24) mac cipher) as (Hlen & Hpub & Hnonce & Hmac & Hcip);
    [by rewrite (id_a _ _ Hid), public_key_length|apply entropy_length|done|congruence|].
  exists (pk a ++ entropy (draws a) 24 ++ mac ++ cipher). split; [done|]. split; [exact Hlen|]. split; [exact Hpub|].
  unfold unseal. rewrite Hpub, Hnonce, Hmac, Hcip.
  rewrite (proj2 (same_false _ _) (id_ne _ _ Hid)), Hsym, Hkey. exact Hun.
Qed.

Lemma take_key_joins a b blob now :
  may_join a b -> unseal (net_id a) blob b = Some (net_key a) ->
  let '(ok, b') := take_key (net_id a) blob now b in
  ok = true /\ in_net b' = true /\ net_id b' = net_id a /\ net_key b' = net_key a /\
  mac_key b' = derive (net_key a).
Proof.
  intros [Hin Hr Hy Hrun Hk] Hun. unfold take_key. rewrite Hrun. cbn [negb].
  assert (in_net b && (net_id b <=? net_id a) = false) as ->.
  { destruct Hy as [->|Hy]; [done|]. apply andb_false_iff. right. by apply Z.leb_gt. }
  rewrite Hun. by case_match.
Qed.

(** ** The packet that carries it *)
Lemma give_packet_eq to net blob :
  length to = 32%nat -> length blob = BLOB ->
  give_packet to net blob = (str "HMA1" ++ [T_GIVE]) ++ to ++ le_bytes 8 net ++ blob.
Proof.
  intros Ht Hb. unfold give_packet. rewrite head_eq. unfold put64.
  put_all ltac:(rewrite ?length_app, ?le_bytes_length, ?Ht, ?Hb; unfold PKT_MAX, BLOB; simpl; lia).
  by rewrite <- !app_assoc.
Qed.

(** when [b] takes a key that names the sender's public key [pub], for network [net] *)
Definition expects (pub : bytes) (net now : Z) (b : arb) : Prop :=
  (pair_until b <> 0 /\ now < pair_until b) \/
  (exists c, c ∈ cands b /\ c_seen c <> 0 /\ c_attested c = true /\ c_net c = net /\ c_pub c = pub).

Lemma on_packet_give net blob now ip b :
  0 <= net < 2 ^ 64 -> length (pk b) = 32%nat -> length blob = BLOB ->
  (in_net b = false \/ net < net_id b) -> expects (blob_pub blob) net now b ->
  on_packet (give_packet (pk b) net blob) now ip b = (take_key net blob now b).2.
Proof.
  intros Hnet Hpk Hblob Hy Hexp. rewrite give_packet_eq by done. unfold on_packet.
  rewrite field_app by done. cbn [bad rest orb].
  change (same (take 4 (str "HMA1" ++ [T_GIVE])) (str "HMA1")) with true. cbn [negb].
  change ((str "HMA1" ++ [T_GIVE]) !!! 4%nat) with T_GIVE.
  change (T_GIVE =? T_BEACON) with false. change (T_GIVE =? T_PAIR) with false.
  change (T_GIVE =? T_GIVE) with true. cbv iota.
  unfold on_give. rewrite field_app, get64_app by done.
  rewrite <- (app_nil_r blob) at 1. rewrite field_app by done. cbn [bad rest orb].
  rewrite (bool_decide_eq_true_2 _ (eq_refl [])), same_refl. cbn [negb orb].
  destruct Hexp as [[Hp Hn]|(c & Hc & Hs & Ha & Hnc & Hpub)].
  - by rewrite (proj2 (Z.eqb_neq _ _) Hp), (proj2 (Z.ltb_lt _ _) Hn).
  - destruct (negb (pair_until b =? 0) && (now <? pair_until b)); [done|].
    destruct (find_index _ (cands b)) as [i|] eqn:Hf.
    + rewrite (proj2 (orb_true_iff _ _)); [done|].
      destruct Hy as [->|Hy]; [by left|right; by apply Z.ltb_lt].
    + exfalso. pose proof (proj1 (find_index_None _ _) Hf c Hc) as Hn. cbn beta in Hn.
      rewrite Ha, Hnc, Hpub, Z.eqb_refl, same_refl, (proj2 (Z.eqb_neq _ _) Hs) in Hn. done.
Qed.

(** The network's key reaches the Echo it was sealed to: the packet an Echo sends
    for a candidate puts that Echo, when it pairs or knows the sender confirmed, into
    the same network, with the same key and so the same key for packets. *)
Theorem key_handed_over (a b : arb) (now ip : Z) :
  may_join a b -> identities a b -> expects (pk a) (net_id a) now b ->
  exists blob, fst (seal (pk b) a) = Some blob /\
  let b' := on_packet (give_packet (pk b) (net_id a) blob) now ip b in
  in_net b' = true /\ net_id b' = net_id a /\ net_key b' = net_key a /\ mac_key b' = derive (net_key a).
Proof.
  intros Hj Hid Hexp. destruct (seal_unseal a b Hid (mj_key _ _ Hj)) as (blob & Hs & Hl & Hpub & Hun).
  exists blob. split; [done|]. cbv zeta. rewrite on_packet_give.
  - pose proof (take_key_joins a b blob now Hj Hun) as Ht. destruct (take_key _ _ _ _). apply Ht.
  - apply (mj_range _ _ Hj).
  - by rewrite (id_b _ _ Hid), public_key_length.
  - done.
  - apply (mj_younger _ _ Hj).
  - by rewrite Hpub.
Qed.


(** Pairing hands K to one Echo only: a key is prepared when exactly one Echo
    from outside the network or a younger one asked, for that one, and none of an older
    network did; with two of them it is given to nobody and pairing ends. *)
Theorem pairing_hands_to_one (now : Z) (s : arb) :
  pair_gave s = false ->
  let s' := pair_hand now s in
  (pair_gave s' = true ->
     exists q blob, filter (fun q => asks s q = true) (pair_requests s) = [q] /\
       existsb (older s) (pair_requests s) = false /\ in_net s = true /\
       fst (seal (q_pub q) s) = Some blob /\ give_pkt s' = give_packet (q_pub q) (net_id s) blob) /\
  (forall q r l, in_net s = true -> PAIR_SETTLE_MS (pace s) <= now - pair_at s ->
     existsb (older s) (pair_requests s) = false ->
     filter (fun q => asks s q = true) (pair_requests s) = q :: r :: l ->
     pair_gave s' = false /\ pair_until s' = 0 /\ pair_event s' = -1 /\ give_pkt s' = give_pkt s).
Proof.
  intros Hg. cbv zeta. unfold pair_hand. rewrite Hg, orb_false_r. split.
  - case_match; [congruence|]. apply orb_false_iff in H1 as [Hin _]. apply negb_false_iff in Hin.
    destruct (existsb _ _) eqn:Ho; [congruence|].
    destruct (filter _ _) as [|q [|]] eqn:Hq; [congruence| |cbn; congruence].
    pose proof (seal_frame (q_pub q) s) as Hf.
    destruct (seal (q_pub q) s) as [[blob|] s1] eqn:Hs; cbn [fst snd] in *.
    + intros _. exists q, blob. split_and!; try done; [by rewrite Hs|].
      cbn [give_pkt]. destruct Hf as [->| ->]; done.
    + intros Hgv. destruct Hf as [->| ->]; cbn in Hgv; congruence.
  - intros q r l Hin Hset Ho Hq. rewrite Hin, Ho, Hq. cbn [negb orb].
    by rewrite (proj2 (Z.ltb_ge _ _) Hset).
Qed.

(** A network somebody starts has an id other than 0, the id that stands for
    no network, and a key of 32 bytes: the draw of the id ends. *)
Theorem created_network (now : Z) (s : arb) :
  let s' := create now s in
  in_net s' = true /\ 0 < net_id s' < 2 ^ 64 /\ length (net_key s') = 32%nat /\ mac_key s' = derive (net_key s').
Proof.
  assert (forall fuel id s, (id <> 0 \/ exists k, (k < fuel)%nat /\ le_value (entropy (draws s + k) 8) <> 0) ->
    0 <= id < 2 ^ 64 -> 0 < (draw_id fuel id s).1 < 2 ^ 64) as Hd.
  { induction fuel as [|fuel IH]; intros id t Hid Hb; cbn [draw_id].
    - destruct Hid as [|(k & Hk & _)]; [cbn; lia|lia].
    - destruct (Z.eqb_spec id 0) as [->|]; [|cbn; lia]. unfold ws_random.
      assert (0 <= le_value (entropy (draws t) 8) < 2 ^ 64) as Hbd.
      { pose proof (le_value_bound _ (entropy_bytes (draws t) 8)) as Hv. by rewrite entropy_length in Hv. }
      apply IH; [|done]. destruct Hid as [|([|k] & Hk & Hv)]; [done| |].
      + left. by rewrite Nat.add_0_r in Hv.
      + right. exists k. split; [lia|]. cbn [draws]. by rewrite <- Nat.add_succ_comm in Hv. }
  cbv zeta. unfold create, ws_random.
  specialize (Hd draw_bound 0 (s <| draws ::= S |>)).
  destruct (draw_id draw_bound 0 _) as [id s1]. cbn [fst] in Hd. unfold adopt, save, emit. cbn.
  split; [done|]. split; [|split; [apply entropy_length|done]]. apply Hd; [|lia]. right.
  destruct (entropy_live (S (draws s))) as (k & ? & ?). by exists k.
Qed.
End keys.

(** ** Instances: an Echo outside any network that pairs, and one that asks *)
Definition newcomer : arb := Eval vm_compute in
  snd (arb_pair 1200 (arb_start (str "new") [L_ctr 100] (Some (le_bytes 32 3)) 1000 arb0)).

Lemma key_handed_over_witness :
  exists blob, fst (seal (pk newcomer) a3) = Some blob /\
  let b' := on_packet (give_packet (pk newcomer) (net_id a3) blob) 1300 7 newcomer in
  in_net b' = true /\ net_id b' = net_id a3 /\ net_key b' = net_key a3 /\ mac_key b' = derive (net_key a3).
Proof.
  apply (key_handed_over a3 newcomer 1300 7).
  - split; try (vm_compute; done). by left.
  - split; vm_compute; done.
  - left. vm_compute. done.
Defined.

Definition pairing_member : arb := Eval vm_compute in
  snd (arb_pair 4000 (on_packet (pair_packet newcomer) 3900 9 a3)).

Lemma pairing_hands_to_one_witness :
  let s' := pair_hand 7000 pairing_member in
  pair_gave s' = true /\
  exists q blob, filter (fun q => asks pairing_member q = true) (pair_requests pairing_member) = [q] /\
    existsb (older pairing_member) (pair_requests pairing_member) = false /\ in_net pairing_member = true /\
    fst (seal (q_pub q) pairing_member) = Some blob /\
    give_pkt s' = give_packet (q_pub q) (net_id pairing_member) blob.
Proof.
  split; [vm_compute; reflexivity|].
  apply (pairing_hands_to_one 7000 pairing_member); vm_compute; reflexivity.
Defined.
