(* ===== verification/DropIn.v ===== *)
(** * Drop In: a call between two Echos (dropin.c)
    The state of the one call an Echo can be in, its messages (sent and received through
    arb), the queue of what the core is told, the audio packets and the jitter buffer.
    [dropin] holds the file's static variables; what leaves goes to [dr_out].  Each
    operation gets its one reading of the clock as [now], and what it asks of other parts
    (Home Assistant's refusal, the member of a name) as arguments.  The echo suppressor
    (single-precision level arithmetic) is not modelled: [send_frame] gets the encoded
    frame. *)
From S2P Require Import Prelude Cbits Crypto ArbState ArbPacket ArbNet ArbLoop.

Definition ANSWER_MS := 4000.
Definition RING_MS := 30000.
Definition CALLER_MS := 5000.
Definition LOST_MS := 5000.
Definition INVITE_MS := 250.
Definition JB := 32.
Definition PREBUF := 4.
Definition MAXBUF := 12.
Definition PLC_FRAMES := 5.
Definition MAXPKT := 400.
Definition EVQ := 16.

Definition M_INVITE := 1.
Definition M_ACCEPT := 2.
Definition M_RINGING := 3.
Definition M_REFUSE := 4.
Definition M_BYE := 5.

Inductive dropin_state := DROPIN_IDLE | DROPIN_CALLING | DROPIN_RINGING | DROPIN_LIVE.
Inductive dropin_result :=
  | DROPIN_R_CONNECTED | DROPIN_R_RINGING | DROPIN_R_BUSY | DROPIN_R_DND | DROPIN_R_MUTED | DROPIN_R_OFF
  | DROPIN_R_DECLINED | DROPIN_R_NOT_ANSWERED | DROPIN_R_NO_ANSWER | DROPIN_R_NOT_FOUND | DROPIN_R_BUSY_HERE
  | DROPIN_R_MUTED_HERE | DROPIN_R_CANCELLED | DROPIN_R_FAILED.
#[export] Instance dropin_state_eq_dec : EqDecision dropin_state.
Proof. solve_decision. Defined.

Definition is_state (a b : dropin_state) : bool := bool_decide (a = b).

(** ** State *)
Record call_t := mk_call {
  cl_state : dropin_state; cl_outgoing : bool; cl_gen : Z; cl_keyed : bool; cl_rang : bool; cl_invited : bool;
  cl_id : bytes; cl_peer : bytes; cl_node : bytes; cl_ip : Z; cl_port : Z;
  cl_esk : bytes; cl_epk : bytes; cl_key : bytes;
  cl_since : Z; cl_sig_at : Z; cl_rx_at : Z; cl_live_at : Z; cl_tx_seq : Z;
  cl_rx : Z; cl_lost : Z; cl_late : Z; cl_played : Z; cl_gap_max : Z; cl_arr_at : Z }.
Record bye_t := mk_bye { by_left : Z; by_at : Z; by_to : bytes; by_p : bytes }.
Record slot := mk_slot { sl_seq : Z; sl_d : bytes }.       (* len is the data's length, 0: empty *)
Record ev := mk_ev { ev_state : option dropin_state; ev_outgoing : bool; ev_result : option dropin_result;
                     ev_here : bool; ev_gen : Z; ev_node : bytes }.
Inductive deffect :=
  | D_tell (to p : bytes)                                              (* arb_tell *)
  | D_core (st : dropin_state) (node : bytes) (outgoing : bool)        (* core_dropin *)
  | D_result (r : dropin_result) (node : bytes) (here : bool)          (* core_dropin_result *)
  | D_audio (ip port : Z) (pkt : bytes).                               (* sendto *)

Definition no_slot := mk_slot 0 [].
Definition no_ev := mk_ev None false None false 0 [].
#[export] Instance slot_inhabited : Inhabited slot := populate no_slot.
#[export] Instance ev_inhabited : Inhabited ev := populate no_ev.

Record dropin := mk_dropin {
  dr_running : bool; dr_enabled : bool; dr_ask : bool; dr_my_port : Z; dr_self : bytes;
  dr_c : call_t; dr_play_next : Z; dr_bye : bye_t; dr_ended : list bytes; dr_ended_n : Z;
  dr_jb : list slot; dr_jb_hi : Z; dr_jb_lo : Z; dr_jb_any : bool;
  dr_evq : list ev; dr_ev_in : Z; dr_ev_out : Z; dr_last : option dropin_result; dr_attempts : Z; dr_notify : bool;
  dr_draws : nat; dr_out : list deffect }.

Definition no_call := mk_call DROPIN_IDLE false 0 false false false (zeros 8) (zeros 8) [] 0 0
  (zeros 32) (zeros 32) (zeros 32) 0 0 0 0 0 0 0 0 0 0 0.
Definition dropin0 (port : Z) (self : bytes) : dropin := {|
  dr_running := true; dr_enabled := true; dr_ask := false; dr_my_port := u16 port; dr_self := self;
  dr_c := no_call; dr_play_next := 0; dr_bye := mk_bye 0 0 (zeros 8) []; dr_ended := replicate 4 (zeros 8); dr_ended_n := 0;
  dr_jb := replicate 32 no_slot; dr_jb_hi := 0; dr_jb_lo := 0; dr_jb_any := false;
  dr_evq := replicate 16 no_ev; dr_ev_in := 0; dr_ev_out := 0; dr_last := None; dr_attempts := 0; dr_notify := false;
  dr_draws := 0%nat; dr_out := [] |}.

Definition st (s : dropin) : dropin_state := cl_state (dr_c s).
Definition demit (e : deffect) (s : dropin) : dropin := s <| dr_out ::= (fun o => o ++ [e]) |>.

(** ** What the core is told *)
Definition ev_push (state : option dropin_state) (node : bytes) (outgoing : bool)
    (result : option dropin_result) (here : bool) (s : dropin) : dropin :=
  let e := mk_ev state outgoing result here (cl_gen (dr_c s)) (take 63 node) in
  let s := s <| dr_evq ::= <[Z.to_nat (dr_ev_in s mod EVQ) := e]> |> <| dr_ev_in := u32 (dr_ev_in s + 1) |> in
  let s := if EVQ <? u32 (dr_ev_in s - dr_ev_out s) then s <| dr_ev_out := u32 (dr_ev_in s - EVQ) |> else s in
  let s := match result with Some r => s <| dr_last := Some r |> | None => s end in
  s <| dr_notify := true |>.

Definition refusal (why : bytes) : dropin_result :=
  if same why (str "busy in another Drop In") then DROPIN_R_BUSY
  else if same why (str "do not disturb is on") then DROPIN_R_DND
  else if same why (str "the microphones are off") then DROPIN_R_MUTED
  else if same why (str "Drop In is off there") then DROPIN_R_OFF
  else if same why (str "declined") then DROPIN_R_DECLINED
  else if same why (str "not answered") then DROPIN_R_NOT_ANSWERED
  else DROPIN_R_FAILED.

(** ** Messages *)
Definition msg_of (kind : Z) (id epk : bytes) (port : Z) (reason : bytes) : bytes :=
  let r := take 60 reason in
  [u8 kind] ++ id ++ [Z.land port 255; Z.shiftr port 8] ++ epk ++ [Z.of_nat (length r)] ++ r.

Definition msg (kind : Z) (reason : bytes) (s : dropin) : bytes :=
  msg_of kind (cl_id (dr_c s)) (cl_epk (dr_c s)) (dr_my_port s) reason.

Definition send_msg (kind : Z) (reason : bytes) (s : dropin) : dropin :=
  demit (D_tell (cl_peer (dr_c s)) (msg kind reason s)) s.

(** to an Echo whose call we do not take: our ephemeral key left out *)
Definition send_to (to id : bytes) (kind : Z) (reason : bytes) (s : dropin) : dropin :=
  demit (D_tell to (msg_of kind id (zeros 32) (dr_my_port s) reason)) s.

Section calls.
Context `{Crypto}.

(** The call's key, from the network's ([ar]) and the two ephemeral keys *)
Definition call_key (kd shared id caller callee : bytes) : bytes :=
  blake2b_keyed 32 kd (shared ++ id ++ caller ++ callee).

Definition derive_call (ar : arb) (peer_epk : bytes) (s : dropin) : option dropin :=
  match arb_derive (str "hassmic drop in 1") ar with
  | None => None
  | Some kd =>
      let c := dr_c s in
      let shared := x25519 (cl_esk c) peer_epk in
      if same shared (zeros 32) then None else
      let caller := if cl_outgoing c then dr_self s else cl_peer c in
      let callee := if cl_outgoing c then cl_peer c else dr_self s in
      Some (s <| dr_c := c <| cl_key := call_key kd shared (cl_id c) caller callee |> <| cl_keyed := true |> |>)
  end.

Definition go_live (now : Z) (s : dropin) : dropin :=
  let c := dr_c s in
  let s := ev_push (Some DROPIN_LIVE) (cl_node c) (cl_outgoing c)
                   (if cl_outgoing c then Some DROPIN_R_CONNECTED else None) false s in
  s <| dr_c := c <| cl_state := DROPIN_LIVE |> <| cl_live_at := now |> <| cl_rx_at := now |> <| cl_tx_seq := 0 |>
                 <| cl_rx := 0 |> <| cl_lost := 0 |> <| cl_late := 0 |> <| cl_played := 0 |>
                 <| cl_gap_max := 0 |> <| cl_arr_at := 0 |> |>
    <| dr_play_next := 0 |> <| dr_jb := replicate 32 no_slot |> <| dr_jb_any := false |>.

Definition end_call (why : bytes) (tell : bool) (result : option dropin_result) (now : Z) (s : dropin) : dropin :=
  if is_state (st s) DROPIN_IDLE then s else
  let c := dr_c s in
  let s := ev_push (Some DROPIN_IDLE) [] (cl_outgoing c)
                   (if is_state (cl_state c) DROPIN_CALLING && cl_outgoing c then result else None) false s in
  let s := if tell then
      let p := msg M_BYE why s in
      demit (D_tell (cl_peer c) p) (s <| dr_bye := mk_bye 2 now (cl_peer c) p |>)
    else s in
  s <| dr_ended ::= <[Z.to_nat (dr_ended_n s mod 4) := cl_id c]> |> <| dr_ended_n := u32 (dr_ended_n s + 1) |>
    <| dr_c := c <| cl_state := DROPIN_IDLE |> <| cl_gen ::= Z.succ |> <| cl_keyed := false |> <| cl_rang := false |>
                 <| cl_esk := zeros 32 |> <| cl_key := zeros 32 |> |>.

Context `{Entropy}.

Definition dr_random (len : nat) (s : dropin) : bytes * dropin :=
  (entropy (dr_draws s) len, s <| dr_draws ::= S |>).

Definition fresh_call (peer node : bytes) (ip : Z) (outgoing : bool) (now : Z) (s : dropin) : dropin :=
  let '(esk, s) := dr_random 32 s in
  s <| dr_c ::= (fun c => c <| cl_id := zeros 8 |> <| cl_outgoing := outgoing |> <| cl_gen ::= Z.succ |>
        <| cl_keyed := false |> <| cl_rang := false |> <| cl_invited := false |> <| cl_peer := peer |>
        <| cl_node := take 63 node |> <| cl_ip := ip |> <| cl_port := 0 |>
        <| cl_esk := esk |> <| cl_epk := x25519_public_key esk |> <| cl_since := now |> <| cl_sig_at := now |>) |>.

(** ** Telling the core, and the first invite *)
Definition tell_one (now : Z) (s : dropin) : dropin :=
  let e := dr_evq s !!! Z.to_nat (dr_ev_out s mod EVQ) in
  let s := s <| dr_ev_out := u32 (dr_ev_out s + 1) |> in
  let s := match ev_state e with Some x => demit (D_core x (ev_node e) (ev_outgoing e)) s | None => s end in
  let s := match ev_result e with Some r => demit (D_result r (ev_node e) (ev_here e)) s | None => s end in
  if bool_decide (ev_state e = Some DROPIN_CALLING) && ev_outgoing e then
    let c := dr_c s in
    if is_state (cl_state c) DROPIN_CALLING && cl_outgoing c && (cl_gen c =? ev_gen e) && negb (cl_invited c) then
      send_msg M_INVITE [] (s <| dr_c := c <| cl_invited := true |> <| cl_since := now |> <| cl_sig_at := now |> |>)
    else s
  else s.

(** at most [EVQ] events wait *)
Fixpoint tell_loop (fuel : nat) (now : Z) (s : dropin) : dropin :=
  match fuel with
  | O => s
  | S fuel => if dr_ev_out s =? dr_ev_in s then s else tell_loop fuel now (tell_one now s)
  end.
Definition tell_core (now : Z) (s : dropin) : dropin := tell_loop (Z.to_nat EVQ) now s.

(** ** The interface *)
Definition dropin_enable (set_ : option bool) (now : Z) (s : dropin) : bool * dropin :=
  let s := match set_ with
    | Some b => if Bool.eqb b (dr_enabled s) then s else
        let s := s <| dr_enabled := b |> in
        if b then s else end_call (str "Drop In switched off") true (Some DROPIN_R_CANCELLED) now s
    | None => s
    end in (dr_enabled s, s).

Definition dropin_ask (set_ : option bool) (s : dropin) : bool * dropin :=
  let s := match set_ with Some b => s <| dr_ask := b |> | None => s end in (dr_ask s, s).

Definition dropin_status (s : dropin) : dropin_state * bytes :=
  (st s, if is_state (st s) DROPIN_IDLE then [] else cl_node (dr_c s)).

Definition dropin_last (s : dropin) : option dropin_result * Z := (dr_last s, dr_attempts s).

(** [node]: the target's; [self]: whether it is ours; [member]: arb_member's answer,
    [no]: why we must not call *)
Definition dropin_call (node : bytes) (self : bool) (member : option (bytes * Z)) (no : option bytes)
    (now : Z) (s : dropin) : bool * dropin :=
  if negb (dr_running s) then (false, s) else
  let s := s <| dr_attempts := u32 (dr_attempts s + 1) |> in
  let refused r := (false, ev_push None node true (Some r) true s) in
  if self then refused DROPIN_R_FAILED else
  match member with
  | None => refused DROPIN_R_NOT_FOUND
  | Some (id, ip) =>
      if negb (dr_enabled s) then refused DROPIN_R_FAILED
      else if bool_decide (no <> None) then refused DROPIN_R_MUTED_HERE
      else if negb (is_state (st s) DROPIN_IDLE) then refused DROPIN_R_BUSY_HERE
      else
        let s := fresh_call id node ip true now s in
        let '(cid, s) := dr_random 8 s in
        let s := s <| dr_c ::= (fun c => c <| cl_id := cid |> <| cl_state := DROPIN_CALLING |>) |> in
        (true, ev_push (Some DROPIN_CALLING) node true None false s)
  end.

Definition dropin_hangup (why : bytes) (now : Z) (s : dropin) : dropin :=
  if is_state (st s) DROPIN_RINGING
  then end_call why false None now (send_msg M_REFUSE (str "declined") s)
  else end_call why (negb (is_state (st s) DROPIN_CALLING) || cl_invited (dr_c s)) (Some DROPIN_R_CANCELLED) now s.

Definition answer (now : Z) (s : dropin) : dropin := go_live now (send_msg M_ACCEPT [] s).

Definition dropin_answer (now : Z) (s : dropin) : bool * dropin :=
  (is_state (st s) DROPIN_RINGING, if is_state (st s) DROPIN_RINGING then answer now s else s).

Definition dropin_button (now : Z) (s : dropin) : bool * dropin :=
  (negb (is_state (st s) DROPIN_IDLE),
   if is_state (st s) DROPIN_RINGING then answer now s
   else end_call (str "action button") true (Some DROPIN_R_CANCELLED) now s).

(** ** A member's message *)
Record parsed := mk_parsed { ms_kind : Z; ms_id : bytes; ms_port : Z; ms_epk : bytes; ms_reason : bytes }.

Definition parse_msg (p : bytes) : option parsed :=
  if (length p <? 44)%nat || (Z.of_nat (length p) <? 44 + p !!! 43%nat) then None else
  let reason := take 63 (cstr (take (Z.to_nat (p !!! 43%nat)) (drop 44 p))) in
  Some (mk_parsed (p !!! 0%nat) (take 8 (drop 1 p)) (Z.lor (p !!! 9%nat) (Z.shiftl (p !!! 10%nat) 8))
                  (take 32 (drop 11 p)) (map (fun q => if q <? 32 then 32 else q) reason)).

Definition this_call (from : bytes) (m : parsed) (s : dropin) : bool :=
  negb (is_state (st s) DROPIN_IDLE) && same (cl_id (dr_c s)) (ms_id m) && same (cl_peer (dr_c s)) from.

Definition on_invite (ar : arb) (from node : bytes) (ip : Z) (no : option bytes) (m : parsed) (now : Z) (s : dropin) : dropin :=
  if this_call from m s && negb (cl_outgoing (dr_c s)) then
    let s := s <| dr_c ::= (fun c => c <| cl_sig_at := now |>) |> in
    match st s with
    | DROPIN_LIVE => send_msg M_ACCEPT [] s
    | DROPIN_RINGING => send_msg M_RINGING [] s
    | _ => s
    end
  else if existsb (fun e => same e (ms_id m)) (dr_ended s) then s
  else if negb (dr_enabled s) then send_to from (ms_id m) M_REFUSE (str "Drop In is off there") s
  else match no with
  | Some why => send_to from (ms_id m) M_REFUSE why s
  | None =>
      if negb (is_state (st s) DROPIN_IDLE) then send_to from (ms_id m) M_REFUSE (str "busy in another Drop In") s
      else if (ms_port m =? 0) || bool_decide (node = []) then send_to from (ms_id m) M_REFUSE (str "no address") s
      else
        let s := fresh_call from node ip false now s in
        let s := s <| dr_c ::= (fun c => c <| cl_id := ms_id m |> <| cl_port := u16 (ms_port m) |>) |> in
        match derive_call ar (ms_epk m) s with
        | None => (send_to from (ms_id m) M_REFUSE (str "no key") s) <| dr_c ::= (fun c => c <| cl_state := DROPIN_IDLE |>) |>
        | Some s =>
            if dr_ask s then
              let s := s <| dr_c ::= (fun c => c <| cl_state := DROPIN_RINGING |>) |> in
              send_msg M_RINGING [] (ev_push (Some DROPIN_RINGING) (cl_node (dr_c s)) false None false s)
            else answer now s
        end
  end.

Definition calling (from : bytes) (m : parsed) (s : dropin) : bool :=
  this_call from m s && cl_outgoing (dr_c s) && is_state (st s) DROPIN_CALLING.

Definition on_ringing (from : bytes) (m : parsed) (now : Z) (s : dropin) : dropin :=
  if calling from m s then
    let s := if cl_rang (dr_c s) then s
             else ev_push None (cl_node (dr_c s)) true (Some DROPIN_R_RINGING) false s in
    s <| dr_c ::= (fun c => c <| cl_rang := true |> <| cl_sig_at := now |> <| cl_rx_at := now |>) |>
  else s.

Definition on_accept (ar : arb) (from : bytes) (ip : Z) (m : parsed) (now : Z) (s : dropin) : dropin :=
  if calling from m s then
    let s := s <| dr_c ::= (fun c => c <| cl_port := u16 (ms_port m) |> <| cl_ip := ip |>) |> in
    match (if ms_port m =? 0 then None else derive_call ar (ms_epk m) s) with
    | None => end_call (str "no key") true (Some DROPIN_R_FAILED) now s
    | Some s => go_live now s
    end
  else s.

Definition on_refuse (from : bytes) (m : parsed) (now : Z) (s : dropin) : dropin :=
  if calling from m s
  then end_call (str "refused") false (Some (refusal (ms_reason m))) now s else s.

Definition on_bye (from : bytes) (m : parsed) (now : Z) (s : dropin) : dropin :=
  if this_call from m s then end_call (str "hung up") false (Some DROPIN_R_FAILED) now s else s.

Definition dropin_message (ar : arb) (from node : bytes) (ip : Z) (p : bytes) (no : option bytes) (now : Z) (s : dropin) : dropin :=
  match parse_msg p with
  | None => s
  | Some m =>
      if ms_kind m =? M_INVITE then on_invite ar from node ip no m now s
      else if ms_kind m =? M_RINGING then on_ringing from m now s
      else if ms_kind m =? M_ACCEPT then on_accept ar from ip m now s
      else if ms_kind m =? M_REFUSE then on_refuse from m now s
      else if ms_kind m =? M_BYE then on_bye from m now s
      else s
  end.

(** ** Timeouts and retries *)
Record times := mk_times { answer_ms : Z; lost_ms : Z }.
Definition stock_times := mk_times ANSWER_MS LOST_MS.

Definition tick_call (t : times) (now : Z) (s : dropin) : dropin :=
  let c := dr_c s in
  match cl_state c with
  | DROPIN_CALLING =>
      if negb (cl_invited c) then s
      else if negb (cl_rang c) && (answer_ms t <? now - cl_since c)
      then end_call (str "no answer") true (Some DROPIN_R_NO_ANSWER) now s
      else if cl_rang c && (RING_MS + answer_ms t <? now - cl_since c)
      then end_call (str "not answered") true (Some DROPIN_R_NOT_ANSWERED) now s
      else if (if cl_rang c then 1000 else INVITE_MS) <=? now - cl_sig_at c
      then send_msg M_INVITE [] (s <| dr_c := c <| cl_sig_at := now |> |>)
      else s
  | DROPIN_RINGING =>
      if RING_MS <? now - cl_since c
      then end_call (str "not answered") false None now (send_msg M_REFUSE (str "not answered") s)
      else if CALLER_MS <? now - cl_sig_at c then end_call (str "the caller gave up") false None now s
      else s
  | DROPIN_LIVE =>
      if lost_ms t <? now - cl_rx_at c
      then end_call (str "lost: no audio for " ++ dec (Z.quot (lost_ms t) 1000) ++ str " s") true None now s
      else s
  | DROPIN_IDLE => s
  end.

Definition tick (t : times) (now : Z) (s : dropin) : dropin :=
  let s := tick_call t now s in
  let b := dr_bye s in
  if negb (by_left b =? 0) && (100 <=? now - by_at b)
  then (demit (D_tell (by_to b) (by_p b)) s) <| dr_bye := b <| by_at := now |> <| by_left ::= Z.pred |> |>
  else s.

(** ** Audio *)
Definition dir_of (outgoing : bool) : Z := if outgoing then 0 else 1.
Definition audio_head (id : bytes) (dir seq : Z) : bytes := str "HMD1" ++ id ++ [dir] ++ le_bytes 4 seq.
(** 24 bytes: the call's id, the direction, the frame's number, zeros *)
Definition audio_nonce (head : bytes) : bytes := take 13 (drop 4 head) ++ zeros 11.

(** A frame out, [op] encoded (the encoder's failure: [op] empty) *)
Definition send_frame (op : bytes) (s : dropin) : dropin :=
  let c := dr_c s in
  if negb (is_state (cl_state c) DROPIN_LIVE) || negb (cl_keyed c) || (cl_port c =? 0) then s else
  let seq := cl_tx_seq c in
  let head := audio_head (cl_id c) (dir_of (cl_outgoing c)) seq in
  let s := s <| dr_c := c <| cl_tx_seq := u32 (seq + 1) |> |> in
  if bool_decide (op = []) then s else
  let '(cipher, mac) := aead_lock (cl_key c) (audio_nonce head) head op in
  demit (D_audio (cl_ip c) (cl_port c) (head ++ cipher ++ mac)) s.

(** a datagram on the audio socket *)
Definition on_audio (p : bytes) (ip port now : Z) (s : dropin) : dropin :=
  let n := length p in let c := dr_c s in
  if (n <? 17 + 1 + 16)%nat || (17 + Z.to_nat MAXPKT + 16 <? n)%nat || negb (same (take 4 p) (str "HMD1")) then s else
  let seq := le_value (take 4 (drop 13 p)) in
  if negb (is_state (cl_state c) DROPIN_LIVE) || negb (cl_keyed c) || negb (same (take 8 (drop 4 p)) (cl_id c))
     || negb (p !!! 12%nat =? (if cl_outgoing c then 1 else 0)) then s else
  if dr_jb_any s && (i32 (seq - dr_jb_hi s) <? - JB) then s else
  match aead_unlock (drop (n - 16) p) (cl_key c) (audio_nonce p) (take 17 p) (take (n - 33) (drop 17 p)) with
  | None => s
  | Some d =>
      let late := dr_jb_any s && (i32 (seq - dr_play_next s) <? 0) in
      s <| dr_jb ::= <[Z.to_nat (seq mod JB) := mk_slot seq d]> |>
        <| dr_jb_hi := if negb (dr_jb_any s) || (0 <? i32 (seq - dr_jb_hi s)) then seq else dr_jb_hi s |>
        <| dr_jb_lo := if negb (dr_jb_any s) || (i32 (seq - dr_jb_lo s) <? 0) then seq else dr_jb_lo s |>
        <| dr_jb_any := true |>
        <| dr_c := c <| cl_gap_max := if negb (cl_arr_at c =? 0) && (cl_gap_max c <? now - cl_arr_at c)
                                      then now - cl_arr_at c else cl_gap_max c |>
                     <| cl_late := if late then u32 (cl_late c + 1) else cl_late c |>
                     <| cl_rx := u32 (cl_rx c + 1) |> <| cl_rx_at := now |> <| cl_arr_at := now |>
                     <| cl_ip := ip |> <| cl_port := port |> |>
  end.

(** The playout thread's own variables for one call *)
Record play := mk_play { pl_gen : Z; pl_t0 : Z; pl_started : bool; pl_next : Z; pl_missing : Z }.

(** What the decoder is asked for: a frame, a frame's redundancy in the one after it,
    concealment; or silence *)
Inductive heard_frame := Frame (d : bytes) | Fec (d : bytes) | Conceal | Silence.

Definition play_begin (now : Z) (s : dropin) : play := mk_play (cl_gen (dr_c s)) now false 0 0.

(** when the playout starts, and where it skips to with too much waiting *)
Definition play_position (now : Z) (pl : play) (s : dropin) : play :=
  let pl := if negb (pl_started pl) && dr_jb_any s
               && ((PREBUF - 1 <=? u32 (dr_jb_hi s - dr_jb_lo s)) || (300 <? now - pl_t0 pl))
            then pl <| pl_started := true |> <| pl_next := dr_jb_lo s |> else pl in
  if pl_started pl && (MAXBUF <? i32 (dr_jb_hi s - pl_next pl))
  then pl <| pl_next := u32 (dr_jb_hi s - (PREBUF - 1)) |> else pl.

(** One frame; [None]: the call is over *)
Definition play_frame (now : Z) (pl : play) (s : dropin) : option (heard_frame * play * dropin) :=
  if negb (is_state (st s) DROPIN_LIVE) || negb (cl_gen (dr_c s) =? pl_gen pl) then None else
  let pl := play_position now pl s in
  let next := pl_next pl in
  let i := Z.to_nat (next mod JB) in
  let s0 := dr_jb s !!! i in
  let s1 := dr_jb s !!! Z.to_nat (u32 (next + 1) mod JB) in
  let ahead := i32 (dr_jb_hi s - next) in
  let pkt := if negb (pl_started pl) then None
             else if negb (bool_decide (sl_d s0 = [])) && (sl_seq s0 =? next) then Some (sl_d s0, false)
             else if ahead <=? 0 then None
             else if negb (bool_decide (sl_d s1 = [])) && (sl_seq s1 =? u32 (next + 1)) then Some (sl_d s1, true)
             else None in
  let gone := pl_started pl && (bool_decide (pkt <> None) || (0 <? ahead)) in
  let s := if gone then
      let c := dr_c s in
      s <| dr_c := c <| cl_lost := if bool_decide (pkt = None) || match pkt with Some (_, fec) => fec | None => false end
                                  then u32 (cl_lost c + 1) else cl_lost c |>
                     <| cl_played := u32 (cl_played c + 1) |> |>
        <| dr_jb ::= alter (fun x => x <| sl_d := [] |>) i |>
        <| dr_play_next := u32 (next + 1) |>
    else s in
  let hf := match pkt with
    | Some (d, true) => Fec d
    | Some (d, false) => Frame d
    | None => if pl_started pl && (pl_missing pl <? PLC_FRAMES) then Conceal else Silence
    end in
  let pl := pl <| pl_next := if gone then u32 (next + 1) else next |>
               <| pl_missing := if bool_decide (pkt = None) then pl_missing pl + 1 else 0 |> in
  Some (hf, pl, s).

End calls.
