(* ===== verification/DropInCalls.v ===== *)
(** * Drop In: calls
    A call between two Echos of a network connects with one key on both sides; only an
    accepted or answered call opens the microphone; a call that ended stays over; every
    state but idle ends by itself; the core is told everything in order. *)
From S2P Require Import Prelude Cbits Crypto ArbState ArbPacket ArbNet ArbLoop ArbDemo DropIn.





(** ** What [ev_push] leaves alone *)
Lemma ev_push_frame state node outgoing result here s :
  let s' := ev_push state node outgoing result here s in
  dr_c s' = dr_c s /\ dr_out s' = dr_out s /\ dr_self s' = dr_self s /\ dr_my_port s' = dr_my_port s /\
  dr_enabled s' = dr_enabled s /\ dr_ask s' = dr_ask s /\ dr_ended s' = dr_ended s /\ dr_ended_n s' = dr_ended_n s /\
  dr_jb s' = dr_jb s /\ dr_bye s' = dr_bye s.
Proof. unfold ev_push. cbv zeta. by destruct result; case_match. Qed.

Ltac ev_frame :=
  repeat match goal with
  | |- context [ev_push ?a ?b ?c ?d ?e ?s] =>
      let H := fresh in let x := fresh "s" in
      pose proof (ev_push_frame a b c d e s) as H; set (x := ev_push a b c d e s) in *; clearbody x;
      destruct H as (?Hc & ?Ho & ?Hself & ?Hport & ?Hen & ?Hask & ?Hended & ?Hn & ?Hjb & ?Hbye)
  end.


Lemma is_state_true a b : is_state a b = true <-> a = b.
Proof. apply bool_decide_eq_true. Qed.

Section calls.
Context `{CL : CryptoLaws} `{Entropy}.





End calls.

(** ** Every operation as a step *)
Inductive devent :=
  | De_message (ar : arb) (from node : bytes) (ip : Z) (p : bytes) (no : option bytes)
  | De_call (node : bytes) (self : bool) (member : option (bytes * Z)) (no : option bytes)
  | De_hangup (why : bytes)
  | De_answer
  | De_button
  | De_enable (b : option bool)
  | De_ask (b : option bool)
  | De_tick (t : times)
  | De_tell
  | De_audio (p : bytes) (ip port : Z)
  | De_frame (op : bytes).

Section steps.
Context `{Crypto} `{Entropy}.

Definition dstep (e : devent) (now : Z) (s : dropin) : dropin :=
  match e with
  | De_message ar from node ip p no => dropin_message ar from node ip p no now s
  | De_call node self member no => (dropin_call node self member no now s).2
  | De_hangup why => dropin_hangup why now s
  | De_answer => (dropin_answer now s).2
  | De_button => (dropin_button now s).2
  | De_enable b => (dropin_enable b now s).2
  | De_ask b => (dropin_ask b s).2
  | De_tick t => tick t now s
  | De_tell => tell_core now s
  | De_audio p ip port => on_audio p ip port now s
  | De_frame op => send_frame op s
  end.

Lemma end_call_idle why tell r now s : st (end_call why tell r now s) = DROPIN_IDLE.
Proof.
  unfold end_call. destruct (is_state (st s) DROPIN_IDLE) eqn:Hs; [by apply is_state_true in Hs|].
  by destruct tell.
Qed.

Lemma derive_call_frame ar epk s u :
  derive_call ar epk s = Some u ->
  exists k, u = s <| dr_c := (dr_c s) <| cl_key := k |> <| cl_keyed := true |> |>.
Proof.
  unfold derive_call. destruct (arb_derive _ _); [|done]. case_match; [done|].
  intros [= <-]. by eexists.
Qed.

Lemma tick_bye t now s : dr_c (tick t now s) = dr_c (tick_call t now s).
Proof. unfold tick. by case_match. Qed.

Lemma tick_call_st t now s : st (tick_call t now s) = st s \/ st (tick_call t now s) = DROPIN_IDLE.
Proof.
  unfold tick_call. destruct (cl_state (dr_c s)) eqn:Hs; repeat case_match; auto using end_call_idle.
Qed.

Lemma tell_one_c now s :
  dr_c (tell_one now s) = dr_c s \/
  (st s = DROPIN_CALLING /\ st (tell_one now s) = DROPIN_CALLING).
Proof.
  unfold tell_one. generalize (dr_evq s !!! Z.to_nat (dr_ev_out s mod EVQ)). intros e.
  set (s1 := s <| dr_ev_out := _ |>).
  set (s2 := match ev_state e with Some x => demit (D_core x (ev_node e) (ev_outgoing e)) s1 | None => s1 end).
  assert (dr_c s2 = dr_c s) as H2 by (unfold s2; by case_match). clearbody s2.
  set (s3 := match ev_result e with Some r => demit (D_result r (ev_node e) (ev_here e)) s2 | None => s2 end).
  assert (dr_c s3 = dr_c s) as H3 by (unfold s3; by case_match). clearbody s3.
  case_match; [|by left]. case_match; [|by left]. right. bsimp.
  match goal with H : is_state _ DROPIN_CALLING = true |- _ => apply is_state_true in H end.
  unfold st. rewrite <- H3. split; done.
Qed.

Lemma tell_loop_c fuel now s :
  dr_c (tell_loop fuel now s) = dr_c s \/
  (st s = DROPIN_CALLING /\ st (tell_loop fuel now s) = DROPIN_CALLING).
Proof.
  revert s. induction fuel as [|fuel IH]; intros s; simpl; [by left|]. case_match; [by left|].
  unfold st. destruct (IH (tell_one now s)) as [->|[Ha Hb]], (tell_one_c now s) as [Hc|[Hc Hd]]; unfold st in *; auto.
  rewrite Hc in Ha. auto.
Qed.

(** Who is on the line *)
Definition connects (e : devent) (s : dropin) : Prop :=
  match e with
  | De_answer | De_button => st s = DROPIN_RINGING
  | De_message ar from node ip p no =>
      exists m, parse_msg p = Some m /\
      ((ms_kind m = M_ACCEPT /\ st s = DROPIN_CALLING /\ cl_outgoing (dr_c s) = true /\
        cl_id (dr_c s) = ms_id m /\ cl_peer (dr_c s) = from) \/
       (ms_kind m = M_INVITE /\ st s = DROPIN_IDLE /\ dr_enabled s = true /\ dr_ask s = false /\ no = None /\
        ms_id m ∉ dr_ended s))
  | _ => False
  end.

Lemma calling_spec from m s :
  calling from m s = true -> st s = DROPIN_CALLING /\ cl_outgoing (dr_c s) = true /\ cl_id (dr_c s) = ms_id m /\ cl_peer (dr_c s) = from.
Proof.
  unfold calling, this_call. intros H1. bsimp.
  repeat match goal with H : same _ _ = true |- _ => apply same_true in H | H : is_state _ _ = true |- _ => apply is_state_true in H end.
  done.
Qed.

(** C31. The microphone opens only when it may: an Echo's call goes live only by its
    own ringing call answered here, by the called Echo's acceptance of this very call, or
    by an invite while it is idle, with Drop In on, set to answer at once, nothing
    against it, and the call not one that ended before. *)
Theorem goes_live_only_when_allowed (e : devent) (now : Z) (s : dropin) :
  st (dstep e now s) = DROPIN_LIVE -> st s = DROPIN_LIVE \/ connects e s.
Proof.
  intros Hl. destruct (decide (st s = DROPIN_LIVE)) as [|Hne]; [by left|]. right.
  destruct e; simpl in *.
  - unfold dropin_message in Hl. destruct (parse_msg p) as [m|]; [|done]. exists m. split; [done|].
    destruct (Z.eqb_spec (ms_kind m) M_INVITE) as [Hk|].
    + unfold on_invite in Hl. destruct (this_call from m s && negb (cl_outgoing (dr_c s))).
      { revert Hl Hne. unfold st. cbn. destruct (cl_state (dr_c s)) eqn:Hs; cbn; rewrite Hs; done. }
      destruct (existsb _ (dr_ended s)) eqn:He; [done|]. destruct (dr_enabled s) eqn:Hen; [|done].
      destruct no; [done|]. destruct (is_state (st s) DROPIN_IDLE) eqn:Hi; [|done]. apply is_state_true in Hi.
      cbn [negb] in Hl. case_match; [done|].
      match type of Hl with context [derive_call ar ?k ?x] => set (t := x) in Hl; destruct (derive_call ar k t) as [u|] eqn:Hd end; [|done].
      destruct (derive_call_frame _ _ _ _ Hd) as [k ->]. change (dr_ask (t <| dr_c := _ |>)) with (dr_ask s) in Hl. destruct (dr_ask s) eqn:Hask.
      * unfold st, send_msg, demit in Hl. cbn [dr_c] in Hl. revert Hl. ev_frame. cbn. rewrite Hc. done.
      * right. split_and!; try done. intros Hin. apply (proj1 (existsb_false_elem _ _) He) in Hin.
        by rewrite same_refl in Hin.
    + case_match.
      { unfold on_ringing in Hl. destruct (calling _ _ _); [|done]. revert Hl Hne. unfold st. case_match; ev_frame; cbn; rewrite ?Hc; congruence. }
      case_match.
      { unfold on_accept in Hl. destruct (calling from m s) eqn:Hcall; [|done]. apply calling_spec in Hcall. bsimp. tauto. }
      case_match; [unfold on_refuse in Hl; destruct (calling _ _ _); [by rewrite end_call_idle in Hl|done]|].
      case_match; [unfold on_bye in Hl; destruct (this_call _ _ _); [by rewrite end_call_idle in Hl|done]|done].
  - unfold dropin_call in Hl. destruct (negb (dr_running s)); [done|]. revert Hl. unfold st.
    repeat case_match; unfold dr_random, fresh_call in *; simplify_eq; cbn [snd]; ev_frame; rewrite Hc; done.
  - unfold dropin_hangup in Hl. case_match; by rewrite end_call_idle in Hl.
  - unfold dropin_answer in Hl. destruct (is_state _ _) eqn:Hs; [by apply is_state_true in Hs|done].
  - unfold dropin_button in Hl. destruct (is_state (st s) DROPIN_RINGING) eqn:Hs; [by apply is_state_true in Hs|].
    cbn in Hl. by rewrite end_call_idle in Hl.
  - unfold dropin_enable in Hl. destruct b as [b|]; [|done]. case_match; [done|]. case_match; [done|].
    cbn in Hl. by rewrite end_call_idle in Hl.
  - unfold dropin_ask in Hl. by destruct b.
  - unfold st in Hl. rewrite tick_bye in Hl. destruct (tick_call_st t now s) as [Hs|Hs]; unfold st in *; congruence.
  - destruct (tell_loop_c (Z.to_nat EVQ) now s) as [Hc|[Hc Hd]]; unfold tell_core in Hl; [|congruence].
    unfold st in *. by rewrite Hc in Hl.
  - unfold on_audio in Hl. cbv zeta in Hl. repeat (case_match; try done).
  - unfold send_frame in Hl. revert Hl. cbv zeta. repeat case_match; try done.
Qed.
End steps.

(** ** Ends *)
Section ends.
Context `{Crypto} `{Entropy}.

Lemma end_call_frame why tell r now s :
  st s <> DROPIN_IDLE ->
  let s' := end_call why tell r now s in
  dr_c s' = (dr_c s) <| cl_state := DROPIN_IDLE |> <| cl_gen ::= Z.succ |> <| cl_keyed := false |> <| cl_rang := false |>
                   <| cl_esk := zeros 32 |> <| cl_key := zeros 32 |> /\
  dr_ended s' = <[Z.to_nat (dr_ended_n s mod 4) := cl_id (dr_c s)]> (dr_ended s) /\
  dr_ended_n s' = u32 (dr_ended_n s + 1) /\ dr_self s' = dr_self s /\
  (exists p, dr_out s' = dr_out s ++ if tell then [D_tell (cl_peer (dr_c s)) p] else []).
Proof.
  intros Hs. cbv zeta. unfold end_call. destruct (is_state (st s) DROPIN_IDLE) eqn:Hi; [by apply is_state_true in Hi|].
  ev_frame. destruct tell; cbn; rewrite ?Hended, ?Hn, ?Hself, ?Ho; split_and!; try done.
  - by eexists.
  - exists []. by rewrite app_nil_r.
Qed.

(** A call that ended stays over: whatever ended it, a late copy of its invite,
    from whomever, neither starts it again nor draws an answer. *)
Theorem ended_call_stays_over (why : bytes) (tell : bool) (r : option dropin_result) (now now' : Z)
    (ar : arb) (from node : bytes) (ip : Z) (p : bytes) (no : option bytes) (m : parsed) (s : dropin) :
  st s <> DROPIN_IDLE -> length (dr_ended s) = 4%nat ->
  parse_msg p = Some m -> ms_kind m = M_INVITE -> ms_id m = cl_id (dr_c s) ->
  let s' := end_call why tell r now s in dropin_message ar from node ip p no now' s' = s'.
Proof.
  intros Hst Hlen Hp Hk Hid. cbv zeta.
  destruct (end_call_frame why tell r now s Hst) as (Hc & He & _).
  pose proof (end_call_idle why tell r now s) as Hi.
  set (s' := end_call why tell r now s) in *. clearbody s'.
  unfold dropin_message. rewrite Hp, Hk. cbn [Z.eqb]. change (M_INVITE =? M_INVITE) with true. cbv iota.
  unfold on_invite, this_call. rewrite Hi. change (is_state DROPIN_IDLE DROPIN_IDLE) with true. cbn [negb andb].
  rewrite (proj2 (existsb_elem _ _)); [done|]. exists (ms_id m). split; [|apply same_refl].
  rewrite He, Hid. apply list_elem_of_insert. rewrite Hlen.
  pose proof (Z.mod_pos_bound (dr_ended_n s) 4). lia.
Qed.

(** When a call ends by itself *)
Definition overdue (t : times) (now : Z) (s : dropin) : Prop :=
  let c := dr_c s in
  match cl_state c with
  | DROPIN_IDLE => True
  | DROPIN_CALLING => cl_invited c = true /\
      if cl_rang c then RING_MS + answer_ms t < now - cl_since c else answer_ms t < now - cl_since c
  | DROPIN_RINGING => RING_MS < now - cl_since c \/ CALLER_MS < now - cl_sig_at c
  | DROPIN_LIVE => lost_ms t < now - cl_rx_at c
  end.

(** Calls end by themselves, in time and not before: the loop ends a call going
    out without a word after [answer_ms], one that rings after the ring and that time,
    a ringing one here after 30 s or 5 s without the caller, a connected one after
    [lost_ms] without audio, and lets every other one be. *)
Theorem tick_ends_overdue (t : times) (now : Z) (s : dropin) :
  (overdue t now s -> st (tick t now s) = DROPIN_IDLE) /\
  (~ overdue t now s -> st (tick t now s) = st s).
Proof.
  unfold st at 1 2. rewrite tick_bye. unfold tick_call, overdue. cbv zeta.
  destruct (cl_state (dr_c s)) eqn:Hs.
  - split; done.
  - destruct (cl_invited (dr_c s)); cbn [negb]; [|split; [by intros []|done]].
    destruct (cl_rang (dr_c s)); cbn [negb andb].
    + destruct (Z.ltb_spec (RING_MS + answer_ms t) (now - cl_since (dr_c s))).
      * split; [intros _; apply end_call_idle|]. intros Hn. destruct Hn. done.
      * split; [intros [_ ?]; lia|]. intros _. by case_match.
    + destruct (Z.ltb_spec (answer_ms t) (now - cl_since (dr_c s))).
      * split; [intros _; apply end_call_idle|]. intros Hn. destruct Hn. done.
      * split; [intros [_ ?]; lia|]. intros _. by case_match.
  - destruct (Z.ltb_spec RING_MS (now - cl_since (dr_c s))).
    + split; [intros _; apply end_call_idle|]. intros Hn. destruct Hn. by left.
    + destruct (Z.ltb_spec CALLER_MS (now - cl_sig_at (dr_c s))).
      * split; [intros _; apply end_call_idle|]. intros Hn. destruct Hn. by right.
      * split; [intros [?|?]; lia|done].
  - destruct (Z.ltb_spec (lost_ms t) (now - cl_rx_at (dr_c s))).
    + split; [intros _; apply end_call_idle|]. intros Hn. destruct Hn. done.
    + split; [intros ?; lia|done].
Qed.
End ends.

(** ** The queue of events *)
(** The ring as the list of what the core has not been told yet *)
Definition evs (s : dropin) : list ev :=
  map (fun k => dr_evq s !!! Z.to_nat ((dr_ev_out s + k) mod EVQ)) (seqZ 0 (u32 (dr_ev_in s - dr_ev_out s))).

Record evq_ok (s : dropin) : Prop := mk_evq_ok {
  eq_length : length (dr_evq s) = 16%nat;
  eq_in : 0 <= dr_ev_in s < 2 ^ 32;
  eq_out : 0 <= dr_ev_out s < 2 ^ 32;
  eq_waiting : u32 (dr_ev_in s - dr_ev_out s) <= EVQ }.

(** [n] events at most, the newest ones *)
Definition newest {A} (n : nat) (l : list A) : list A := drop (length l - n) l.

Definition told (e : ev) : list deffect :=
  (match ev_state e with Some x => [D_core x (ev_node e) (ev_outgoing e)] | None => [] end)
  ++ (match ev_result e with Some r => [D_result r (ev_node e) (ev_here e)] | None => [] end).
Definition is_told (e : deffect) : bool :=
  match e with D_core _ _ _ | D_result _ _ _ => true | _ => false end.

Lemma u32_mod16 x : u32 x mod EVQ = x mod EVQ.
Proof. unfold u32, EVQ. rewrite Z.mod_mod_divide; [done|]. by exists (2 ^ 28). Qed.

Lemma evs_length s : evq_ok s -> Z.of_nat (length (evs s)) = u32 (dr_ev_in s - dr_ev_out s).
Proof.
  intros _. unfold evs. rewrite length_map, length_seqZ. pose proof (Z.mod_pos_bound (dr_ev_in s - dr_ev_out s) (2 ^ 32)).
  unfold u32 in *. lia.
Qed.

#[local] Arguments u32 : simpl never.
#[local] Arguments Z.modulo : simpl never.

(** how many wait, and where the next goes *)
Lemma ring_in s n : evq_ok s -> n = u32 (dr_ev_in s - dr_ev_out s) ->
  0 <= n <= 16 /\ dr_ev_in s mod 16 = (dr_ev_out s + n) mod 16.
Proof.
  intros [_ _ _ Hw] ->. pose proof (Z.mod_pos_bound (dr_ev_in s - dr_ev_out s) (2 ^ 32)).
  unfold EVQ in *. split; [unfold u32 in *; lia|].
  pose proof (u32_mod16 (dr_ev_in s - dr_ev_out s)) as Hm. unfold EVQ in Hm.
  rewrite <- Z.add_mod_idemp_r, Hm, Z.add_mod_idemp_r by lia. f_equal. lia.
Qed.

Lemma u32_sub_add a b k : u32 (u32 (a + k) - b) = u32 (u32 (a - b) + k).
Proof.
  unfold u32. rewrite Zminus_mod_idemp_l, Z.add_mod_idemp_l by lia. f_equal. lia.
Qed.

Lemma evs_push state node outgoing result here s :
  evq_ok s ->
  let e := mk_ev state outgoing result here (cl_gen (dr_c s)) (take 63 node) in
  let s' := ev_push state node outgoing result here s in
  evq_ok s' /\ evs s' = newest 16 (evs s ++ [e]).
Proof.
  intros Hok. cbv zeta. set (e := mk_ev _ _ _ _ _ _). set (n := u32 (dr_ev_in s - dr_ev_out s)).
  destruct (ring_in s n Hok eq_refl) as [Hn Hin].
  set (q := <[Z.to_nat (dr_ev_in s mod EVQ) := e]> (dr_evq s)).
  set (i' := u32 (dr_ev_in s + 1)).
  assert (length q = 16%nat) as Hq by (unfold q; rewrite length_insert; apply (eq_length _ Hok)).
  assert (u32 (i' - dr_ev_out s) = n + 1) as Hn'.
  { unfold i'. rewrite u32_sub_add. fold n. unfold u32. rewrite Z.mod_small; lia. }
  assert (0 <= i' < 2 ^ 32) as Hi' by (apply Z.mod_pos_bound; lia).
  assert (forall x, x mod 16 <> dr_ev_in s mod 16 -> q !!! Z.to_nat (x mod EVQ) = dr_evq s !!! Z.to_nat (x mod EVQ)) as Hother.
  { intros x Hx. unfold q. rewrite list_lookup_total_insert_ne; [done|]. unfold EVQ in *.
    pose proof (Z.mod_pos_bound x 16). pose proof (Z.mod_pos_bound (dr_ev_in s) 16). lia. }
  assert (forall x, x mod 16 = dr_ev_in s mod 16 -> q !!! Z.to_nat (x mod EVQ) = e) as Hsame.
  { intros x Hx. unfold q, EVQ. rewrite Hx, list_lookup_total_insert_eq; [done|].
    rewrite (eq_length _ Hok). pose proof (Z.mod_pos_bound (dr_ev_in s) 16). lia. }
  unfold ev_push. fold e q i'. cbn.
  assert (Z.of_nat (length (evs s)) = n) as Hlen by (by apply evs_length).
  destruct (Z.ltb_spec EVQ (u32 (i' - dr_ev_out s))) as [Hlt|Hge]; rewrite Hn' in *; unfold EVQ in *.
  - (* the oldest goes *)
    assert (n = 16) as Hn16 by lia.
    assert (u32 (i' - u32 (i' - 16)) = 16) as Hw.
    { unfold u32. rewrite Zminus_mod_idemp_r. replace (i' - (i' - 16)) with 16 by lia. done. }
    assert (evq_ok (s <| dr_evq := q |> <| dr_ev_in := i' |> <| dr_ev_out := u32 (i' - 16) |>) /\
      evs (s <| dr_evq := q |> <| dr_ev_in := i' |> <| dr_ev_out := u32 (i' - 16) |>) = newest 16 (evs s ++ [e])) as [Hok' He].
    { split; [split; cbn; try done; [apply Z.mod_pos_bound; lia|rewrite Hw; unfold EVQ; lia]|].
      unfold evs at 1. cbn. rewrite Hw. unfold newest. rewrite length_app. cbn [length].
      replace (length (evs s) + 1 - 16)%nat with 1%nat by lia. unfold evs. fold n. rewrite Hn16.
      replace (seqZ 0 16) with (seqZ 0 15 ++ [15]) at 1 by done.
      replace (seqZ 0 16) with (0 :: seqZ 1 15) by done. rewrite map_app.
      cbn [map app].
      rewrite skipn_cons, skipn_O. f_equal.
      - change (seqZ 1 15) with (map Z.succ (seqZ 0 15)). rewrite map_map. apply map_ext_in.
        intros k Hk%list_elem_of_In%elem_of_seqZ. rewrite <- u32_mod16.
        assert (u32 (u32 (i' - 16) + k) mod EVQ = (dr_ev_out s + Z.succ k) mod EVQ) as ->; [|apply Hother].
        + rewrite u32_mod16. unfold EVQ. pose proof (u32_mod16 (i' - 16)) as H1. pose proof (u32_mod16 (dr_ev_in s + 1)) as H2.
          fold i' in H2. unfold EVQ in *. Z.div_mod_to_equations. lia.
        + Z.div_mod_to_equations. lia.
      - f_equal. apply Hsame. pose proof (u32_mod16 (i' - 16)) as H1. pose proof (u32_mod16 (dr_ev_in s + 1)) as H2.
        fold i' in H2. unfold EVQ in *. Z.div_mod_to_equations. lia. }
    destruct result; split; destruct Hok'; by try split.
  - assert (evq_ok (s <| dr_evq := q |> <| dr_ev_in := i' |>) /\
      evs (s <| dr_evq := q |> <| dr_ev_in := i' |>) = newest 16 (evs s ++ [e])) as [Hok' He].
    { split; [split; cbn; try done; [apply (eq_out _ Hok)|rewrite Hn'; unfold EVQ; lia]|].
      unfold evs at 1. cbn. rewrite Hn'. unfold newest. rewrite length_app. cbn [length].
      replace (length (evs s) + 1 - 16)%nat with 0%nat by lia. rewrite skipn_O.
      rewrite (seqZ_app 0 n 1) by lia. rewrite map_app. f_equal.
      - unfold evs. fold n. apply map_ext_in. intros k Hk%list_elem_of_In%elem_of_seqZ.
        apply Hother. Z.div_mod_to_equations. lia.
      - rewrite seqZ_cons by lia. cbn [map]. f_equal. apply Hsame. rewrite Hin. f_equal. }
    destruct result; split; destruct Hok'; by try split.
Qed.

Lemma evs_pop s e l :
  evq_ok s -> evs s = e :: l ->
  let s' := s <| dr_ev_out := u32 (dr_ev_out s + 1) |> in
  e = dr_evq s !!! Z.to_nat (dr_ev_out s mod EVQ) /\ evq_ok s' /\ evs s' = l.
Proof.
  intros Hok He. cbv zeta. set (n := u32 (dr_ev_in s - dr_ev_out s)).
  destruct (ring_in s n Hok eq_refl) as [Hn Hin].
  assert (Z.of_nat (length (evs s)) = n) as Hlen by (by apply evs_length).
  rewrite He in Hlen. cbn [length] in Hlen.
  assert (u32 (dr_ev_in s - u32 (dr_ev_out s + 1)) = n - 1) as Hw.
  { unfold u32. rewrite Zminus_mod_idemp_r.
    replace (dr_ev_in s - (dr_ev_out s + 1)) with (dr_ev_in s - dr_ev_out s - 1) by lia.
    rewrite <- Zminus_mod_idemp_l. fold (u32 (dr_ev_in s - dr_ev_out s)). fold n. rewrite Z.mod_small; lia. }
  assert (evs s = (dr_evq s !!! Z.to_nat (dr_ev_out s mod EVQ)) ::
    map (fun k => dr_evq s !!! Z.to_nat ((dr_ev_out s + Z.succ k) mod EVQ)) (seqZ 0 (n - 1))) as Hs.
  { unfold evs. fold n. rewrite seqZ_cons by lia. cbn [map]. rewrite Z.add_0_r. f_equal.
    change (Z.succ 0) with (1 + 0). rewrite <- fmap_add_seqZ. replace (Z.pred n) with (n - 1) by lia.
    change (Z.add 1 <$> seqZ 0 (n - 1)) with (map (Z.add 1) (seqZ 0 (n - 1))).
    rewrite map_map. apply map_ext. intros k. do 3 f_equal. lia. }
  rewrite He in Hs. injection Hs as -> ->. split; [done|]. split.
  - split; cbn; [apply (eq_length _ Hok)|apply (eq_in _ Hok)|apply Z.mod_pos_bound; lia|rewrite Hw; unfold EVQ; lia].
  - unfold evs. cbn. rewrite Hw. apply map_ext. intros k. do 2 f_equal.
    pose proof (u32_mod16 (dr_ev_out s + 1)) as Hm. unfold EVQ in *.
    rewrite <- Z.add_mod_idemp_l, Hm, Z.add_mod_idemp_l by lia. f_equal. lia.
Qed.

Section told.
Context `{Crypto} `{Entropy}.

Definition heard_by_core (s : dropin) : list deffect := filter (fun x => is_told x = true) (dr_out s).

Lemma tell_one_told now s e l :
  evq_ok s -> evs s = e :: l ->
  let s' := tell_one now s in
  evq_ok s' /\ evs s' = l /\ heard_by_core s' = heard_by_core s ++ told e.
Proof.
  intros Hok He. cbv zeta. destruct (evs_pop s e l Hok He) as (-> & Hok' & Hl). unfold tell_one.
  generalize (dr_evq s !!! Z.to_nat (dr_ev_out s mod EVQ)). clear He. intros e.
  assert (heard_by_core (s <| dr_ev_out := u32 (dr_ev_out s + 1) |>) = heard_by_core s) as Hh by done.
  generalize dependent (s <| dr_ev_out := u32 (dr_ev_out s + 1) |>). intros t Ht Hl Hh. rewrite <- Hh. clear Hok Hh.
  set (t2 := match ev_state e with Some x => demit (D_core x (ev_node e) (ev_outgoing e)) t | None => t end).
  set (t3 := match ev_result e with Some r => demit (D_result r (ev_node e) (ev_here e)) t2 | None => t2 end).
  assert (evq_ok t3 /\ evs t3 = evs t /\ heard_by_core t3 = heard_by_core t ++ told e) as (Ht3 & He3 & Hh3).
  { subst t3 t2. unfold told, heard_by_core. destruct (ev_state e), (ev_result e); cbn [app]; (split; [by destruct Ht|]); (split; [done|]);
      unfold demit; cbn; rewrite <- ?app_assoc, ?list.filter_app, ?filter_cons_True by done; rewrite ?filter_nil, ?app_nil_r; done. }
  rewrite <- Hl, <- He3, <- Hh3. clearbody t3. clear Hl He3 Hh3.
  case_match; [|done]. case_match; [|done]. split; [by destruct Ht3|]. split; [done|].
  unfold heard_by_core, send_msg, demit. cbn. by rewrite list.filter_app, filter_cons_False, filter_nil, app_nil_r.
Qed.

Lemma tell_loop_told fuel now s :
  evq_ok s -> (length (evs s) <= fuel)%nat ->
  let s' := tell_loop fuel now s in
  evs s' = [] /\ heard_by_core s' = heard_by_core s ++ (evs s ≫= told).
Proof.
  revert s. induction fuel as [|fuel IH]; intros s Hok Hlen; cbn [tell_loop].
  - destruct (evs s); [|simpl in Hlen; lia]. split; [done|]. by rewrite app_nil_r.
  - pose proof (evs_length s Hok) as Hn.
    destruct (Z.eqb_spec (dr_ev_out s) (dr_ev_in s)) as [Heq|Hne].
    + rewrite Heq, Z.sub_diag in Hn. destruct (evs s); [|done]. split; [done|]. by rewrite app_nil_r.
    + destruct (evs s) as [|e l] eqn:He.
      * exfalso. destruct Hok as [_ ? ? _]. cbn in Hn. unfold u32 in Hn.
        destruct (Z.lt_ge_cases (dr_ev_in s) (dr_ev_out s)).
        -- rewrite <- (Z.mod_add _ 1) in Hn by lia. rewrite Z.mod_small in Hn; lia.
        -- rewrite Z.mod_small in Hn; lia.
      * destruct (tell_one_told now s e l Hok He) as (Hok1 & Hl & Hh).
        destruct (IH (tell_one now s) Hok1) as [Hd Hh']; [rewrite Hl; simpl in Hlen; lia|].
        split; [done|]. rewrite Hh', Hh, Hl. cbn [mbind list_bind]. by rewrite <- app_assoc.
Qed.

(** The core is told every state a call passes through and what came of it,
    in order: the ring [evq] holds the events not told yet, the newest sixteen if more
    wait, and one pass of the loop tells exactly them, oldest first, and leaves none. *)
Theorem core_is_told_in_order (state : option dropin_state) (node : bytes) (outgoing : bool)
    (result : option dropin_result) (here : bool) (now : Z) (s : dropin) :
  evq_ok s ->
  let e := mk_ev state outgoing result here (cl_gen (dr_c s)) (take 63 node) in
  let s1 := ev_push state node outgoing result here s in
  let s2 := tell_core now s1 in
  evs s1 = newest 16 (evs s ++ [e]) /\ evs s2 = [] /\
  heard_by_core s2 = heard_by_core s ++ (newest 16 (evs s ++ [e]) ≫= told).
Proof.
  intros Hok. cbv zeta. destruct (evs_push state node outgoing result here s Hok) as [Hok1 He].
  destruct (tell_loop_told (Z.to_nat EVQ) now (ev_push state node outgoing result here s) Hok1) as [Hd Hh].
  { pose proof (evs_length _ Hok1) as Hl. pose proof (eq_waiting _ Hok1) as Hw. unfold EVQ in *. lia. }
  split; [done|]. split; [done|]. unfold tell_core. rewrite Hh, He.
  unfold heard_by_core. destruct (ev_push_frame state node outgoing result here s) as (_ & -> & _). done.
Qed.
End told.

(** ** Instances *)
Definition demo_caller : dropin := Eval vm_compute in
  tell_core 4010 (snd (dropin_call (str "b") false (Some (arb_self b3, 9)) None 4000 (dropin0 6000 (arb_self a3)))).
Definition demo_callee : dropin := Eval vm_compute in (dropin0 6001 (arb_self b3)) <| dr_draws := 5%nat |>.


Lemma goes_live_only_when_allowed_witness :
  st demo_callee = DROPIN_LIVE \/
  connects (De_message b3 (dr_self demo_caller) (str "a") 8 (msg M_INVITE [] demo_caller) None) demo_callee.
Proof.
  apply (goes_live_only_when_allowed
    (De_message b3 (dr_self demo_caller) (str "a") 8 (msg M_INVITE [] demo_caller) None) 4020 demo_callee).
  vm_compute. reflexivity.
Defined.

Lemma ended_call_stays_over_witness :
  let s' := end_call (str "no answer") true None 9000 demo_caller in
  dropin_message a3 [1] (str "x") 8 (msg M_INVITE [] demo_caller) None 9100 s' = s'.
Proof.
  apply (ended_call_stays_over (str "no answer") true None 9000 9100 a3 [1] (str "x") 8 (msg M_INVITE [] demo_caller) None
    (mk_parsed M_INVITE (cl_id (dr_c demo_caller)) 6000 (cl_epk (dr_c demo_caller)) []) demo_caller);
    vm_compute; done.
Defined.

Lemma core_is_told_in_order_witness :
  let s1 := ev_push (Some DROPIN_CALLING) (str "b") true None false (dropin0 6000 [1]) in
  evs s1 = newest 16 (evs (dropin0 6000 [1]) ++ [mk_ev (Some DROPIN_CALLING) true None false 0 (str "b")]) /\
  evs (tell_core 5 s1) = [] /\
  heard_by_core (tell_core 5 s1) = heard_by_core (dropin0 6000 [1]) ++
    (newest 16 (evs (dropin0 6000 [1]) ++ [mk_ev (Some DROPIN_CALLING) true None false 0 (str "b")]) ≫= told).
Proof.
  apply (core_is_told_in_order (Some DROPIN_CALLING) (str "b") true None false 5 (dropin0 6000 [1])).
  split; vm_compute; done.
Defined.
