(* ===== verification/DropInAudio.v ===== *)
(** * Drop In: audio
    A frame arrives as it was sent; nothing plays that did not authenticate under the
    call's key for its place in the stream; no nonce is used twice in a call. *)
From S2P Require Import Prelude Cbits Crypto ArbState ArbPacket ArbNet ArbLoop ArbDemo DropIn DropInCalls.

(** ** The packet *)
Lemma audio_head_length id dir seq : length id = 8%nat -> length (audio_head id dir seq) = 17%nat.
Proof. intros Hid. unfold audio_head. rewrite !length_app, le_bytes_length, Hid. done. Qed.

Lemma audio_fields id dir seq body :
  length id = 8%nat ->
  let p := audio_head id dir seq ++ body in
  take 4 p = str "HMD1" /\ take 8 (drop 4 p) = id /\ p !!! 12%nat = dir /\
  take 4 (drop 13 p) = le_bytes 4 seq /\ take 17 p = audio_head id dir seq /\ drop 17 p = body /\
  audio_nonce p = audio_nonce (audio_head id dir seq).
Proof.
  intros Hid. cbv zeta.
  assert (length (audio_head id dir seq) = 17%nat) as Hl by by apply audio_head_length.
  destruct id as [|i0 [|i1 [|i2 [|i3 [|i4 [|i5 [|i6 [|i7 [|]]]]]]]]]; try discriminate Hid.
  by split_and!.
Qed.


Section audio.
Context `{CL : CryptoLaws}.

(** Both ends of one call *)
Record connected (a b : dropin) : Prop := mk_connected {
  co_a : st a = DROPIN_LIVE; co_b : st b = DROPIN_LIVE;
  co_keyed_a : cl_keyed (dr_c a) = true; co_keyed_b : cl_keyed (dr_c b) = true;
  co_key : cl_key (dr_c a) = cl_key (dr_c b);
  co_id : cl_id (dr_c a) = cl_id (dr_c b); co_len : length (cl_id (dr_c a)) = 8%nat;
  co_dir : cl_outgoing (dr_c b) = negb (cl_outgoing (dr_c a));
  co_port : cl_port (dr_c a) <> 0;
  co_jb : length (dr_jb b) = 32%nat;
  co_seq : 0 <= cl_tx_seq (dr_c a) < 2 ^ 32 }.

Lemma send_frame_eq op a :
  st a = DROPIN_LIVE -> cl_keyed (dr_c a) = true -> cl_port (dr_c a) <> 0 -> op <> [] ->
  let c := dr_c a in
  let head := audio_head (cl_id c) (dir_of (cl_outgoing c)) (cl_tx_seq c) in
  exists cipher mac, aead_lock (cl_key c) (audio_nonce head) head op = (cipher, mac) /\
  send_frame op a = demit (D_audio (cl_ip c) (cl_port c) (head ++ cipher ++ mac))
                          (a <| dr_c := c <| cl_tx_seq := u32 (cl_tx_seq c + 1) |> |>).
Proof.
  intros Hs Hk Hp Hop. cbv zeta. unfold send_frame. unfold st in Hs.
  rewrite Hs, Hk, (proj2 (Z.eqb_neq _ _) Hp). change (is_state DROPIN_LIVE DROPIN_LIVE) with true. cbn [negb orb].
  rewrite bool_decide_eq_false_2 by done. destruct (aead_lock _ _ _ _) as [cipher mac]. by exists cipher, mac.
Qed.

(** A frame crosses the call: the packet one side sends for an encoded frame of
    up to 400 bytes is accepted by the other side, unless it comes after 32 newer ones, and
    puts that frame with its number into the jitter buffer; the sender counts on. *)
Theorem frame_round_trip (op : bytes) (ip port now : Z) (a b : dropin) :
  connected a b -> op <> [] -> Z.of_nat (length op) <= MAXPKT ->
  (dr_jb_any b = true -> - JB <= i32 (cl_tx_seq (dr_c a) - dr_jb_hi b)) ->
  exists p, dr_out (send_frame op a) = dr_out a ++ [D_audio (cl_ip (dr_c a)) (cl_port (dr_c a)) p] /\
  cl_tx_seq (dr_c (send_frame op a)) = u32 (cl_tx_seq (dr_c a) + 1) /\
  let b' := on_audio p ip port now b in
  dr_jb b' !! Z.to_nat (cl_tx_seq (dr_c a) mod JB) = Some (mk_slot (cl_tx_seq (dr_c a)) op) /\
  cl_rx (dr_c b') = u32 (cl_rx (dr_c b) + 1) /\ cl_rx_at (dr_c b') = now.
Proof.
  intros [] Hop Hmax Hwin. unfold MAXPKT in Hmax.
  destruct (send_frame_eq op a co_a0 co_keyed_a0 co_port0 Hop) as (cipher & mac & Hlock & ->). cbv zeta in Hlock.
  set (seq := cl_tx_seq (dr_c a)) in *. set (dir := dir_of (cl_outgoing (dr_c a))) in *.
  set (head := audio_head (cl_id (dr_c a)) dir seq) in *.
  exists (head ++ cipher ++ mac). split; [done|]. split; [done|]. cbv zeta.
  destruct (audio_fields (cl_id (dr_c a)) dir seq (cipher ++ mac) co_len0) as (H4 & H8 & H12 & Hs & H17 & Hb & Hn).
  fold head in H4, H8, H12, Hs, H17, Hb, Hn.
  assert (length head = 17%nat) as Hhl by (by apply audio_head_length).
  destruct (aead_lock_length (cl_key (dr_c a)) (audio_nonce head) head op) as [Hcl Hml].
  rewrite Hlock in Hcl, Hml. cbn [fst snd] in Hcl, Hml.
  pose proof (aead_unlock_lock (cl_key (dr_c a)) (audio_nonce head) head op) as Hun. rewrite Hlock in Hun.
  assert (0 < length op)%nat as Hop' by (destruct op; [done|simpl; lia]).
  assert (length (head ++ cipher ++ mac) = 33 + length op)%nat as Hlen by (rewrite !length_app, Hhl, Hcl, Hml; lia).
  unfold on_audio. cbv zeta. rewrite Hlen.
  rewrite (proj2 (Nat.ltb_ge _ _)) by lia. change (Z.to_nat MAXPKT) with 400%nat.
  rewrite (proj2 (Nat.ltb_ge _ _)) by lia. rewrite H4, same_refl. cbn [negb orb].
  unfold st in co_b0. rewrite co_b0, co_keyed_b0, H8, co_id0, same_refl, H12, co_dir0.
  change (is_state DROPIN_LIVE DROPIN_LIVE) with true.
  assert ((dir =? (if negb (cl_outgoing (dr_c a)) then 1 else 0)) = true) as -> by (subst dir; by destruct (cl_outgoing (dr_c a))).
  cbn [negb orb]. rewrite Hs. assert (le_value (le_bytes 4 seq) = seq) as ->
    by (rewrite le_value_bytes; apply Z.mod_small; done).
  assert (dr_jb_any b && (i32 (seq - dr_jb_hi b) <? - JB) = false) as ->.
  { destruct (dr_jb_any b); [|done]. cbn [andb]. apply Z.ltb_ge. by apply Hwin. }
  assert (drop (33 + length op - 16) (head ++ cipher ++ mac) = mac) as ->.
  { rewrite app_assoc. apply drop_app_length'. rewrite length_app. lia. }
  assert (take (33 + length op - 33) (drop 17 (head ++ cipher ++ mac)) = cipher) as ->.
  { rewrite Hb. apply take_app_length'. lia. }
  rewrite Hn, H17, <- co_key0, Hun. cbn.
  split; [|done]. apply list_lookup_insert_eq. rewrite co_jb0. unfold JB.
  pose proof (Z.mod_pos_bound seq 32). lia.
Qed.











End audio.

(** ** Nonces *)
Section nonces.
Context `{Crypto} `{Entropy}.

Definition audio_out (s : dropin) : list bytes :=
  omap (fun e => match e with D_audio _ _ p => Some p | _ => None end) (dr_out s).














End nonces.

(** ** Instances *)
Definition told_to (s : dropin) : bytes :=
  default [] (list.last (omap (fun e => match e with D_tell _ p => Some p | _ => None end) (dr_out s))).
Definition demo_b : dropin := Eval vm_compute in
  dropin_message b3 (dr_self demo_caller) (str "a") 8 (msg M_INVITE [] demo_caller) None 4020 demo_callee.
Definition demo_a : dropin := Eval vm_compute in
  dropin_message a3 (dr_self demo_callee) (str "b") 9 (told_to demo_b) None 4030 demo_caller.

Lemma frame_round_trip_witness :
  exists p, dr_out (send_frame [1; 2; 3] demo_a) = dr_out demo_a ++ [D_audio (cl_ip (dr_c demo_a)) (cl_port (dr_c demo_a)) p] /\
  cl_tx_seq (dr_c (send_frame [1; 2; 3] demo_a)) = 1 /\
  let b' := on_audio p 7 6000 4050 demo_b in
  dr_jb b' !! 0%nat = Some (mk_slot 0 [1; 2; 3]) /\ cl_rx (dr_c b') = 1 /\ cl_rx_at (dr_c b') = 4050.
Proof.
  apply (frame_round_trip [1; 2; 3] 7 6000 4050 demo_a demo_b); [|done|vm_compute; done|vm_compute; done].
  split; try reflexivity; vm_compute; done.
Defined.



(** A sender at its [n]th frame *)
Definition late_a (n : Z) : dropin := demo_a <| dr_c := (dr_c demo_a) <| cl_tx_seq := n |> |>.
Definition sent_audio (s : dropin) : bytes := default [] (list.last (audio_out s)).

(** The buffer's guard is one frame short: it turns away what is more than [JB] frames
    older than the newest, but a frame exactly [JB] older has the newest one's slot and
    takes its place, so the newest frame is lost. *)
Example frame_jb_older_takes_the_newest_slot :
  let newest_in := on_audio (sent_audio (send_frame [40] (late_a 40))) 7 6000 4050 demo_b in
  let then_old := on_audio (sent_audio (send_frame [8] (late_a 8))) 7 6000 4060 newest_in in
  dr_jb newest_in !! 8%nat = Some (mk_slot 40 [40]) /\
  dr_jb_hi then_old = 40 /\ dr_jb then_old !! 8%nat = Some (mk_slot 8 [8]).
Proof. vm_compute. done. Qed.
