(* ===== verification/Json.v ===== *)
(** * The JSON reader (json.c)
    A document is parsed once into tokens that point into it; keys are looked up and
    strings unescaped when they are read; [json_esc] writes a string.  Positions in the
    document and places in the token array are [nat]; [next] and a token handle are the
    C [int], where -1 is "none".  The reader's casts to [int] are exact because
    [json_parse] refuses longer documents.  [memory cap] says whether [realloc] gives
    room for [cap] tokens.  A failed parse is [None]: its tokens are not read. *)
From S2P Require Import Prelude Cbits.

Inductive jtype := J_OBJ | J_ARR | J_STR | J_NUM | J_TRUE | J_FALSE | J_NULL.
#[export] Instance jtype_eq_dec : EqDecision jtype.
Proof. solve_decision. Defined.

Record jtok := mk_jtok { j_type : jtype; j_start : nat; j_end : nat; j_next : Z }.
Record json := mk_json { js_s : bytes; js_t : list jtok; js_cap : Z }.

(** [struct p], with the fields of the document that the parser changes *)
Record pst := mk_p { p_t : list jtok; p_cap : Z; p_i : nat }.

Definition JSON_DEPTH : Z := 64.
Definition JSON_MAX_TOKENS : Z := Z.shiftl 256 10.
Definition JSON_MAX_TEXT : Z := 0x3FFFFFFF.

(** The loop [while (i < n && f(s[i])) i++]: how many bytes it passes. *)
Fixpoint span (f : Z -> bool) (l : bytes) : nat :=
  match l with
  | c :: l => if f c then S (span f l) else 0%nat
  | [] => 0%nat
  end.

Definition is_white (c : Z) : bool := (c =? 32) || (c =? 9) || (c =? 10) || (c =? 13).

(** [strchr] finds the terminating NUL too. *)
Definition strchr (set : bytes) (c : Z) : bool := (c =? 0) || existsb (Z.eqb c) set.

Definition is_hex (c : Z) : bool :=
  ((48 <=? c) && (c <=? 57)) || ((97 <=? c) && (c <=? 102)) || ((65 <=? c) && (c <=? 70)).
Definition hex4 (a b c d : Z) : bool := is_hex a && is_hex b && is_hex c && is_hex d.

Definition BACKSLASH : Z := 92.
Definition QUOTE : Z := 34.

(** The body of a string literal: the bytes up to its closing quote. *)
Fixpoint scan (l : bytes) : option nat :=
  match l with
  | [] => None
  | c :: l1 =>
      if c =? QUOTE then Some 0%nat
      else if c <? 0x20 then None
      else if c =? BACKSLASH then
        match l1 with
        | [] => None
        | e :: l2 =>
            if e =? 117 then
              match l2 with
              | a :: b :: c :: d :: l6 => if hex4 a b c d then Nat.add 6 <$> scan l6 else None
              | _ => None
              end
            else if strchr (QUOTE :: str "\/bfnrt") e then Nat.add 2 <$> scan l2 else None
        end
      else S <$> scan l1
  end.

(** What a bounded run comes to: a value, -1, or not done within the bound. *)
Inductive res (A : Type) := Ok (a : A) | Bad | Fuel.
Arguments Ok {A}. Arguments Bad {A}. Arguments Fuel {A}.
#[export] Instance res_bind : MBind res :=
  fun A B f r => match r with Ok a => f a | Bad => Bad | Fuel => Fuel end.
Definition lift {A} (o : option A) : res A := match o with Some a => Ok a | None => Bad end.

Section parser.
Context (memory : Z -> bool) (s : bytes).

Definition ws (p : pst) : pst := mk_p (p_t p) (p_cap p) (p_i p + span is_white (drop (p_i p) s)).
Definition byte_at (i : nat) : Z := s !!! i.
Definition ended (p : pst) : bool := (length s <=? p_i p)%nat.
Definition step (k : nat) (p : pst) : pst := mk_p (p_t p) (p_cap p) (p_i p + k).

Definition tok (ty : jtype) (start : nat) (p : pst) : option (nat * pst) :=
  let n := length (p_t p) in
  let push cap := Some (n, mk_p (p_t p ++ [mk_jtok ty start start (-1)]) cap (p_i p)) in
  if Z.of_nat n =? p_cap p then
    if JSON_MAX_TOKENS <=? p_cap p then None else
    let cap := if p_cap p =? 0 then 256 else p_cap p * 2 in
    if memory cap then push cap else None
  else push (p_cap p).

(** [t[t].end = end; t[t].next = next] *)
Definition tok_end (t : nat) (e : nat) (next : Z) (p : pst) : pst :=
  mk_p (alter (fun k => mk_jtok (j_type k) (j_start k) e next) t (p_t p)) (p_cap p) (p_i p).

Definition string_ (p : pst) : option (nat * pst) :=
  let start := S (p_i p) in
  k ← scan (drop start s);
  '(t, p) ← tok J_STR start (step (1 + k) p);
  Some (t, step 1 (tok_end t (p_i p) (Z.of_nat t + 1) p)).

Definition words : list (bytes * jtype) :=
  [(str "true", J_TRUE); (str "false", J_FALSE); (str "null", J_NULL)].

(** The first of the words that stands here. *)
Fixpoint word (ws : list (bytes * jtype)) (p : pst) : option (nat * pst) :=
  match ws with
  | [] => None
  | (w, ty) :: ws =>
      if bool_decide (take (length w) (drop (p_i p) s) = w) then
        '(t, p') ← tok ty (p_i p) p;
        let p'' := step (length w) p' in
        Some (t, tok_end t (p_i p'') (Z.of_nat t + 1) p'')
      else word ws p
  end.

Definition is_num (c : Z) : bool := strchr (str "0123456789+-.eE") c.

Definition number (p : pst) : option (nat * pst) :=
  let start := p_i p in
  let p := step (span is_num (drop start s)) p in
  '(t, p) ← tok J_NUM start p;
  Some (t, tok_end t (p_i p) (Z.of_nat t + 1) p).

(** The comma before every element but the first *)
Definition comma (first : bool) (p : pst) : option pst :=
  if first then Some p
  else if negb (byte_at (p_i p) =? 44) then None else Some (ws (step 1 p)).

(** The key of a member and its colon *)
Definition member_key (p : pst) : option pst :=
  if ended p || negb (byte_at (p_i p) =? QUOTE) then None else
  '(_, p) ← string_ p;
  let p := ws p in
  if ended p || negb (byte_at (p_i p) =? 58) then None else Some (step 1 p).

(** [value], with its [for (;;)] over the elements of a container; [fuel] bounds the
    calls and the turns of the loop together. *)
Fixpoint value (fuel : nat) (depth : Z) (p : pst) : res (nat * pst) :=
  match fuel with
  | O => Fuel
  | S fuel =>
      let p := ws p in
      if ended p || (JSON_DEPTH <? depth) then Bad else
      let c := byte_at (p_i p) in
      if c =? QUOTE then lift (string_ p) else
      if (c =? 123) || (c =? 91) then
        let obj := c =? 123 in
        '(t, p) ← lift (tok (if obj then J_OBJ else J_ARR) (p_i p) p);
        p ← elements fuel obj depth true (step 1 p);
        Ok (t, tok_end t (p_i p) (Z.of_nat (length (p_t p))) p)
      else if isdigit c || (c =? 45) then lift (number p)
      else lift (word words p)
  end
with elements (fuel : nat) (obj : bool) (depth : Z) (first : bool) (p : pst) : res pst :=
  match fuel with
  | O => Fuel
  | S fuel =>
      let p := ws p in
      if ended p then Bad else
      if byte_at (p_i p) =? (if obj then 125 else 93) then Ok (step 1 p) else
      p ← lift (comma first p);
      p ← lift (if obj then member_key p else Some p);
      '(_, p) ← value fuel (depth + 1) p;
      elements fuel obj depth false p
  end.
End parser.

(** Each byte of the document bounds at most two nested calls or turns. *)
Definition parse_fuel (s : bytes) : nat := 2 * length s + 4.

Definition json_parse (memory : Z -> bool) (j : json) (s : bytes) : option json :=
  if JSON_MAX_TEXT <? Z.of_nat (length s) then None else
  match value memory s (parse_fuel s) 0 (mk_p [] (js_cap j) 0) with
  | Ok (_, p) =>
      let p := ws s p in
      if (p_i p =? length s)%nat || ((p_i p <? length s)%nat && (byte_at s (p_i p) =? 0))
      then Some (mk_json s (p_t p) (p_cap p)) else None
  | _ => None
  end.

Definition json_free (j : json) : json := mk_json (js_s j) [] 0.

(** ** Looking values up *)
Definition tok_at (j : json) (t : Z) : option jtok :=
  if 0 <=? t then js_t j !! Z.to_nat t else None.
Definition json_type (j : json) (t : Z) : option jtype := j_type <$> tok_at j t.
Definition next_of (j : json) (t : Z) : Z := from_option j_next (-1) (tok_at j t).
Definition text_of (j : json) (k : jtok) : bytes := take (j_end k - j_start k) (drop (j_start k) (js_s j)).

Definition json_first (j : json) (t : Z) : Z :=
  match tok_at j t with
  | Some k => match j_type k with
              | J_OBJ | J_ARR => if t + 1 <? j_next k then t + 1 else -1
              | _ => -1
              end
  | None => -1
  end.

Definition json_next (j : json) (in_ t : Z) : Z :=
  match tok_at j t, tok_at j in_ with
  | Some k, Some c => if j_next k <? j_next c then j_next k else -1
  | _, _ => -1
  end.

Fixpoint len_loop (fuel : nat) (j : json) (stop k : Z) (n : Z) : Z :=
  match fuel with
  | O => n
  | S fuel => if (0 <=? k) && (k <? stop) then len_loop fuel j stop (next_of j k) (n + 1) else n
  end.
Definition json_len (j : json) (t : Z) : Z :=
  let n := len_loop (length (js_t j)) j (next_of j t) (json_first j t) 0 in
  if bool_decide (json_type j t = Some J_OBJ) then n / 2 else n.

(** A key as written that has no escape in it *)
Definition key_is (j : json) (k : jtok) (key : bytes) : bool :=
  bool_decide (text_of j k = key) && negb (existsb (Z.eqb BACKSLASH) key).

Fixpoint get_loop (fuel : nat) (j : json) (key : bytes) (stop k : Z) : Z :=
  match fuel with
  | O => -1
  | S fuel =>
      if negb (k <? stop) then -1 else
      match tok_at j k with
      | None => -1
      | Some t =>
          let v := j_next t in
          if stop <=? v then -1
          else if key_is j t key then v
          else get_loop fuel j key stop (next_of j v)
      end
  end.
Definition json_get (j : json) (obj : Z) (key : bytes) : Z :=
  if negb (bool_decide (json_type j obj = Some J_OBJ)) then -1
  else get_loop (length (js_t j)) j key (next_of j obj) (obj + 1).

(** ** Strings read *)
Definition put_utf8 (v : Z) : bytes :=
  if v <? 0x80 then [v] else
  if v <? 0x800 then [Z.lor 0xC0 (Z.shiftr v 6); Z.lor 0x80 (Z.land v 63)] else
  if v <? 0x10000 then [Z.lor 0xE0 (Z.shiftr v 12); Z.lor 0x80 (Z.land (Z.shiftr v 6) 63); Z.lor 0x80 (Z.land v 63)]
  else [Z.lor 0xF0 (Z.shiftr v 18); Z.lor 0x80 (Z.land (Z.shiftr v 12) 63);
        Z.lor 0x80 (Z.land (Z.shiftr v 6) 63); Z.lor 0x80 (Z.land v 63)].

Definition hexval (c : Z) : Z := if isdigit c then c - 48 else if islower c then c - 87 else c - 55.
(** [strtoul(.., 16)] of four hex digits *)
Definition hex_value (l : bytes) : Z := fold_left (fun v c => v * 16 + hexval c) (take 4 l) 0.

(** A [\u] escape whose four digits stand at the head of [l]: its code point, and what
    is behind it (behind the low half of a surrogate pair too). *)
Definition code_point (l : bytes) : Z * bytes :=
  let v := hex_value l in
  let l := drop 4 l in
  match l with
  | b :: u :: a1 :: a2 :: a3 :: a4 :: l' =>
      let lo := hex_value [a1; a2; a3; a4] in
      if (0xD800 <=? v) && (v <? 0xDC00) && (b =? BACKSLASH) && (u =? 117) && hex4 a1 a2 a3 a4 &&
         (0xDC00 <=? lo) && (lo <? 0xE000)
      then (0x10000 + Z.shiftl (v - 0xD800) 10 + (lo - 0xDC00), l')
      else (v, l)
  | _ => (v, l)
  end.

(** The bytes of the character that starts with [c]: all continuation bytes present, or one. *)
Definition char_len (c : Z) (l : bytes) : nat :=
  let k := if 0xF0 <=? c then 4%nat else if 0xE0 <=? c then 3%nat else if 0xC0 <=? c then 2%nat else 1%nat in
  let k := if (length l <? k)%nat then 1%nat else k in
  if forallb (fun b => Z.land b 0xC0 =? 0x80) (take (k - 1) (drop 1 l)) then k else 1%nat.

(** One character of a literal: what it stands for ([None]: nothing), and the rest. *)
Definition unescape1 (l : bytes) : option bytes * bytes :=
  match l with
  | [] => (None, [])
  | c :: l1 =>
      if c =? BACKSLASH then
        let e := l1 !!! 0%nat in
        let l2 := drop 1 l1 in
        if (e =? 110) || (e =? 114) || (e =? 116) then (Some [32], l2)
        else if (e =? 98) || (e =? 102) then (None, l2)
        else if e =? 117 then
          let '(v, l3) := code_point l2 in
          let v := if (0xD800 <=? v) && (v <? 0xE000) then 0xFFFD else v in
          if v =? 0 then (None, l3) else (Some (put_utf8 (if v <? 0x20 then 32 else v)), l3)
        else (Some [e], l2)
      else let k := char_len c l in (Some (take k l), drop k l)
  end.

(** The loop of [json_str] with [o] bytes of [n] written; every turn takes a byte. *)
Fixpoint unescape (fuel : nat) (n o : nat) (l : bytes) : bytes :=
  match fuel, l with
  | O, _ | _, [] => []
  | S fuel, _ =>
      match unescape1 l with
      | (None, l) => unescape fuel n o l
      | (Some u, l) => if (n <=? o + length u)%nat then [] else u ++ unescape fuel n (o + length u) l
      end
  end.

(** The result, and the C string left in [out]; [n = 0] writes nothing. *)
Definition json_str (j : json) (t : Z) (n : nat) : bool * bytes :=
  if (n =? 0)%nat then (false, []) else
  match tok_at j t with
  | None => (false, [])
  | Some k =>
      match j_type k with
      | J_NUM | J_TRUE | J_FALSE => (true, take (n - 1) (text_of j k))
      | J_STR => (true, unescape (length (text_of j k)) n 0 (text_of j k))
      | _ => (false, [])
      end
  end.

Definition json_streq (j : json) (t : Z) (w : bytes) : bool :=
  match tok_at j t with
  | Some k =>
      match j_type k with
      | J_STR => if bool_decide (text_of j k = w) then true
                 else if (256 <=? length w)%nat then false
                 else bool_decide (snd (json_str j t 256) = w)
      | _ => false
      end
  | None => false
  end.

(** ** Strings written *)
Definition esc_char (c : Z) : bytes :=
  if (c =? QUOTE) || (c =? BACKSLASH) then [BACKSLASH; c]
  else if c <? 0x20 then str "\u00" ++ hex_of [c]
  else [c].

(** The loop of [json_esc] with [o] bytes of [n] written: [None] when one does not fit. *)
Fixpoint esc_loop (n o : nat) (w : bytes) : option bytes :=
  match w with
  | [] => Some []
  | c :: w =>
      let e := esc_char c in
      if (n <=? o + length e)%nat || ((c <? 0x20) && (n <=? o + 7)%nat) then None
      else app e <$> esc_loop n (o + length e) w
  end.

(** The length and the C string in [out], or [esc_fail]'s -1 and the empty string. *)
Definition json_esc (n : nat) (w : bytes) : Z * bytes :=
  let fail := (-1, if (3 <=? n)%nat then [QUOTE; QUOTE] else []) in
  if (n <=? 1)%nat then fail else
  match esc_loop n 1 w with
  | None => fail
  | Some e => if (n <=? 1 + length e + 1)%nat then fail
              else (Z.of_nat (length e + 2), QUOTE :: e ++ [QUOTE])
  end.
