(* ===== verification/JsonStr.v ===== *)
(** * JSON strings: what [json_esc] writes, the reader reads back *)
From S2P Require Import Prelude Cbits Json.

(** The same text on one line: a control character reads back as a space. *)
Definition one_line (w : bytes) : bytes := map (fun c => if c <? 0x20 then 32 else c) w.

(** The bytes of a C string: no NUL in it *)
Definition cchar (c : Z) : Prop := 0 < c < 256.

Definition esc (w : bytes) : bytes := w ≫= esc_char.

Lemma esc_char_cases c :
  cchar c ->
  (c = QUOTE \/ c = BACKSLASH) /\ esc_char c = [BACKSLASH; c] \/
  c < 0x20 /\ esc_char c = [BACKSLASH; 117; 48; 48; hexdigit (c / 16); hexdigit (c mod 16)] \/
  0x20 <= c /\ c <> QUOTE /\ c <> BACKSLASH /\ esc_char c = [c].
Proof.
  unfold esc_char. intros Hc. destruct (Z.eqb_spec c QUOTE) as [->|]; [by left; auto|].
  destruct (Z.eqb_spec c BACKSLASH) as [->|]; [by left; auto|]. cbn [orb].
  destruct (Z.ltb_spec c 0x20); [right; left; by auto|]. right; right. by auto.
Qed.

Lemma hexdigit_hex n : 0 <= n < 16 -> is_hex (hexdigit n) = true /\ hexval (hexdigit n) = n.
Proof.
  intros Hn. assert (n ∈ map Z.of_nat (seq 0 16)) as H.
  { apply list_elem_of_In, in_map_iff. exists (Z.to_nat n). split; [lia|]. apply in_seq. lia. }
  cbn in H. repeat (apply elem_of_cons in H as [->|H]; [done|]). by apply elem_of_nil in H.
Qed.

Lemma hexdigits_hex c :
  cchar c ->
  (is_hex (hexdigit (c / 16)) = true /\ hexval (hexdigit (c / 16)) = c / 16) /\
  (is_hex (hexdigit (c mod 16)) = true /\ hexval (hexdigit (c mod 16)) = c mod 16).
Proof.
  intros [? ?]. split; apply hexdigit_hex; [|by apply Z.mod_pos_bound].
  split; [by apply Z.div_pos; lia|apply Z.div_lt_upper_bound; lia].
Qed.

Lemma esc_loop_eq n o w :
  Forall cchar w -> (o + length (esc w) < n)%nat -> (forall c, c ∈ w -> c < 0x20 -> (o + length (esc w) + 1 < n)%nat) ->
  esc_loop n o w = Some (esc w).
Proof.
  intros Hw. revert o. induction Hw as [|c w Hc Hw IH]; intros o Hn Hctl; [done|].
  cbn [esc_loop]. change (esc (c :: w)) with (esc_char c ++ esc w) in *. rewrite length_app in Hn, Hctl.
  rewrite IH.
  - destruct (Nat.leb_spec n (o + length (esc_char c))); [lia|]. cbn [orb].
    destruct (Z.ltb_spec c 0x20) as [Hl|]; [|done].
    specialize (Hctl c ltac:(left) Hl).
    destruct (esc_char_cases c Hc) as [[[-> | ->] _]|[(_ & He)|(? & _)]]; [done|done| |lia].
    rewrite He in *. cbn [length] in *. destruct (Nat.leb_spec n (o + 7)); [lia|done].
  - lia.
  - intros c' Hc' Hl. specialize (Hctl c' ltac:(by right) Hl). lia.
Qed.

Lemma scan_esc w rest : Forall cchar w -> scan (esc w ++ QUOTE :: rest) = Some (length (esc w)).
Proof.
  induction 1 as [|c w Hc Hw IH]; [done|].
  change (esc (c :: w)) with (esc_char c ++ esc w). rewrite <- app_assoc, length_app.
  destruct (esc_char_cases c Hc) as [[[-> | ->] He]|[(Hl & He)|(Hge & Hq & Hb & He)]]; rewrite He.
  1-2: cbn; by rewrite IH.
  - cbn -[hexdigit hex4]. unfold hex4.
    destruct (hexdigits_hex c Hc) as [[-> _] [-> _]]. cbn. by rewrite IH.
  - cbn -[QUOTE BACKSLASH]. rewrite (proj2 (Z.eqb_neq c QUOTE) Hq), (proj2 (Z.ltb_ge c 0x20) Hge),
      (proj2 (Z.eqb_neq c BACKSLASH) Hb), IH. done.
Qed.

(** A continuation byte of the text was one of the string, and stands for itself. *)
Lemma esc_continuation w k :
  Forall cchar w -> (k <= length (esc w))%nat ->
  forallb (fun b => Z.land b 0xC0 =? 0x80) (take k (esc w)) = true ->
  take k (esc w) = take k w /\ drop k (esc w) = esc (drop k w) /\ (k <= length w)%nat.
Proof.
  intros Hw. revert k. induction Hw as [|c w Hc Hw IH]; intros k Hk Hall.
  { destruct k; [done|simpl in Hk; lia]. }
  destruct k as [|k]; [split_and!; [done|done|apply Nat.le_0_l]|].
  change (esc (c :: w)) with (esc_char c ++ esc w) in *. rewrite length_app in Hk.
  destruct (esc_char_cases c Hc) as [[[-> | ->] He]|[(Hl & He)|(Hge & Hq & Hb & He)]]; rewrite He in *; try done.
  cbn [app take drop forallb length] in *. apply andb_true_iff in Hall as [_ Hall].
  destruct (IH k ltac:(lia) Hall) as (-> & -> & ?). split_and!; try done. lia.
Qed.

Lemma char_len_le c l : (1 <= char_len c (c :: l) <= S (length l))%nat.
Proof.
  unfold char_len. cbn [length].
  set (k := if 0xF0 <=? c then _ else _). assert (1 <= k)%nat as Hk by (unfold k; by repeat case_match; lia).
  clearbody k. destruct (Nat.ltb_spec (S (length l)) k); destruct (forallb _ _); lia.
Qed.

Lemma char_len_continued c l :
  forallb (fun b => Z.land b 0xC0 =? 0x80) (take (char_len c (c :: l) - 1) l) = true.
Proof.
  unfold char_len. cbn [drop length].
  match goal with |- context [if forallb ?f ?t then _ else _] => destruct (forallb f t) eqn:E end;
    [exact E|by destruct l].
Qed.

Lemma continuation_high b : cchar b -> (Z.land b 0xC0 =? 0x80) = true -> (b <? 0x20) = false.
Proof.
  intros [? ?] Hb%Z.eqb_eq. apply Z.ltb_ge. destruct (Z.lt_ge_cases b 0x20); [|done].
  assert (Z.land b 0xC0 = 0) as Hz; [|by rewrite Hz in Hb].
  change 0xC0 with (Z.shiftl 3 6). apply Z.bits_inj'. intros i Hi. rewrite Z.land_spec, Z.bits_0.
  destruct (Z.lt_ge_cases i 6).
  - rewrite Z.shiftl_spec_low by done. apply andb_false_r.
  - rewrite <- (Z.mod_small b (2 ^ 6)) by lia. by rewrite Z.mod_pow2_bits_high by lia.
Qed.

(** One step over what [json_esc] wrote takes whole characters of the string. *)
Lemma code_point_low l : hex_value l < 0xD800 -> code_point l = (hex_value l, drop 4 l).
Proof.
  intros Hl. unfold code_point. destruct (drop 4 l) as [|? [|? [|? [|? [|? [|? ?]]]]]]; try done.
  by rewrite (proj2 (Z.leb_gt 0xD800 _) Hl).
Qed.

Lemma unescape1_esc c w :
  Forall cchar (c :: w) ->
  exists k, (1 <= k <= S (length w))%nat /\
    unescape1 (esc (c :: w)) = (Some (one_line (take k (c :: w))), esc (drop k (c :: w))).
Proof.
  intros [Hc Hw]%Forall_cons_1. change (esc (c :: w)) with (esc_char c ++ esc w).
  destruct (esc_char_cases c Hc) as [[[-> | ->] He]|[(Hl & He)|(Hge & Hq & Hb & He)]]; rewrite He.
  1-2: exists 1%nat; (split; [lia|done]).
  - exists 1%nat. split; [lia|]. cbn [app unescape1 drop take one_line map].
    change (BACKSLASH =? BACKSLASH) with true. cbn [lookup_total list_lookup_total].
    change ((117 =? 110) || (117 =? 114) || (117 =? 116)) with false.
    change ((117 =? 98) || (117 =? 102)) with false. change (117 =? 117) with true. cbn match.
    assert (hex_value (48 :: 48 :: hexdigit (c / 16) :: hexdigit (c mod 16) :: esc w) = c) as Hv.
    { unfold hex_value. cbn [take fold_left].
      destruct (hexdigits_hex c Hc) as [[_ ->] [_ ->]].
      rewrite take_0. cbn [fold_left]. change (hexval 48) with 0.
      pose proof (Z.div_mod c 16). lia. }
    rewrite code_point_low by (rewrite Hv; lia). rewrite Hv. change (drop 4 (48 :: _)) with (esc w). cbv beta iota.
    assert ((0xD800 <=? c) = false) as Hs by (apply Z.leb_gt; lia).
    rewrite Hs. cbn [andb]. rewrite (proj2 (Z.eqb_neq c 0)) by (unfold cchar in Hc; lia).
    rewrite (proj2 (Z.ltb_lt c 0x20) Hl). done.
  - cbn [app]. pose proof (char_len_le c (esc w)) as Hk. pose proof (char_len_continued c (esc w)) as Hcont.
    unfold unescape1. rewrite (proj2 (Z.eqb_neq c BACKSLASH) Hb).
    remember (char_len c (c :: esc w)) as k eqn:Ek. clear Ek. destruct k as [|k]; [lia|].
    cbn [Nat.sub] in Hcont. rewrite Nat.sub_0_r in Hcont.
    destruct (esc_continuation w k Hw ltac:(lia) Hcont) as (Ht & Hd & Hlen).
    exists (S k). split; [lia|]. cbn [take drop one_line map]. rewrite Ht, Hd. f_equal. f_equal.
    rewrite (proj2 (Z.ltb_ge c 0x20) Hge). f_equal.
    rewrite Ht in Hcont. assert (Forall cchar (take k w)) as Hkw by by apply Forall_take.
    clear -Hcont Hkw. induction Hkw as [|b l Hcb Hl IH]; [done|].
    cbn [forallb map] in *. apply andb_true_iff in Hcont as [Hb Hr]. rewrite <- IH by done. f_equal.
    by rewrite (continuation_high b Hcb Hb).
Qed.

Lemma length_one_line w : length (one_line w) = length w.
Proof. apply length_map. Qed.

Lemma one_line_take_drop k w : one_line (take k w) ++ one_line (drop k w) = one_line w.
Proof. unfold one_line. by rewrite <- map_app, take_drop. Qed.

Lemma length_esc_ge w : (length w <= length (esc w))%nat.
Proof.
  induction w as [|c w IH]; [done|]. change (esc (c :: w)) with (esc_char c ++ esc w).
  rewrite length_app. cbn [length]. unfold esc_char. repeat case_match; cbn; lia.
Qed.

Lemma unescape_esc fuel n o w :
  Forall cchar w -> (length w <= fuel)%nat -> (o + length w < n)%nat -> unescape fuel n o (esc w) = one_line w.
Proof.
  revert o w. induction fuel as [|fuel IH]; intros o w Hw Hf Hn.
  { destruct w; [done|simpl in Hf; lia]. }
  destruct w as [|c w]; [done|].
  destruct (unescape1_esc c w Hw) as (k & Hk & Hu).
  assert (Hne : esc (c :: w) <> []).
  { pose proof (length_esc_ge (c :: w)). intros E. rewrite E in *. simpl in *. lia. }
  assert (unescape (S fuel) n o (esc (c :: w)) =
          (if (n <=? o + length (one_line (take k (c :: w))))%nat then []
           else one_line (take k (c :: w)) ++ unescape fuel n (o + length (one_line (take k (c :: w)))) (esc (drop k (c :: w)))))
    as ->.
  { cbn [unescape]. destruct (esc (c :: w)) as [|x y]; [done|]. by rewrite Hu. }
  rewrite length_one_line, length_take. cbn [length] in Hn, Hf |- *.
  destruct (Nat.leb_spec n (o + Nat.min k (S (length w)))); [lia|].
  rewrite IH.
  - apply one_line_take_drop.
  - by apply Forall_drop.
  - rewrite length_drop. simpl. lia.
  - rewrite length_drop. simpl. lia.
Qed.

Lemma esc_loop_len n o w e : esc_loop n o w = Some e -> e = esc w.
Proof.
  revert o e. induction w as [|c w IH]; intros o e; cbn [esc_loop]; [by intros [= <-]|].
  destruct (_ || _); [done|]. destruct (esc_loop n _ w) as [e'|] eqn:E; [|done].
  intros [= <-]. by rewrite (IH _ _ E).
Qed.

Section round_trip.
Context (memory : Z -> bool).

(** A string written with [json_esc] and parsed as a document is one string
    token, and [json_str] reads it back whole into any buffer it fits, whatever
    quotes, backslashes, control characters and (broken) UTF-8 it holds; only control
    characters come back as spaces, which keeps what is shown on one line. *)
Theorem escaped_string_reads_back (n : nat) (w text : bytes) (len : Z) (j : json) (m : nat) :
  Forall cchar w -> json_esc n w = (len, text) -> 0 <= len -> len <= JSON_MAX_TEXT ->
  (forall cap, memory cap = true) -> 0 <= js_cap j -> (length w < m)%nat ->
  len = Z.of_nat (length text) /\
  exists j', json_parse memory j text = Some j' /\ length (js_t j') = 1%nat /\
    json_str j' 0 m = (true, one_line w).
Proof.
  intros Hw He Hlen Hmax Hmem Hcap Hm.
  assert (text = QUOTE :: esc w ++ [QUOTE] /\ len = Z.of_nat (length (esc w) + 2)) as [-> ->].
  { unfold json_esc in He. destruct (n <=? 1)%nat; [injection He as <- _; lia|].
    destruct (esc_loop n 1 w) as [e|] eqn:E; [|injection He as <- _; lia].
    rewrite (esc_loop_len _ _ _ _ E) in He.
    destruct (n <=? _)%nat; [injection He as <- _; lia|]. by injection He as <- <-. }
  cbn [length]. rewrite length_app. cbn [length]. split; [lia|].
  unfold json_parse. cbn [length]. rewrite length_app. cbn [length].
  destruct (Z.ltb_spec JSON_MAX_TEXT (Z.of_nat (S (length (esc w) + 1)))); [lia|].
  set (s := QUOTE :: esc w ++ [QUOTE]).
  assert (exists cap, value memory s (parse_fuel s) 0 (mk_p [] (js_cap j) 0) =
    Ok (0%nat, mk_p [mk_jtok J_STR 1 (1 + length (esc w)) 1] cap (length s))) as (cap & ->).
  { unfold parse_fuel. rewrite Nat.add_comm. cbn [Nat.add value].
    assert (ws s (mk_p [] (js_cap j) 0) = mk_p [] (js_cap j) 0) as -> by done.
    cbn [p_i]. change (byte_at s 0) with QUOTE. change (ended s (mk_p [] (js_cap j) 0)) with false.
    change (JSON_DEPTH <? 0) with false. cbn [orb]. change (QUOTE =? QUOTE) with true. cbn match.
    unfold string_. cbn [p_i]. change (drop 1 s) with (esc w ++ QUOTE :: []). rewrite scan_esc by done.
    cbn [mbind option_bind]. unfold tok. cbn [length p_t step p_cap].
    assert (forall cap : Z, step 1 (tok_end 0 (S (length (esc w))) 1 (mk_p [mk_jtok J_STR 1 1 (-1)] cap (S (length (esc w))))) =
       mk_p [mk_jtok J_STR 1 (1 + length (esc w)) 1] cap (length s)) as Hp.
    { intros cap. unfold step, tok_end, s. cbn. rewrite length_app. cbn. f_equal; lia. }
    change (Z.of_nat 0) with 0. rewrite Hmem. destruct (Z.eqb_spec 0 (js_cap j)) as [<-|].
    - exists 256. exact (f_equal (fun x => Ok (0%nat, x)) (Hp 256)).
    - exists (js_cap j). exact (f_equal (fun x => Ok (0%nat, x)) (Hp (js_cap j))). }
  cbn [mbind option_bind]. unfold ws. cbn [p_i p_t p_cap]. rewrite drop_all. cbn [span].
  rewrite Nat.add_0_r. rewrite (proj2 (Nat.eqb_eq _ _)) by (unfold s; cbn; rewrite length_app; simpl; lia).
  cbn [orb]. eexists. split; [done|]. cbn [js_t length]. split; [done|].
  unfold json_str. rewrite (proj2 (Nat.eqb_neq m 0)) by lia.
  match goal with |- context [tok_at ?j 0] => set (jj := j) end.
  change (tok_at jj 0) with (Some (mk_jtok J_STR 1 (1 + length (esc w)) 1)). cbv beta iota. cbn [j_type].
  assert (text_of jj (mk_jtok J_STR 1 (1 + length (esc w)) 1) = esc w) as ->.
  { unfold text_of, jj, s. cbn [j_end j_start js_s drop]. rewrite drop_0, Nat.add_sub_swap by lia. apply take_app_length. }
  rewrite unescape_esc; [done|done|apply length_esc_ge|lia].
Qed.
End round_trip.

Lemma escaped_string_reads_back_witness :
  let w := [115; 97; 121; 10; QUOTE; 0xC3; 0xA9; 0xC3; BACKSLASH; QUOTE] in
  snd (json_esc 64 w) <> [QUOTE; QUOTE] /\
  exists j', json_parse (fun _ => true) (mk_json [] [] 0) (snd (json_esc 64 w)) = Some j' /\
    json_str j' 0 16 = (true, one_line w).
Proof.
  split; [by vm_compute|].
  destruct (escaped_string_reads_back (fun _ => true) 64 [115; 97; 121; 10; QUOTE; 0xC3; 0xA9; 0xC3; BACKSLASH; QUOTE]
    (snd (json_esc 64 [115; 97; 121; 10; QUOTE; 0xC3; 0xA9; 0xC3; BACKSLASH; QUOTE]))
    (fst (json_esc 64 [115; 97; 121; 10; QUOTE; 0xC3; 0xA9; 0xC3; BACKSLASH; QUOTE]))
    (mk_json [] [] 0) 16) as (_ & j' & Hj & _ & Hs).
  - repeat constructor.
  - by vm_compute.
  - by vm_compute.
  - by vm_compute.
  - done.
  - done.
  - simpl. lia.
  - by exists j'.
Defined.
