(* ===== verification/JsonDoc.v ===== *)
(** * JSON documents: the parser ends, its tokens nest, and it reads what is printed
    The token array of a parsed document is a forest laid out in document order: each
    token's [next] is behind it and its content, inside its container's.  Every bounded
    run of the parser ends within its bound.  A printed value parses to its layout, in
    which [json_get] finds the first member of a key. *)
From S2P Require Import Prelude Cbits Json.

(** ** The forest of tokens *)

(** Tokens [base, base + length ks) of the array, made from the text [lo, hi). *)
Definition forest (base lo hi : nat) (ks : list jtok) : Prop :=
  forall u k, ks !! u = Some k ->
    (lo <= j_start k <= j_end k)%nat /\ (j_end k <= hi)%nat /\
    Z.of_nat (base + u) < j_next k <= Z.of_nat (base + length ks) /\
    forall w k', (u < w)%nat -> Z.of_nat (base + w) < j_next k -> ks !! w = Some k' ->
      (j_start k <= j_start k')%nat /\ (j_end k' <= j_end k)%nat /\ j_next k' <= j_next k.

Lemma forest_nil base lo hi : forest base lo hi [].
Proof. intros u k H. by rewrite lookup_nil in H. Qed.

Lemma forest_mono base lo hi lo' hi' ks :
  (lo' <= lo)%nat -> (hi <= hi')%nat -> forest base lo hi ks -> forest base lo' hi' ks.
Proof. intros ? ? H u k Hu. destruct (H u k Hu) as (? & ? & ? & ?). split_and!; try done; lia. Qed.

Lemma forest_app base lo mid hi ks ks' :
  (lo <= mid <= hi)%nat -> forest base lo mid ks -> forest (base + length ks) mid hi ks' ->
  forest base lo hi (ks ++ ks').
Proof.
  intros Hm H H' u k Hu. rewrite length_app. apply lookup_app_Some in Hu as [Hu|[Hl Hu]].
  - pose proof (lookup_lt_Some _ _ _ Hu). destruct (H u k Hu) as (? & ? & ? & Hin). split_and!; try lia.
    intros w k' Huw Hw Hk'. rewrite lookup_app_l in Hk' by lia. by apply (Hin w).
  - destruct (H' _ _ Hu) as (? & ? & ? & Hin). split_and!; try lia.
    intros w k' Huw Hw Hk'. rewrite lookup_app_r in Hk' by lia. apply (Hin (w - length ks)%nat); [lia|lia|done].
Qed.

Lemma forest_leaf base lo hi ty a b :
  (lo <= a <= b)%nat -> (b <= hi)%nat -> forest base lo hi [mk_jtok ty a b (Z.of_nat base + 1)].
Proof.
  intros ? ? [|u] k Hu; [|done]. simplify_eq/=. split_and!; lia.
Qed.

Lemma forest_node base lo hi ty ks a b :
  (lo <= a <= b)%nat -> (b <= hi)%nat -> forest (S base) a b ks ->
  forest base lo hi (mk_jtok ty a b (Z.of_nat (base + S (length ks))) :: ks).
Proof.
  intros ? ? H [|u] k Hu; simplify_eq/=.
  - split_and!; try lia. intros [|w] k' ? ? Hw; [lia|]. simpl in Hw. destruct (H w k' Hw) as (? & ? & ? & _). lia.
  - destruct (H u k Hu) as (? & ? & ? & Hin). split_and!; try lia.
    intros [|w] k' ? Hw Hk; [lia|]. simpl in Hk. apply (Hin w); [lia|lia|done].
Qed.

Lemma scan_lt l k : scan l = Some k -> (k < length l)%nat.
Proof.
  enough (forall n l k, (length l <= n)%nat -> scan l = Some k -> (k < length l)%nat) by eauto.
  clear. induction n as [|n IH]; intros l k Hn; [by destruct l; [|simpl in Hn; lia]|].
  destruct l as [|c l1]; [done|]. cbn [scan length]. cbn [length] in Hn.
  destruct (c =? QUOTE); [intros [= <-]; lia|]. destruct (c <? 0x20); [done|].
  destruct (c =? BACKSLASH).
  - destruct l1 as [|e l2]; [done|]. cbn [length] in *. destruct (e =? 117).
    + destruct l2 as [|a [|b [|d [|f l6]]]]; try done. destruct (hex4 a b d f); [|done].
      destruct (scan l6) as [k'|] eqn:E; [|done]. intros [= <-]. cbn [length] in *. apply IH in E; lia.
    + destruct (strchr _ e); [|done]. destruct (scan l2) as [k'|] eqn:E; [|done]. intros [= <-]. apply IH in E; lia.
  - destruct (scan l1) as [k'|] eqn:E; [|done]. intros [= <-]. apply IH in E; lia.
Qed.

Lemma span_le f l : (span f l <= length l)%nat.
Proof. induction l as [|c l IH]; simpl; [done|]. destruct (f c); lia. Qed.

Section doc.
Context (memory : Z -> bool) (s : bytes).

(** What a parse function did to the parser state: tokens added, text passed. *)
Definition adds (p p' : pst) (ks : list jtok) : Prop :=
  p_t p' = p_t p ++ ks /\ (p_i p <= p_i p' <= length s)%nat /\
  forest (length (p_t p)) (p_i p) (p_i p') ks.

Lemma adds_trans p q r ks ks' : adds p q ks -> adds q r ks' -> adds p r (ks ++ ks').
Proof.
  intros (Ht & Hi & Hf) (Ht' & Hi' & Hf'). split_and!; try lia.
  - by rewrite Ht', Ht, app_assoc.
  - apply (forest_app _ _ (p_i q)); [lia|done|]. rewrite <- length_app, <- Ht. done.
Qed.

Lemma adds_skip p p' : p_t p' = p_t p -> (p_i p <= p_i p' <= length s)%nat -> adds p p' [].
Proof. intros Ht Hi. split_and!; try lia; [by rewrite app_nil_r|apply forest_nil]. Qed.

Lemma ws_adds p : (p_i p <= length s)%nat -> adds p (ws s p) [].
Proof.
  intros Hi. apply adds_skip; [done|]. cbn [ws p_i].
  pose proof (span_le is_white (drop (p_i p) s)). rewrite length_drop in *. lia.
Qed.

Lemma step_adds k p : (p_i p + k <= length s)%nat -> adds p (step k p) [].
Proof. intros. apply adds_skip; [done|]. cbn. lia. Qed.

Lemma tok_Some ty a p t p' :
  tok memory ty a p = Some (t, p') ->
  t = length (p_t p) /\ p_t p' = p_t p ++ [mk_jtok ty a a (-1)] /\ p_i p' = p_i p.
Proof. unfold tok. intros H. repeat case_match; simplify_eq/=; done. Qed.

Lemma tok_end_last ty a t e nx p l :
  p_t p = l ++ [mk_jtok ty a a (-1)] -> t = length l -> p_t (tok_end t e nx p) = l ++ [mk_jtok ty a e nx].
Proof. intros Hp ->. cbn [tok_end p_t]. rewrite Hp, alter_app_r_alt by lia. by rewrite Nat.sub_diag. Qed.

Lemma not_ended p : ended s p = false -> (p_i p < length s)%nat.
Proof. unfold ended. intros H%Nat.leb_gt. done. Qed.

(** A parse function that adds one leaf and passes at least a byte *)
Definition leaf (p : pst) (r : nat * pst) : Prop :=
  exists k, adds p (snd r) [k] /\ fst r = length (p_t p) /\ j_next k = Z.of_nat (length (p_t p)) + 1 /\
            (p_i p < p_i (snd r))%nat.

Lemma leaf_intro ty a q p t p' :
  tok memory ty a q = Some (t, p') -> p_t q = p_t p -> (p_i p <= a)%nat ->
  forall e j, (a <= e <= j)%nat -> (p_i p < j)%nat -> (j <= length s)%nat ->
  forall p'', p_t p'' = p_t (tok_end t e (Z.of_nat t + 1) p') -> p_i p'' = j -> leaf p (t, p'').
Proof.
  intros (-> & Ht & _)%tok_Some Hq Ha e j ? ? ? p'' Hp Hj. rewrite (tok_end_last _ _ _ _ _ _ _ Ht eq_refl), Hq in Hp.
  exists (mk_jtok ty a e (Z.of_nat (length (p_t p)) + 1)). cbn [fst snd j_next]. rewrite Hq, Hj.
  split_and!; [|done|done|done]. split_and!; [done|lia|lia|]. rewrite Hj. apply forest_leaf; lia.
Qed.

Lemma string_leaf p r : string_ memory s p = Some r -> (p_i p < length s)%nat -> leaf p r.
Proof.
  unfold string_. intros H Hi. destruct (scan (drop (S (p_i p)) s)) as [k|] eqn:Ek; [|done].
  apply scan_lt in Ek. rewrite length_drop in Ek. cbn [mbind option_bind] in H.
  destruct (tok _ _ _ _) as [[t q]|] eqn:Et; [|done]. simplify_eq/=.
  pose proof (tok_Some _ _ _ _ _ Et) as (_ & _ & Hq). cbn in Hq.
  apply (leaf_intro _ _ _ p _ _ Et eq_refl ltac:(lia) (p_i q) (p_i q + 1)); cbn; try lia; done.
Qed.

Lemma number_leaf p r :
  number memory s p = Some r -> (p_i p < length s)%nat -> is_num (byte_at s (p_i p)) = true -> leaf p r.
Proof.
  unfold number. intros H Hi Hn. destruct (tok _ _ _ _) as [[t q]|] eqn:Et; [|done]. simplify_eq/=.
  pose proof (tok_Some _ _ _ _ _ Et) as (_ & _ & Hq). cbn in Hq.
  pose proof (span_le is_num (drop (p_i p) s)) as Hl. rewrite length_drop in Hl.
  assert (1 <= span is_num (drop (p_i p) s))%nat as H1.
  { unfold byte_at in Hn. destruct (lookup_lt_is_Some_2 s (p_i p) Hi) as [c Hc].
    rewrite (list_lookup_total_correct _ _ _ Hc) in Hn. rewrite (drop_S _ _ _ Hc). cbn. rewrite Hn. lia. }
  apply (leaf_intro _ _ _ p _ _ Et eq_refl ltac:(lia) (p_i q) (p_i q)); cbn; try lia; done.
Qed.

Lemma word_leaf ws p r :
  word memory s ws p = Some r -> (p_i p < length s)%nat -> Forall (fun w => fst w <> []) ws -> leaf p r.
Proof.
  intros H Hi Hw. induction Hw as [|[w ty] ws Hne Hw IH]; [done|]. cbn [word] in H.
  case_bool_decide as Hb; [|by apply IH]. destruct (tok _ _ _ _) as [[t q]|] eqn:Et; [|done]. simplify_eq/=.
  pose proof (tok_Some _ _ _ _ _ Et) as (_ & _ & Hq). cbn in Hq.
  assert (length w <= length s - p_i p)%nat as Hl.
  { rewrite <- length_drop, <- Hb, length_take. lia. }
  destruct w as [|c w]; [done|]. cbn [length] in *.
  apply (leaf_intro _ _ _ p _ _ Et eq_refl ltac:(lia) (p_i q + S (length w)) (p_i q + S (length w))); cbn; try lia; done.
Qed.

(** A parsed value: its own token and those of all it holds. *)
Definition node (p : pst) (r : nat * pst) : Prop :=
  exists k ks, adds p (snd r) (k :: ks) /\ fst r = length (p_t p) /\
    j_next k = Z.of_nat (length (p_t p) + S (length ks)) /\ (p_i p < p_i (snd r))%nat.

Lemma leaf_node p r : leaf p r -> node p r.
Proof. intros (k & ? & ? & Hn & ?). exists k, []. split_and!; try done. simpl. lia. Qed.

Lemma node_after p q r : adds p q [] -> node q r -> node p r.
Proof.
  intros Ha (k & ks & Hk & Hr & Hn & Hi). exists k, ks.
  pose proof (adds_trans _ _ _ _ _ Ha Hk) as H. destruct Ha as (Ht & Hi' & _). rewrite app_nil_r in Ht.
  rewrite <- Ht. split_and!; try done. lia.
Qed.

Lemma comma_adds first p p' :
  comma s first p = Some p' -> (p_i p < length s)%nat -> adds p p' [].
Proof.
  unfold comma. intros H Hi. destruct first; [injection H as <-; apply adds_skip; [done|lia]|].
  destruct (negb _); [done|]. injection H as <-.
  apply (adds_trans _ (step 1 p) _ [] []); [apply step_adds; lia|apply ws_adds; cbn; lia].
Qed.

Lemma member_key_adds p p' :
  member_key memory s p = Some p' -> (p_i p <= length s)%nat -> exists k, adds p p' [k].
Proof.
  unfold member_key. intros H Hi. destruct (ended s p) eqn:He; [done|]. apply not_ended in He.
  cbn [orb] in H. destruct (negb _); [done|].
  destruct (string_ memory s p) as [[t q]|] eqn:Es; [|done]. cbn [mbind option_bind] in H.
  destruct (string_leaf _ _ Es He) as (k & Hk & _). cbn [snd] in Hk.
  destruct (ended s (ws s q)) eqn:Hq; [done|]. apply not_ended in Hq. cbn [orb] in H.
  destruct (negb _); [done|]. injection H as <-. exists k.
  apply (adds_trans _ q _ [k] []); [done|]. destruct Hk as (_ & Hk & _).
  apply (adds_trans _ (ws s q) _ [] []); [apply ws_adds; lia|apply step_adds; lia].
Qed.

Lemma container_node ty p t q e :
  tok memory ty (p_i p) p = Some (t, q) -> (p_i p < length s)%nat ->
  (exists ks, adds (step 1 q) e ks) -> node p (t, tok_end t (p_i e) (Z.of_nat (length (p_t e))) e).
Proof.
  intros (-> & Ht & Hi)%tok_Some Hp (ks & He & Hie & Hf). cbn [step p_t p_i] in *.
  rewrite Ht, length_app in Hf. rewrite Ht in He. cbn [length] in Hf. rewrite Nat.add_1_r, Hi in Hf.
  assert (length (p_t e) = length (p_t p) + S (length ks))%nat as Hle by (rewrite He, !length_app; cbn; lia).
  exists (mk_jtok ty (p_i p) (p_i e) (Z.of_nat (length (p_t e)))), ks. cbn [fst snd j_next].
  split_and!; [|done|by rewrite Hle|cbn; lia]. split_and!; [|cbn; lia|cbn; lia|].
  - rewrite Hle. cbn [tok_end p_t]. rewrite He, <- app_assoc, alter_app_r_alt by lia. by rewrite Nat.sub_diag.
  - rewrite Hle. cbn [tok_end p_i]. apply forest_node; [lia|lia|]. by eapply forest_mono; [| |exact Hf]; lia.
Qed.

(** The equations of the two functions *)
Lemma value_S fuel depth p :
  value memory s (S fuel) depth p =
  let p := ws s p in
  if ended s p || (JSON_DEPTH <? depth) then Bad else
  let c := byte_at s (p_i p) in
  if c =? QUOTE then lift (string_ memory s p) else
  if (c =? 123) || (c =? 91) then
    '(t, p) ← lift (tok memory (if c =? 123 then J_OBJ else J_ARR) (p_i p) p);
    p ← elements memory s fuel (c =? 123) depth true (step 1 p);
    Ok (t, tok_end t (p_i p) (Z.of_nat (length (p_t p))) p)
  else if isdigit c || (c =? 45) then lift (number memory s p)
  else lift (word memory s words p).
Proof. reflexivity. Qed.

Lemma elements_S fuel obj depth first p :
  elements memory s (S fuel) obj depth first p =
  let p := ws s p in
  if ended s p then Bad else
  if byte_at s (p_i p) =? (if obj then 125 else 93) then Ok (step 1 p) else
  p ← lift (comma s first p);
  p ← lift (if obj then member_key memory s p else Some p);
  '(_, p) ← value memory s fuel (depth + 1) p;
  elements memory s fuel obj depth false p.
Proof. reflexivity. Qed.

Lemma parse_adds fuel :
  (forall depth p r, value memory s fuel depth p = Ok r -> (p_i p <= length s)%nat -> node p r) /\
  (forall obj depth first p p', elements memory s fuel obj depth first p = Ok p' -> (p_i p <= length s)%nat ->
     exists ks, adds p p' ks).
Proof.
  induction fuel as [|fuel [IHv IHe]]; [done|]. split.
  - intros depth p r H Hi. rewrite value_S in H. cbv zeta in H. pose proof (ws_adds p Hi) as Hw.
    apply (node_after _ _ _ Hw). generalize dependent (ws s p). intros q H Hw.
    destruct (ended s q) eqn:He; [done|]. apply not_ended in He. destruct (JSON_DEPTH <? depth); [done|]. cbn [orb] in H.
    destruct (byte_at s (p_i q) =? QUOTE).
    { destruct (string_ memory s q) as [r'|] eqn:Es; [|done]. injection H as <-. by apply leaf_node, string_leaf. }
    destruct ((_ =? 123) || _).
    { destruct (tok _ _ _ _) as [[t q']|] eqn:Et; [|done]. cbn [lift mbind res_bind] in H.
      destruct (elements _ _ _ _ _ _ _) as [e| |] eqn:Ee; [|done|done]. injection H as <-.
      apply (container_node _ _ _ _ _ Et He). apply (IHe _ _ _ _ _ Ee).
      destruct (tok_Some _ _ _ _ _ Et) as (_ & _ & Hq). cbn. lia. }
    destruct (isdigit _ || _) eqn:Hd.
    + destruct (number memory s q) as [r'|] eqn:En; [|done]. injection H as <-. apply leaf_node, number_leaf; [done|done|].
      clear -Hd. unfold is_num, strchr, isdigit in *. generalize dependent (byte_at s (p_i q)). intros c Hd.
      apply orb_true_iff. right. apply existsb_elem. exists c. split; [|apply Z.eqb_refl].
      apply list_elem_of_In. unfold In. change (str _) with [48;49;50;51;52;53;54;55;56;57;43;45;46;101;69]. cbn. lia.
    + destruct (word memory s words q) as [r'|] eqn:En; [|done]. injection H as <-.
      apply leaf_node. apply (word_leaf _ _ _ En He). by repeat constructor.
  - intros obj depth first p p' H Hi. rewrite elements_S in H. cbv zeta in H. pose proof (ws_adds p Hi) as Hw.
    enough (exists ks, adds (ws s p) p' ks) as [ks Hks] by (exists ks; apply (adds_trans _ _ _ [] _ Hw Hks)).
    clear Hw. generalize dependent (ws s p). intros q H. destruct (ended s q) eqn:He; [done|]. apply not_ended in He.
    destruct (_ =? _); [injection H as <-; exists []; apply step_adds; lia|].
    destruct (comma s first q) as [c|] eqn:Ec; [|done]. cbn [lift mbind res_bind] in H.
    pose proof (comma_adds _ _ _ Ec He) as Hc. pose proof Hc as (_ & Hci & _).
    destruct (if obj then _ else _) as [m|] eqn:Em; [|done]. cbn [lift mbind res_bind] in H.
    assert (exists ks, adds c m ks) as [km Hm].
    { destruct obj; [destruct (member_key_adds _ _ Em ltac:(lia)) as [k Hk]; by exists [k]|].
      injection Em as <-. exists []. apply adds_skip; [done|lia]. }
    pose proof Hm as (_ & Hmi & _).
    destruct (value _ _ _ _ _) as [[t v]| |] eqn:Ev; [|done|done]. cbn [mbind res_bind] in H.
    destruct (IHv _ _ _ Ev ltac:(lia)) as (k & kv & Hv & _). cbn [snd] in Hv. pose proof Hv as (_ & Hvi & _).
    destruct (IHe _ _ _ _ _ H ltac:(lia)) as (kr & Hr).
    eexists. exact (adds_trans _ _ _ _ _ (adds_trans _ _ _ _ _ (adds_trans _ _ _ _ _ Hc Hm) Hv) Hr).
Qed.

(** ** Fuel *)
Lemma parse_ends fuel :
  (forall depth p, (p_i p <= length s)%nat -> (2 * (length s - p_i p) + 2 <= fuel)%nat ->
     value memory s fuel depth p <> Fuel) /\
  (forall obj depth first p, (p_i p <= length s)%nat -> (2 * (length s - p_i p) + 3 <= fuel)%nat ->
     elements memory s fuel obj depth first p <> Fuel).
Proof.
  assert (forall A (o : option A), lift o <> Fuel) as Hlift by (intros A [x|]; done).
  induction fuel as [|fuel [IHv IHe]]; [split; intros; lia|]. split.
  - intros depth p Hi Hf. rewrite value_S. cbv zeta. pose proof (ws_adds p Hi) as (_ & Hw & _).
    generalize dependent (ws s p). intros q Hw.
    destruct (ended s q) eqn:He; [done|]. apply not_ended in He. destruct (JSON_DEPTH <? depth); [done|]. cbn [orb].
    destruct (byte_at s (p_i q) =? QUOTE); [apply Hlift|]. destruct ((_ =? 123) || _).
    + destruct (tok _ _ _ _) as [[t q']|] eqn:Et; [|done]. cbn [lift mbind res_bind].
      destruct (tok_Some _ _ _ _ _ Et) as (_ & _ & Hq).
      destruct (elements _ _ _ _ _ _ _) eqn:Ee; [done|done|]. contradict Ee. apply IHe; cbn; lia.
    + destruct (isdigit _ || _); apply Hlift.
  - intros obj depth first p Hi Hf. rewrite elements_S. cbv zeta. pose proof (ws_adds p Hi) as (_ & Hw & _).
    generalize dependent (ws s p). intros q Hw. destruct (ended s q) eqn:He; [done|]. apply not_ended in He.
    destruct (_ =? _); [done|].
    destruct (comma s first q) as [c|] eqn:Ec; [|done]. cbn [lift mbind res_bind].
    pose proof (comma_adds _ _ _ Ec He) as (_ & Hci & _).
    destruct (if obj then _ else _) as [m|] eqn:Em; [|done]. cbn [lift mbind res_bind].
    assert (p_i c <= p_i m <= length s)%nat as Hmi.
    { destruct obj; [destruct (member_key_adds _ _ Em ltac:(lia)) as (? & _ & ? & _); done|]. injection Em as <-. lia. }
    destruct (value _ _ _ _ _) as [[t v]| |] eqn:Ev; cbn [mbind res_bind]; [|done|].
    + destruct (proj1 (parse_adds _) _ _ _ Ev ltac:(lia)) as (_ & _ & (_ & Hvi & _) & _ & _ & Hlt). cbn [snd] in *.
      apply IHe; lia.
    + contradict Ev. apply IHv; lia.
Qed.
End doc.

(** The parser ends: on every text, well-formed or not, from every place in it and
    at every depth, it has its answer within two calls or loop turns for each byte left
    and two more. *)
Theorem parser_ends (memory : Z -> bool) (s : bytes) (depth : Z) (p : pst) :
  (p_i p <= length s)%nat ->
  forall fuel, (2 * (length s - p_i p) + 2 <= fuel)%nat -> value memory s fuel depth p <> Fuel.
Proof. intros Hi fuel Hf. by apply parse_ends. Qed.

Lemma parser_ends_witness :
  value (fun _ => true) (str "[[[{ ") 12 0 (mk_p [] 0 0) <> Fuel.
Proof. apply (parser_ends (fun _ => true) (str "[[[{ ") 0 (mk_p [] 0 0)); simpl; lia. Defined.

(** The tokens of a parsed document nest: they lie within the document, the first
    is the whole value, each one's [next] is behind it and within the array, and a token
    before it is inside: its text and its [next] do not pass its container's.  (So the walks over siblings
    and the look-ups of keys go forward and stay inside their container.) *)
Theorem parsed_tokens_nest (memory : Z -> bool) (j j' : json) (s : bytes) :
  json_parse memory j s = Some j' ->
  js_s j' = s /\ forest 0 0 (length s) (js_t j') /\
  exists k, js_t j' !! 0%nat = Some k /\ j_next k = Z.of_nat (length (js_t j')).
Proof.
  unfold json_parse. destruct (_ <? _); [done|].
  destruct (value _ _ _ _ _) as [[t p]| |] eqn:Ev; [|done|done].
  destruct (_ || _); [|done]. intros [= <-]. cbn [js_s js_t]. split; [done|].
  destruct (proj1 (parse_adds _ _ _) _ _ _ Ev ltac:(cbn; lia)) as (k & ks & (Ht & Hi & Hf) & _ & Hn & _).
  cbn [snd p_t p_i app] in *. cbn [ws p_t]. rewrite Ht. split.
  - by eapply forest_mono; [| |exact Hf]; lia.
  - exists k. split; [done|]. rewrite Hn. simpl. lia.
Qed.

Lemma parsed_tokens_nest_witness :
  exists j', json_parse (fun _ => true) (mk_json [] [] 0) (str "{ ") = None /\
  json_parse (fun _ => true) (mk_json [] [] 0) (str "[1, [true], {}] ") = Some j' /\
  length (js_t j') = 5%nat /\ forest 0 0 16 (js_t j').
Proof.
  eexists. split; [done|]. split; [by vm_compute|]. split; [done|].
  by apply (parsed_tokens_nest (fun _ => true) (mk_json [] [] 0) _ (str "[1, [true], {}] ")).
Defined.
