(* ===== verification/JsonPrint.v ===== *)
(** * JSON documents printed: what the parser makes of them, and looking keys up
    [jv] is a JSON value with its strings and numbers as they are written; [print] its
    text and [layout] the tokens that stand for it. *)
From S2P Require Import Prelude Cbits Json JsonDoc.

(** A container is an object with its members or an array, whose keys are not written. *)
#[warnings="-register-all"]
Inductive jv :=
  | JCont (obj : bool) (ms : list (bytes * jv))
  | JStr (raw : bytes)
  | JNum (raw : bytes)
  | JWord (w : bytes) (ty : jtype).

Definition key_text (obj : bool) (k : bytes) : bytes := if obj then QUOTE :: k ++ [QUOTE; 58] else [].
Definition comma_text (first : bool) : bytes := if first then [] else [44].

Fixpoint print (v : jv) : bytes :=
  match v with
  | JCont obj ms =>
      (if obj then 123 else 91) ::
      (fix body (first : bool) (ms : list (bytes * jv)) : bytes :=
         match ms with
         | [] => [if obj then 125 else 93]
         | (k, v) :: ms => comma_text first ++ key_text obj k ++ print v ++ body false ms
         end) true ms
  | JStr raw => QUOTE :: raw ++ [QUOTE]
  | JNum raw => raw
  | JWord w _ => w
  end.

Definition key_layout (obj : bool) (i t : nat) (k : bytes) : list jtok :=
  if obj then [mk_jtok J_STR (S i) (S i + length k) (Z.of_nat t + 1)] else [].

(** The tokens of a value whose text starts at [i], from place [t] of the array. *)
Fixpoint layout (i t : nat) (v : jv) {struct v} : list jtok :=
  match v with
  | JCont obj ms =>
      let ks := (fix go (first : bool) (i t : nat) (ms : list (bytes * jv)) {struct ms} : list jtok :=
         match ms with
         | [] => []
         | (k, v) :: ms =>
             let i := (i + length (comma_text first))%nat in
             let kk := key_layout obj i t k in
             let iv := (i + length (key_text obj k))%nat in
             let tv := (t + length kk)%nat in
             let lv := layout iv tv v in
             kk ++ lv ++ go false (iv + length (print v))%nat (tv + length lv)%nat ms
         end) true (S i) (S t) ms in
      mk_jtok (if obj then J_OBJ else J_ARR) i (i + length (print v)) (Z.of_nat (t + S (length ks))) :: ks
  | JStr raw => [mk_jtok J_STR (S i) (S i + length raw) (Z.of_nat t + 1)]
  | JNum raw => [mk_jtok J_NUM i (i + length raw) (Z.of_nat t + 1)]
  | JWord w ty => [mk_jtok ty i (i + length w) (Z.of_nat t + 1)]
  end.

(** The two inner loops by name *)
Fixpoint body (obj first : bool) (ms : list (bytes * jv)) : bytes :=
  match ms with
  | [] => [if obj then 125 else 93]
  | (k, v) :: ms => comma_text first ++ key_text obj k ++ print v ++ body obj false ms
  end.
Fixpoint members (obj first : bool) (i t : nat) (ms : list (bytes * jv)) : list jtok :=
  match ms with
  | [] => []
  | (k, v) :: ms =>
      let i := (i + length (comma_text first))%nat in
      let kk := key_layout obj i t k in
      let iv := (i + length (key_text obj k))%nat in
      let tv := (t + length kk)%nat in
      let lv := layout iv tv v in
      kk ++ lv ++ members obj false (iv + length (print v))%nat (tv + length lv)%nat ms
  end.

Lemma print_cont obj ms : print (JCont obj ms) = (if obj then 123 else 91) :: body obj true ms.
Proof.
  cbn [print]. f_equal. generalize true. induction ms as [|[k v] ms IH]; intros first; [done|].
  cbn [body]. by rewrite <- IH.
Qed.

Lemma layout_cont obj i t ms :
  layout i t (JCont obj ms) =
  mk_jtok (if obj then J_OBJ else J_ARR) i (i + length (print (JCont obj ms)))
    (Z.of_nat (t + S (length (members obj true (S i) (S t) ms)))) :: members obj true (S i) (S t) ms.
Proof.
  cbn [layout].
  match goal with |- context [length (?f true (S i) (S t) ms)] =>
    assert (forall first i t, f first i t ms = members obj first i t ms) as -> end; [|done].
  clear. induction ms as [|[k v] ms IH]; intros first i t; [done|]. cbn [members]. by rewrite <- IH.
Qed.

Section jv_ind.
Context (P : jv -> Prop).
Hypothesis Pcont : forall obj ms, Forall (fun m => P (snd m)) ms -> P (JCont obj ms).
Hypothesis Pstr : forall raw, P (JStr raw).
Hypothesis Pnum : forall raw, P (JNum raw).
Hypothesis Pword : forall w ty, P (JWord w ty).

Fixpoint jv_ind' (v : jv) : P v :=
  match v with
  | JCont obj ms =>
      Pcont obj ms ((fix go ms : Forall (fun m => P (snd m)) ms :=
        match ms with [] => Forall_nil_2 _ | m :: ms => Forall_cons_2 _ m ms (jv_ind' (snd m)) (go ms) end) ms)
  | JStr raw => Pstr raw
  | JNum raw => Pnum raw
  | JWord w ty => Pword w ty
  end.
End jv_ind.

(** Written the way JSON allows: literals closed by the next quote, numbers of number
    characters that start with a digit or a minus sign, the three words. *)
Definition literal (raw : bytes) : Prop := forall rest, scan (raw ++ QUOTE :: rest) = Some (length raw).
Definition numeral (raw : bytes) : bool :=
  match raw with
  | c :: _ => (isdigit c || (c =? 45)) && forallb is_num raw
  | [] => false
  end.

Inductive wf : Z -> jv -> Prop :=
  | wf_cont d obj ms : d <= JSON_DEPTH -> Forall (wf_member obj d) ms -> wf d (JCont obj ms)
  | wf_str d raw : d <= JSON_DEPTH -> literal raw -> wf d (JStr raw)
  | wf_num d raw : d <= JSON_DEPTH -> numeral raw = true -> wf d (JNum raw)
  | wf_word d w ty : d <= JSON_DEPTH -> (w, ty) ∈ words -> wf d (JWord w ty)
with wf_member : bool -> Z -> bytes * jv -> Prop :=
  | wf_m (obj : bool) d k v : (obj = true -> literal k) -> wf (d + 1) v -> wf_member obj d (k, v).

(** A literal without quotes, backslashes and control characters is one. *)
Lemma plain_literal raw :
  forallb (fun c => negb (c =? QUOTE) && (0x20 <=? c) && negb (c =? BACKSLASH)) raw = true -> literal raw.
Proof.
  intros H rest. induction raw as [|c raw IH]; [done|]. cbn [forallb] in H. bsimp.
  cbn [app scan length]. rewrite (proj2 (Z.eqb_neq c QUOTE)), (proj2 (Z.ltb_ge c 0x20)), (proj2 (Z.eqb_neq c BACKSLASH)) by done.
  by rewrite IH.
Qed.

Lemma layout_head i t v : exists k ks, layout i t v = k :: ks /\ j_next k = Z.of_nat (t + length (layout i t v)).
Proof.
  destruct v as [obj ms|raw|raw|w ty]; [rewrite layout_cont|..]; do 2 eexists; (split; [reflexivity|]); cbn [j_next layout length]; lia.
Qed.

(** What may follow a number *)
Definition stops (post : bytes) : Prop := match post with c :: _ => is_num c = false | [] => True end.

Lemma is_num_not_white c : is_num c = true -> isdigit c || (c =? 45) = true -> is_white c = false.
Proof.
  intros _. unfold isdigit, is_white. intros H.
  repeat (apply orb_false_iff; split); apply Z.eqb_neq; intros ->; discriminate H.
Qed.

(** A value's text starts with a character that is neither white, a comma nor a closing bracket. *)
Definition opens (c : Z) : Prop := is_white c = false /\ c <> 125 /\ c <> 93.
Lemma print_head d v : wf d v -> exists c r, print v = c :: r /\ opens c.
Proof.
  intros [d' obj ms _ _|d' raw _ _|d' raw _ Hn|d' w ty _ Hw].
  - rewrite print_cont. destruct obj; do 2 eexists; (split; [reflexivity|]); by split_and!.
  - do 2 eexists. split; [reflexivity|]. by split_and!.
  - destruct raw as [|c raw]; [done|]. exists c, raw. split; [done|]. cbn [numeral forallb] in Hn.
    apply andb_true_iff in Hn as [Hc Hn]. apply andb_true_iff in Hn as [Hn _].
    split; [by apply is_num_not_white|]. split; intros ->; discriminate Hc.
  - repeat (apply elem_of_cons in Hw as [[= -> ->]|Hw]; [do 2 eexists; split; [reflexivity|by split_and!]|]).
    by apply elem_of_nil in Hw.
Qed.

(** ** Parsing printed text *)
Section parse.
Context (memory : Z -> bool) (s : bytes).
Hypothesis memory_enough : forall cap, memory cap = true.

(** The capacity of the token array: none, or 256 doubled at most ten times. *)
Definition cap_ok (p : pst) : Prop :=
  Z.of_nat (length (p_t p)) <= p_cap p /\ (p_cap p = 0 \/ exists k, 0 <= k <= 10 /\ p_cap p = 256 * 2 ^ k).

Lemma tok_room ty a p :
  cap_ok p -> Z.of_nat (length (p_t p)) < JSON_MAX_TOKENS ->
  exists cap, tok memory ty a p = Some (length (p_t p), mk_p (p_t p ++ [mk_jtok ty a a (-1)]) cap (p_i p)) /\
    forall e j nx, cap_ok (mk_p (p_t p ++ [mk_jtok ty a e nx]) cap j).
Proof.
  unfold cap_ok, tok. intros [Hl Hc] Hmax. change JSON_MAX_TOKENS with (256 * 2 ^ 10) in *. cbn [p_t p_cap].
  setoid_rewrite length_app. cbn [length].
  destruct (Z.eqb_spec (Z.of_nat (length (p_t p))) (p_cap p)) as [He|Hne].
  - rewrite (proj2 (Z.leb_gt _ _)) by lia. rewrite memory_enough. eexists. split; [reflexivity|]. intros _ _ _.
    destruct Hc as [Hc|(k & Hk & Hc)].
    + rewrite Hc in *. change (0 =? 0) with true. cbv iota. split; [lia|]. right. exists 0. lia.
    + assert (0 < 2 ^ k) by lia. rewrite (proj2 (Z.eqb_neq (p_cap p) 0)) by lia. split; [lia|]. right.
      exists (k + 1). rewrite Z.pow_add_r by lia. split; [|lia].
      assert (k < 10); [|lia]. apply (Z.pow_lt_mono_r_iff 2); lia.
  - exists (p_cap p). split; [done|]. intros _ _ _. split; [lia|done].
Qed.

(** The parser stands at [text]. *)
Definition at_text (p : pst) (text : bytes) : Prop := drop (p_i p) s = text.

Lemma at_byte p c r : at_text p (c :: r) -> byte_at s (p_i p) = c /\ ended s p = false /\ drop (S (p_i p)) s = r.
Proof.
  unfold at_text, byte_at, ended. intros H.
  assert (s !! p_i p = Some c) as Hc by (by rewrite <- (Nat.add_0_r (p_i p)), <- lookup_drop, H).
  split; [by apply list_lookup_total_correct|]. split.
  - apply Nat.leb_gt. by eapply lookup_lt_Some.
  - replace (S (p_i p)) with (p_i p + 1)%nat by lia. by rewrite <- drop_drop, H.
Qed.

Lemma at_step p a r : at_text p (a ++ r) -> at_text (step (length a) p) r.
Proof. unfold at_text. intros H. cbn. by rewrite <- drop_drop, H, drop_app_length. Qed.

Lemma at_nonwhite p c r : at_text p (c :: r) -> is_white c = false -> ws s p = p.
Proof.
  unfold at_text, ws. intros H Hc. rewrite H. cbn [span]. rewrite Hc, Nat.add_0_r. by destruct p.
Qed.

Lemma span_num raw post : forallb is_num raw = true -> stops post -> span is_num (raw ++ post) = length raw.
Proof.
  intros H Hs. induction raw as [|c raw IH]; cbn [forallb app span length] in *.
  - destruct post as [|c post]; [done|]. cbn [span stops] in *. by rewrite Hs.
  - apply andb_true_iff in H as [-> H]. by rewrite IH.
Qed.

Lemma string_reads p raw r :
  literal raw -> at_text p (QUOTE :: raw ++ QUOTE :: r) -> cap_ok p -> Z.of_nat (length (p_t p)) < JSON_MAX_TOKENS ->
  exists cap, string_ memory s p = Some (length (p_t p),
     mk_p (p_t p ++ [mk_jtok J_STR (S (p_i p)) (S (p_i p) + length raw) (Z.of_nat (length (p_t p)) + 1)]) cap
          (p_i p + length raw + 2)) /\
    forall j, cap_ok (mk_p (p_t p ++ [mk_jtok J_STR (S (p_i p)) (S (p_i p) + length raw) (Z.of_nat (length (p_t p)) + 1)]) cap j).
Proof.
  intros Hl (_ & _ & Hd)%at_byte Hc Hmax. unfold string_. rewrite Hd, Hl. cbn [mbind option_bind].
  destruct (tok_room J_STR (S (p_i p)) (step (1 + length raw) p)) as (cap & -> & Hok); [done|done|].
  exists cap. cbn [mbind option_bind]. split; [|intros j; apply Hok].
  unfold tok_end, step. cbn [p_t p_i p_cap]. rewrite alter_app_r_alt by lia. rewrite Nat.sub_diag. cbn [alter list_alter j_type j_start].
  do 3 f_equal; [|lia]. do 3 f_equal. lia.
Qed.

Lemma number_reads p raw post :
  numeral raw = true -> stops post -> at_text p (raw ++ post) -> cap_ok p -> Z.of_nat (length (p_t p)) < JSON_MAX_TOKENS ->
  exists cap, number memory s p = Some (length (p_t p),
     mk_p (p_t p ++ [mk_jtok J_NUM (p_i p) (p_i p + length raw) (Z.of_nat (length (p_t p)) + 1)]) cap (p_i p + length raw)) /\
    forall j, cap_ok (mk_p (p_t p ++ [mk_jtok J_NUM (p_i p) (p_i p + length raw) (Z.of_nat (length (p_t p)) + 1)]) cap j).
Proof.
  intros Hn Hs Hat Hc Hmax. unfold number. rewrite Hat.
  assert (forallb is_num raw = true) as Hall by (destruct raw; [done|]; by apply andb_true_iff in Hn as [_ ?]).
  rewrite span_num by done.
  destruct (tok_room J_NUM (p_i p) (step (length raw) p)) as (cap & -> & Hok); [done|done|].
  exists cap. cbn [mbind option_bind]. split; [|intros j; apply Hok].
  unfold tok_end, step. cbn [p_t p_i p_cap]. rewrite alter_app_r_alt by lia. by rewrite Nat.sub_diag.
Qed.

Lemma word_reads p w ty post :
  (w, ty) ∈ words -> at_text p (w ++ post) -> cap_ok p -> Z.of_nat (length (p_t p)) < JSON_MAX_TOKENS ->
  exists cap, word memory s words p = Some (length (p_t p),
     mk_p (p_t p ++ [mk_jtok ty (p_i p) (p_i p + length w) (Z.of_nat (length (p_t p)) + 1)]) cap (p_i p + length w)) /\
    forall j, cap_ok (mk_p (p_t p ++ [mk_jtok ty (p_i p) (p_i p + length w) (Z.of_nat (length (p_t p)) + 1)]) cap j).
Proof.
  intros Hw Hat Hc Hmax.
  destruct (tok_room ty (p_i p) p Hc Hmax) as (cap & Htok & Hok).
  exists cap. split; [|intros j; apply Hok].
  assert (word memory s words p =
    ('(t, p') ← tok memory ty (p_i p) p;
     Some (t, tok_end t (p_i (step (length w) p')) (Z.of_nat t + 1) (step (length w) p')))) as ->.
  { unfold word, words. rewrite Hat.
    repeat (apply elem_of_cons in Hw as [[= -> ->]|Hw]; [reflexivity|]). by apply elem_of_nil in Hw. }
  rewrite Htok. cbn [mbind option_bind].
  unfold tok_end, step. cbn [p_t p_i p_cap]. rewrite alter_app_r_alt by lia. by rewrite Nat.sub_diag.
Qed.

(** [p] after [n] bytes that became the tokens [ks] *)
Definition after (p : pst) (ks : list jtok) (n : nat) (cap : Z) : pst := mk_p (p_t p ++ ks) cap (p_i p + n).

Lemma after_after p ks n c ks' n' c' : after (after p ks n c) ks' n' c' = after p (ks ++ ks') (n + n') c'.
Proof. unfold after. cbn [p_t p_i]. by rewrite app_assoc, Nat.add_assoc. Qed.
Lemma after_nil p n : after p [] n (p_cap p) = step n p.
Proof. unfold after, step. by rewrite app_nil_r. Qed.
Lemma at_after p ks a r c : at_text p (a ++ r) -> at_text (after p ks (length a) c) r.
Proof. exact (at_step p a r). Qed.
Lemma after_len p ks n c : length (p_t (after p ks n c)) = (length (p_t p) + length ks)%nat.
Proof. apply length_app. Qed.

Definition room (p : pst) (ks : list jtok) : Prop := Z.of_nat (length (p_t p) + length ks) <= JSON_MAX_TOKENS.

Definition value_reads (v : jv) : Prop :=
  forall d p post fuel, wf d v -> stops post -> at_text p (print v ++ post) -> cap_ok p ->
  room p (layout (p_i p) (length (p_t p)) v) -> (2 * (length s - p_i p) + 2 <= fuel)%nat ->
  exists cap, let q := after p (layout (p_i p) (length (p_t p)) v) (length (print v)) cap in
    value memory s fuel d p = Ok (length (p_t p), q) /\ cap_ok q.

Lemma comma_reads first p r :
  at_text p (comma_text first ++ r) -> (exists c r', r = c :: r' /\ is_white c = false) ->
  comma s first p = Some (step (length (comma_text first)) p).
Proof.
  intros Hat (c & r' & -> & Hc). destruct first; cbn [comma comma_text length app] in *.
  - f_equal. destruct p; cbn. unfold step. cbn. by rewrite Nat.add_0_r.
  - destruct (at_byte _ _ _ Hat) as (-> & _). cbn. f_equal. apply (at_nonwhite _ c r'); [|done].
    by apply (at_step p [44]).
Qed.

Lemma key_reads obj k p r :
  (obj = true -> literal k) -> at_text p (key_text obj k ++ r) -> cap_ok p ->
  Z.of_nat (length (p_t p)) < JSON_MAX_TOKENS ->
  exists cap, let q := after p (key_layout obj (p_i p) (length (p_t p)) k) (length (key_text obj k)) cap in
    (if obj then member_key memory s p else Some p) = Some q /\ cap_ok q.
Proof.
  intros Hl Hat Hc Hmax. destruct obj; cbn [key_text key_layout length] in *.
  - rewrite length_app. cbn [length].
    replace ((QUOTE :: k ++ [QUOTE; 58]) ++ r) with (QUOTE :: k ++ QUOTE :: 58 :: r) in Hat by (cbn; by rewrite <- app_assoc).
    destruct (string_reads p k _ (Hl eq_refl) Hat Hc Hmax) as (cap & Hs & Hok).
    destruct (at_byte _ _ _ Hat) as (Hb & He & _). unfold member_key. rewrite He, Hb. cbn [orb negb]. rewrite Hs.
    cbn [mbind option_bind]. exists cap. split; [|apply Hok].
    match goal with |- context [ws s ?q] => assert (at_text q (58 :: r)) as Hq end.
    { change (QUOTE :: k ++ QUOTE :: 58 :: r) with ([QUOTE] ++ k ++ [QUOTE] ++ 58 :: r) in Hat.
      apply at_step, at_step, at_step in Hat. unfold at_text in *. cbn [p_i step] in *. rewrite <- Hat. f_equal. cbn. lia. }
    rewrite (at_nonwhite _ _ _ Hq) by done. destruct (at_byte _ _ _ Hq) as (-> & -> & _). cbn [orb negb].
    change (58 =? 58) with true. cbn [negb]. unfold after, step. cbn [p_t p_cap p_i]. do 2 f_equal. lia.
  - exists (p_cap p). rewrite after_nil. split; [|exact Hc]. unfold step. rewrite Nat.add_0_r. by destruct p.
Qed.

Lemma body_head obj d ms first post :
  Forall (wf_member obj d) ms ->
  (exists c r, body obj first ms ++ post = c :: r /\ is_white c = false /\
     (first = false -> is_num c = false) /\ (ms <> [] -> c <> (if obj then 125 else 93))).
Proof.
  intros Hw. destruct Hw as [|[k v] ms Hm Hw].
  { destruct obj; do 2 eexists; (split; [reflexivity|]); split_and!; done. }
  destruct first; cbn [body comma_text app].
  - destruct obj; cbn [key_text app]; [do 2 eexists; (split; [reflexivity|]); split_and!; done|].
    inversion Hm as [? ? ? ? _ Hv]; subst. destruct (print_head _ _ Hv) as (c & r & -> & Hc & ? & ?).
    do 2 eexists; (split; [reflexivity|]); split_and!; done.
  - do 2 eexists; (split; [reflexivity|]). split_and!; try done. by destruct obj.
Qed.

Lemma member_head obj d k v post : wf_member obj d (k, v) ->
  exists c r, key_text obj k ++ print v ++ post = c :: r /\ is_white c = false.
Proof.
  intros Hm. inversion Hm as [? ? ? ? _ Hv]; subst. destruct obj; [by do 2 eexists|].
  destruct (print_head _ _ Hv) as (c & r & -> & Hc & _). by do 2 eexists.
Qed.

Lemma elements_read obj d ms :
  Forall (fun m => value_reads (snd m)) ms -> Forall (wf_member obj d) ms ->
  forall first p post fuel, at_text p (body obj first ms ++ post) -> cap_ok p ->
  room p (members obj first (p_i p) (length (p_t p)) ms) -> (2 * (length s - p_i p) + 3 <= fuel)%nat ->
  exists cap, let q := after p (members obj first (p_i p) (length (p_t p)) ms) (length (body obj first ms)) cap in
    elements memory s fuel obj d first p = Ok q /\ cap_ok q.
Proof.
  induction ms as [|[k v] ms IH]; intros Hvs Hms first p post fuel Hat Hc Hroom Hf.
  { destruct fuel as [|fuel]; [lia|]. rewrite elements_S. cbv zeta. cbn [body app members length] in *.
    exists (p_cap p). rewrite after_nil. rewrite (at_nonwhite _ _ _ Hat) by by destruct obj.
    destruct (at_byte _ _ _ Hat) as (-> & -> & _). rewrite Z.eqb_refl. by split. }
  destruct (body_head obj d _ first post Hms) as (c0 & r0 & Hhead & Hw0 & _ & Hcl).
  apply Forall_cons_1 in Hvs as [Hv Hvs], Hms as [Hm Hms]. cbn [snd] in Hv.
  destruct fuel as [|fuel]; [lia|]. rewrite elements_S. cbv zeta.
  pose proof Hat as Hat0. rewrite Hhead in Hat0.
  rewrite (at_nonwhite _ _ _ Hat0 Hw0). destruct (at_byte _ _ _ Hat0) as (-> & He & _). rewrite He.
  rewrite (proj2 (Z.eqb_neq _ _) (Hcl ltac:(done))). clear Hhead Hw0 Hcl Hat0 c0 r0.
  assert (p_i p < length s)%nat as Hpi by by apply not_ended.
  cbn [body] in *. rewrite <- !app_assoc in Hat.
  rewrite (comma_reads first p _ Hat) by by eapply member_head. cbn [lift mbind res_bind].
  apply at_step in Hat. cbn [members] in Hroom |- *. rewrite <- after_nil in *.
  set (p1 := after p [] (length (comma_text first)) (p_cap p)) in *.
  assert (length (p_t p1) = length (p_t p)) as Hl1 by (unfold p1; rewrite after_len; cbn; lia).
  assert (p_i p1 = p_i p + length (comma_text first))%nat as Hi1 by done.
  rewrite <- Hi1, <- Hl1 in *. unfold room in Hroom. rewrite !length_app in Hroom.
  destruct (layout_head (p_i p1 + length (key_text obj k)) (length (p_t p1) + length (key_layout obj (p_i p1) (length (p_t p1)) k)) v)
    as (kh & kr & Hkh & _).
  inversion Hm as [? ? ? ? Hlit Hwv]; subst.
  destruct (key_reads obj k p1 _ Hlit Hat) as (cap2 & Hk & Hc2).
  { unfold cap_ok in *. rewrite Hl1. exact Hc. }
  { rewrite Hkh in Hroom. cbn [length] in Hroom. lia. }
  rewrite Hk. cbn [lift mbind res_bind]. clear Hk.
  apply (at_after _ (key_layout obj (p_i p1) (length (p_t p1)) k) _ _ cap2) in Hat.
  set (p2 := after p1 (key_layout obj (p_i p1) (length (p_t p1)) k) (length (key_text obj k)) cap2) in *.
  assert (length (p_t p2) = length (p_t p1) + length (key_layout obj (p_i p1) (length (p_t p1)) k))%nat as Hl2 by apply after_len.
  assert (p_i p2 = p_i p1 + length (key_text obj k))%nat as Hi2 by done.
  rewrite <- Hi2, <- Hl2 in *.
  destruct (body_head obj d ms false post Hms) as (c1 & r1 & Hb1 & _ & Hs1 & _).
  destruct (Hv (d + 1) p2 (body obj false ms ++ post) fuel Hwv) as (cap3 & Hval & Hc3); try done.
  { rewrite Hb1. by apply Hs1. }
  { unfold room. lia. }
  { lia. }
  rewrite Hval. cbn [mbind res_bind]. clear Hval.
  apply (at_after _ (layout (p_i p2) (length (p_t p2)) v) _ _ cap3) in Hat.
  set (p3 := after p2 (layout (p_i p2) (length (p_t p2)) v) (length (print v)) cap3) in *.
  assert (length (p_t p3) = length (p_t p2) + length (layout (p_i p2) (length (p_t p2)) v))%nat as Hl3 by apply after_len.
  assert (p_i p3 = p_i p2 + length (print v))%nat as Hi3 by done.
  rewrite <- Hi3, <- Hl3 in *.
  destruct (print_head _ _ Hwv) as (c2 & r2 & Hpr & _). rewrite Hpr in Hi3. cbn [length] in Hi3.
  destruct (IH Hvs Hms false p3 post fuel Hat Hc3) as (cap4 & Hel & Hc4).
  { unfold room. lia. }
  { lia. }
  exists cap4. cbv zeta. rewrite Hel.
  assert (after p3 (members obj false (p_i p3) (length (p_t p3)) ms) (length (body obj false ms)) cap4 =
    after p (key_layout obj (p_i p1) (length (p_t p1)) k ++ layout (p_i p2) (length (p_t p2)) v ++
             members obj false (p_i p3) (length (p_t p3)) ms)
      (length (comma_text first ++ key_text obj k ++ print v ++ body obj false ms)) cap4) as Hq.
  { unfold p3 at 1, p2 at 1, p1 at 1. rewrite !after_after, !length_app. f_equal; try lia. }
  rewrite <- Hq. by split.
Qed.

Lemma values_read v : value_reads v.
Proof.
  induction v as [obj ms IH|raw|raw|w ty] using jv_ind'; intros d p post fuel Hwf Hs Hat Hc Hroom Hf;
    (destruct fuel as [|fuel]; [lia|]); rewrite value_S; cbv zeta;
    destruct (print_head _ _ Hwf) as (c0 & r0 & Hhead & Hw0 & _);
    pose proof Hat as Hat0; rewrite Hhead in Hat0; cbn [app] in Hat0;
    rewrite (at_nonwhite _ _ _ Hat0 Hw0); destruct (at_byte _ _ _ Hat0) as (-> & He & _); rewrite He;
    inversion Hwf as [? ? ? Hd Hm|? ? Hd Hm|? ? Hd Hm|? ? ? Hd Hm]; subst;
    rewrite (proj2 (Z.ltb_ge JSON_DEPTH d) Hd); cbn [orb];
    pose proof (not_ended _ _ He) as Hpi; clear Hwf Hw0 Hat0.
  - rewrite layout_cont in Hroom |- *. rewrite print_cont in *. unfold room in Hroom. cbn [length] in Hroom.
    injection Hhead as <- _.
    assert (((if obj then 123 else 91) =? QUOTE) = false) as -> by by destruct obj.
    assert (((if obj then 123 else 91) =? 123) = obj) as -> by by destruct obj.
    assert ((obj || ((if obj then 123 else 91) =? 91)) = true) as -> by by destruct obj.
    destruct (tok_room (if obj then J_OBJ else J_ARR) (p_i p) p Hc ltac:(lia)) as (cap & Ht & Hok).
    rewrite Ht. cbn [lift mbind res_bind].
    set (p1 := step 1 _). assert (length (p_t p1) = S (length (p_t p))) as Hl1.
    { unfold p1. cbn [step p_t]. rewrite length_app. cbn. lia. }
    assert (p_i p1 = S (p_i p)) as Hi1 by (unfold p1; cbn; lia).
    rewrite <- Hi1, <- Hl1 in *.
    destruct (elements_read obj d ms IH Hm true p1 post fuel) as (cap2 & Hel & Hc2).
    { unfold at_text in *. rewrite Hi1. replace (S (p_i p)) with (p_i p + 1)%nat by lia. by rewrite <- drop_drop, Hat. }
    { apply Hok. }
    { unfold room. lia. }
    { lia. }
    rewrite Hel. cbn [mbind res_bind]. exists cap2.
    set (ks := members obj true (p_i p1) (length (p_t p1)) ms) in *.
    assert (tok_end (length (p_t p)) (p_i (after p1 ks (length (body obj true ms)) cap2))
        (Z.of_nat (length (p_t (after p1 ks (length (body obj true ms)) cap2)))) (after p1 ks (length (body obj true ms)) cap2) =
      after p (mk_jtok (if obj then J_OBJ else J_ARR) (p_i p) (p_i p + length ((if obj then 123 else 91) :: body obj true ms))
        (Z.of_nat (length (p_t p) + S (length ks))) :: ks) (length ((if obj then 123 else 91) :: body obj true ms)) cap2) as Hq.
    { rewrite after_len, Hl1. unfold tok_end, after. cbn [p_i p_t p_cap length]. rewrite Hi1.
      unfold p1. cbn [step p_t]. rewrite <- app_assoc, alter_app_r_alt by lia. rewrite Nat.sub_diag. cbn [app alter list_alter j_type j_start].
      f_equal; [|lia]. f_equal. f_equal. f_equal; lia. }
    rewrite Hq. split; [done|]. rewrite <- Hq. unfold cap_ok, tok_end in *. cbn [p_t p_cap after] in *. by rewrite length_alter.
  - injection Hhead as <- _. change (QUOTE =? QUOTE) with true. cbv iota.
    cbn [print app] in Hat. rewrite <- app_assoc in Hat. unfold room in Hroom. cbn [layout length] in Hroom.
    destruct (string_reads p raw post Hm Hat Hc ltac:(lia)) as (cap & -> & Hok). exists cap. cbn [lift layout print length].
    rewrite length_app. cbn [length]. split; [|apply Hok]. unfold after. do 3 f_equal. lia.
  - cbn [print] in *. subst raw. cbn [numeral] in Hm.
    assert ((c0 =? QUOTE) = false) as ->.
    { apply Z.eqb_neq. intros ->. discriminate Hm. }
    assert (((c0 =? 123) || (c0 =? 91)) = false) as ->.
    { apply orb_false_iff; split; apply Z.eqb_neq; intros ->; discriminate Hm. }
    pose proof Hm as Hm'. apply andb_true_iff in Hm as [-> _].
    unfold room in Hroom. cbn [layout length] in Hroom.
    destruct (number_reads p (c0 :: r0) post Hm' Hs Hat Hc ltac:(lia)) as (cap & -> & Hok). exists cap. split; [done|apply Hok].
  - cbn [print] in *. assert (c0 ∈ [116; 102; 110]) as Hc0.
    { clear -Hm Hhead. repeat (apply elem_of_cons in Hm as [[= -> ->]|Hm]; [injection Hhead as <- <-; rewrite ?elem_of_cons; vm_compute; tauto|]).
      by apply elem_of_nil in Hm. }
    unfold room in Hroom. cbn [layout length] in Hroom.
    destruct (word_reads p w ty post Hm Hat Hc ltac:(lia)) as (cap & Hw & Hok).
    repeat (apply elem_of_cons in Hc0 as [->|Hc0]; [cbn -[word words after]; rewrite Hw; exists cap; split; [done|apply Hok]|]).
    by apply elem_of_nil in Hc0.
Qed.
End parse.

(** The capacities the token array can have: none, or 256 doubled at most ten times. *)
Definition capacity (cap : Z) : Prop := cap = 0 \/ exists k, 0 <= k <= 10 /\ cap = 256 * 2 ^ k.

(** C35. Every printed document is read: the text of a value whose literals, numbers and
    words are well formed, at most 64 containers deep, parses to exactly its layout (one token
    per value and key, in document order, each over its text), as long as the text and
    the tokens are within the reader's limits. *)
Theorem printed_document_parses (memory : Z -> bool) (j : json) (v : jv) :
  (forall cap, memory cap = true) -> capacity (js_cap j) -> wf 0 v ->
  Z.of_nat (length (print v)) <= JSON_MAX_TEXT -> Z.of_nat (length (layout 0 0 v)) <= JSON_MAX_TOKENS ->
  exists cap, json_parse memory j (print v) = Some (mk_json (print v) (layout 0 0 v) cap).
Proof.
  intros Hmem Hcap Hwf Htext Htoks. unfold json_parse. rewrite (proj2 (Z.ltb_ge _ _) Htext).
  destruct (values_read memory (print v) Hmem v 0 (mk_p [] (js_cap j) 0) [] (parse_fuel (print v))) as (cap & Hv & _); try done.
  - unfold at_text. cbn [p_i]. by rewrite drop_0, app_nil_r.
  - split; [|exact Hcap]. cbn. destruct Hcap as [->|(k & ? & ->)]; [done|]. assert (0 < 2 ^ k) by lia. lia.
  - unfold parse_fuel. cbn [p_i]. lia.
  - rewrite Hv. unfold after, ws. cbn [p_t p_i p_cap app length Nat.add]. rewrite drop_all. cbn [span]. rewrite Nat.add_0_r.
    rewrite Nat.eqb_refl. cbn [orb]. by exists cap.
Qed.

(** A value at token [t] of a parsed document, its text at [i] *)
Definition sits (j : json) (i t : nat) (v : jv) : Prop :=
  exists a b r, js_t j = a ++ layout i t v ++ b /\ length a = t /\ drop i (js_s j) = print v ++ r.

Lemma sits_tok j i t v : sits j i t v ->
  exists k ks, tok_at j (Z.of_nat t) = Some k /\ layout i t v = k :: ks /\ j_next k = Z.of_nat (t + length (layout i t v)).
Proof.
  intros (a & b & r & Ht & Hl & _). destruct (layout_head i t v) as (k & ks & Hk & Hn). exists k, ks.
  split; [|done]. unfold tok_at. rewrite (proj2 (Z.leb_le _ _)) by lia. rewrite Nat2Z.id, Ht, Hk.
  rewrite lookup_app_r by lia. by rewrite Hl, Nat.sub_diag.
Qed.

Lemma get_loop_finds j key ms :
  BACKSLASH ∉ key -> forall first i t a b r fuel,
  js_t j = a ++ members true first i t ms ++ b -> length a = t -> drop i (js_s j) = body true first ms ++ r ->
  (length (members true first i t ms) <= fuel)%nat ->
  let res := get_loop fuel j key (Z.of_nat (t + length (members true first i t ms))) (Z.of_nat t) in
  match list_find (fun m => fst m = key) ms with
  | Some (_, (_, v)) => 0 <= res /\ exists i', sits j i' (Z.to_nat res) v
  | None => res = -1
  end.
Proof.
  intros Hkey. induction ms as [|[k v] ms IH]; intros first i t a b r fuel Ht Hl Hs Hf; cbv zeta.
  { cbn [members length list_find]. rewrite Nat.add_0_r. destruct fuel; [done|]. cbn [get_loop]. by rewrite Z.ltb_irrefl. }
  cbn [members body] in *. rewrite <- !app_assoc in Ht. repeat rewrite <- app_assoc in Hs.
  set (i1 := (i + length (comma_text first))%nat) in *.
  assert (drop i1 (js_s j) = key_text true k ++ print v ++ body true false ms ++ r) as Hs1.
  { unfold i1. by rewrite <- drop_drop, Hs, drop_app_length. }
  cbn [key_layout length] in Hf |- *. rewrite !length_app in Hf. rewrite !length_app.
  set (iv := (i1 + length (key_text true k))%nat) in *.
  assert (drop iv (js_s j) = print v ++ body true false ms ++ r) as Hs2.
  { unfold iv. by rewrite <- drop_drop, Hs1, drop_app_length. }
  set (lv := layout iv (t + 1) v) in *.
  destruct (layout_head iv (t + 1) v) as (kv & kr & Hkv & Hnv). fold lv in Hkv, Hnv.
  set (rest := members true false (iv + length (print v)) (t + 1 + length lv) ms) in *.
  cbn [length] in Hf |- *.
  assert (1 <= length lv)%nat as Hlv by (rewrite Hkv; cbn; lia).
  assert (sits j iv (t + 1) v) as Hsit.
  { exists (a ++ key_layout true i1 t k), (rest ++ b), (body true false ms ++ r).
    split_and!; [|rewrite length_app; cbn; lia|done]. rewrite <- app_assoc. exact Ht. }
  destruct fuel as [|fuel]; [lia|]. cbn [get_loop].
  rewrite (proj2 (Z.ltb_lt _ _)) by lia. cbn [negb].
  assert (tok_at j (Z.of_nat t) = Some (mk_jtok J_STR (S i1) (S i1 + length k) (Z.of_nat t + 1))) as ->.
  { unfold tok_at. rewrite (proj2 (Z.leb_le _ _)) by lia. rewrite Nat2Z.id, Ht, lookup_app_r by lia.
    by rewrite Hl, Nat.sub_diag. }
  cbn [j_next]. rewrite (proj2 (Z.leb_gt _ _)) by lia.
  assert (key_is j (mk_jtok J_STR (S i1) (S i1 + length k) (Z.of_nat t + 1)) key = bool_decide (k = key)) as ->.
  { unfold key_is, text_of. cbn [j_start j_end].
    assert (existsb (Z.eqb BACKSLASH) key = false) as ->.
    { apply existsb_false_elem. intros x Hx. apply Z.eqb_neq. intros <-. done. }
    rewrite andb_true_r. apply bool_decide_ext.
    replace (S i1) with (i1 + 1)%nat by lia. rewrite <- drop_drop, Hs1. cbn [key_text app drop].
    rewrite drop_0, <- app_assoc. replace (i1 + 1 + length k - (i1 + 1))%nat with (length k) by lia.
    by rewrite take_app_length. }
  cbn [list_find fst]. destruct (decide (k = key)) as [->|Hne].
  - rewrite bool_decide_eq_true_2 by done. split; [lia|]. exists iv. replace (Z.to_nat (Z.of_nat t + 1)) with (t + 1)%nat by lia. done.
  - rewrite bool_decide_eq_false_2 by done.
    destruct (sits_tok _ _ _ _ Hsit) as (k2 & ks2 & Hk2 & Hl2 & Hn2). unfold next_of.
    replace (Z.of_nat t + 1) with (Z.of_nat (t + 1)) by lia. rewrite Hk2. cbn [from_option]. rewrite Hn2. fold lv.
    specialize (IH false (iv + length (print v))%nat (t + 1 + length lv)%nat (a ++ key_layout true i1 t k ++ lv) b r fuel).
    cbv zeta in IH. fold rest in IH.
    replace (t + 1 + length lv + length rest)%nat with (t + S (length lv + length rest))%nat in IH by lia.
    cbn [length] in IH |- *.
    destruct (list_find (fun m => fst m = key) ms) as [[n [k' v']]|]; cbn [fmap option_fmap option_map prod_map];
      (apply IH; [by rewrite Ht, <- !app_assoc|rewrite !length_app; cbn; lia|by rewrite <- drop_drop, Hs2, drop_app_length|lia]).
Qed.

(** [json_get] on an object of a parsed document: the token of the value of the first
    member whose key is written as asked, with that value's own tokens and text behind it, or
    -1 when no member has the key. *)
Theorem json_get_finds (j : json) (i t : nat) (ms : list (bytes * jv)) (key : bytes) :
  sits j i t (JCont true ms) -> BACKSLASH ∉ key ->
  let res := json_get j (Z.of_nat t) key in
  match list_find (fun m => fst m = key) ms with
  | Some (_, (_, v)) => 0 <= res /\ exists i', sits j i' (Z.to_nat res) v
  | None => res = -1
  end.
Proof.
  intros Hsit Hkey. cbv zeta. destruct (sits_tok _ _ _ _ Hsit) as (k & ks & Hk & Hlay & Hn).
  destruct Hsit as (a & b & r & Ht & Hl & Hs). unfold json_get, json_type, next_of. rewrite Hk. cbn [fmap option_fmap option_map from_option].
  rewrite layout_cont in Hlay, Ht. injection Hlay as <- <-. cbn [j_type j_next]. rewrite bool_decide_eq_true_2 by done. cbn [negb].
  rewrite print_cont in Hs.
  replace (Z.of_nat t + 1) with (Z.of_nat (S t)) by lia.
  replace (t + S (length (members true true (S i) (S t) ms)))%nat with (S t + length (members true true (S i) (S t) ms))%nat by lia.
  eapply get_loop_finds; [done|..].
  - rewrite Ht. cbn [app]. by rewrite cons_middle, app_assoc.
  - rewrite length_app. cbn. lia.
  - replace (S i) with (i + 1)%nat by lia. by rewrite <- drop_drop, Hs.
  - rewrite Ht, !length_app. cbn [length app]. lia.
Qed.

(** [{"a":{"b":[1,true]},"b":"x"}] *)
Definition sample : jv :=
  JCont true [(str "a", JCont true [(str "b", JCont false [([], JNum (str "1")); ([], JWord (str "true") J_TRUE)])]);
              (str "b", JStr (str "x"))].

Lemma sample_wf : wf 0 sample.
Proof.
  assert (literal (str "a") /\ literal (str "b") /\ literal (str "x")) as (? & ? & ?)
    by (split_and!; by apply plain_literal).
  unfold sample. repeat match goal with
  | |- wf _ (JWord _ _) => apply wf_word; [done|apply list_elem_of_here]
  | |- wf _ (JStr _) => by apply wf_str
  | |- wf _ (JNum _) => by apply wf_num
  | |- wf _ (JCont _ _) => apply wf_cont; [done|]
  | |- Forall _ _ => constructor
  | |- wf_member _ _ _ => apply wf_m; [done|]
  end.
Qed.

Lemma printed_document_parses_witness :
  exists cap, json_parse (fun _ => true) (mk_json [] [] 0) (print sample) = Some (mk_json (print sample) (layout 0 0 sample) cap) /\
    length (layout 0 0 sample) = 9%nat.
Proof.
  destruct (printed_document_parses (fun _ => true) (mk_json [] [] 0) sample) as [cap H].
  - done.
  - by left.
  - apply sample_wf.
  - by vm_compute.
  - by vm_compute.
  - exists cap. split; [exact H|reflexivity].
Defined.

Lemma json_get_finds_witness :
  let j := mk_json (print sample) (layout 0 0 sample) 256 in
  json_get j 0 (str "b") = 8 /\ json_get j 0 (str "c") = -1 /\ exists i', sits j i' 8 (JStr (str "x")).
Proof.
  cbv zeta. split; [by vm_compute|]. split; [by vm_compute|].
  destruct (json_get_finds (mk_json (print sample) (layout 0 0 sample) 256) 0 0
    [(str "a", JCont true [(str "b", JCont false [([], JNum (str "1")); ([], JWord (str "true") J_TRUE)])]);
     (str "b", JStr (str "x"))] (str "b")) as [_ [i' Hi]].
  - exists [], [], []. split_and!; by vm_compute.
  - set_solver.
  - exists i'. exact Hi.
Defined.
