(* ===== verification/Ws.v ===== *)
(** * The WebSocket endpoint (ws.c)
    The upgrade in both directions, frames sent, messages received.  What a socket will
    read is the list of bytes to come; what was written is the list of [write_all]s.
    [sink out] says whether the next [write_all] after [out] succeeds, [memory n] whether
    [realloc] or [malloc] gives [n] bytes.  The lock around a send is not modelled: a
    send is one step. *)
From S2P Require Import Prelude Cbits Crypto Hash.

Definition WS_TEXT : Z := 1.
Definition WS_BINARY : Z := 2.
Definition WS_CLOSE : Z := 8.
Definition WS_PING : Z := 9.
Definition WS_PONG : Z := 10.

Definition WS_GUID : bytes := str "258EAFA5-E914-47DA-95CA-C5AB0DC85B11".
Definition WS_MAX_MESSAGE : Z := Z.shiftl 4 20.
Definition WS_HEAD : Z := 256.

(** [struct ws]: the bytes of [buf] that matter are the message being read, an argument
    of the loop; [w_out] is what went to the socket, [w_rnd] the reads of random bytes. *)
Record ws := mk_ws { w_client : bool; w_cap : Z; w_out : list bytes; w_rnd : nat }.

(** ** Reading headers *)
Definition CRLF : bytes := [13; 10].

Fixpoint read_headers_loop (fuel : nat) (buf inp : bytes) : option (bytes * bytes) :=
  match fuel, inp with
  | O, _ | _, [] => None
  | S fuel, b :: inp =>
      let buf := buf ++ [b] in
      if bool_decide (drop (length buf - 4) buf = CRLF ++ CRLF) then Some (buf, inp)
      else read_headers_loop fuel buf inp
  end.
(** The head up to and including the blank line, and what follows it. *)
Definition read_headers (cap : nat) (inp : bytes) : option (bytes * bytes) := read_headers_loop (cap - 1) [] inp.

(** The C string in a buffer: up to its first NUL *)
Fixpoint c_str (l : bytes) : bytes :=
  match l with
  | c :: l => if c =? 0 then [] else c :: c_str l
  | [] => []
  end.

Definition starts (p l : bytes) : bool := bool_decide (take (length p) l = p).
(** [!strncasecmp(l, p, strlen(p))] *)
Definition starts_i (p l : bytes) : bool := bool_decide (map tolower (take (length p) l) = map tolower p).

Fixpoint after_spaces (l : bytes) : bytes :=
  match l with c :: r => if c =? 32 then after_spaces r else l | [] => [] end.
Fixpoint to_cr (l : bytes) : bytes :=
  match l with c :: l => if c =? 13 then [] else c :: to_cr l | [] => [] end.

(** The value of a header line, in a buffer of [outsz]; [hdrs] is a C string. *)
Fixpoint header (hdrs name : bytes) (outsz : nat) : option bytes :=
  match hdrs with
  | [] => None
  | c :: r =>
      if starts CRLF hdrs && starts_i name (drop 1 r) && (drop 1 r !!! length name =? 58)
      then Some (take (outsz - 1) (to_cr (after_spaces (drop (S (length name)) (drop 1 r)))))
      else header r name outsz
  end.

(** [strstr] finds [p]. *)
Fixpoint contains (p l : bytes) : bool :=
  starts p l || match l with _ :: l => contains p l | [] => false end.

Definition accept_key (key : bytes) : bytes :=
  Base64.b64_encode (Sha1.sha1 (take 127 (key ++ WS_GUID))) false true.

Fixpoint to_space (n : nat) (l : bytes) : bytes :=
  match n, l with
  | S n, c :: l => if c =? 32 then [] else c :: to_space n l
  | _, _ => []
  end.

Section ws.
Context `{E : Entropy} (memory : Z -> bool) (sink : list bytes -> bool).

Definition write_all (b : bytes) (w : ws) : bool * ws :=
  if sink (w_out w) then (true, mk_ws (w_client w) (w_cap w) (w_out w ++ [b]) (w_rnd w)) else (false, w).

(** ** The upgrade *)
Definition FORBIDDEN : bytes :=
  str "HTTP/1.1 403 Forbidden" ++ CRLF ++ str "Content-Length: 0" ++ CRLF ++ str "Connection: close" ++ CRLF ++ CRLF.
Definition SWITCHING (acc : bytes) : bytes :=
  str "HTTP/1.1 101 Switching Protocols" ++ CRLF ++ str "Upgrade: websocket" ++ CRLF ++ str "Connection: Upgrade" ++ CRLF ++
  str "Sec-WebSocket-Accept: " ++ acc ++ CRLF ++ CRLF.

Definition ws_init (client : bool) (w : ws) : ws := mk_ws client 0 (w_out w) (w_rnd w).

(** The endpoint when the upgrade was made, the path of the GET, and what is still to
    be read; what was written is in the endpoint either way. *)
Definition ws_accept (pathsz : nat) (w : ws) (inp : bytes) : bool * ws * bytes * bytes :=
  match read_headers 4096 inp with
  | None => (false, w, [], inp)
  | Some (buf, rest) =>
      let h := c_str buf in
      match (if starts (str "GET ") h then header h (str "Sec-WebSocket-Key") 128 else None) with
      | None => (false, w, [], rest)
      | Some key =>
          match header h (str "Origin") 8 with
          | Some _ => (false, snd (write_all FORBIDDEN w), [], rest)
          | None =>
              let path := to_space (pathsz - 1) (drop 4 h) in
              let '(ok, w) := write_all (SWITCHING (accept_key key)) w in
              if ok then (true, ws_init false w, path, rest) else (false, w, path, rest)
          end
      end
  end.

Definition http_host (host : bytes) (port : Z) : bytes :=
  let v6 := existsb (Z.eqb 58) host in
  (if v6 then str "[" else []) ++ host ++ (if v6 then str "]" else []) ++ str ":" ++ dec port.
Definition http_request (host path key : bytes) (port : Z) : bytes :=
  str "GET " ++ path ++ str " HTTP/1.1" ++ CRLF ++ str "Host: " ++ http_host host port ++ CRLF ++
  str "Upgrade: websocket" ++ CRLF ++ str "Connection: Upgrade" ++ CRLF ++
  str "Sec-WebSocket-Key: " ++ key ++ CRLF ++ str "Sec-WebSocket-Version: 13" ++ CRLF ++ CRLF.

(** [ws_connect] on a connected socket, up to its request: the request and the accept
    key it wants.  [req] has 512 bytes; a longer request is not defined (the code would
    send what lies behind the buffer). *)
Definition ws_request (host path : bytes) (port : Z) (w : ws) : option (bytes * bytes * ws) :=
  let key := Base64.b64_encode (entropy (w_rnd w) 16) false true in
  let req := http_request host path key port in
  if (512 <=? length req)%nat then None else
  Some (req, accept_key key, mk_ws (w_client w) (w_cap w) (w_out w) (S (w_rnd w))).

(** ... and from the answer on. *)
Definition ws_upgraded (want : bytes) (w : ws) (inp : bytes) : option (ws * bytes) :=
  match read_headers 4096 inp with
  | None => None
  | Some (buf, rest) =>
      let h := c_str buf in
      if contains (str " 101") h && bool_decide (header h (str "Sec-WebSocket-Accept") 64 = Some want)
      then Some (ws_init true w, rest) else None
  end.

(** ** Frames sent *)
Definition len_bytes (len : Z) : Z * bytes :=
  if len <? 126 then (len, [])
  else if len <? 65536 then (126, [u8 (Z.shiftr len 8); u8 len])
  else (127, map (fun i => u8 (Z.shiftr len (56 - 8 * Z.of_nat i))) (seq 0 8)).

Definition masked (mask data : bytes) : bytes := imap (fun i b => Z.lxor b (mask !!! (i mod 4)%nat)) data.

Definition send_frame (opcode : Z) (data : bytes) (w : ws) : bool * ws :=
  let '(l, ext) := len_bytes (Z.of_nat (length data)) in
  let send hd d :=
    let '(ok, w) := hd in
    if negb ok then (false, w)
    else if (length d =? 0)%nat then (true, w) else write_all d w in
  if w_client w then
    if negb (memory (Z.max 1 (Z.of_nat (length data)))) then (false, w) else
    let mask := entropy (w_rnd w) 4 in
    let w := mk_ws (w_client w) (w_cap w) (w_out w) (S (w_rnd w)) in
    send (write_all (Z.lor 0x80 opcode :: Z.lor l 0x80 :: ext ++ mask) w) (masked mask data)
  else send (write_all (Z.lor 0x80 opcode :: l :: ext) w) data.
Definition ws_send (opcode : Z) (data : bytes) (w : ws) : bool * ws := send_frame opcode data w.

(** ** Messages received *)
Definition read_full (n : Z) (inp : bytes) : option (bytes * bytes) :=
  if n <=? Z.of_nat (length inp) then Some (take (Z.to_nat n) inp, drop (Z.to_nat n) inp) else None.
(** [skip]: read and dropped *)
Definition skip (n : Z) (inp : bytes) : option bytes := snd <$> read_full n inp.

Record fhead := mk_fhead { f_fin : bool; f_op : Z; f_mask : option bytes; f_n : Z }.

(** The head of a frame; [None] when the socket ends in it. *)
Definition frame_head (inp : bytes) : option (fhead * bytes) :=
  '(h, inp) ← read_full 2 inp;
  let fin := negb (Z.land (h !!! 0%nat) 0x80 =? 0) in
  let op := Z.land (h !!! 0%nat) 0x0f in
  let is_masked := negb (Z.land (h !!! 1%nat) 0x80 =? 0) in
  let n := Z.land (h !!! 1%nat) 0x7f in
  '(n, inp) ← (if n =? 126 then '(ext, inp) ← read_full 2 inp; Some (be_value ext, inp)
               else if n =? 127 then '(ext, inp) ← read_full 8 inp; Some (be_value ext, inp)
               else Some (n, inp));
  if is_masked then '(mask, inp) ← read_full 4 inp; Some (mk_fhead fin op (Some mask) n, inp)
  else Some (mk_fhead fin op None n, inp).

Definition unmask (m : option bytes) (data : bytes) : bytes :=
  match m with Some mask => masked mask data | None => data end.

(** [realloc] when the buffer has less than [need] bytes *)
Definition grow (need cap : Z) (w : ws) : option ws :=
  if w_cap w <? need then
    if memory cap then Some (mk_ws (w_client w) cap (w_out w) (w_rnd w)) else None
  else Some w.

(** [Message 1]: whole; [Message 2]: too big, its head kept; [Closed] is 0, [Broken] -1,
    [Unfinished] not within the bound. *)
Inductive received := Message (rc op : Z) (data : bytes) | Closed | Broken | Unfinished.

(** A frame of a message beyond the limit: its part of the head kept, the rest read away. *)
Definition recv_over (f : fhead) (acc : bytes) (w : ws) (inp : bytes) : received + bytes * ws * bytes :=
  let total := Z.of_nat (length acc) in
  let n := f_n f in
  if (16 * WS_MAX_MESSAGE <? n) || (16 * WS_MAX_MESSAGE <? total + n) then inl Broken else
  let keep := Z.min n (if total <? WS_HEAD then WS_HEAD - total else 0) in
  match grow (total + keep + 1) (total + keep + 1) w with
  | None => inl Broken
  | Some w =>
      match read_full keep inp with
      | None => inl Closed
      | Some (d, inp) =>
          match skip (n - keep) inp with
          | None => inl Closed
          | Some inp => inr (acc ++ unmask (f_mask f) d, w, inp)
          end
      end
  end.

(** The [for (;;)] of [ws_recv]: [acc] is [buf[0, total)]; every turn takes two bytes. *)
Fixpoint recv_loop (fuel : nat) (acc : bytes) (first_op : Z) (over : bool) (w : ws) (inp : bytes)
  : received * ws * bytes :=
  match fuel with
  | O => (Unfinished, w, inp)
  | S fuel =>
      match frame_head inp with
      | None => (Closed, w, inp)
      | Some (f, inp) =>
          let n := f_n f in
          let total := Z.of_nat (length acc) in
          if (8 <=? f_op f) && (125 <? n) then (Broken, w, inp)
          else if (f_op f <? 8) && (over || (WS_MAX_MESSAGE <? n) || (WS_MAX_MESSAGE <? total + n)) then
            match recv_over f acc w inp with
            | inl r => (r, w, inp)
            | inr (acc, w, inp) =>
                let first_op := if f_op f =? 0 then first_op else f_op f in
                if f_fin f then (Message 2 first_op acc, w, inp)
                else recv_loop fuel acc first_op true w inp
            end
          else
          match grow (total + n + 1) (total + n + 1 + 4096) w with
          | None => (Broken, w, inp)
          | Some w =>
              match read_full n inp with
              | None => (Closed, w, inp)
              | Some (d, inp) =>
                  let d := unmask (f_mask f) d in
                  if 8 <=? f_op f then
                    if f_op f =? WS_PING then recv_loop fuel acc first_op over (snd (send_frame WS_PONG d w)) inp
                    else if f_op f =? WS_CLOSE then
                      (Closed, snd (send_frame WS_CLOSE (if n <? 2 then [] else take 2 d) w), inp)
                    else recv_loop fuel acc first_op over w inp
                  else
                    let first_op := if f_op f =? 0 then first_op else f_op f in
                    let acc := acc ++ d in
                    if f_fin f then (Message 1 first_op acc, w, inp)
                    else recv_loop fuel acc first_op over w inp
              end
          end
      end
  end.

Definition ws_recv (w : ws) (inp : bytes) : received * ws * bytes :=
  recv_loop (S (length inp)) [] 0 false w inp.

(** The close frame goes out whatever comes of it; the socket is gone after it. *)
Definition ws_close (w : ws) : ws := mk_ws (w_client w) 0 (w_out (snd (send_frame WS_CLOSE [3; 0xe8] w))) (w_rnd w).
End ws.
