(* ===== verification/WsFrames.v ===== *)
(** * WebSocket frames: what is sent is received, fragments are joined, pings answered
    [frame] is the wire form of RFC 6455, section 5.2, which [send_frame] writes and
    [frame_head] reads. *)
From S2P Require Import Prelude Cbits Crypto Hash Ws.

(** ** The wire form *)
Definition frame (fin : bool) (op : Z) (mask : option bytes) (payload : bytes) : bytes :=
  let '(l, ext) := len_bytes (Z.of_nat (length payload)) in
  Z.lor (if fin then 0x80 else 0) op :: Z.lor l (if bool_decide (is_Some mask) then 0x80 else 0) :: ext ++
  from_option id [] mask ++ unmask mask payload.

Definition mask_ok (mask : option bytes) : Prop := from_option (fun m => length m = 4%nat) True mask.

Lemma length_masked m d : length (masked m d) = length d.
Proof. apply length_imap. Qed.
Lemma length_unmask m d : length (unmask m d) = length d.
Proof. destruct m; [apply length_masked|done]. Qed.
Lemma unmask_unmask m d : unmask m (unmask m d) = d.
Proof.
  destruct m as [m|]; [|done]. apply list_eq. intros i. cbn. unfold masked. rewrite !list_lookup_imap.
  destruct (d !! i) as [b|]; [|done]. cbn. by rewrite Z.lxor_assoc, Z.lxor_nilpotent, Z.lxor_0_r.
Qed.

Lemma read_full_app a r : read_full (Z.of_nat (length a)) (a ++ r) = Some (a, r).
Proof.
  unfold read_full. rewrite length_app, (proj2 (Z.leb_le _ _)) by lia.
  by rewrite Nat2Z.id, take_app_length, drop_app_length.
Qed.
Lemma read_full_app' n a r : n = Z.of_nat (length a) -> read_full n (a ++ r) = Some (a, r).
Proof. intros ->. apply read_full_app. Qed.

(** The first byte: the flag and the opcode. *)
Lemma head_byte (fin : bool) op :
  0 <= op < 16 ->
  let b := Z.lor (if fin then 0x80 else 0) op in negb (Z.land b 0x80 =? 0) = fin /\ Z.land b 0x0f = op.
Proof.
  intros Hop. assert (op ∈ map Z.of_nat (seq 0 16)) as H.
  { apply list_elem_of_In, in_map_iff. exists (Z.to_nat op). split; [lia|]. apply in_seq. lia. }
  cbn in H. repeat (apply elem_of_cons in H as [->|H]; [by destruct fin|]). by apply elem_of_nil in H.
Qed.

Definition second_ok (l : Z) : bool :=
  (Z.land (Z.lor l 0x80) 0x7f =? l) && negb (Z.land (Z.lor l 0x80) 0x80 =? 0) &&
  (Z.land (Z.lor l 0) 0x7f =? l) && (Z.land (Z.lor l 0) 0x80 =? 0).

(** The second: masked or not, and the length or its escape. *)
Lemma second_byte (m : bool) l :
  0 <= l < 128 ->
  let b := Z.lor l (if m then 0x80 else 0) in negb (Z.land b 0x80 =? 0) = m /\ Z.land b 0x7f = l.
Proof.
  intros Hl. assert (forallb second_ok (map Z.of_nat (seq 0 128)) = true) as H by by vm_compute.
  rewrite forallb_elem in H. specialize (H l). unfold second_ok in H.
  assert (l ∈ map Z.of_nat (seq 0 128)) as Hin
    by (apply list_elem_of_In, in_map_iff; exists (Z.to_nat l); split; [lia|]; apply in_seq; lia).
  specialize (H Hin). apply andb_true_iff in H as [H H4]. apply andb_true_iff in H as [H H3].
  apply andb_true_iff in H as [H1 H2]. cbv zeta. destruct m; (split; [|by apply Z.eqb_eq]); [done|by rewrite H4].
Qed.

Lemma len_bytes_read len r :
  0 <= len < 2 ^ 64 ->
  let '(l, ext) := len_bytes len in
  0 <= l < 128 /\
  (if l =? 126 then '(ext, inp) ← read_full 2 (ext ++ r); Some (be_value ext, inp)
   else if l =? 127 then '(ext, inp) ← read_full 8 (ext ++ r); Some (be_value ext, inp)
   else Some (l, ext ++ r)) = Some (len, r).
Proof.
  intros Hlen. unfold len_bytes. destruct (Z.ltb_spec len 126).
  { split; [lia|]. by rewrite !(proj2 (Z.eqb_neq _ _)) by lia. }
  destruct (Z.ltb_spec len 65536).
  - split; [lia|]. change (126 =? 126) with true. cbv iota. rewrite read_full_app' by done. cbn [mbind option_bind].
    do 2 f_equal. change [u8 (Z.shiftr len 8); u8 len] with (rev [u8 len; u8 (Z.shiftr len 8)]).
    rewrite shiftr_div by lia. change (rev _) with (be_bytes 2 len). rewrite be_value_bytes.
    apply Z.mod_small. change (2 ^ (8 * Z.of_nat 2)) with 65536. lia.
  - split; [lia|]. change (127 =? 126) with false. change (127 =? 127) with true. cbv iota.
    rewrite read_full_app' by done. cbn [mbind option_bind]. do 2 f_equal.
    rewrite Sha256.lenb_be, be_value_bytes. apply Z.mod_small. exact Hlen.
Qed.

Lemma frame_head_frame fin op mask payload r :
  0 <= op < 16 -> mask_ok mask -> Z.of_nat (length payload) < 2 ^ 64 ->
  frame_head (frame fin op mask payload ++ r) =
  Some (mk_fhead fin op mask (Z.of_nat (length payload)), unmask mask payload ++ r).
Proof.
  intros Hop Hm Hlen. unfold frame.
  pose proof (len_bytes_read (Z.of_nat (length payload)) (from_option id [] mask ++ unmask mask payload ++ r) ltac:(lia)) as Hl.
  destruct (len_bytes (Z.of_nat (length payload))) as [l ext]. destruct Hl as [Hl128 Hl].
  cbn [app]. rewrite <- !app_assoc. unfold frame_head.
  match goal with |- context [read_full 2 (?x :: ?y :: ?t)] => change (x :: y :: t) with ([x; y] ++ t) end.
  rewrite read_full_app' by done. cbn [mbind option_bind].
  destruct (head_byte fin op Hop) as [Hfin Hopc]. destruct (second_byte (bool_decide (is_Some mask)) l Hl128) as [Hmask Hn].
  cbn [lookup_total list_lookup_total]. rewrite Hfin, Hopc, Hmask, Hn. rewrite Hl. cbn [mbind option_bind].
  destruct mask as [m|]; cbn [from_option id].
  - rewrite bool_decide_eq_true_2 by by eexists. cbn in Hm. rewrite read_full_app' by by rewrite Hm. done.
  - rewrite bool_decide_eq_false_2 by by intros [? ?]. done.
Qed.

Section frames.
Context `{E : Entropy} (memory : Z -> bool) (sink : list bytes -> bool).
Hypothesis memory_enough : forall n, memory n = true.
Hypothesis sink_open : forall out, sink out = true.

(** What an endpoint puts on the wire for one frame. *)
Definition sent_frame (client : bool) (rnd : nat) (op : Z) (d : bytes) : bytes :=
  frame true op (if client then Some (entropy rnd 4) else None) d.
Definition rnd_after (client : bool) (rnd : nat) : nat := if client then S rnd else rnd.

Lemma write_all_open b w : write_all sink b w = (true, mk_ws (w_client w) (w_cap w) (w_out w ++ [b]) (w_rnd w)).
Proof. unfold write_all. by rewrite sink_open. Qed.

Lemma send_frame_out op d w :
  send_frame memory sink op d w =
  (true, mk_ws (w_client w) (w_cap w) (w_out (snd (send_frame memory sink op d w))) (rnd_after (w_client w) (w_rnd w))) /\
  concat (w_out (snd (send_frame memory sink op d w))) = concat (w_out w) ++ sent_frame (w_client w) (w_rnd w) op d.
Proof.
  unfold send_frame, sent_frame, frame. destruct (len_bytes (Z.of_nat (length d))) as [l ext].
  destruct w as [[] cap out rnd]; cbn [w_client]; [rewrite memory_enough; cbn [negb]|];
    rewrite write_all_open; cbn [w_client w_cap w_out w_rnd negb rnd_after from_option id unmask].
  - rewrite bool_decide_eq_true_2, length_masked by by eexists.
    destruct d as [|b d]; cbn [length Nat.eqb snd w_out]; [|rewrite write_all_open; set (m := masked _ _)];
      cbn [w_client w_cap w_out w_rnd snd]; (split; [done|]); rewrite ?concat_app; cbn [concat app];
      try change (masked _ []) with (@nil Z); rewrite ?app_nil_r;
      repeat (progress (rewrite <- ?app_assoc, ?app_nil_r; cbn [app])); done.
  - rewrite bool_decide_eq_false_2, Z.lor_0_r by by intros [? ?].
    destruct d as [|b d]; cbn [length Nat.eqb snd w_out]; [|rewrite write_all_open];
      cbn [w_client w_cap w_out w_rnd snd]; (split; [done|]); rewrite ?concat_app; cbn [concat app];
      try change (masked _ []) with (@nil Z); rewrite ?app_nil_r;
      repeat (progress (rewrite <- ?app_assoc, ?app_nil_r; cbn [app])); done.
Qed.

(** ** A message in fragments *)
Record wframe := mk_wframe { wf_fin : bool; wf_op : Z; wf_mask : option bytes; wf_data : bytes }.
Definition wire (f : wframe) : bytes := frame (wf_fin f) (wf_op f) (wf_mask f) (wf_data f).

(** The frames of one message of opcode [op], after its first one or not: its parts, the
    last with the FIN flag, and pings, pongs and unknown control frames between them. *)
Inductive fragments (op : Z) : bool -> list wframe -> Prop :=
  | frag_last (started : bool) m d : mask_ok m -> fragments op started [mk_wframe true (if started then 0 else op) m d]
  | frag_more (started : bool) m d fs :
      mask_ok m -> fragments op true fs ->
      fragments op started (mk_wframe false (if started then 0 else op) m d :: fs)
  | frag_control started fin cop m d fs :
      8 < cop < 16 -> mask_ok m -> (length d <= 125)%nat -> fragments op started fs ->
      fragments op started (mk_wframe fin cop m d :: fs).

Definition data_of (fs : list wframe) : bytes := fs ≫= fun f => if wf_op f <? 8 then wf_data f else [].
Definition pings_of (fs : list wframe) : list bytes :=
  fs ≫= fun f => if wf_op f =? WS_PING then [wf_data f] else [].

(** The pongs, masked with fresh bytes each when a client answers. *)
Fixpoint pongs (client : bool) (rnd : nat) (ds : list bytes) : bytes :=
  match ds with
  | [] => []
  | d :: ds => sent_frame client rnd WS_PONG d ++ pongs client (rnd_after client rnd) ds
  end.

Lemma grow_enough need cap w : exists c, grow memory need cap w = Some (mk_ws (w_client w) c (w_out w) (w_rnd w)).
Proof. unfold grow. rewrite memory_enough. destruct (_ <? _); [by eexists|]. exists (w_cap w). by destruct w. Qed.

Lemma recv_fragments op started fs :
  fragments op started fs -> 1 <= op < 8 ->
  forall fuel acc first_op w rest,
  (length fs <= fuel)%nat -> (started = true -> first_op = op) ->
  Z.of_nat (length acc + length (data_of fs)) <= WS_MAX_MESSAGE ->
  exists cap out rnd,
    recv_loop memory sink fuel acc first_op false w ((fs ≫= wire) ++ rest) =
      (Message 1 op (acc ++ data_of fs), mk_ws (w_client w) cap out rnd, rest) /\
    concat out = concat (w_out w) ++ pongs (w_client w) (w_rnd w) (pings_of fs).
Proof.
  intros Hfs Hop. change WS_MAX_MESSAGE with 4194304. induction Hfs as [st m d Hm|st m d fs Hm Hfs IH|st fin cop m d fs Hc Hm Hd Hfs IH];
    intros fuel acc first_op w rest Hfuel Hst Hmax; (destruct fuel as [|fuel]; [cbn in Hfuel; lia|]).
  - assert (0 <= (if st then 0 else op) < 8) as Hdop by (destruct st; lia).
    unfold data_of, pings_of in *. cbn [mbind list_bind wf_op wf_data] in *.
    rewrite (proj2 (Z.ltb_lt _ _)) in * by lia. rewrite app_nil_r in *.
    assert (((if st then 0 else op) =? WS_PING) = false) as -> by (apply Z.eqb_neq; unfold WS_PING; lia).
    cbn [mbind list_bind recv_loop]. unfold wire at 1. cbn [wf_fin wf_op wf_mask wf_data]. rewrite <- ?app_assoc, frame_head_frame by (try done; lia).
    cbn [f_fin f_op f_n f_mask]. rewrite (proj2 (Z.leb_gt 8 _)) by lia. cbn [andb].
    rewrite (proj2 (Z.ltb_lt _ 8)) by lia. rewrite !(proj2 (Z.ltb_ge WS_MAX_MESSAGE _)) by (change WS_MAX_MESSAGE with 4194304; lia).
    cbn [andb orb app]. destruct (grow_enough (Z.of_nat (length acc) + Z.of_nat (length d) + 1)
      (Z.of_nat (length acc) + Z.of_nat (length d) + 1 + 4096) w) as [c ->].
    rewrite read_full_app' by by rewrite length_unmask. rewrite unmask_unmask.
    exists c, (w_out w), (w_rnd w). cbn [app pongs]. split; [|by rewrite app_nil_r].
    assert ((if (if st then 0 else op) =? 0 then first_op else if st then 0 else op) = op) as ->; [|by rewrite ?app_nil_r].
    destruct st; [by rewrite Hst|]. by rewrite (proj2 (Z.eqb_neq op 0)) by lia.
  - assert (0 <= (if st then 0 else op) < 8) as Hdop by (destruct st; lia).
    assert (data_of (mk_wframe false (if st then 0 else op) m d :: fs) = d ++ data_of fs) as Hda.
    { unfold data_of. cbn [mbind list_bind wf_op wf_data]. by rewrite (proj2 (Z.ltb_lt _ _)) by lia. }
    assert (pings_of (mk_wframe false (if st then 0 else op) m d :: fs) = pings_of fs) as Hpi.
    { unfold pings_of. cbn [mbind list_bind wf_op wf_data]. by rewrite (proj2 (Z.eqb_neq _ WS_PING)) by (unfold WS_PING; lia). }
    rewrite Hda, Hpi in *. rewrite length_app in Hmax.
    cbn [mbind list_bind recv_loop]. unfold wire at 1. cbn [wf_fin wf_op wf_mask wf_data]. rewrite <- app_assoc, frame_head_frame by (try done; lia).
    cbn [f_fin f_op f_n f_mask]. rewrite (proj2 (Z.leb_gt 8 _)) by lia. cbn [andb].
    rewrite (proj2 (Z.ltb_lt _ 8)) by lia. rewrite !(proj2 (Z.ltb_ge WS_MAX_MESSAGE _)) by (change WS_MAX_MESSAGE with 4194304; lia).
    cbn [andb orb app]. destruct (grow_enough (Z.of_nat (length acc) + Z.of_nat (length d) + 1)
      (Z.of_nat (length acc) + Z.of_nat (length d) + 1 + 4096) w) as [c ->].
    rewrite read_full_app' by by rewrite length_unmask. rewrite unmask_unmask.
    rewrite app_assoc. cbn [length] in Hfuel.
    apply (IH fuel (acc ++ d) _ (mk_ws (w_client w) c (w_out w) (w_rnd w)) rest); [lia| |rewrite length_app; lia].
    intros _. destruct st; [by rewrite Hst|]. by rewrite (proj2 (Z.eqb_neq op 0)) by lia.
  - assert (data_of (mk_wframe fin cop m d :: fs) = data_of fs) as Hda.
    { unfold data_of. cbn [mbind list_bind wf_op wf_data]. by rewrite (proj2 (Z.ltb_ge _ _)) by lia. }
    rewrite Hda in *. cbn [mbind list_bind recv_loop]. unfold wire at 1. cbn [wf_fin wf_op wf_mask wf_data].
    rewrite <- app_assoc, frame_head_frame by (try done; lia).
    cbn [f_fin f_op f_n f_mask length] in *. rewrite (proj2 (Z.leb_le 8 _)) by lia. rewrite (proj2 (Z.ltb_ge 125 _)) by lia.
    rewrite (proj2 (Z.ltb_ge _ 8)) by lia. cbn [andb].
    destruct (grow_enough (Z.of_nat (length acc) + Z.of_nat (length d) + 1)
      (Z.of_nat (length acc) + Z.of_nat (length d) + 1 + 4096) w) as [c ->].
    rewrite read_full_app' by by rewrite length_unmask. rewrite unmask_unmask.
    unfold pings_of. cbn [mbind list_bind wf_op wf_data].
    destruct (Z.eqb_spec cop WS_PING) as [->|Hne].
    + set (w1 := mk_ws _ _ _ _). destruct (send_frame_out WS_PONG d w1) as [Hs Ho]. rewrite Hs. cbn [snd].
      destruct (IH fuel acc first_op (mk_ws (w_client w1) (w_cap w1) (w_out (snd (send_frame memory sink WS_PONG d w1)))
         (rnd_after (w_client w1) (w_rnd w1))) rest) as (cap & out & rnd & Hr & Hout); [lia|done|lia|].
      exists cap, out, rnd. split; [exact Hr|]. rewrite Hout. cbn [w_out w_client w_rnd app pongs]. rewrite Ho.
      unfold w1. cbn [w_out w_client w_rnd]. by rewrite <- app_assoc.
    + rewrite (proj2 (Z.eqb_neq cop WS_CLOSE)) by (unfold WS_CLOSE; lia).
      apply (IH fuel acc first_op (mk_ws (w_client w) c (w_out w) (w_rnd w)) rest); [lia|done|lia].
Qed.

Lemma frame_nonempty fin op m d : (1 <= length (frame fin op m d))%nat.
Proof. unfold frame. destruct (len_bytes _). cbn. lia. Qed.

Lemma wires_length fs : (length fs <= length (fs ≫= wire))%nat.
Proof.
  induction fs as [|f fs IH]; [done|]. change ((f :: fs) ≫= wire) with (wire f ++ (fs ≫= wire)).
  rewrite length_app. pose proof (frame_nonempty (wf_fin f) (wf_op f) (wf_mask f) (wf_data f)) as H.
  change (frame _ _ _ _) with (wire f) in H. cbn [length]. lia.
Qed.
End frames.

(** C34. A message of up to 4 MB comes back whole from however many fragments it was sent
    in, masked or not, with its opcode, and the socket stands behind its last frame; pings that
    came between the fragments were answered, each with a pong of its payload, in order. *)
Theorem fragments_joined `{E : Entropy} (memory : Z -> bool) (sink : list bytes -> bool)
    (op : Z) (fs : list wframe) (w : ws) (rest : bytes) :
  (forall n, memory n = true) -> (forall out, sink out = true) ->
  fragments op false fs -> 1 <= op < 8 -> Z.of_nat (length (data_of fs)) <= WS_MAX_MESSAGE ->
  exists cap out rnd,
    ws_recv memory sink w ((fs ≫= wire) ++ rest) = (Message 1 op (data_of fs), mk_ws (w_client w) cap out rnd, rest) /\
    concat out = concat (w_out w) ++ pongs (w_client w) (w_rnd w) (pings_of fs).
Proof.
  intros Hmem Hsink Hfs Hop Hmax. unfold ws_recv.
  apply (recv_fragments memory sink Hmem Hsink op false fs Hfs Hop); [|done|done].
  rewrite length_app. pose proof (wires_length fs). lia.
Qed.

(** What one endpoint sends with [ws_send] the other receives: the message with its
    opcode, and the socket stands behind it; a client masks, a server does not. *)
Theorem sent_message_received `{E : Entropy} (memory : Z -> bool) (sink : list bytes -> bool)
    (op : Z) (d : bytes) (a b : ws) (rest : bytes) :
  (forall n, memory n = true) -> (forall out, sink out = true) ->
  1 <= op < 8 -> Z.of_nat (length d) <= WS_MAX_MESSAGE ->
  exists sent, let '(ok, a') := ws_send memory sink op d a in
    ok = true /\ concat (w_out a') = concat (w_out a) ++ sent /\
    exists cap, ws_recv memory sink b (sent ++ rest) =
      (Message 1 op d, mk_ws (w_client b) cap (w_out b) (w_rnd b), rest).
Proof.
  intros Hmem Hsink Hop Hmax. exists (sent_frame (w_client a) (w_rnd a) op d).
  unfold ws_send. destruct (send_frame_out memory sink Hmem Hsink op d a) as [Hs Ho]. rewrite Hs. split; [done|]. split; [exact Ho|].
  unfold ws_recv. cbn [recv_loop]. unfold sent_frame. rewrite frame_head_frame; [|lia|destruct (w_client a); [apply entropy_length|done]|].
  2: { change WS_MAX_MESSAGE with 4194304 in Hmax. lia. }
  cbn [f_fin f_op f_n f_mask length]. rewrite (proj2 (Z.leb_gt 8 _)) by lia. cbn [andb].
  rewrite (proj2 (Z.ltb_lt _ 8)), (proj2 (Z.eqb_neq op 0)) by lia. rewrite !(proj2 (Z.ltb_ge WS_MAX_MESSAGE _)) by lia. cbn [andb orb].
  destruct (grow_enough memory Hmem (Z.of_nat 0 + Z.of_nat (length d) + 1) (Z.of_nat 0 + Z.of_nat (length d) + 1 + 4096) b) as [c ->].
  rewrite read_full_app' by by rewrite length_unmask. rewrite unmask_unmask. by exists c.
Qed.

#[local] Existing Instance Toy.entropy_.

Lemma fragments_joined_witness :
  let fs := [mk_wframe false WS_TEXT (Some [1; 2; 3; 4]) (str "hel"); mk_wframe true WS_PING None (str "p1");
             mk_wframe true WS_PING (Some [9; 9; 9; 9]) (str "p2"); mk_wframe true 0 None (str "lo")] in
  let w := mk_ws false 0 [] 0 in
  exists cap out rnd,
    ws_recv (fun _ => true) (fun _ => true) w ((fs ≫= wire) ++ [7]) = (Message 1 WS_TEXT (str "hello"), mk_ws false cap out rnd, [7]) /\
    concat out = [0x8a; 2] ++ str "p1" ++ [0x8a; 2] ++ str "p2".
Proof.
  cbv zeta.
  destruct (fragments_joined (fun _ => true) (fun _ => true) WS_TEXT
    [mk_wframe false WS_TEXT (Some [1; 2; 3; 4]) (str "hel"); mk_wframe true WS_PING None (str "p1");
     mk_wframe true WS_PING (Some [9; 9; 9; 9]) (str "p2"); mk_wframe true 0 None (str "lo")] (mk_ws false 0 [] 0) [7])
    as (cap & out & rnd & Hr & Ho).
  - done.
  - done.
  - apply (frag_more WS_TEXT false); [done|]. apply frag_control; [done|done|simpl; lia|].
    apply frag_control; [done|done|simpl; lia|]. by apply (frag_last WS_TEXT true).
  - done.
  - by vm_compute.
  - exists cap, out, rnd. split; [exact Hr|exact Ho].
Defined.

Lemma sent_message_received_witness :
  exists sent cap, ws_recv (fun _ => true) (fun _ => true) (mk_ws false 0 [] 0) (sent ++ [7]) =
    (Message 1 WS_BINARY [1; 2; 3], mk_ws false cap [] 0, [7]).
Proof.
  destruct (sent_message_received (fun _ => true) (fun _ => true) WS_BINARY [1; 2; 3] (mk_ws true 0 [] 0) (mk_ws false 0 [] 0) [7])
    as (sent & _ & _ & cap & Hr); [done|done|done|by vm_compute|].
  by exists sent, cap.
Defined.

(** ** Whatever arrives *)
Lemma read_full_Some n inp d r :
  read_full n inp = Some (d, r) -> Z.of_nat (length d) = Z.max 0 n /\ r = drop (length d) inp /\ (length d <= length inp)%nat.
Proof.
  unfold read_full. destruct (Z.leb_spec n (Z.of_nat (length inp))); [|done]. intros [= <- <-].
  rewrite length_take. split; [lia|]. split; [f_equal; lia|lia].
Qed.

Section any.
Context `{E : Entropy} (memory : Z -> bool) (sink : list bytes -> bool).

(** [r] is what is left of [inp] after some of it. *)
Definition left_of (inp r : bytes) : Prop := exists k, r = drop k inp.
Lemma left_of_refl inp : left_of inp inp.
Proof. by exists 0%nat. Qed.
Lemma left_of_trans a b c : left_of a b -> left_of b c -> left_of a c.
Proof. intros [k ->] [k' ->]. exists (k + k')%nat. by rewrite drop_drop. Qed.
Lemma left_of_length a b : left_of a b -> (length b <= length a)%nat.
Proof. intros [k ->]. rewrite length_drop. lia. Qed.
Lemma read_full_left n inp d r : read_full n inp = Some (d, r) -> left_of inp r.
Proof. intros (_ & -> & _)%read_full_Some. by eexists. Qed.

Lemma frame_head_left inp f r :
  frame_head inp = Some (f, r) -> left_of inp r /\ (length r + 2 <= length inp)%nat.
Proof.
  unfold frame_head. destruct (read_full 2 inp) as [[h i1]|] eqn:H2; [|done]. cbn [mbind option_bind].
  set (nr := if _ =? 126 then _ else _). intros H.
  assert (forall n i2, nr = Some (n, i2) -> left_of i1 i2) as Hn.
  { intros n i2. unfold nr. destruct (_ =? 126); [|destruct (_ =? 127)].
    - destruct (read_full 2 i1) as [[e i]|] eqn:He; [|done]. intros [= _ <-]. by eapply read_full_left.
    - destruct (read_full 8 i1) as [[e i]|] eqn:He; [|done]. intros [= _ <-]. by eapply read_full_left.
    - intros [= _ <-]. apply left_of_refl. }
  destruct nr as [[n i2]|]; [|done]. specialize (Hn n i2 eq_refl). cbn [mbind option_bind] in H.
  assert (left_of i2 r) as Hr.
  { destruct (negb _); [|injection H as _ <-; apply left_of_refl].
    destruct (read_full 4 i2) as [[m i3]|] eqn:H4; [|done]. injection H as _ <-. by eapply read_full_left. }
  pose proof (left_of_trans _ _ _ Hn Hr) as Hir.
  pose proof (read_full_Some _ _ _ _ H2) as (Hl & Hi1 & Hle). split.
  - by apply (left_of_trans _ i1); [eapply read_full_left|].
  - apply left_of_length in Hir. rewrite Hi1, length_drop in Hir. lia.
Qed.

Lemma recv_over_ok f acc w inp :
  Z.of_nat (length acc) <= WS_MAX_MESSAGE ->
  match recv_over memory f acc w inp with
  | inl r => r = Broken \/ r = Closed
  | inr (acc, w, r) => Z.of_nat (length acc) <= WS_MAX_MESSAGE /\ left_of inp r
  end.
Proof.
  intros Ha. unfold recv_over. destruct (_ || _); [by left|].
  destruct (grow _ _ _ _) as [w1|]; [|by left].
  destruct (read_full _ inp) as [[d i1]|] eqn:Hd; [|by right].
  unfold skip. destruct (read_full (f_n f - _) i1) as [[d2 i2]|] eqn:Hs; [|by right]. cbn [fmap option_fmap option_map snd].
  split; [|by eapply left_of_trans; eapply read_full_left].
  apply read_full_Some in Hd as (Hl & _). rewrite length_app, length_unmask.
  change WS_MAX_MESSAGE with 4194304 in *. unfold WS_HEAD in *. destruct (_ <? _); lia.
Qed.

Definition received_ok (r : received * ws * bytes) (inp : bytes) : Prop :=
  fst (fst r) <> Unfinished /\ left_of inp (snd r) /\
  forall rc op d, fst (fst r) = Message rc op d -> Z.of_nat (length d) <= WS_MAX_MESSAGE.

Lemma received_ok_left r i1 i2 : left_of i1 i2 -> received_ok r i2 -> received_ok r i1.
Proof. intros H (? & ? & ?). split_and!; [done|by eapply left_of_trans|done]. Qed.

Lemma recv_loop_ok fuel acc op over w inp :
  (length inp < fuel)%nat -> Z.of_nat (length acc) <= WS_MAX_MESSAGE ->
  received_ok (recv_loop memory sink fuel acc op over w inp) inp.
Proof.
  revert acc op over w inp. induction fuel as [|fuel IH]; intros acc op over w inp Hf Ha; [lia|]. cbn [recv_loop].
  assert (forall r w' i, left_of inp i -> r = Broken \/ r = Closed -> received_ok (r, w', i) inp) as Hend.
  { intros r w' i Hi Hr. split_and!; [by destruct Hr as [-> | ->]|exact Hi|]. intros ? ? ?. by destruct Hr as [-> | ->]. }
  destruct (frame_head inp) as [[f i1]|] eqn:Hh; [|apply Hend; [apply left_of_refl|by right]].
  apply frame_head_left in Hh as [Hi1 Hlen].
  destruct ((8 <=? f_op f) && _); [apply Hend; [done|by left]|].
  assert (forall r, received_ok r i1 -> received_ok r inp) as Hleft by (intros r; by apply received_ok_left).
  destruct ((f_op f <? 8) && _) eqn:Hbig.
  { pose proof (recv_over_ok f acc w i1 Ha) as Ho. destruct (recv_over memory f acc w i1) as [r|[[acc' w'] i2]].
    { apply Hend; [done|]. destruct Ho as [-> | ->]; [by left|by right]. }
    destruct Ho as [Ha' Hi2]. apply Hleft, (received_ok_left _ _ _ Hi2). destruct (f_fin f).
    - split_and!; [done|apply left_of_refl|]. by intros ? ? ? [= _ _ <-].
    - apply left_of_length in Hi2. apply IH; [lia|done]. }
  destruct (grow _ _ _ _) as [w1|]; [|apply Hend; [done|by left]].
  destruct (read_full (f_n f) i1) as [[d i2]|] eqn:Hd; [|apply Hend; [done|by right]].
  pose proof (read_full_left _ _ _ _ Hd) as Hi2. apply Hleft, (received_ok_left _ _ _ Hi2).
  apply left_of_length in Hi2. destruct (8 <=? f_op f) eqn:Hctl.
  { destruct (f_op f =? WS_PING); [apply IH; [lia|done]|].
    destruct (f_op f =? WS_CLOSE); [|apply IH; [lia|done]].
    split_and!; [done|apply left_of_refl|done]. }
  assert (Z.of_nat (length (acc ++ unmask (f_mask f) d)) <= WS_MAX_MESSAGE) as Ha'.
  { apply Z.leb_gt in Hctl. rewrite (proj2 (Z.ltb_lt _ 8)) in Hbig by lia. cbn [andb] in Hbig.
    apply orb_false_iff in Hbig as [Hbig H2]. apply orb_false_iff in Hbig as [_ H1]. apply Z.ltb_ge in H1, H2.
    apply read_full_Some in Hd as (Hl & _). rewrite length_app, length_unmask. lia. }
  destruct (f_fin f); [|apply IH; [lia|done]].
  split_and!; [done|apply left_of_refl|]. by intros ? ? ? [= _ _ <-].
Qed.
End any.

(** Whatever the peer sends, [ws_recv] comes to an end with what was sent: it returns a
    message of at most 4 MB, closed, or an error, and the socket stands behind what it read. *)
Theorem received_within_bounds `{E : Entropy} (memory : Z -> bool) (sink : list bytes -> bool) (w : ws) (inp : bytes) :
  let '(r, w', rest) := ws_recv memory sink w inp in
  r <> Unfinished /\ left_of inp rest /\
  forall rc op d, r = Message rc op d -> Z.of_nat (length d) <= WS_MAX_MESSAGE.
Proof.
  pose proof (recv_loop_ok memory sink (S (length inp)) [] 0 false w inp ltac:(lia) ltac:(by vm_compute)) as H.
  unfold ws_recv. destruct (recv_loop _ _ _ _ _ _ _ _) as [[r w'] rest]. exact H.
Qed.
