(* ===== verification/WsUpgrade.v ===== *)
(** * The WebSocket upgrade: a client's request is accepted and its answer believed *)
From S2P Require Import Prelude Cbits Crypto Hash Ws.

(** A byte of a header line *)
Definition plain (c : Z) : Prop := c <> 13 /\ c <> 10 /\ c <> 0.
Abbreviation is_line := (Forall plain).

(** ** Base64 and decimal text is plain *)
Lemma alphabet_plain v : 0 <= v < 64 -> plain (Base64.B64 !!! Z.to_nat v) /\ Base64.B64 !!! Z.to_nat v <> 32.
Proof.
  intros Hv. assert (v ∈ map Z.of_nat (seq 0 64)) as H.
  { apply list_elem_of_In, in_map_iff. exists (Z.to_nat v). split; [lia|]. apply in_seq. lia. }
  cbn in H. repeat (apply elem_of_cons in H as [->|H]; [by vm_compute|]). by apply elem_of_nil in H.
Qed.

Definition word (c : Z) : Prop := plain c /\ c <> 32.

Lemma land63_bound v : 0 <= Z.land v 63 < 64.
Proof. rewrite land_63. by apply Z.mod_pos_bound. Qed.

Lemma shift18_bound a b c : is_byte a -> is_byte b -> is_byte c ->
  0 <= Z.shiftr (Z.lor (Z.lor (Z.shiftl a 16) (Z.shiftl b 8)) c) 18 < 64.
Proof.
  unfold is_byte. intros Ha Hb Hc.
  rewrite (Z.shiftl_mul_pow2 b) by lia. rewrite (lor_shiftl_add a (b * 2 ^ 8) 16) by lia.
  replace (a * 2 ^ 16 + b * 2 ^ 8) with (Z.shiftl (a * 2 ^ 8 + b) 8) by (rewrite Z.shiftl_mul_pow2; lia).
  rewrite lor_shiftl_add by lia. rewrite shiftr_div by lia.
  split; [apply Z.div_pos; lia|apply Z.div_lt_upper_bound; lia].
Qed.

Lemma b64_word p : are_bytes p -> Forall word (Base64.encode_loop Base64.B64 true p).
Proof.
  assert (word 61) as H61 by by vm_compute.
  assert (forall v, 0 <= v < 64 -> word (Base64.B64 !!! Z.to_nat v)) as Ha by (intros v; apply alphabet_plain).
  induction p as [|a|a b|a b c l IH] using list_ind3; intros Hp; [constructor|..].
  - apply Forall_cons_1 in Hp as [Hp _]. pose proof (shift18_bound a 0 0 Hp ltac:(done) ltac:(done)) as H.
    rewrite Z.shiftl_0_l, !Z.lor_0_r in H. repeat constructor; try apply Ha; try apply land63_bound; done.
  - apply Forall_cons_1 in Hp as [Hp Hq]. apply Forall_cons_1 in Hq as [Hq _].
    pose proof (shift18_bound a b 0 Hp Hq ltac:(done)) as H. rewrite Z.lor_0_r in H.
    repeat constructor; try apply Ha; try apply land63_bound; done.
  - apply Forall_cons_1 in Hp as [Hp Hq]. apply Forall_cons_1 in Hq as [Hq Hr]. apply Forall_cons_1 in Hr as [Hr Hl].
    pose proof (shift18_bound a b c Hp Hq Hr) as H. cbn [Base64.encode_loop].
    apply Forall_app. split; [|by apply IH]. repeat constructor; try apply Ha; try apply land63_bound; done.
Qed.

Lemma b64_length p : (length (Base64.encode_loop Base64.B64 true p) = 4 * ((length p + 2) / 3))%nat.
Proof.
  induction p as [|a|a b|a b c l IH] using list_ind3; [done..|]. cbn [Base64.encode_loop]. rewrite length_app, IH.
  cbn [length]. replace (S (S (S (length l))) + 2)%nat with (length l + 2 + 1 * 3)%nat by lia.
  rewrite Nat.div_add by lia. lia.
Qed.

Lemma dec_plain v : is_line (dec v).
Proof.
  assert (forall fuel v acc, is_line acc -> is_line (digits fuel v acc)) as H.
  { induction fuel as [|fuel IH]; intros x acc Hacc; [done|]. cbn [digits].
    assert (is_line ((48 + x mod 10) :: acc)) as Hc.
    { constructor; [|done]. pose proof (Z.mod_pos_bound x 10). unfold plain. lia. }
    destruct (_ =? 0); [done|by apply IH]. }
  unfold dec. destruct (v <? 0); [constructor; [done|]|]; by apply H.
Qed.


(** ** Reading the head *)
Lemma ends_not buf b : b <> 10 -> bool_decide (drop (length (buf ++ [b]) - 4) (buf ++ [b]) = CRLF ++ CRLF) = false.
Proof.
  intros Hb. apply bool_decide_eq_false_2. intros H.
  rewrite drop_app_le in H by (rewrite length_app; cbn; lia).
  apply (f_equal list.last) in H. rewrite last_snoc in H. by simplify_eq/=.
Qed.

Lemma ends_line buf l : l <> [] -> is_line l ->
  bool_decide (drop (length (buf ++ l ++ CRLF) - 4) (buf ++ l ++ CRLF) = CRLF ++ CRLF) = false.
Proof.
  intros Hne Hl. apply bool_decide_eq_false_2. intros H.
  destruct (exists_last Hne) as (l' & c & ->). apply Forall_app in Hl as [_ Hc]. apply Forall_cons_1 in Hc as [(_ & Hc & _) _].
  rewrite <- !app_assoc, (app_assoc buf) in H. cbn [app] in H. revert H. generalize (buf ++ l'). intros x H.
  rewrite length_app in H. change (length (c :: CRLF)) with 3%nat in H.
  destruct (decide (length x = 0)%nat) as [E|E].
  - destruct x; [|done]. cbn in H. done.
  - replace (length x + 3 - 4)%nat with (length x - 1)%nat in H by lia.
    rewrite drop_app_le in H by lia. destruct (drop (length x - 1) x) as [|y [|z r]] eqn:Ed.
    + apply (f_equal length) in Ed. rewrite length_drop in Ed. cbn in Ed. lia.
    + cbn in H. injection H as _ H. by simplify_eq.
    + apply (f_equal length) in Ed. rewrite length_drop in Ed. cbn in Ed. lia.
Qed.

Lemma read_plain l : is_line l -> forall fuel buf inp,
  read_headers_loop (length l + fuel) buf (l ++ inp) = read_headers_loop fuel (buf ++ l) inp.
Proof.
  induction 1 as [|c l (_ & Hc & _) Hl IH]; intros fuel buf inp; [by rewrite app_nil_r|].
  cbn [length Nat.add app read_headers_loop]. rewrite ends_not by done. rewrite IH. by rewrite <- app_assoc.
Qed.

Lemma read_line l fuel buf inp : is_line l -> l <> [] ->
  read_headers_loop (length l + S (S fuel)) buf (l ++ CRLF ++ inp) = read_headers_loop fuel (buf ++ l ++ CRLF) inp.
Proof.
  intros Hl Hne. rewrite read_plain by done. unfold CRLF at 1. cbn [app read_headers_loop].
  rewrite ends_not by done. rewrite <- (app_assoc _ [13] [10]), <- (app_assoc buf l _). change ([13] ++ [10]) with CRLF.
  by rewrite ends_line.
Qed.

Lemma read_end fuel buf inp :
  read_headers_loop (S (S fuel)) (buf ++ CRLF) (CRLF ++ inp) = Some (buf ++ CRLF ++ CRLF, inp).
Proof.
  unfold CRLF at 2. cbn [app read_headers_loop]. rewrite ends_not by done.
  rewrite <- (app_assoc _ [13] [10]), <- (app_assoc buf). change ([13] ++ [10]) with CRLF.
  rewrite bool_decide_eq_true_2; [done|]. rewrite length_app. cbn [length app].
  replace (length buf + length (CRLF ++ CRLF) - 4)%nat with (length buf) by (cbn; lia). apply drop_app_length.
Qed.

(** A head: lines that end in CRLF, and a blank one *)
Definition head_of (ls : list bytes) : bytes := (ls ≫= fun l => l ++ CRLF) ++ CRLF.

Lemma head_cons l ls : head_of (l :: ls) = l ++ CRLF ++ head_of ls.
Proof. unfold head_of. cbn [mbind list_bind]. by rewrite <- !app_assoc. Qed.

Lemma read_head ls : Forall (fun l => is_line l /\ l <> []) ls -> forall fuel buf inp,
  (length (head_of ls) <= fuel)%nat ->
  read_headers_loop fuel (buf ++ CRLF) (head_of ls ++ inp) = Some (buf ++ CRLF ++ head_of ls, inp).
Proof.
  induction 1 as [|l ls [Hl Hne] Hls IH]; intros fuel buf inp Hf.
  - do 2 (destruct fuel as [|fuel]; [cbn in Hf; lia|]). apply read_end.
  - rewrite head_cons in *. rewrite !length_app in Hf. change (length CRLF) with 2%nat in Hf.
    replace fuel with (length l + S (S (fuel - length l - 2)))%nat by lia.
    rewrite <- !app_assoc, read_line by done. rewrite (app_assoc _ l CRLF), IH by lia.
    f_equal. f_equal. by rewrite <- !app_assoc.
Qed.

Lemma read_headers_head cap l ls inp :
  Forall (fun l => is_line l /\ l <> []) (l :: ls) -> (length (head_of (l :: ls)) < cap)%nat ->
  read_headers cap (head_of (l :: ls) ++ inp) = Some (head_of (l :: ls), inp).
Proof.
  intros [[Hl Hne] Hls]%Forall_cons_1 Hcap. unfold read_headers. rewrite head_cons in *. rewrite !length_app in Hcap. change (length CRLF) with 2%nat in Hcap.
  replace (cap - 1)%nat with (length l + S (S (cap - 1 - length l - 2)))%nat by lia.
  rewrite <- !app_assoc, read_line by done. cbn [app]. rewrite read_head by (done || lia). done.
Qed.

Lemma c_str_nonzero l : Forall (fun c => c <> 0) l -> c_str l = l.
Proof. induction 1 as [|c l Hc Hl IH]; [done|]. cbn [c_str]. rewrite (proj2 (Z.eqb_neq c 0) Hc). by rewrite IH. Qed.

Lemma c_str_head ls : Forall (fun l => is_line l /\ l <> []) ls -> c_str (head_of ls) = head_of ls.
Proof.
  intros H. apply c_str_nonzero. induction H as [|l ls [Hl _] Hls IH]; [by repeat constructor|]. rewrite head_cons.
  apply Forall_app. split; [by eapply Forall_impl; [|exact Hl]; intros c (_ & _ & ?)|].
  apply Forall_app. split; [by repeat constructor|done].
Qed.

(** ** Finding a header *)
Definition names (name l : bytes) : bool := starts_i name l && (l !!! length name =? 58).

Lemma header_line l r name n : is_line l ->
  header (l ++ CRLF ++ r) name n =
  if names name r then Some (take (n - 1) (to_cr (after_spaces (drop (S (length name)) r)))) else header r name n.
Proof.
  induction 1 as [|c l (Hc & _) Hl IH].
  - cbn [app header CRLF]. unfold names. change (starts CRLF (13 :: 10 :: r)) with (bool_decide ([13; 10] = CRLF)).
    rewrite bool_decide_eq_true_2 by done. cbn [andb drop]. rewrite drop_0. destruct (_ && _); [done|].
    destruct r; done.
  - cbn [app header]. assert (starts CRLF (c :: l ++ CRLF ++ r) = false) as ->.
    { unfold starts. apply bool_decide_eq_false_2. intros [= E _]. done. }
    exact IH.
Qed.

(** The value of the line that has the name: [name: value]. *)
Lemma header_value name v r : is_line v -> v !!! 0%nat <> 32 ->
  to_cr (after_spaces (drop (S (length name)) (name ++ str ": " ++ v ++ CRLF ++ r))) = v.
Proof.
  intros Hv Hs. replace (S (length name)) with (length name + 1)%nat by lia. rewrite <- drop_drop, drop_app_length.
  change (drop 1 (str ": " ++ v ++ CRLF ++ r)) with (32 :: v ++ CRLF ++ r). cbn [after_spaces].
  change (32 =? 32) with true. cbv iota.
  assert (forall l, is_line l -> to_cr (l ++ CRLF ++ r) = l) as Hcr.
  { induction 1 as [|c l (Hc & _) Hl IH]; [done|]. cbn [app to_cr]. by rewrite (proj2 (Z.eqb_neq c 13) Hc), IH. }
  destruct v as [|c v]; [done|]. cbn [app after_spaces]. cbn in Hs. rewrite (proj2 (Z.eqb_neq c 32) Hs). by apply (Hcr (c :: v)).
Qed.

Lemma names_self name r : names name (name ++ str ": " ++ r) = true.
Proof.
  unfold names, starts_i. rewrite take_app_length, bool_decide_eq_true_2 by done. cbn [andb].
  rewrite lookup_total_app_r by lia. by rewrite Nat.sub_diag.
Qed.

(** ** The handshake *)
Lemma accept_key_word key : Forall word (accept_key key) /\ (length (accept_key key) <= 28)%nat /\ accept_key key <> [].
Proof.
  assert (forall m, are_bytes (Sha1.sha1 m) /\ length (Sha1.sha1 m) = 20%nat) as Hsha.
  { intros m. unfold Sha1.sha1.
    match goal with |- are_bytes (fold_left ?f ?l ?h ≫= _) /\ _ => assert (length (fold_left f l h) = 5%nat) as H5 end.
    { generalize (seq 0 ((length m / 64 * 64 + (if (length m - length m / 64 * 64 <? 56)%nat then 64 else 128)) / 64)). intros l.
      assert (length Sha1.iv = 5%nat) as H0 by done. revert H0. generalize Sha1.iv.
      induction l as [|i l IH]; intros h Hh; [done|]. cbn [fold_left]. apply IH. unfold Sha1.block. rewrite length_zip_with.
      assert (forall ws s, length s = 5%nat -> length (fold_left Sha1.round ws s) = 5%nat) as Hr.
      { induction ws as [|w ws IHw]; intros s Hs; [done|]. cbn [fold_left]. apply IHw.
        destruct s as [|? [|? [|? [|? [|? [|]]]]]]; try done. cbn [Sha1.round]. by destruct (Sha1.fk _ _ _ _). }
      rewrite Hr by done. lia. }
    revert H5. match goal with |- length ?h = _ -> _ => generalize h end. intros h H5.
    destruct h as [|h1 [|h2 [|h3 [|h4 [|h5 [|]]]]]]; try done. split; [|done].
    cbn [mbind list_bind]. unfold Sha256.word_bytes. cbn [app]. repeat (constructor; [apply u8_bound|]). constructor. }
  unfold accept_key, Base64.b64_encode. cbv iota. destruct (Hsha (take 127 (key ++ WS_GUID))) as [Hb Hl].
  split; [by apply b64_word|]. pose proof (b64_length (Sha1.sha1 (take 127 (key ++ WS_GUID)))) as H. rewrite Hl in H.
  change (4 * ((20 + 2) / 3))%nat with 28%nat in H. split; [lia|]. intros E. by rewrite E in H.
Qed.

Lemma word_line l : Forall word l -> is_line l.
Proof. intros H. eapply Forall_impl; [|exact H]. by intros c [? _]. Qed.
Lemma word_first l : Forall word l -> l <> [] -> l !!! 0%nat <> 32.
Proof. intros H Hne. destruct l; [done|]. by apply Forall_cons_1 in H as [[_ ?] _]. Qed.

Lemma str_line s : forallb (fun c => negb (c =? 13) && negb (c =? 10) && negb (c =? 0)) (str s) = true -> is_line (str s).
Proof.
  generalize (str s). intros l H. induction l as [|c l IH]; [constructor|]. cbn [forallb] in H. bsimp.
  constructor; [by split_and!|by apply IH].
Qed.

Lemma header_head l ls name n : is_line l ->
  header (head_of (l :: ls)) name n =
  if names name (head_of ls) then Some (take (n - 1) (to_cr (after_spaces (drop (S (length name)) (head_of ls)))))
  else header (head_of ls) name n.
Proof. intros Hl. rewrite head_cons. by apply header_line. Qed.

Lemma header_named l ls name v n : is_line l -> Forall word v -> v <> [] -> (length v < n)%nat ->
  header (head_of (l :: (name ++ str ": " ++ v) :: ls)) name n = Some v.
Proof.
  intros Hl Hv Hne Hn. rewrite header_head by done. rewrite head_cons, <- !app_assoc. rewrite names_self.
  rewrite header_value by eauto using word_line, word_first. by rewrite take_ge by lia.
Qed.

Lemma to_space_path n p r : Forall word p -> to_space n (p ++ 32 :: r) = take n p.
Proof.
  revert n. induction p as [|c p IH]; intros n Hp; [by destruct n|].
  apply Forall_cons_1 in Hp as [[_ Hc] Hp]. destruct n as [|n]; [done|]. cbn [app to_space take].
  rewrite (proj2 (Z.eqb_neq c 32) Hc). by rewrite IH.
Qed.

(** The lines of the two heads *)
Definition get_line (path : bytes) : bytes := str "GET " ++ path ++ str " HTTP/1.1".
Definition host_line (host : bytes) (port : Z) : bytes := str "Host: " ++ http_host host port.
Definition key_name : bytes := str "Sec-WebSocket-Key".
Definition accept_name : bytes := str "Sec-WebSocket-Accept".

Lemma request_head host path key port :
  http_request host path key port =
  head_of [get_line path; host_line host port; str "Upgrade: websocket"; str "Connection: Upgrade";
           key_name ++ str ": " ++ key; str "Sec-WebSocket-Version: 13"].
Proof.
  unfold http_request, get_line, host_line. rewrite !head_cons. change (head_of []) with CRLF.
  change (str "Sec-WebSocket-Key: ") with (key_name ++ str ": "). repeat rewrite <- app_assoc. done.
Qed.

Lemma switching_head acc :
  SWITCHING acc = head_of [str "HTTP/1.1 101 Switching Protocols"; str "Upgrade: websocket"; str "Connection: Upgrade";
                           accept_name ++ str ": " ++ acc].
Proof.
  unfold SWITCHING. rewrite !head_cons. change (head_of []) with CRLF.
  change (str "Sec-WebSocket-Accept: ") with (accept_name ++ str ": "). repeat rewrite <- app_assoc. done.
Qed.

Lemma request_lines host path key port : is_line host -> is_line path -> is_line key ->
  Forall (fun l => is_line l /\ l <> [])
    [get_line path; host_line host port; str "Upgrade: websocket"; str "Connection: Upgrade";
     key_name ++ str ": " ++ key; str "Sec-WebSocket-Version: 13"].
Proof.
  intros Hh Hp Hk. assert (forall s, forallb (fun c => negb (c =? 13) && negb (c =? 10) && negb (c =? 0)) (str s) = true ->
    str s <> [] -> is_line (str s) /\ str s <> []) as Hs by (intros s ? ?; split; [by apply str_line|done]).
  repeat match goal with |- @Forall bytes _ _ => constructor end; try (by apply Hs); (split; [|done]).
  - unfold get_line. rewrite !Forall_app. split_and!; [by apply str_line|done|by apply str_line].
  - unfold host_line, http_host. rewrite !Forall_app. pose proof (dec_plain port).
    split_and!; try (by apply str_line); try done; case_match; try (by apply str_line); constructor.
  - unfold key_name. rewrite !Forall_app. split_and!; [by apply str_line|by apply str_line|done].
Qed.

Section handshake.
Context `{E : Entropy} (sink : list bytes -> bool).
Hypothesis sink_open : forall out, sink out = true.

(** The server's side: a request of these lines is accepted. *)
Lemma request_accepted host path key port pathsz w rest :
  is_line host -> Forall word path -> Forall word key -> key <> [] -> (length key < 128)%nat ->
  (length (http_request host path key port) < 512)%nat ->
  ws_accept sink pathsz w (http_request host path key port ++ rest) =
  (true, mk_ws false 0 (w_out w ++ [SWITCHING (accept_key key)]) (w_rnd w), take (pathsz - 1) path, rest).
Proof.
  intros Hh Hp Hk Hne Hlen Hfit. pose proof (request_lines host path key port Hh (word_line _ Hp) (word_line _ Hk)) as Hls.
  rewrite request_head in *. unfold ws_accept. rewrite read_headers_head by (done || lia). rewrite c_str_head by done.
  set (h := head_of _).
  assert (starts (str "GET ") h = true) as -> by done.
  assert (header h (str "Sec-WebSocket-Key") 128 = Some key) as ->.
  { unfold h. apply Forall_cons_1 in Hls as [[H0 _] Hls]. apply Forall_cons_1 in Hls as [[H1 _] Hls].
    apply Forall_cons_1 in Hls as [[H2 _] Hls]. apply Forall_cons_1 in Hls as [[H3 _] Hls].
    rewrite header_head by done. change (names _ (head_of (host_line host port :: _))) with false. cbv iota.
    rewrite header_head by done. change (names _ (head_of (str "Upgrade: websocket" :: _))) with false. cbv iota.
    rewrite header_head by done. change (names _ (head_of (str "Connection: Upgrade" :: _))) with false. cbv iota.
    by apply header_named. }
  assert (header h (str "Origin") 8 = None) as ->.
  { unfold h. repeat (apply Forall_cons_1 in Hls as [[? _] Hls]).
    rewrite header_head by done. change (names _ (head_of (host_line host port :: _))) with false. cbv iota.
    rewrite header_head by done. change (names _ (head_of (str "Upgrade: websocket" :: _))) with false. cbv iota.
    rewrite header_head by done. change (names _ (head_of (str "Connection: Upgrade" :: _))) with false. cbv iota.
    rewrite header_head by done. change (names _ (head_of (_ :: [str "Sec-WebSocket-Version: 13"]))) with false. cbv iota.
    by rewrite !header_head by done. }
  unfold write_all. rewrite sink_open. unfold ws_init. cbn [w_out w_rnd].
  do 2 f_equal. unfold h. rewrite head_cons. unfold get_line. rewrite <- !app_assoc.
  change (drop 4 (str "GET " ++ ?x)) with x. by apply to_space_path.
Qed.

(** The client's side: the answer with the accept key it wants is believed. *)
Lemma answer_believed acc w rest :
  Forall word acc -> acc <> [] -> (length acc <= 28)%nat ->
  ws_upgraded acc w (SWITCHING acc ++ rest) = Some (mk_ws true 0 (w_out w) (w_rnd w), rest).
Proof.
  intros Ha Hne Hlen.
  assert (Forall (fun l => is_line l /\ l <> [])
    [str "HTTP/1.1 101 Switching Protocols"; str "Upgrade: websocket"; str "Connection: Upgrade"; accept_name ++ str ": " ++ acc]) as Hls.
  { repeat match goal with |- @Forall bytes _ _ => constructor end; (split; [|done]); try (by apply str_line).
    unfold accept_name. rewrite !Forall_app. split_and!; [by apply str_line|by apply str_line|by apply word_line]. }
  unfold ws_upgraded. rewrite switching_head. rewrite read_headers_head; [|done|].
  2: { rewrite !head_cons, !length_app. change (head_of []) with CRLF. cbn [length str app CRLF accept_name]. lia. }
  rewrite c_str_head by done. set (h := head_of _).
  assert (contains (str " 101") h = true) as -> by done. cbn [andb].
  rewrite bool_decide_eq_true_2; [done|]. unfold h.
  apply Forall_cons_1 in Hls as [[H0 _] Hls]. apply Forall_cons_1 in Hls as [[H1 _] Hls].
  rewrite header_head by done. change (names _ (head_of (str "Upgrade: websocket" :: _))) with false. cbv iota.
  rewrite header_head by done. change (names _ (head_of (str "Connection: Upgrade" :: _))) with false. cbv iota.
  apply Forall_cons_1 in Hls as [[H2 _] _]. apply header_named; [done|done|done|lia].
Qed.
End handshake.

(** The upgrade completes: what [ws_connect] asks of a host for a path without spaces (in
    less than its 512 bytes), [ws_accept] accepts; the answer it sends is the one the client
    waits for; each side then has its role, the server the path, and neither has taken a byte
    of the frames that follow. *)
Theorem upgrade_completes `{E : Entropy} (sink : list bytes -> bool)
    (host path : bytes) (port : Z) (pathsz : nat) (client server : ws) (rest rest' : bytes) :
  (forall out, sink out = true) -> is_line host -> Forall word path ->
  match ws_request host path port client with
  | None => True
  | Some (req, want, client1) =>
      exists answer rnd,
        ws_accept sink pathsz server (req ++ rest) =
          (true, mk_ws false 0 (w_out server ++ [answer]) (w_rnd server), take (pathsz - 1) path, rest) /\
        ws_upgraded want client1 (answer ++ rest') = Some (mk_ws true 0 (w_out client) rnd, rest')
  end.
Proof.
  intros Hsink Hh Hp. unfold ws_request. unfold Base64.b64_encode at 1 2 3. cbv iota.
  set (key := Base64.encode_loop Base64.B64 true (entropy (w_rnd client) 16)).
  destruct (Nat.leb_spec 512 (length (http_request host path key port))) as [|Hfit]; [done|].
  assert (Forall word key) as Hk by apply b64_word, entropy_bytes.
  assert (length key = 24%nat) as Hkl by (unfold key; by rewrite b64_length, entropy_length).
  destruct (accept_key_word key) as (Ha & Hal & Hane).
  exists (SWITCHING (accept_key key)), (S (w_rnd client)). split.
  - apply request_accepted; try done; [|lia]. intros Hnil. by rewrite Hnil in Hkl.
  - by rewrite answer_believed.
Qed.

#[local] Existing Instance Toy.entropy_.

Lemma upgrade_completes_witness :
  exists req want c1,
    ws_request (str "ha.local") (str "/ws") 8095 (mk_ws true 0 [] 0) = Some (req, want, c1) /\
    exists answer rnd,
      ws_accept (fun _ => true) 64 (mk_ws false 0 [] 0) (req ++ [0x81]) = (true, mk_ws false 0 [answer] 0, str "/ws", [0x81]) /\
      ws_upgraded want c1 (answer ++ [0x82]) = Some (mk_ws true 0 [] rnd, [0x82]).
Proof.
  pose proof (upgrade_completes (fun _ => true) (str "ha.local") (str "/ws") 8095 64 (mk_ws true 0 [] 0) (mk_ws false 0 [] 0)
    [0x81] [0x82] (fun _ => eq_refl) ltac:(by apply str_line) ltac:(repeat constructor; done)) as H.
  destruct (ws_request _ _ _ _) as [[[req want] c1]|] eqn:E.
  - exists req, want, c1. split; [done|exact H].
  - by vm_compute in E.
Defined.
