(* ===== verification/LedQ.v ===== *)
(** * The light ring's call queue (ledq.c)
    Calls of ledctrl are queued in a ring of 64 and run one after the other by a thread,
    patterns set and unset in batches.  The state is the file's static variables and what
    the thread holds while it runs; the ring is refined to a list.  What becomes of a
    process (it ran, was killed after the timeout, or could not be started) is an argument
    of the step that ends it. *)
From S2P Require Import Prelude Cbits.

Definition LEDQ_MAX : nat := 64.
Definition LEDQ_ARGS : nat := 4.
Definition LEDQ_TIMEOUT_MS : Z := 2000.
Definition LEDQ_BATCH : nat := 32.

(** [struct call]: [n] is the length; an argument is cut at 47 bytes. *)
Abbreviation call := (list bytes).
Definition arg0 (c : call) : bytes := c !!! 0%nat.

(** What exec_one was asked to run: a batch, or an unset of a killed batch again. *)
Inductive ran := First (cs : list call) | Again (c : call).
Inductive outcome := Exited | Killed | NotStarted.

Record ledq := mk_ledq {
  q : list call; head : nat; len : nat; running : bool;
  path : bytes; fake : bytes; timeout : Z; started : bool;
  batch : list call; bin : bytes;      (* the thread's copies while it runs *)
  file : list bytes;                   (* the lines of the tests' file *)
  runs : list ran }.

Definition ledq0 : ledq :=
  mk_ledq (replicate LEDQ_MAX []) 0 0 false [] [] LEDQ_TIMEOUT_MS false [] [] [] [].

Definition slot (s : ledq) (i : nat) : nat := ((head s + i) mod LEDQ_MAX)%nat.

(** [text]: the arguments with spaces between, as far as they fit *)
Definition text (n : nat) (c : call) : bytes :=
  take (n - 1) (fold_left (fun t a => t ++ (if bool_decide (t = []) then [] else str " ") ++ a) c []).

Definition is_set (c : call) : bool := bool_decide (arg0 c = str "-s").
Definition is_unset (c : call) : bool := bool_decide (arg0 c = str "-u").
Definition pattern (c : call) : bool := (length c =? 2)%nat && (is_set c || is_unset c).

Definition ledq_start (ledctrl fake_file : option bytes) (timeout_ms : Z) (thread_ok : bool) (s : ledq) : Z * ledq :=
  let s := s <| path := strcap 128 (from_option id [] ledctrl) |>
             <| fake := strcap 256 (from_option id [] fake_file) |>
             <| timeout := if 0 <? timeout_ms then timeout_ms else LEDQ_TIMEOUT_MS |> in
  if negb (started s) && negb (bool_decide (path s = [])) then
    if thread_ok then (0, s <| started := true |>) else (-1, s)
  else (0, s).

(** [for (; i + 1 < len; i++) q[(head + i) % MAX] = q[(head + i + 1) % MAX]] *)
Fixpoint shift (fuel : nat) (i : nat) (s : ledq) : ledq :=
  match fuel with
  | O => s
  | S fuel =>
      if (i + 1 <? len s)%nat
      then shift fuel (i + 1) (s <| q := <[slot s i := q s !!! slot s (i + 1)]> (q s) |>)
      else s
  end.

(** The oldest set of a queue, or its length. *)
Definition oldest_set (s : ledq) : nat :=
  from_option id (len s) (find_index (fun i => is_set (q s !!! slot s i)) (seq 0 (len s))).

Definition push (c : call) (s : ledq) : ledq :=
  (s <| q := <[slot s (len s) := c]> (q s) |>) <| len := S (len s) |>.

Definition make_call (args : list bytes) : call := map (strcap 48) (take LEDQ_ARGS args).

Definition ledq_args (args : list bytes) (s : ledq) : ledq :=
  let c := make_call args in
  if negb (bool_decide (fake s = [])) then s <| file := file s ++ [text 200 c] |>
  else if negb (started s) then s
  else if (len s =? LEDQ_MAX)%nat then
    let i := oldest_set s in
    if (i =? len s)%nat then s
    else push c ((shift (len s) i s) <| len := (len s - 1)%nat |>)
  else push c s.

Definition ledq_run (op pattern : bytes) (s : ledq) : ledq := ledq_args [op; pattern] s.

Definition front (s : ledq) : call := q s !!! slot s 0.
Definition pop (s : ledq) : call * ledq :=
  (front s, (s <| head := slot s 1 |>) <| len := (len s - 1)%nat |>).

(** The [do .. while] that fills a batch, after its first call. *)
Fixpoint fill (fuel : nat) (first : call) (s : ledq) : list call * ledq :=
  match fuel with
  | O => ([], s)
  | S fuel =>
      if negb (len s =? 0)%nat && pattern first && pattern (front s) then
        let '(c, s) := pop s in
        let '(cs, s) := fill fuel first s in (c :: cs, s)
      else ([], s)
  end.

(** The thread, from waking to unlocking: it waits while the queue is empty. *)
Definition thread_take (s : ledq) : ledq :=
  if negb (started s) || running s || (len s =? 0)%nat then s else
  let '(c, s) := pop s in
  let '(cs, s) := fill (LEDQ_BATCH - 1) c s in
  ((s <| batch := c :: cs |>) <| bin := path s |>) <| running := true |>.

(** ... its processes, and the end of the turn. *)
Definition thread_run (r : outcome) (s : ledq) : ledq :=
  if negb (running s) then s else
  let cs := batch s in
  let again := match r with Killed => if (1 <? length cs)%nat then filter is_unset cs else [] | _ => [] end in
  let tried := if bool_decide (bin s = []) then [] else First cs :: map Again again in
  ((s <| runs := runs s ++ tried |>) <| running := false |>) <| batch := [] |>.

(** ** What callers and the thread do, in any order *)
Inductive event := Ask (args : list bytes) | Take | Ran (r : outcome).
Definition on_event (s : ledq) (e : event) : ledq :=
  match e with
  | Ask args => ledq_args args s
  | Take => thread_take s
  | Ran r => thread_run r s
  end.

(** ** The ring as a list *)
Definition queued (s : ledq) : list call := (fun i => q s !!! slot s i) <$> seq 0 (len s).

Record ring_ok (s : ledq) : Prop := mk_ring_ok {
  ok_q : length (q s) = LEDQ_MAX; ok_head : (head s < LEDQ_MAX)%nat; ok_len : (len s <= LEDQ_MAX)%nat }.

Lemma length_queued s : length (queued s) = len s.
Proof. unfold queued. by rewrite length_fmap, length_seq. Qed.

Lemma queued_lookup s i : (i < len s)%nat -> queued s !! i = Some (q s !!! slot s i).
Proof. intros Hi. unfold queued. rewrite list_lookup_fmap, lookup_seq_lt by done. done. Qed.

Lemma slot_lt s i : (slot s i < LEDQ_MAX)%nat.
Proof. apply Nat.mod_upper_bound. done. Qed.

Lemma slot_inj s i j : (i < LEDQ_MAX)%nat -> (j < LEDQ_MAX)%nat -> slot s i = slot s j -> i = j.
Proof.
  unfold slot, LEDQ_MAX. intros Hi Hj H.
  pose proof (Nat.div_mod_eq (head s + i) 64). pose proof (Nat.div_mod_eq (head s + j) 64). lia.
Qed.

Lemma slot_slot s i j : ((slot s i + j) mod LEDQ_MAX)%nat = slot s (i + j).
Proof. unfold slot. rewrite Nat.Div0.add_mod_idemp_l. f_equal. lia. Qed.

Lemma queued_ext s l : length l = len s -> (forall i, (i < len s)%nat -> l !! i = Some (q s !!! slot s i)) -> queued s = l.
Proof.
  intros Hl H. apply list_eq. intros i. destruct (decide (i < len s)%nat) as [Hi|Hi].
  - by rewrite queued_lookup, H.
  - rewrite !lookup_ge_None_2; [done| |]; rewrite ?length_queued; lia.
Qed.

Lemma push_queued c s : ring_ok s -> (len s < LEDQ_MAX)%nat -> queued (push c s) = queued s ++ [c] /\ ring_ok (push c s).
Proof.
  intros [Hq Hh Hl] Hlt. split.
  - apply queued_ext; [rewrite length_app, length_queued; cbn; lia|].
    change (len (push c s)) with (S (len s)). intros i Hi.
    change (slot (push c s) i) with (slot s i). change (q (push c s)) with (<[slot s (len s) := c]> (q s)).
    destruct (decide (i = len s)) as [->|Hne].
    + rewrite lookup_app_r, length_queued, Nat.sub_diag by (by rewrite length_queued). cbn.
      by rewrite list_lookup_total_insert_eq by (rewrite Hq; apply slot_lt).
    + rewrite lookup_app_l, queued_lookup by (rewrite ?length_queued; lia).
      rewrite list_lookup_total_insert_ne; [done|]. intros E. apply slot_inj in E; lia.
  - split; cbn; [by rewrite length_insert|done|unfold LEDQ_MAX in *; lia].
Qed.

Lemma pop_queued s : ring_ok s -> (0 < len s)%nat ->
  queued s = fst (pop s) :: queued (snd (pop s)) /\ ring_ok (snd (pop s)).
Proof.
  intros [Hq Hh Hl] Hlt. split.
  - apply queued_ext; [cbn [length]; rewrite length_queued; cbn; lia|]. intros [|i] Hi; [done|].
    cbn [lookup list_lookup]. rewrite queued_lookup by (cbn; lia). f_equal.
    change (q (snd (pop s))) with (q s). f_equal. unfold slot at 1. cbn [pop snd head]. apply slot_slot.
  - split; cbn; [done|apply slot_lt|lia].
Qed.

Lemma shift_frame fuel i s :
  let s' := shift fuel i s in head s' = head s /\ len s' = len s /\ length (q s') = length (q s) /\
  started s' = started s /\ running s' = running s /\ batch s' = batch s /\ runs s' = runs s /\ fake s' = fake s /\
  path s' = path s /\ bin s' = bin s.
Proof.
  revert i s. induction fuel as [|fuel IH]; intros i s; [done|]. cbn [shift]. destruct (_ <? _)%nat; [|done].
  cbv zeta. match goal with |- context [shift fuel _ ?x] => destruct (IH (i + 1)%nat x) as (-> & -> & -> & -> & -> & -> & -> & -> & -> & ->) end.
  cbn. by rewrite length_insert.
Qed.

Lemma shift_lookup fuel i s j :
  length (q s) = LEDQ_MAX -> (len s <= LEDQ_MAX)%nat -> (len s <= i + fuel)%nat -> (j + 1 < len s)%nat ->
  q (shift fuel i s) !!! slot s j = q s !!! slot s (if (j <? i)%nat then j else j + 1).
Proof.
  revert i s. induction fuel as [|fuel IH]; intros i s Hq Hl Hf Hj.
  { cbn [shift]. by rewrite (proj2 (Nat.ltb_lt j i)) by lia. }
  cbn [shift]. destruct (Nat.ltb_spec (i + 1) (len s)) as [Hi|Hi].
  - match goal with |- context [shift fuel _ ?x] => set (s1 := x) end. change (slot s j) with (slot s1 j).
    rewrite IH; [|by cbn; rewrite length_insert|done|cbn; lia|done].
    change (slot s1) with (slot s). change (q s1) with (<[slot s i := q s !!! slot s (i + 1)]> (q s)).
    destruct (Nat.ltb_spec j (i + 1)), (Nat.ltb_spec j i).
    + rewrite list_lookup_total_insert_ne; [done|]. intros E. apply slot_inj in E; lia.
    + replace j with i by lia. by rewrite list_lookup_total_insert_eq by (rewrite Hq; apply slot_lt).
    + lia.
    + rewrite list_lookup_total_insert_ne; [done|]. intros E. apply slot_inj in E; lia.
  - by rewrite (proj2 (Nat.ltb_lt j i)) by lia.
Qed.

(** Closing the gap of a dropped call removes it from the list. *)
Lemma shift_queued s i :
  ring_ok s -> (i < len s)%nat ->
  let s' := (shift (len s) i s) <| len := (len s - 1)%nat |> in queued s' = delete i (queued s) /\ ring_ok s'.
Proof.
  intros [Hq Hh Hl] Hi. cbv zeta. destruct (shift_frame (len s) i s) as (Hhd & _ & Hlq & _).
  split; [|split; cbn; [by rewrite Hlq|by rewrite Hhd|lia]].
  assert (forall j, (j + 1 < len s)%nat -> q (shift (len s) i s) !!! slot s j = q s !!! slot s (if (j <? i)%nat then j else j + 1)) as Hs
    by (intros j Hj; apply shift_lookup; (done || lia)).
  revert Hhd Hs. generalize (shift (len s) i s). intros X Hhd Hs. apply queued_ext.
  { rewrite length_delete by (rewrite queued_lookup by done; by eexists). by rewrite length_queued. }
  change (len (X <| len := (len s - 1)%nat |>)) with (len s - 1)%nat. intros j Hj.
  change (q (X <| len := (len s - 1)%nat |>)) with (q X).
  change (slot (X <| len := (len s - 1)%nat |>) j) with (slot X j). unfold slot at 1. rewrite Hhd.
  change ((head s + j) mod LEDQ_MAX)%nat with (slot s j). rewrite Hs by lia.
  destruct (Nat.ltb_spec j i).
  - rewrite list_lookup_delete_lt by done. apply queued_lookup. lia.
  - rewrite list_lookup_delete_ge by done. rewrite Nat.add_1_r. apply queued_lookup. lia.
Qed.

(** ** Every run *)

(** What a step of the ring leaves alone *)
Definition same_rest (s s' : ledq) : Prop :=
  fake s' = fake s /\ started s' = started s /\ path s' = path s /\ runs s' = runs s /\
  running s' = running s /\ batch s' = batch s /\ bin s' = bin s.

Lemma fill_queued fuel first s :
  ring_ok s -> let '(cs, s') := fill fuel first s in
  queued s = cs ++ queued s' /\ ring_ok s' /\ same_rest s s' /\ (length cs <= fuel)%nat /\
  Forall (fun c => pattern c = true) cs /\ (cs <> [] -> pattern first = true).
Proof.
  revert s. induction fuel as [|fuel IH]; intros s Hs; cbn [fill]; [by split_and!|].
  destruct (negb (len s =? 0)%nat && pattern first && pattern (front s)) eqn:E; [|split_and!; try done; cbn; lia].
  apply andb_true_iff in E as [E Hf]. apply andb_true_iff in E as [Hl Hp].
  apply negb_true_iff, Nat.eqb_neq in Hl. destruct (pop_queued s Hs ltac:(lia)) as [Hq Hs'].
  assert (same_rest s (snd (pop s))) as Hr by by split_and!. change (fst (pop s)) with (front s) in Hq.
  destruct (pop s) as [c s1] eqn:Ep. assert (c = front s) as -> by (by injection Ep). cbn [snd] in *.
  specialize (IH s1 Hs'). destruct (fill fuel first s1) as [cs s2].
  destruct IH as (Hq2 & Hs2 & Hr2 & Hlen & Hall & _). split_and!; [by rewrite Hq, Hq2|done| |cbn; lia|by constructor|done].
  destruct Hr as (?&?&?&?&?&?&?), Hr2 as (?&?&?&?&?&?&?). split_and!; congruence.
Qed.

Definition asked (e : event) : list call := match e with Ask args => [make_call args] | _ => [] end.

(** The calls handed to ledctrl, being run and waiting, in order *)
Definition firsts (rs : list ran) : list call := rs ≫= fun r => match r with First cs => cs | Again _ => [] end.
Definition handed (s : ledq) : list call := firsts (runs s) ++ (if running s then batch s else []) ++ queued s.

Definition is_other (c : call) : Prop := is_set c = false.
#[export] Instance is_other_dec c : Decision (is_other c) := decide (is_set c = false).

(** A call comes to a full queue that has no set to give way. *)
Definition stuck (s : ledq) (e : event) : bool :=
  match e with
  | Ask _ => (len s =? LEDQ_MAX)%nat && negb (existsb is_set (queued s))
  | _ => false
  end.

Definition batch_ok (r : ran) : Prop :=
  match r with
  | First cs => (0 < length cs <= LEDQ_BATCH)%nat /\ ((1 < length cs)%nat -> Forall (fun c => pattern c = true) cs)
  | Again c => is_unset c = true
  end.

Record ready (s : ledq) : Prop := mk_ready {
  rd_ring : ring_ok s; rd_fake : fake s = []; rd_started : started s = true; rd_path : path s <> [];
  rd_bin : running s = true -> bin s <> [] /\ batch_ok (First (batch s)); rd_runs : Forall batch_ok (runs s) }.

Definition kept (l l' : list call) : Prop := sublist l' l.

Lemma oldest_set_spec s :
  (oldest_set s = len s /\ existsb is_set (queued s) = false) \/
  (exists c, (oldest_set s < len s)%nat /\ queued s !! oldest_set s = Some c /\ is_set c = true).
Proof.
  unfold oldest_set. destruct (find_index _ _) as [i|] eqn:E; cbn [from_option id].
  - right. pose proof (find_index_lt _ _ _ E) as Hi. rewrite length_seq in Hi.
    apply find_index_Some in E as (x & Hx & Hset & _). rewrite lookup_seq_lt in Hx by done. injection Hx as <-.
    exists (q s !!! slot s i). split_and!; [done|by apply queued_lookup|done].
  - left. split; [done|]. apply existsb_false_elem. intros c (i & -> & Hi)%list_elem_of_fmap.
    rewrite find_index_None in E. by apply E.
Qed.

Lemma delete_set l i c : l !! i = Some c -> is_set c = true ->
  sublist (delete i l) l /\ filter is_other (delete i l) = filter is_other l.
Proof.
  intros Hi Hc. split; [apply sublist_delete|].
  rewrite <- (take_drop_middle l i c Hi) at 2. rewrite delete_take_drop, !list.filter_app, filter_cons_False; [done|].
  unfold is_other. by rewrite Hc.
Qed.

Lemma args_step args s : ready s ->
  let s' := ledq_args args s in let c := make_call args in
  ready s' /\ same_rest s s' /\ sublist (queued s') (queued s ++ [c]) /\
  (stuck s (Ask args) = false -> filter is_other (queued s') = filter is_other (queued s ++ [c])).
Proof.
  intros [Hs Hf Hst Hp Hb Hr]. unfold ledq_args, stuck. rewrite Hf, Hst. rewrite bool_decide_eq_true_2 by done. cbn [negb].
  destruct (Nat.eqb_spec (len s) LEDQ_MAX) as [Hfull|Hroom].
  - destruct (oldest_set_spec s) as [[-> ->]|(c & Hi & Hc & Hset)].
    + rewrite Nat.eqb_refl. split_and!; try done. by apply sublist_inserts_r.
    + rewrite (proj2 (Nat.eqb_neq _ _)) by lia. destruct (shift_queued s _ Hs Hi) as [Hq Hs'].
      pose proof (shift_frame (len s) (oldest_set s) s) as (_ & _ & _ & F1 & F2 & F3 & F4 & F5 & F6 & F7).
      destruct (delete_set _ _ _ Hc Hset) as [Hsub Hfil]. revert Hq Hs' F1 F2 F3 F4 F5 F6 F7.
      generalize (shift (len s) (oldest_set s) s). intros x Hq Hx F1 F2 F3 F4 F5 F6 F7.
      destruct (push_queued (make_call args) (x <| len := (len s - 1)%nat |>) Hx) as [Hq2 Hx2].
      { change (len (x <| len := (len s - 1)%nat |>)) with (len s - 1)%nat. unfold LEDQ_MAX in *. lia. }
      cbv zeta. rewrite Hq2, Hq. split_and!.
      * split; [done|..]; cbn; rewrite ?F1, ?F2, ?F3, ?F4, ?F5, ?F6, ?F7; done.
      * cbn. by split_and!.
      * by apply sublist_app.
      * intros _. by rewrite !list.filter_app, Hfil.
  - assert (len s < LEDQ_MAX)%nat as Hlt by (destruct Hs; lia).
    destruct (push_queued (make_call args) s Hs Hlt) as [Hq Hs']. cbv zeta. rewrite Hq. split_and!; try done; by split.
Qed.

Lemma take_step s : ready s ->
  ready (thread_take s) /\ handed (thread_take s) = handed s.
Proof.
  intros Hs. unfold thread_take. destruct (negb (started s) || running s || _) eqn:E; [done|].
  apply orb_false_iff in E as [E Hl]. apply orb_false_iff in E as [_ Hrun]. apply Nat.eqb_neq in Hl.
  destruct Hs as [Hs Hf Hst Hp Hb Hr]. destruct (pop_queued s Hs ltac:(lia)) as [Hq Hs'].
  assert (same_rest s (snd (pop s))) as Hrest by by split_and!. destruct (pop s) as [c s1]. cbn [fst snd] in *.
  pose proof (fill_queued (LEDQ_BATCH - 1) c s1 Hs') as H. destruct (fill _ c s1) as [cs s2].
  destruct H as (Hq2 & Hs2 & Hrest2 & Hlen & Hall & Hpat).
  destruct Hrest as (A1 & A2 & A3 & A4 & A5 & A6 & A7), Hrest2 as (B1 & B2 & B3 & B4 & B5 & B6 & B7).
  change (LEDQ_BATCH - 1)%nat with 31%nat in Hlen. split.
  - split; cbn; [by destruct Hs2|congruence|congruence|congruence| |congruence]. intros _. split; [congruence|].
    split; [unfold LEDQ_BATCH; lia|]. intros Hl1. constructor; [|done]. apply Hpat. destruct cs; [cbn in Hl1; lia|done].
  - unfold handed. cbn. rewrite B4, A4, Hrun, Hq, Hq2. done.
Qed.

Lemma firsts_again cs : firsts (map Again cs) = [].
Proof. induction cs as [|c cs IH]; [done|exact IH]. Qed.
Lemma firsts_app a b : firsts (a ++ b) = firsts a ++ firsts b.
Proof. unfold firsts. apply bind_app. Qed.

Lemma run_step r s : ready s -> ready (thread_run r s) /\ handed (thread_run r s) = handed s.
Proof.
  intros Hready. pose proof Hready as [Hs Hf Hst Hp Hb Hr].
  unfold thread_run. destruct (running s) eqn:Hrun; cbn [negb]; [|by split].
  destruct (Hb eq_refl) as [Hbin Hok]. rewrite bool_decide_eq_false_2 by done.
  set (again := match r with Killed => _ | _ => _ end).
  assert (Forall (fun c => is_unset c = true) again) as Ha.
  { unfold again. destruct r; try constructor. destruct (_ <? _)%nat; [|constructor].
    apply Forall_forall. intros c Hc. apply list_elem_of_In, list_elem_of_filter in Hc as [Hc _]. by apply Is_true_eq_true. }
  split.
  - split; cbn; try done; [by destruct Hs|]. apply Forall_app. split; [done|]. constructor; [done|]. clear -Ha. induction Ha; constructor; done.
  - unfold handed. cbn. rewrite firsts_app, Hrun. change (firsts (First (batch s) :: map Again again)) with (batch s ++ firsts (map Again again)).
    by rewrite firsts_again, app_nil_r, <- app_assoc.
Qed.

Lemma event_step s e : ready s ->
  ready (on_event s e) /\ sublist (handed (on_event s e)) (handed s ++ asked e) /\
  (stuck s e = false -> filter is_other (handed (on_event s e)) = filter is_other (handed s ++ asked e)).
Proof.
  intros Hs. destruct e as [args| |r]; cbn [on_event asked].
  - destruct (args_step args s Hs) as (Hs' & (_ & _ & _ & Hru & Hrn & Hba & _) & Hsub & Hfil). split; [done|].
    unfold handed. rewrite Hru, Hrn, Hba. rewrite <- !app_assoc. split.
    + by apply sublist_app; [|apply sublist_app].
    + intros H. by rewrite !list.filter_app, Hfil, !list.filter_app by done.
  - destruct (take_step s Hs) as [Hs' ->]. rewrite app_nil_r. by split_and!.
  - destruct (run_step r s Hs) as [Hs' ->]. rewrite app_nil_r. by split_and!.
Qed.

Fixpoint never_stuck (s : ledq) (es : list event) : bool :=
  match es with
  | [] => true
  | e :: es => negb (stuck s e) && never_stuck (on_event s e) es
  end.

Lemma events_steps es s : ready s ->
  let s' := fold_left on_event es s in
  ready s' /\ sublist (handed s') (handed s ++ (es ≫= asked)) /\
  (never_stuck s es = true -> filter is_other (handed s') = filter is_other (handed s ++ (es ≫= asked))).
Proof.
  revert s. induction es as [|e es IH]; intros s Hs; cbn [fold_left never_stuck].
  { cbn. rewrite app_nil_r. by split_and!. }
  destruct (event_step s e Hs) as (Hs1 & Hsub & Hfil). destruct (IH _ Hs1) as (Hs2 & Hsub2 & Hfil2).
  change ((e :: es) ≫= asked) with (asked e ++ (es ≫= asked)). rewrite app_assoc. split_and!; [done| |].
  - etrans; [exact Hsub2|]. by apply sublist_app.
  - intros [H1%negb_true_iff H2]%andb_true_iff. rewrite Hfil2 by done. by rewrite !list.filter_app, Hfil, !list.filter_app by done.
Qed.

(** Through every interleaving of callers and thread after a start, whatever becomes of the
    processes: ledctrl's calls, those run, running and waiting, are calls asked for, in
    the order asked; a call that is not a set is missing only when it came to 64 waiting calls
    without a set among them; at most 32 calls go in one ledctrl, several only when all
    are patterns; and only unsets are run again. *)
Theorem ring_calls_in_order (ledctrl : bytes) (ms : Z) (es : list event) :
  strcap 128 ledctrl <> [] ->
  let s0 := snd (ledq_start (Some ledctrl) None ms true ledq0) in
  let s := fold_left on_event es s0 in
  sublist (handed s) (es ≫= asked) /\
  (never_stuck s0 es = true -> filter is_other (handed s) = filter is_other (es ≫= asked)) /\
  Forall batch_ok (runs s) /\ (length (queued s) <= LEDQ_MAX)%nat.
Proof.
  intros Hp s0 s. assert (s0 = ((ledq0 <| path := strcap 128 ledctrl |>) <| timeout := if 0 <? ms then ms else LEDQ_TIMEOUT_MS |>) <| started := true |>) as H0.
  { unfold s0, ledq_start. cbn [started path]. by rewrite bool_decide_eq_false_2. }
  assert (ready s0) as Hs0.
  { rewrite H0. split; try done. by split; cbn; unfold LEDQ_MAX; lia. }
  destruct (events_steps es s0 Hs0) as (Hs & Hsub & Hfil). fold s in Hs, Hsub, Hfil.
  assert (handed s0 = []) as Hh by (by rewrite H0). rewrite Hh in *.
  split_and!; [done|done|by apply Hs|]. rewrite length_queued. apply Hs.
Qed.

Lemma ring_calls_in_order_witness :
  let es := [Ask [str "-s"; str "talking"]; Ask [str "-u"; str "talking"]; Take; Ask [str "-b"; str "9"]; Ran Killed; Take] in
  let s := fold_left on_event es (snd (ledq_start (Some (str "/ledctrl")) None 0 true ledq0)) in
  runs s = [First [[str "-s"; str "talking"]; [str "-u"; str "talking"]]; Again [str "-u"; str "talking"]] /\
  handed s = [[str "-s"; str "talking"]; [str "-u"; str "talking"]; [str "-b"; str "9"]] /\
  sublist (handed s) (es ≫= asked).
Proof.
  cbv zeta. split; [by vm_compute|]. split; [by vm_compute|].
  apply (ring_calls_in_order (str "/ledctrl") 0
    [Ask [str "-s"; str "talking"]; Ask [str "-u"; str "talking"]; Take; Ask [str "-b"; str "9"]; Ran Killed; Take]).
  done.
Defined.
