(* ===== verification/Noise.v ===== *)
(** * Noise handshakes, responder side, and the transport after them (noise.c)
    KKpsk2 with Sendspin servers and NNpsk0 with Home Assistant.  The initiator is the
    specification: the other half of the two patterns as the Noise paper gives them, on
    the same symmetric state.  ChaCha20-Poly1305 with the IETF nonce is the interface
    [Ietf]; X25519 and the random numbers are those of [Crypto.v], HMAC and SHA-256 those of
    [Hash.v].  A failed read returns [None] with the state it leaves. *)
From S2P Require Import Prelude Cbits Crypto Hash.

(** crypto_aead_init_ietf with crypto_aead_write or crypto_aead_read, on a fresh context *)
Class Ietf := {
  ietf_lock : bytes -> bytes -> bytes -> bytes -> bytes * bytes;     (* key, nonce, ad, text: cipher text, tag *)
  ietf_unlock : bytes -> bytes -> bytes -> bytes -> bytes -> option bytes   (* tag, key, nonce, ad, cipher text *)
}.
Class IetfLaws (I : Ietf) := {
  ietf_length k n ad p : length (fst (ietf_lock k n ad p)) = length p /\ length (snd (ietf_lock k n ad p)) = 16%nat;
  ietf_unlock_lock k n ad p : let '(c, t) := ietf_lock k n ad p in ietf_unlock t k n ad c = Some p
}.

Definition NOISE_TAG : nat := 16.
Definition PROTOCOL : bytes := str "Noise_KKpsk2_25519_ChaChaPoly_SHA256".
Definition NN_PROTOCOL : bytes := str "Noise_NNpsk0_25519_ChaChaPoly_SHA256".

Record noise_hs := mk_noise_hs {
  hs_h : bytes; hs_ck : bytes; hs_k : bytes; has_k : bool; hs_n : Z;
  s_priv : bytes; s_pub : bytes; rs : bytes; e_priv : bytes; e_pub : bytes; re : bytes; e_set : bool;
  hash_out : bytes }.
Record noise_cs := mk_noise_cs { cs_k : bytes; cs_n : Z }.

Definition zero_hs : noise_hs :=
  let z := replicate 32 0 in mk_noise_hs z z z false 0 z z z z z z false z.

Section noise.
Context `{C : Crypto} `{E : Entropy} `{I : Ietf}.

Definition sha (data : list bytes) : bytes :=
  Sha256.sha256_final (fold_left Sha256.sha256_update data Sha256.sha256_init).

Definition mix_hash (data : bytes) (s : noise_hs) : noise_hs := s <| hs_h := sha [hs_h s; data] |>.

(** HKDF as Noise defines it; the third output is computed when asked for. *)
Definition hkdf (ck inp : bytes) : bytes * bytes * bytes :=
  let temp := Sha256.hmac_sha256 ck inp [] in
  let o1 := Sha256.hmac_sha256 temp [1] [] in
  let o2 := Sha256.hmac_sha256 temp o1 [2] in
  (o1, o2, Sha256.hmac_sha256 temp o2 [3]).

Definition mix_key (inp : bytes) (s : noise_hs) : noise_hs :=
  let o := hkdf (hs_ck s) inp in
  s <| hs_k := snd (fst o) |> <| hs_ck := fst (fst o) |> <| has_k := true |> <| hs_n := 0 |>.

Definition mix_key_and_hash (inp : bytes) (s : noise_hs) : noise_hs :=
  let o := hkdf (hs_ck s) inp in
  (mix_hash (snd (fst o)) (s <| hs_k := snd o |> <| hs_ck := fst (fst o) |>)) <| has_k := true |> <| hs_n := 0 |>.

Definition nonce12 (n : Z) : bytes := replicate 4 0 ++ le_bytes 8 n.

Definition aead_encrypt (k : bytes) (n : Z) (ad pt : bytes) : bytes :=
  let '(c, t) := ietf_lock k (nonce12 n) ad pt in c ++ t.

Definition aead_decrypt (k : bytes) (n : Z) (ad ct : bytes) : option bytes :=
  if (length ct <? NOISE_TAG)%nat then None else
  ietf_unlock (drop (length ct - NOISE_TAG) ct) k (nonce12 n) ad (take (length ct - NOISE_TAG) ct).

(** [split]: the responder receives with the first key and sends with the second; the
    secrets of the handshake are wiped.  The result is (state, send, recv). *)
Definition split (s : noise_hs) : noise_hs * noise_cs * noise_cs :=
  let '(k1, k2, _) := hkdf (hs_ck s) [] in
  let z := replicate 32 0 in
  (s <| hash_out := hs_h s |> <| e_priv := z |> <| hs_k := z |> <| hs_ck := z |>, mk_noise_cs k2 0, mk_noise_cs k1 0).

(** [rnd] is which read of random bytes this is. *)
Definition noise_keypair (rnd : nat) : bytes * bytes :=
  let priv := entropy rnd 32 in (priv, x25519_public_key priv).

Definition hs_init (protocol prologue : bytes) : noise_hs :=
  let h := Sha256.sha256_of protocol in
  mix_hash prologue (zero_hs <| hs_h := h |> <| hs_ck := h |>).

Definition noise_kk_responder_init (prologue sk pk initiator_pub : bytes) : noise_hs :=
  let s := hs_init PROTOCOL prologue in
  let s := s <| s_priv := sk |> <| s_pub := pk |> <| rs := initiator_pub |> in
  mix_hash (s_pub s) (mix_hash (rs s) s).

(** The rest of message 1, after its keys are mixed. *)
Definition read_payload (ct : bytes) (s : noise_hs) : option bytes * noise_hs :=
  let r := aead_decrypt (hs_k s) (hs_n s) (hs_h s) ct in
  let s := s <| hs_n := u64 (hs_n s + 1) |> in
  match r with None => (None, s) | Some p => (Some p, mix_hash ct s) end.

Definition noise_kk_read_msg1 (msg : bytes) (s : noise_hs) : option bytes * noise_hs :=
  if (length msg <? 32 + NOISE_TAG)%nat then (None, s) else
  let s := s <| re := take 32 msg |> in
  let s := mix_key (re s) (mix_hash (re s) s) in                        (* e *)
  let s := mix_key (x25519 (s_priv s) (re s)) s in                      (* es *)
  let s := mix_key (x25519 (s_priv s) (rs s)) s in                      (* ss *)
  read_payload (drop 32 msg) s.

Definition own_ephemeral (rnd : nat) (s : noise_hs) : noise_hs :=
  if e_set s then s else let '(priv, pub) := noise_keypair rnd in s <| e_priv := priv |> <| e_pub := pub |>.

Definition write_payload (payload : bytes) (s : noise_hs) : bytes * noise_hs :=
  let ct := aead_encrypt (hs_k s) (hs_n s) (hs_h s) payload in
  (ct, mix_hash ct (s <| hs_n := u64 (hs_n s + 1) |>)).

(** The message, and (state, send, recv). *)
Definition noise_kk_write_msg2 (rnd : nat) (psk payload : bytes) (s : noise_hs) : bytes * (noise_hs * noise_cs * noise_cs) :=
  let s := own_ephemeral rnd s in
  let s := mix_key (e_pub s) (mix_hash (e_pub s) s) in                  (* e *)
  let s := mix_key (x25519 (e_priv s) (re s)) s in                      (* ee *)
  let s := mix_key (x25519 (e_priv s) (rs s)) s in                      (* se *)
  let s := mix_key_and_hash psk s in                                    (* psk2 *)
  let '(ct, s) := write_payload payload s in
  (e_pub s ++ ct, split s).

Definition noise_nn_responder_init (prologue : bytes) : noise_hs := hs_init NN_PROTOCOL prologue.

Definition noise_nn_read_msg1 (psk msg : bytes) (s : noise_hs) : option bytes * noise_hs :=
  if (length msg <? 32 + NOISE_TAG)%nat then (None, s) else
  let s := mix_key_and_hash psk s in                                    (* psk0 *)
  let s := s <| re := take 32 msg |> in
  let s := mix_key (re s) (mix_hash (re s) s) in                        (* e *)
  read_payload (drop 32 msg) s.

Definition noise_nn_write_msg2 (rnd : nat) (payload : bytes) (s : noise_hs) : bytes * (noise_hs * noise_cs * noise_cs) :=
  let s := own_ephemeral rnd s in
  let s := mix_key (e_pub s) (mix_hash (e_pub s) s) in                  (* e *)
  let s := mix_key (x25519 (e_priv s) (re s)) s in                      (* ee *)
  let '(ct, s) := write_payload payload s in
  (e_pub s ++ ct, split s).

Definition noise_encrypt (pt : bytes) (c : noise_cs) : bytes * noise_cs :=
  (aead_encrypt (cs_k c) (cs_n c) [] pt, c <| cs_n := u64 (cs_n c + 1) |>).

(** The nonce only advances on success. *)
Definition noise_decrypt (ct : bytes) (c : noise_cs) : option bytes * noise_cs :=
  match aead_decrypt (cs_k c) (cs_n c) [] ct with
  | None => (None, c)
  | Some p => (Some p, c <| cs_n := u64 (cs_n c + 1) |>)
  end.

(** ** The initiator *)
Definition kk_initiator_init (prologue sk pk responder_pub : bytes) : noise_hs :=
  let s := hs_init PROTOCOL prologue in
  let s := s <| s_priv := sk |> <| s_pub := pk |> <| rs := responder_pub |> in
  mix_hash (rs s) (mix_hash (s_pub s) s).

Definition kk_write_msg1 (ek payload : bytes) (s : noise_hs) : bytes * noise_hs :=
  let s := s <| e_priv := ek |> <| e_pub := x25519_public_key ek |> in
  let s := mix_key (e_pub s) (mix_hash (e_pub s) s) in
  let s := mix_key (x25519 (e_priv s) (rs s)) s in
  let s := mix_key (x25519 (s_priv s) (rs s)) s in
  let '(ct, s) := write_payload payload s in
  (e_pub s ++ ct, s).

(** Its payload, the handshake hash, and the keys it receives and sends with *)
Definition finish (ct : bytes) (s : noise_hs) : option (bytes * bytes * noise_cs * noise_cs) :=
  match read_payload ct s with
  | (None, _) => None
  | (Some p, s) =>
      let '(k1, k2, _) := hkdf (hs_ck s) [] in
      Some (p, hs_h s, mk_noise_cs k2 0, mk_noise_cs k1 0)
  end.

Definition kk_read_msg2 (psk msg : bytes) (s : noise_hs) : option (bytes * bytes * noise_cs * noise_cs) :=
  let s := s <| re := take 32 msg |> in
  let s := mix_key (re s) (mix_hash (re s) s) in
  let s := mix_key (x25519 (e_priv s) (re s)) s in
  let s := mix_key (x25519 (s_priv s) (re s)) s in
  finish (drop 32 msg) (mix_key_and_hash psk s).

Definition nn_write_msg1 (psk ek payload : bytes) (s : noise_hs) : bytes * noise_hs :=
  let s := s <| e_priv := ek |> <| e_pub := x25519_public_key ek |> in
  let s := mix_key_and_hash psk s in
  let s := mix_key (e_pub s) (mix_hash (e_pub s) s) in
  let '(ct, s) := write_payload payload s in
  (e_pub s ++ ct, s).

Definition nn_read_msg2 (msg : bytes) (s : noise_hs) : option (bytes * bytes * noise_cs * noise_cs) :=
  let s := s <| re := take 32 msg |> in
  let s := mix_key (re s) (mix_hash (re s) s) in
  finish (drop 32 msg) (mix_key (x25519 (e_priv s) (re s)) s).

(** ** Both ends stay in step *)

Context `{!IetfLaws I}.

Lemma aead_length k n ad p : length (aead_encrypt k n ad p) = (length p + NOISE_TAG)%nat.
Proof.
  unfold aead_encrypt. destruct (ietf_length k (nonce12 n) ad p) as [Hc Ht]. destruct (ietf_lock _ _ _ _) as [c t].
  cbn [fst snd] in *. rewrite length_app. unfold NOISE_TAG. lia.
Qed.

Lemma aead_round_trip k n ad p : aead_decrypt k n ad (aead_encrypt k n ad p) = Some p.
Proof.
  unfold aead_decrypt. rewrite aead_length. destruct (Nat.ltb_spec (length p + NOISE_TAG) NOISE_TAG); [lia|].
  rewrite Nat.add_sub. unfold aead_encrypt.
  destruct (ietf_length k (nonce12 n) ad p) as [Hc _]. pose proof (ietf_unlock_lock k (nonce12 n) ad p) as Hul.
  destruct (ietf_lock k (nonce12 n) ad p) as [c t]. cbn [fst] in Hc.
  by rewrite <- Hc, take_app_length, drop_app_length.
Qed.

(** One end's payload, read by the other in the same symmetric state *)
Lemma payload_crosses p s s' :
  hs_h s' = hs_h s -> hs_ck s' = hs_ck s -> hs_k s' = hs_k s -> hs_n s' = hs_n s ->
  let '(ct, t) := write_payload p s in
  exists t', read_payload ct s' = (Some p, t') /\
    hs_h t' = hs_h t /\ hs_ck t' = hs_ck t /\ hs_ck t = hs_ck s /\
    s_priv t' = s_priv s' /\ rs t' = rs s' /\ re t' = re s' /\ e_set t' = e_set s' /\ e_priv t' = e_priv s' /\
    s_priv t = s_priv s /\ rs t = rs s /\ e_priv t = e_priv s /\ e_pub t = e_pub s.
Proof.
  intros Hh Hck Hk Hn. unfold write_payload, read_payload. rewrite Hh, Hk, Hn, aead_round_trip.
  eexists. split; [done|]. cbn. rewrite Hh. by split_and!.
Qed.
End noise.

(** ** A concrete instance of the cipher, for the witnesses *)
Module IetfToy.
#[export] Instance ietf : Ietf := {
  ietf_lock k n ad p := let c := Toy.xor_pad k n p in (c, Toy.mac k n ad c);
  ietf_unlock m k n ad c := if decide (m = Toy.mac k n ad c) then Some (Toy.xor_pad k n c) else None
}.

#[export] Instance laws : IetfLaws ietf.
Proof.
  split; intros.
  - split; [apply length_imap|apply le_bytes_length].
  - cbn -[Toy.mac Toy.xor_pad]. rewrite decide_True by done. by rewrite Toy.xor_pad_invol.
Qed.
End IetfToy.
