(* ===== verification/NoiseAgree.v ===== *)
(** * Noise: the responder and an initiator come to the same keys *)
From S2P Require Import Prelude Cbits Crypto Hash Noise.

#[local] Opaque hkdf sha Sha256.sha256_of.

(** Messages of the transport one after the other, with the state after them *)
Fixpoint encrypt_all `{Ietf} (pts : list bytes) (c : noise_cs) : list bytes * noise_cs :=
  match pts with
  | [] => ([], c)
  | pt :: pts =>
      let '(ct, c) := noise_encrypt pt c in
      let '(cts, c) := encrypt_all pts c in (ct :: cts, c)
  end.
Fixpoint decrypt_all `{Ietf} (cts : list bytes) (c : noise_cs) : list (option bytes) * noise_cs :=
  match cts with
  | [] => ([], c)
  | ct :: cts =>
      let '(pt, c) := noise_decrypt ct c in
      let '(pts, c) := decrypt_all cts c in (pt :: pts, c)
  end.

Lemma transport_in_step `{I : Ietf} `{!IetfLaws I} pts c :
  decrypt_all (fst (encrypt_all pts c)) c = (map Some pts, snd (encrypt_all pts c)).
Proof.
  revert c. induction pts as [|pt pts IH]; intros c; [done|]. cbn [encrypt_all].
  unfold noise_encrypt. specialize (IH (c <| cs_n := u64 (cs_n c + 1) |>)).
  destruct (encrypt_all pts _) as [cts c'] eqn:Ec. cbn [fst snd] in *. cbn [decrypt_all map].
  unfold noise_decrypt. rewrite aead_round_trip, IH. done.
Qed.

Section agree.
Context `{CL : CryptoLaws} `{E : Entropy} `{I : Ietf} `{!IetfLaws I}.

Lemma pub_take s r : take 32 (x25519_public_key s ++ r) = x25519_public_key s.
Proof. rewrite <- (public_key_length s) at 1. apply take_app_length. Qed.
Lemma pub_drop s r : drop 32 (x25519_public_key s ++ r) = r.
Proof. rewrite <- (public_key_length s) at 1. apply drop_app_length. Qed.

(** The last step of both patterns: message 2's payload and the split, when both ends
    mixed the same. *)
Lemma second_message p (r i : noise_hs) :
  hs_h i = hs_h r -> hs_ck i = hs_ck r -> hs_k i = hs_k r -> hs_n i = hs_n r ->
  let '(ct, r') := write_payload p r in
  let '(r2, send, recv) := split r' in
  finish ct i = Some (p, hash_out r2, send, recv) /\ e_pub r' = e_pub r.
Proof.
  intros Hh Hck Hk Hn. pose proof (payload_crosses p r i Hh Hck Hk Hn) as Hp.
  destruct (write_payload p r) as [ct r'].
  destruct Hp as (i' & Hr & Hh' & Hck' & _ & _ & _ & _ & _ & _ & _ & _ & _ & Hpub).
  unfold split, finish. rewrite Hr, Hck', Hh'. by destruct (hkdf (hs_ck r') []) as [[k1 k2] k3].
Qed.
(** What both ends mix, from a state and the values in order: the ephemeral (into hash and
    key), then the shared secrets. *)
Definition mix_e (pub : bytes) (s : noise_hs) : noise_hs := mix_key pub (mix_hash pub s).

Lemma kk_write_msg1_eq ek p s :
  kk_write_msg1 ek p s =
  let pub := x25519_public_key ek in
  let '(ct, s) := write_payload p (mix_key (x25519 (s_priv s) (rs s)) (mix_key (x25519 ek (rs s))
                    (mix_e pub (s <| e_priv := ek |> <| e_pub := pub |>)))) in
  (e_pub s ++ ct, s).
Proof. reflexivity. Qed.

Lemma kk_read_msg1_eq pub ct s :
  length pub = 32%nat -> (NOISE_TAG <= length ct)%nat ->
  noise_kk_read_msg1 (pub ++ ct) s =
  read_payload ct (mix_key (x25519 (s_priv s) (rs s)) (mix_key (x25519 (s_priv s) pub) (mix_e pub (s <| re := pub |>)))).
Proof.
  intros Hp Hc. unfold noise_kk_read_msg1. rewrite length_app, Hp.
  destruct (Nat.ltb_spec (32 + length ct) (32 + NOISE_TAG)); [lia|].
  rewrite <- Hp, take_app_length, drop_app_length. reflexivity.
Qed.

Lemma kk_write_msg2_eq rnd psk p s : e_set s = false ->
  noise_kk_write_msg2 rnd psk p s =
  let priv := entropy rnd 32 in let pub := x25519_public_key priv in
  let '(ct, s) := write_payload p (mix_key_and_hash psk (mix_key (x25519 priv (rs s)) (mix_key (x25519 priv (re s))
                    (mix_e pub (s <| e_priv := priv |> <| e_pub := pub |>))))) in
  (e_pub s ++ ct, split s).
Proof. intros Hs. unfold noise_kk_write_msg2, own_ephemeral. rewrite Hs. reflexivity. Qed.

Lemma kk_read_msg2_eq psk pub ct s : length pub = 32%nat ->
  kk_read_msg2 psk (pub ++ ct) s =
  finish ct (mix_key_and_hash psk (mix_key (x25519 (s_priv s) pub) (mix_key (x25519 (e_priv s) pub) (mix_e pub (s <| re := pub |>))))).
Proof. intros Hp. unfold kk_read_msg2. rewrite <- Hp, take_app_length, drop_app_length. reflexivity. Qed.

(** Two ends with the same symmetric state; mixing the same values keeps it the same. *)
Definition same_sym (a b : noise_hs) : Prop :=
  hs_h a = hs_h b /\ hs_ck a = hs_ck b /\ hs_k a = hs_k b /\ hs_n a = hs_n b.

Lemma same_mix_key d d' a b : d = d' -> hs_h a = hs_h b -> hs_ck a = hs_ck b -> same_sym (mix_key d a) (mix_key d' b).
Proof. intros -> Hh Hc. unfold same_sym, mix_key. cbn. by rewrite Hh, Hc. Qed.
Lemma same_mix_key_and_hash d a b : hs_h a = hs_h b -> hs_ck a = hs_ck b ->
  same_sym (mix_key_and_hash d a) (mix_key_and_hash d b).
Proof. intros Hh Hc. unfold same_sym, mix_key_and_hash, mix_hash. cbn. by rewrite Hh, Hc. Qed.
Lemma same_mix_e d a b : hs_h a = hs_h b -> hs_ck a = hs_ck b -> same_sym (mix_e d a) (mix_e d b).
Proof. intros Hh Hc. apply same_mix_key; [done| |done]. cbn. by rewrite Hh. Qed.

(** Message 1 of KK: both ends mix the ephemeral, es and ss in the same way. *)
Lemma kk_first_message prologue ski skr ek p :
  let i := kk_initiator_init prologue ski (x25519_public_key ski) (x25519_public_key skr) in
  let r := noise_kk_responder_init prologue skr (x25519_public_key skr) (x25519_public_key ski) in
  let '(m, i') := kk_write_msg1 ek p i in
  exists r', noise_kk_read_msg1 m r = (Some p, r') /\
    hs_h r' = hs_h i' /\ hs_ck r' = hs_ck i' /\
    re r' = x25519_public_key ek /\ rs r' = x25519_public_key ski /\ e_set r' = false /\
    e_priv i' = ek /\ s_priv i' = ski.
Proof.
  cbv zeta. unfold kk_initiator_init, noise_kk_responder_init, mix_hash. assert (e_set (hs_init PROTOCOL prologue) = false) as Hs0 by reflexivity.
  revert Hs0. generalize (hs_init PROTOCOL prologue). intros s0 Hs0. cbv zeta. cbn -[kk_write_msg1 noise_kk_read_msg1].
  match goal with |- context [kk_write_msg1 ek p ?x] => set (i := x) end.
  match goal with |- context [noise_kk_read_msg1 _ ?x] => set (r := x) end.
  rewrite kk_write_msg1_eq. cbv zeta.
  assert (hs_h i = hs_h r /\ hs_ck i = hs_ck r) as [Hh Hck] by by split.
  assert (s_priv i = ski /\ rs i = x25519_public_key skr) as [Hsi Hri] by by split.
  assert (s_priv r = skr /\ rs r = x25519_public_key ski /\ e_set r = false) as (Hsr & Hrr & Hset) by by split_and!.
  clearbody i r. rewrite Hsi, Hri.
  set (a := mix_key _ (mix_key _ _)).
  assert (e_pub a = x25519_public_key ek /\ e_priv a = ek /\ s_priv a = ski) as (Hpub & Hek & Hsk) by by split_and!.
  set (b := mix_key (x25519 skr (x25519_public_key ski)) (mix_key (x25519 skr (x25519_public_key ek))
    (mix_e (x25519_public_key ek) (r <| re := x25519_public_key ek |>)))).
  assert (re b = x25519_public_key ek /\ rs b = x25519_public_key ski /\ e_set b = false) as (Hreb & Hrsb & Hsetb) by by split_and!.
  assert (same_sym b a) as (Sh & Sck & Sk & Sn).
  { destruct (same_mix_e (x25519_public_key ek) (r <| re := x25519_public_key ek |>)
      (i <| e_priv := ek |> <| e_pub := x25519_public_key ek |>)) as (M1 & M2 & _); [done|done|].
    destruct (same_mix_key (x25519 skr (x25519_public_key ek)) (x25519 ek (x25519_public_key skr)) _ _ (x25519_comm _ _) M1 M2)
      as (M3 & M4 & _).
    exact (same_mix_key _ _ _ _ (x25519_comm _ _) M3 M4). }
  pose proof (payload_crosses p a b Sh Sck Sk Sn) as Hp.
  assert (length (fst (write_payload p a)) = length p + NOISE_TAG)%nat as Hlen by apply aead_length.
  assert (forall ct, (NOISE_TAG <= length ct)%nat -> noise_kk_read_msg1 (x25519_public_key ek ++ ct) r = read_payload ct b) as Hread.
  { intros ct Hct. rewrite kk_read_msg1_eq by (apply public_key_length || exact Hct). by rewrite Hsr, Hrr. }
  clearbody a b. destruct (write_payload p a) as [ct a']. cbn [fst] in Hlen.
  destruct Hp as (b' & Hr & Hh' & Hck' & _ & _ & Hrs' & Hre' & Hset' & _ & Hsp & _ & Hep & Hpub').
  exists b'. rewrite Hpub', Hpub, Hread, Hr by lia. split_and!; congruence.
Qed.

Lemma mix_key_and_hash_keeps_pub d s : e_pub (mix_key_and_hash d s) = e_pub s.
Proof. unfold mix_key_and_hash. by destruct (hkdf (hs_ck s) d) as [[o1 o2] o3]. Qed.

Lemma nn_write_msg1_eq psk ek p s :
  nn_write_msg1 psk ek p s =
  let '(ct, s) := write_payload p (mix_e (x25519_public_key ek)
                    (mix_key_and_hash psk (s <| e_priv := ek |> <| e_pub := x25519_public_key ek |>))) in
  (e_pub s ++ ct, s).
Proof.
  unfold nn_write_msg1. cbv zeta. rewrite !mix_key_and_hash_keeps_pub.
  change (e_pub (s <| e_priv := ek |> <| e_pub := x25519_public_key ek |>)) with (x25519_public_key ek).
  reflexivity.
Qed.

Lemma nn_read_msg1_eq psk pub ct s :
  length pub = 32%nat -> (NOISE_TAG <= length ct)%nat ->
  noise_nn_read_msg1 psk (pub ++ ct) s = read_payload ct (mix_e pub ((mix_key_and_hash psk s) <| re := pub |>)).
Proof.
  intros Hp Hc. unfold noise_nn_read_msg1. rewrite length_app, Hp.
  destruct (Nat.ltb_spec (32 + length ct) (32 + NOISE_TAG)); [lia|].
  rewrite <- Hp, take_app_length, drop_app_length. reflexivity.
Qed.

Lemma nn_write_msg2_eq rnd p s : e_set s = false ->
  noise_nn_write_msg2 rnd p s =
  let priv := entropy rnd 32 in let pub := x25519_public_key priv in
  let '(ct, s) := write_payload p (mix_key (x25519 priv (re s)) (mix_e pub (s <| e_priv := priv |> <| e_pub := pub |>))) in
  (e_pub s ++ ct, split s).
Proof. intros Hs. unfold noise_nn_write_msg2, own_ephemeral. rewrite Hs. reflexivity. Qed.

Lemma nn_read_msg2_eq pub ct s : length pub = 32%nat ->
  nn_read_msg2 (pub ++ ct) s = finish ct (mix_key (x25519 (e_priv s) pub) (mix_e pub (s <| re := pub |>))).
Proof. intros Hp. unfold nn_read_msg2. rewrite <- Hp, take_app_length, drop_app_length. reflexivity. Qed.

Lemma same_mix_e_re d x a b : same_sym a b -> same_sym (mix_e d (a <| re := x |>)) (mix_e d b).
Proof. intros (M1 & M2 & _). exact (same_mix_e _ _ _ M1 M2). Qed.
Lemma same_psk_mixed psk s0 ek pub :
  same_sym (mix_key_and_hash psk s0) (mix_key_and_hash psk (s0 <| e_priv := ek |> <| e_pub := pub |>)).
Proof. apply same_mix_key_and_hash; reflexivity. Qed.

Lemma nn_init_unset prologue : e_set (noise_nn_responder_init prologue) = false.
Proof. reflexivity. Qed.

(** Message 1 of NN: both ends mix the PSK and the ephemeral. *)
Lemma nn_first_message psk ek p s0 : e_set s0 = false ->
  let '(m, i') := nn_write_msg1 psk ek p s0 in
  exists r', noise_nn_read_msg1 psk m s0 = (Some p, r') /\
    hs_h r' = hs_h i' /\ hs_ck r' = hs_ck i' /\ re r' = x25519_public_key ek /\ e_set r' = false /\ e_priv i' = ek.
Proof.
  intros Hs0. rewrite nn_write_msg1_eq.
  set (a := mix_e _ _). set (b := mix_e (x25519_public_key ek) ((mix_key_and_hash psk s0) <| re := x25519_public_key ek |>)).
  assert (e_pub a = x25519_public_key ek /\ e_priv a = ek) as (Hpub & Hek) by by split.
  assert (re b = x25519_public_key ek /\ e_set b = false) as (Hreb & Hsetb) by by split.
  assert (same_sym b a) as (Sh & Sck & Sk & Sn) by apply same_mix_e_re, same_psk_mixed.
  pose proof (payload_crosses p a b Sh Sck Sk Sn) as Hp.
  assert (length (fst (write_payload p a)) = length p + NOISE_TAG)%nat as Hlen by apply aead_length.
  assert (forall ct, (NOISE_TAG <= length ct)%nat -> noise_nn_read_msg1 psk (x25519_public_key ek ++ ct) s0 = read_payload ct b) as Hread
    by (intros ct Hct; by rewrite nn_read_msg1_eq by (apply public_key_length || exact Hct)).
  clearbody a b. destruct (write_payload p a) as [ct a']. cbn [fst] in Hlen.
  destruct Hp as (b' & Hr & Hh' & Hck' & _ & _ & _ & Hre' & Hset' & _ & _ & _ & Hep & Hpub').
  exists b'. rewrite Hpub', Hpub, Hread, Hr by lia. split_and!; congruence.
Qed.
(** Message 2 of NN, and the keys of both ends *)
Lemma nn_second_message ek p rnd r1 i1 :
  hs_h r1 = hs_h i1 -> hs_ck r1 = hs_ck i1 -> re r1 = x25519_public_key ek -> e_set r1 = false -> e_priv i1 = ek ->
  let '(m2, (r2, send, recv)) := noise_nn_write_msg2 rnd p r1 in
  nn_read_msg2 m2 i1 = Some (p, hash_out r2, send, recv).
Proof.
  intros Hh Hck Hre Hset Hek.
  rewrite nn_write_msg2_eq by done. cbv zeta. rewrite Hre. set (eph := entropy rnd 32).
  set (r := mix_key _ _). assert (e_pub r = x25519_public_key eph) as Hpub by done.
  assert (forall ct, nn_read_msg2 (x25519_public_key eph ++ ct) i1 =
    finish ct (mix_key (x25519 ek (x25519_public_key eph)) (mix_e (x25519_public_key eph) (i1 <| re := x25519_public_key eph |>)))) as Hread.
  { intros ct. rewrite nn_read_msg2_eq by apply public_key_length. by rewrite Hek. }
  set (i := mix_key (x25519 ek _) _) in Hread. assert (same_sym i r) as (Eh & Eck & Ek & En).
  { destruct (same_mix_e (x25519_public_key eph) (i1 <| re := x25519_public_key eph |>)
      (r1 <| e_priv := eph |> <| e_pub := x25519_public_key eph |>)) as (M1 & M2 & _); [done|done|].
    exact (same_mix_key _ _ _ _ (x25519_comm _ _) M1 M2). }
  clearbody i r. pose proof (second_message p r i Eh Eck Ek En) as H2.
  destruct (write_payload p r) as [ct r']. destruct (split r') as [[r2 send] recv]. destruct H2 as [Hf Hpub'].
  by rewrite Hpub', Hpub, Hread, Hf.
Qed.
End agree.

(** C17. A Noise_KKpsk2 handshake with an initiator that has the right keys and the same PSK
    completes: the responder reads the initiator's payload and the initiator the
    responder's, both have the same handshake hash, each receives with the key the other
    sends with, and every message either then sends is read by the other, in order. *)
Theorem kk_handshake_agrees `{CL : CryptoLaws} `{E : Entropy} `{I : Ietf} `{!IetfLaws I}
    (prologue ski skr ek psk p1 p2 : bytes) (rnd : nat) (down up : list bytes) :
  let i0 := kk_initiator_init prologue ski (x25519_public_key ski) (x25519_public_key skr) in
  let r0 := noise_kk_responder_init prologue skr (x25519_public_key skr) (x25519_public_key ski) in
  let '(m1, i1) := kk_write_msg1 ek p1 i0 in
  let '(got, r1) := noise_kk_read_msg1 m1 r0 in
  let '(m2, (r2, send, recv)) := noise_kk_write_msg2 rnd psk p2 r1 in
  got = Some p1 /\
  exists i_recv i_send, kk_read_msg2 psk m2 i1 = Some (p2, hash_out r2, i_recv, i_send) /\
    decrypt_all (fst (encrypt_all down send)) i_recv = (map Some down, snd (encrypt_all down send)) /\
    decrypt_all (fst (encrypt_all up i_send)) recv = (map Some up, snd (encrypt_all up i_send)).
Proof.
  cbv zeta. pose proof (kk_first_message prologue ski skr ek p1) as H1. cbv zeta in H1.
  destruct (kk_write_msg1 ek p1 _) as [m1 i1]. destruct H1 as (r1 & -> & Hh & Hck & Hre & Hrs & Hset & Hek & Hsk).
  rewrite kk_write_msg2_eq by done. cbv zeta. rewrite Hre, Hrs. set (eph := entropy rnd 32).
  set (r := mix_key_and_hash psk _). assert (e_pub r = x25519_public_key eph) as Hpub by done.
  assert (forall ct, kk_read_msg2 psk (x25519_public_key eph ++ ct) i1 =
    finish ct (mix_key_and_hash psk (mix_key (x25519 ski (x25519_public_key eph)) (mix_key (x25519 ek (x25519_public_key eph))
      (mix_e (x25519_public_key eph) (i1 <| re := x25519_public_key eph |>)))))) as Hread.
  { intros ct. rewrite kk_read_msg2_eq by apply public_key_length. by rewrite Hek, Hsk. }
  set (i := mix_key_and_hash psk _) in Hread. assert (same_sym i r) as (Eh & Eck & Ek & En).
  { destruct (same_mix_e (x25519_public_key eph) (i1 <| re := x25519_public_key eph |>)
      (r1 <| e_priv := eph |> <| e_pub := x25519_public_key eph |>)) as (M1 & M2 & _); [done|done|].
    destruct (same_mix_key (x25519 ek (x25519_public_key eph)) (x25519 eph (x25519_public_key ek)) _ _ (x25519_comm _ _) M1 M2)
      as (M3 & M4 & _).
    destruct (same_mix_key (x25519 ski (x25519_public_key eph)) (x25519 eph (x25519_public_key ski)) _ _ (x25519_comm _ _) M3 M4)
      as (M5 & M6 & _).
    exact (same_mix_key_and_hash _ _ _ M5 M6). }
  clearbody i r. pose proof (second_message p2 r i Eh Eck Ek En) as H2.
  destruct (write_payload p2 r) as [ct r']. destruct (split r') as [[r2 send] recv]. destruct H2 as [Hf Hpub'].
  split; [done|]. exists send, recv. rewrite Hpub', Hpub, Hread, Hf. split_and!; [done|apply transport_in_step..].
Qed.

(** The same for Noise_NNpsk0, where both ends have only the PSK. *)
Theorem nn_handshake_agrees `{CL : CryptoLaws} `{E : Entropy} `{I : Ietf} `{!IetfLaws I}
    (prologue ek psk p1 p2 : bytes) (rnd : nat) (down up : list bytes) :
  let '(m1, i1) := nn_write_msg1 psk ek p1 (noise_nn_responder_init prologue) in
  let '(got, r1) := noise_nn_read_msg1 psk m1 (noise_nn_responder_init prologue) in
  let '(m2, (r2, send, recv)) := noise_nn_write_msg2 rnd p2 r1 in
  got = Some p1 /\
  exists i_recv i_send, nn_read_msg2 m2 i1 = Some (p2, hash_out r2, i_recv, i_send) /\
    decrypt_all (fst (encrypt_all down send)) i_recv = (map Some down, snd (encrypt_all down send)) /\
    decrypt_all (fst (encrypt_all up i_send)) recv = (map Some up, snd (encrypt_all up i_send)).
Proof.
  pose proof (nn_first_message psk ek p1 (noise_nn_responder_init prologue) (nn_init_unset prologue)) as H1.
  destruct (nn_write_msg1 psk ek p1 _) as [m1 i1]. destruct H1 as (r1 & -> & Hh & Hck & Hre & Hset & Hek).
  pose proof (nn_second_message ek p2 rnd r1 i1 Hh Hck Hre Hset Hek) as H2.
  destruct (noise_nn_write_msg2 rnd p2 r1) as [m2 [[r2 send] recv]].
  split; [done|]. exists send, recv. split_and!; [exact H2|apply transport_in_step..].
Qed.

(** *** Concrete runs, with the toy primitives *)
#[local] Existing Instances Toy.crypto Toy.laws Toy.entropy_ IetfToy.ietf IetfToy.laws.

Lemma kk_handshake_agrees_witness :
  let i0 := kk_initiator_init [7] [1] (x25519_public_key [1]) (x25519_public_key [2]) in
  let r0 := noise_kk_responder_init [7] [2] (x25519_public_key [2]) (x25519_public_key [1]) in
  let '(m1, i1) := kk_write_msg1 [3] [10; 11] i0 in
  let '(got, r1) := noise_kk_read_msg1 m1 r0 in
  let '(m2, (r2, send, recv)) := noise_kk_write_msg2 5 [9] [12] r1 in
  got = Some [10; 11] /\
  exists i_recv i_send, kk_read_msg2 [9] m2 i1 = Some ([12], hash_out r2, i_recv, i_send) /\
    decrypt_all (fst (encrypt_all [[1]; [2; 3]] send)) i_recv = (map Some [[1]; [2; 3]], snd (encrypt_all [[1]; [2; 3]] send)) /\
    decrypt_all (fst (encrypt_all [[4]] i_send)) recv = (map Some [[4]], snd (encrypt_all [[4]] i_send)).
Proof. exact (@kk_handshake_agrees Toy.crypto Toy.laws Toy.entropy_ IetfToy.ietf IetfToy.laws [7] [1] [2] [3] [9] [10; 11] [12] 5 [[1]; [2; 3]] [[4]]). Defined.

Lemma nn_handshake_agrees_witness :
  let '(m1, i1) := nn_write_msg1 [9] [3] [10; 11] (noise_nn_responder_init [7]) in
  let '(got, r1) := noise_nn_read_msg1 [9] m1 (noise_nn_responder_init [7]) in
  let '(m2, (r2, send, recv)) := noise_nn_write_msg2 5 [12] r1 in
  got = Some [10; 11] /\
  exists i_recv i_send, nn_read_msg2 m2 i1 = Some ([12], hash_out r2, i_recv, i_send) /\
    decrypt_all (fst (encrypt_all [[1]; [2; 3]] send)) i_recv = (map Some [[1]; [2; 3]], snd (encrypt_all [[1]; [2; 3]] send)) /\
    decrypt_all (fst (encrypt_all [[4]] i_send)) recv = (map Some [[4]], snd (encrypt_all [[4]] i_send)).
Proof. exact (@nn_handshake_agrees Toy.crypto Toy.laws Toy.entropy_ IetfToy.ietf IetfToy.laws [7] [3] [9] [10; 11] [12] 5 [[1]; [2; 3]] [[4]]). Defined.
