(* ===== verification/Improv.v ===== *)
(** * Improv Wi-Fi: setting the Echo up from a phone (improv.c)
    The file's static variables, what the worker keeps between its turns, and the calls out
    of the file as a trace.  Every function holds the mutex from its first access to its
    last (the worker all of a turn but the wait), so a turn, a write, a connection and the
    button are steps.  What wifi.c, core.h and the interfaces answer in a turn is an
    argument of the turn. *)
From S2P Require Import Prelude Cbits.

Definition SCAN_SECS : Z := 25.
Definition JOIN_SECS : Z := 240.
Definition ST_AUTH_REQUIRED : Z := 1.
Definition ST_AUTHORIZED : Z := 2.
Definition ST_PROVISIONING : Z := 3.
Definition ST_PROVISIONED : Z := 4.
Definition E_NONE : Z := 0.
Definition E_INVALID_RPC : Z := 1.
Definition E_UNKNOWN_RPC : Z := 2.
Definition E_UNABLE_TO_CONNECT : Z := 3.
Definition E_NOT_AUTHORIZED : Z := 4.
Definition E_UNKNOWN : Z := 255.
Definition CMD_WIFI : Z := 1.
Definition CMD_IDENTIFY : Z := 2.
Definition CMD_INFO : Z := 3.
Definition CMD_SCAN : Z := 4.
Definition C_STATE : Z := 0.
Definition C_ERROR : Z := 1.
Definition C_RPC : Z := 2.
Definition C_RESULT : Z := 3.
Definition C_CAPS : Z := 4.
Definition CAPS : Z := 7.
Definition M_OFF : Z := 0.
Definition M_OOBE : Z := 1.
Definition M_LOST : Z := 2.
Definition RX_SIZE : nat := 259.

(** The seconds HASSMIC_IMPROV_TIMES sets *)
Record times := mk_times { OFFLINE_OOBE : Z; OFFLINE_LOST : Z; AUTH_SECS : Z; PROVISIONED_SECS : Z }.
Definition default_times : times := mk_times 20 600 60 60.

(** Calls out of the file: ble.c, the hooks, core_identify, wifi.c.  [Authorized] has the
    clock of the press with it. *)
Inductive ev :=
  | Notify (c : Z) | Advertise (a : option (bytes * bytes)) | Attention (on : bool) | Authorized (t : Z)
  | Identify | ScanAsked | Join (ssid pass : bytes).

Record improv := mk_improv {
  mode : Z; st : Z; err : Z; connected : bool;
  auth_until : Z; provisioned_at : Z;
  rx : bytes; result : bytes; cmd : bytes;             (* each with its length *)
  scan_id : Z; join_id : Z; scan_at : Z; join_at : Z;
  offline_since : Z; last_st : Z;                      (* the worker's *)
  trace : list ev }.

(** [t0]: the clock when the worker starts *)
Definition improv0 (t0 : Z) : improv :=
  mk_improv M_OFF ST_AUTHORIZED E_NONE false 0 0 [] [] [] 0 0 0 0 t0 0 [].

Definition emit (e : ev) (s : improv) : improv := s <| trace := trace s ++ [e] |>.

(** One entry of getifaddrs: family AF_INET (and an address), IFF_UP, IFF_RUNNING, IFF_LOOPBACK *)
Record ifa := mk_ifa { ifa_inet : bool; ifa_up : bool; ifa_running : bool; ifa_loopback : bool }.
(** [fake]: whether the tests' file exists, when they name one; [ifs]: [None] when getifaddrs fails *)
Definition online (fake : option bool) (ifs : option (list ifa)) : bool :=
  match fake with
  | Some f => f
  | None =>
      match ifs with
      | None => true
      | Some ifs => existsb (fun i => ifa_inet i && ifa_up i && ifa_running i && negb (ifa_loopback i)) ifs
      end
  end.

(** ** Packets *)
Definition sum (p : bytes) : Z := u8 (fold_left Z.add p 0).

(** The strings from [n] on, as many as fit *)
Fixpoint put_strings (n : nat) (l : list bytes) : bytes :=
  match l with
  | [] => []
  | s :: l =>
      if (255 <? length s)%nat || (2 + 255 <? n + 1 + length s)%nat then []
      else u8 (Z.of_nat (length s)) :: s ++ put_strings (n + 1 + length s) l
  end.
Definition set_result (c : Z) (l : list bytes) (s : improv) : improv :=
  let d := put_strings 2 l in
  let r := u8 c :: u8 (Z.of_nat (length d)) :: d in
  emit (Notify C_RESULT) (s <| result := r ++ [sum r] |>).
Definition result1 (c : Z) (t : bytes) (s : improv) : improv := set_result c [t] s.

Definition set_state (v : Z) (s : improv) : improv :=
  if v =? st s then s else emit (Notify C_STATE) (s <| st := v |>).
Definition set_error (e : Z) (s : improv) : improv :=
  if e =? err s then s else emit (Notify C_ERROR) (s <| err := e |>).

Definition improv_head : bytes :=
  [2; 0x01; 0x06; 17; 0x07; 0x00; 0x80; 0x26; 0x78; 0x74; 0x27; 0x63; 0x46; 0x72; 0x22; 0x28; 0x62; 0x68; 0x77; 0x46; 0x00].

(** [while (k && (name[k] & 0xc0) == 0x80) k--] *)
Fixpoint cut_back (name : bytes) (k : nat) : nat :=
  match k with
  | O => O
  | S k' => if Z.land (nth k name 0) 0xc0 =? 0x80 then cut_back name k' else k
  end.

Section improv.
Context (T : times) (core_name VERSION model : bytes) (core_web_port : Z).

Definition advertise (s : improv) : improv :=
  if mode s =? M_OFF then emit (Advertise None) s else
  let a := improv_head ++ [9; 0x16; 0x77; 0x46; u8 (st s); CAPS] ++ replicate 4 0 in
  let k := length core_name in
  let k' := if (29 <? k)%nat then cut_back core_name 29 else k in
  let r := u8 (Z.of_nat (k' + 1)) :: (if (29 <? k)%nat then 0x08 else 0x09) :: take k' core_name in
  emit (Advertise (Some (a, r))) s.

(** ** GATT *)
Definition on_read (c : Z) (cap : nat) (s : improv) : bytes :=
  if (cap =? 0)%nat then [] else
  if c =? -1 then take cap core_name
  else if c =? C_STATE then [u8 (st s)]
  else if c =? C_ERROR then [u8 (err s)]
  else if c =? C_CAPS then [CAPS]
  else if c =? C_RESULT then take cap (result s)
  else [].

(** [rx[1] + 3] *)
Definition packet_len (p : bytes) : nat := (Z.to_nat (nth 1 p 0%Z) + 3)%nat.

Definition on_write (c : Z) (d : bytes) (s : improv) : improv :=
  if negb (c =? C_RPC) then s else
  let s := if (RX_SIZE <? length (rx s) + length d)%nat then s <| rx := [] |> else s in
  let s := if (length d <=? RX_SIZE)%nat then s <| rx := rx s ++ d |> else s in
  if (3 <=? length (rx s))%nat && (packet_len (rx s) <=? length (rx s))%nat then
    let len := packet_len (rx s) in
    let s :=
      if (len <? length (rx s))%nat || negb (nth (len - 1) (rx s) 0 =? sum (take (len - 1) (rx s)))
      then set_error E_INVALID_RPC s
      else if negb (length (cmd s) =? 0)%nat then set_error E_UNKNOWN s
      else s <| cmd := take len (rx s) |> in
    s <| rx := [] |>
  else s.

Definition on_connection (up : bool) (s : improv) : improv :=
  let s := s <| connected := up |> <| rx := [] |> in
  emit (Attention (up && (st s =? ST_AUTH_REQUIRED))) s.

(** ** Commands *)

(** The strings of [d] = the packet from its third byte to before the checksum; at most [max] *)
Fixpoint strings (fuel max : nat) (d : bytes) : option (list bytes) :=
  match d with
  | [] => Some []
  | n :: d =>
      match fuel, max with
      | S fuel, S max =>
          let n := Z.to_nat n in
          if (length d <? n)%nat then None else (fun l => take n d :: l) <$> strings fuel max (drop n d)
      | _, _ => None
      end
  end.
Definition packet_strings (p : bytes) (max : nat) : option (list bytes) :=
  let d := take (length p - 3) (drop 2 p) in strings (length d) max d.

Definition authorized (s : improv) : bool := (st s =? ST_AUTHORIZED) || (st s =? ST_PROVISIONED).

(** What the rest of the daemon answers in one turn.  The id of a request is never 0. *)
Record env := mk_env {
  now : Z; later : Z;                                   (* mono() of the turn, and inside the command *)
  seen : bytes -> Z;                                    (* wifi_seen *)
  wifi_join : bytes -> bytes -> option Z; wifi_scan : option Z;
  scan_result : option (list (bytes * Z * bytes));      (* ssid, signal, sec; None: not yet *)
  join_result : Z * bytes;                              (* wifi_join_result with the address *)
  is_online : bool; core_oobe1 : bool; core_oobe2 : bool }.

(** [while (sl && sp[sl - 1] == ' ') sl--; while (sl && sp[0] == ' ') { sp++; sl--; }] *)
Fixpoint trim_front (s : bytes) : bytes :=
  match s with 32 :: s' => trim_front s' | _ => s end.
Definition trim (s : bytes) : bytes := trim_front (rev (trim_front (rev s))).

Definition ssid_of (e : env) (name : bytes) : bytes :=
  let t := trim name in
  if negb (length t =? 0)%nat && negb (length t =? length name)%nat && negb (seen e name =? 1) then t else name.

Definition cmd_wifi (e : env) (l : list bytes) (s : improv) : improv :=
  match l with
  | [name; pass] =>
      if negb (authorized s) then set_error E_NOT_AUTHORIZED s
      else if negb (join_id s =? 0) then set_error E_UNKNOWN s
      else if (65 <=? length pass)%nat then set_error E_UNABLE_TO_CONNECT s
      else
        if bool_decide (0 ∈ pass) then set_error E_UNABLE_TO_CONNECT (s <| join_id := 0 |>) else
        let s := emit (Join (ssid_of e name) pass) s in
        match wifi_join e (ssid_of e name) pass with
        | None => set_error E_UNABLE_TO_CONNECT (s <| join_id := 0 |>)
        | Some id =>
            let s := set_state ST_PROVISIONING (s <| join_id := id |> <| join_at := later e |>) in
            if negb (mode s =? M_OFF) then advertise s else s
        end
  | _ => set_error E_INVALID_RPC s
  end.

Definition command (e : env) (p : bytes) (s : improv) : improv :=
  match packet_strings p 8 with
  | None => set_error E_INVALID_RPC s
  | Some l =>
      let s := set_error E_NONE s in
      let c := nth 0 p 0 in
      if c =? CMD_WIFI then cmd_wifi e l s
      else if c =? CMD_IDENTIFY then emit Identify s
      else if c =? CMD_INFO then set_result CMD_INFO [str "hassmic"; VERSION; model; core_name] s
      else if c =? CMD_SCAN then
        if negb (scan_id s =? 0) then s else
        let s := emit ScanAsked s in
        match wifi_scan e with
        | None => set_error E_UNKNOWN (s <| scan_id := 0 |>)
        | Some id => s <| scan_id := id |> <| scan_at := later e |>
        end
      else set_error E_UNKNOWN_RPC s
  end.

(** The networks that can be joined, three strings each, while they fit *)
Fixpoint scan_rows (fuel : nat) (room : nat) (nets : list (bytes * Z * bytes)) : list bytes :=
  match nets, fuel with
  | (ssid, signal, sec) :: nets, S fuel' =>
      let word := if bool_decide (sec = str "open") then Some (str "NO")
                  else if bool_decide (sec = str "psk") then Some (str "WPA2") else None in
      match word with
      | None => scan_rows fuel room nets
      | Some w =>
          let rssi := strcap 8 (dec signal) in
          let need := (3 + length ssid + length rssi + length w)%nat in
          if (room <? need)%nat then [] else ssid :: rssi :: w :: scan_rows fuel' (room - need) nets
      end
  | _, _ => []
  end.
Definition scan_answer (nets : list (bytes * Z * bytes)) (s : improv) : improv :=
  set_result CMD_SCAN (scan_rows 32 255 nets) s.

(** ** The worker *)
Definition url (ip : bytes) : bytes :=
  if core_web_port =? 0 then [] else strcap 80 (str "http://" ++ ip ++ str ":" ++ dec core_web_port ++ str "/").

Definition turn_command (e : env) (s : improv) : improv :=
  if (length (cmd s) =? 0)%nat then s else (command e (cmd s) s) <| cmd := [] |>.

Definition turn_scan (e : env) (s : improv) : improv :=
  if scan_id s =? 0 then s else
  match scan_result e with
  | Some nets => (scan_answer nets s) <| scan_id := 0 |>
  | None => if SCAN_SECS <? now e - scan_at s then set_error E_UNKNOWN (s <| scan_id := 0 |>) else s
  end.

(** The state outside a switch *)
Definition at_rest (t : Z) (s : improv) : Z :=
  if (mode s =? M_LOST) && (auth_until s <=? t) then ST_AUTH_REQUIRED else ST_AUTHORIZED.

Definition turn_join (e : env) (s : improv) : improv :=
  if join_id s =? 0 then s else
  let '(r, ip) := join_result e in
  let r := if (r =? 0) && (JOIN_SECS <? now e - join_at s) then -1 else r in
  if 0 <? r then
    let s := (set_state ST_PROVISIONED s) <| provisioned_at := now e |> in
    let s := if bool_decide (url ip = []) then set_result CMD_WIFI [] s else result1 CMD_WIFI (url ip) s in
    s <| join_id := 0 |>
  else if r <? 0 then
    let s := set_error E_UNABLE_TO_CONNECT s in
    (set_state (at_rest (now e) s) s) <| join_id := 0 |>
  else s.

Definition turn_expire (e : env) (s : improv) : improv :=
  if (st s =? ST_AUTHORIZED) && (mode s =? M_LOST) && (auth_until s <=? now e) then
    let s := set_state ST_AUTH_REQUIRED s in
    if connected s then emit (Attention true) s else s
  else s.

Definition busy (s : improv) : bool := connected s || negb (join_id s =? 0) || negb (scan_id s =? 0).

Definition want (e : env) (s : improv) : Z :=
  if negb (busy s) && negb (st s =? ST_PROVISIONED) then
    if negb (is_online e) && core_oobe1 e && (OFFLINE_OOBE T <=? now e - offline_since s) then M_OOBE
    else if negb (is_online e) && negb (core_oobe2 e) && (OFFLINE_LOST T <=? now e - offline_since s) then M_LOST
    else M_OFF
  else mode s.

Definition turn_offline (e : env) (s : improv) : improv :=
  if is_online e then s <| offline_since := 0 |>
  else if offline_since s =? 0 then s <| offline_since := now e |> else s.

Definition turn_done (e : env) (s : improv) : improv :=
  if negb (busy s) && (st s =? ST_PROVISIONED) && (PROVISIONED_SECS T <=? now e - provisioned_at s)
  then set_state (at_rest (now e) s) s else s.

Definition turn_mode (e : env) (s : improv) : improv :=
  let w := want e s in
  if w =? mode s then s else
  let s := s <| mode := w |> in
  let s := if w =? M_OOBE then set_state ST_AUTHORIZED s
           else if w =? M_LOST then set_state (if now e <? auth_until s then ST_AUTHORIZED else ST_AUTH_REQUIRED) s
           else s <| st := ST_AUTHORIZED |> in
  advertise (s <| err := E_NONE |>).

Definition turn_last (s : improv) : improv :=
  let s := if negb (mode s =? M_OFF) && negb (st s =? last_st s) then advertise s else s in
  s <| last_st := st s |>.

Definition turn (e : env) (s : improv) : improv :=
  turn_last (turn_mode e (turn_done e (turn_offline e (turn_expire e (turn_join e (turn_scan e (turn_command e s))))))).

Definition improv_authorize (mono : Z) (s : improv) : bool * improv :=
  if (mode s =? M_LOST) && (st s =? ST_AUTH_REQUIRED) then
    let s := set_state ST_AUTHORIZED (s <| auth_until := mono + AUTH_SECS T |>) in
    (true, emit (Authorized mono) (emit (Attention false) s))
  else (false, s).

(** ** Steps *)
Inductive op :=
  | Turn (e : env) | Write (c : Z) (d : bytes) | Connection (up : bool) | Button (mono : Z).

Definition step (s : improv) (o : op) : improv :=
  match o with
  | Turn e => turn e s
  | Write c d => on_write c d s
  | Connection up => on_connection up s
  | Button t => snd (improv_authorize t s)
  end.

Definition run (ops : list op) (s : improv) : improv := fold_left step ops s.
End improv.
