(* ===== verification/ImprovSafe.v ===== *)
(** * Improv Wi-Fi: who may set the Echo up
    An Echo that is set up joins a network for a phone only after its button was pressed.
    The proof follows what decides it, [auth], through every stage of a turn. *)
From S2P Require Import Prelude Cbits Improv.

Definition joins (s : improv) : list (bytes * bytes) :=
  omap (fun e => match e with Join n p => Some (n, p) | _ => None end) (trace s).
Definition presses (s : improv) : list Z :=
  omap (fun e => match e with Authorized t => Some t | _ => None end) (trace s).

(** What authorization depends on *)
Record auth := mk_auth { a_until : Z; a_st : Z; a_mode : Z; a_join : Z; a_joins : list (bytes * bytes); a_presses : list Z }.
Definition auth_of (s : improv) : auth := mk_auth (auth_until s) (st s) (mode s) (join_id s) (joins s) (presses s).
Definition with_st (v : Z) (a : auth) : auth := mk_auth (a_until a) v (a_mode a) (a_join a) (a_joins a) (a_presses a).

Definition silent (e : ev) : bool := match e with Join _ _ | Authorized _ => false | _ => true end.

Lemma auth_emit e s : silent e = true -> auth_of (emit e s) = auth_of s.
Proof.
  intros He. unfold auth_of, joins, presses, emit. cbn. rewrite !omap_app. by destruct e; cbn in *; rewrite ?app_nil_r.
Qed.
Lemma auth_set_error e s : auth_of (set_error e s) = auth_of s.
Proof. unfold set_error. case_match; [done|]. by rewrite auth_emit. Qed.
Lemma auth_set_state v s : auth_of (set_state v s) = with_st v (auth_of s).
Proof. unfold set_state. case_match eqn:E; [apply Z.eqb_eq in E; by subst|]. by rewrite auth_emit. Qed.
Lemma auth_set_result c l s : auth_of (set_result c l s) = auth_of s.
Proof. unfold set_result. by rewrite auth_emit. Qed.

Create Rewrite HintDb auth.
#[export] Hint Rewrite auth_set_error auth_set_state auth_set_result : auth.

Section safe.
Context (T : times) (core_name VERSION model : bytes) (core_web_port : Z).
Local Abbreviation advertise := (advertise core_name).
Local Abbreviation turn := (turn T core_name VERSION model core_web_port).
Local Abbreviation step := (step T core_name VERSION model core_web_port).

Lemma auth_advertise s : auth_of (advertise s) = auth_of s.
Proof. unfold Improv.advertise. case_match; by rewrite auth_emit. Qed.
Hint Rewrite auth_advertise : auth.

(** [l]: the clock of the last turn.  In M_LOST, authorized means that the button's time had
    not run out then; a switch under way or done means that one was asked for since. *)
Record safe (l : Z) (a : auth) : Prop := {
  s_until : a_until a = 0 \/ exists t, t ∈ a_presses a /\ a_until a = t + AUTH_SECS T;
  s_range : ST_AUTH_REQUIRED <= a_st a <= ST_PROVISIONED;
  s_auth : a_mode a = M_LOST -> a_st a = ST_AUTHORIZED -> l < a_until a;
  s_prov : a_mode a = M_LOST -> a_st a = ST_PROVISIONING \/ a_st a = ST_PROVISIONED ->
           a_joins a <> [] /\ a_until a <> 0;
  s_join : a_join a <> 0 -> a_st a = ST_PROVISIONING }.

Ltac crush := 
  unfold ST_AUTH_REQUIRED, ST_AUTHORIZED, ST_PROVISIONING, ST_PROVISIONED, M_OFF, M_OOBE, M_LOST in *;
  cbn [a_until a_st a_mode a_join a_joins a_presses with_st] in *; subst;
  try solve [split; cbn; (done || lia || naive_solver lia)].

(** *** The command *)
Lemma auth_cmd_wifi e l s :
  auth_of (cmd_wifi core_name e l s) = auth_of s \/
  (authorized s = true /\ join_id s = 0 /\
   exists n p, joins (cmd_wifi core_name e l s) = joins s ++ [(n, p)] /\
     (auth_of (cmd_wifi core_name e l s) =
        mk_auth (auth_until s) (st s) (mode s) 0 (joins s ++ [(n, p)]) (presses s) \/
      exists id, auth_of (cmd_wifi core_name e l s) =
        mk_auth (auth_until s) ST_PROVISIONING (mode s) id (joins s ++ [(n, p)]) (presses s))).
Proof.
  unfold cmd_wifi. destruct l as [|n [|p [|]]]; [left; by rewrite auth_set_error..| |left; by rewrite auth_set_error].
  destruct (authorized s); cbn [negb]; [|left; by rewrite auth_set_error].
  destruct (Z.eqb_spec (join_id s) 0) as [Hj|]; cbn [negb]; [|left; by rewrite auth_set_error].
  case_match; [left; by rewrite auth_set_error|].
  case_match; [left; rewrite auth_set_error; unfold auth_of; cbn; by rewrite Hj|].
  right. split; [done|]. split; [done|]. exists (ssid_of e n), p.
  assert (joins (emit (Join (ssid_of e n) p) s) = joins s ++ [(ssid_of e n, p)] /\
          presses (emit (Join (ssid_of e n) p) s) = presses s) as [Ej Ep].
  { unfold joins, presses, emit. cbn. rewrite !omap_app. cbn. by rewrite app_nil_r. }
  assert (forall x, a_joins (auth_of x) = joins x) as Ha by done.
  set (s1 := emit _ s) in *.
  assert (auth_until s1 = auth_until s /\ st s1 = st s /\ mode s1 = mode s) as (E1 & E2 & E3) by done.
  clearbody s1.
  destruct (wifi_join _ _ _) as [id|].
  - assert (auth_of (set_state ST_PROVISIONING (s1 <| join_id := id |> <| join_at := later e |>)) =
      mk_auth (auth_until s) ST_PROVISIONING (mode s) id (joins s ++ [(ssid_of e n, p)]) (presses s)) as Hset.
    { rewrite auth_set_state. unfold auth_of, with_st, joins, presses. cbn. fold (joins s1) (presses s1).
      by rewrite Ej, Ep, E1, E3. }
    rewrite <- Ha. case_match; rewrite ?auth_advertise, Hset; eauto 6.
  - assert (auth_of (set_error E_UNABLE_TO_CONNECT (s1 <| join_id := 0 |>)) =
      mk_auth (auth_until s) (st s) (mode s) 0 (joins s ++ [(ssid_of e n, p)]) (presses s)) as Hset.
    { rewrite auth_set_error. unfold auth_of, joins, presses. cbn. fold (joins s1) (presses s1).
      by rewrite Ej, Ep, E1, E2, E3. }
    rewrite <- Ha. rewrite Hset. eauto.
Qed.

Lemma auth_command e p s :
  let s' := command core_name VERSION model e p s in
  auth_of s' = auth_of s \/
  exists n w, authorized s = true /\ join_id s = 0 /\ joins s' = joins s ++ [(n, w)] /\
    (auth_of s' = mk_auth (auth_until s) (st s) (mode s) 0 (joins s ++ [(n, w)]) (presses s) \/
     exists id, auth_of s' = mk_auth (auth_until s) ST_PROVISIONING (mode s) id (joins s ++ [(n, w)]) (presses s)).
Proof.
  cbv zeta. unfold command. destruct (packet_strings p 8) as [l|]; [|left; apply auth_set_error].
  pose proof (auth_set_error E_NONE s) as E0. set (s0 := set_error E_NONE s) in *. clearbody s0.
  assert (authorized s0 = authorized s) as Ea by (unfold authorized; by injection E0 as ? -> ? ? ? ?).
  case_match.
  - destruct (auth_cmd_wifi e l s0) as [H1|(H1 & H2 & n & w & H3 & H4)]; [left; congruence|right].
    injection E0 as F1 F2 F3 F4 F5 F6. rewrite F1, F2, F3, F5, F6 in *. rewrite F4 in H2. rewrite <- Ea. by exists n, w.
  - left. rewrite <- E0. repeat case_match; rewrite ?auth_set_error, ?auth_set_result, ?auth_emit; try done;
    unfold auth_of, joins, presses, emit; cbn; rewrite !omap_app; cbn; by rewrite !app_nil_r.
Qed.

Lemma safe_command e l s : 0 <= l -> safe l (auth_of s) -> safe l (auth_of (turn_command core_name VERSION model e s)).
Proof.
  intros Hl Hs. unfold turn_command. case_match; [done|].
  change (safe l (auth_of (command core_name VERSION model e (cmd s) s))).
  destruct (auth_command e (cmd s) s) as [-> | (n & w & Ha & Hj & _ & Hc)]; [done|].
  assert (mode s = M_LOST -> auth_until s <> 0) as Hu.
  { intros Hm. unfold authorized in Ha. apply orb_true_iff in Ha as [Ha|Ha]; apply Z.eqb_eq in Ha.
    - pose proof (s_auth _ _ Hs Hm Ha). cbn in *. lia.
    - destruct (s_prov _ _ Hs Hm (or_intror Ha)). done. }
  destruct Hs as [H1 H2 H3 H4 H5]. cbn in *.
  assert (joins s ++ [(n, w)] <> []) by (by destruct (joins s)).
  destruct Hc as [-> | (id & ->)]; split; cbn; try done; try naive_solver.
Qed.

Lemma safe_scan e l s : safe l (auth_of s) -> safe l (auth_of (turn_scan e s)).
Proof.
  intros Hs. unfold turn_scan. repeat case_match; try done; [|by rewrite auth_set_error].
  change (safe l (auth_of (scan_answer l0 s))). unfold scan_answer. by rewrite auth_set_result.
Qed.

(** The state the Echo is put in at rest fits the clock of the turn. *)
Lemma safe_at_rest e l a s : safe l a -> l <= now e -> auth_until s = a_until a -> mode s = a_mode a -> a_join a = 0 ->
  safe (now e) (with_st (at_rest (now e) s) a).
Proof.
  intros [H1 H2 H3 H4 H5] Hl Eu Em Hj. unfold at_rest. rewrite Eu, Em.
  destruct (Z.eqb_spec (a_mode a) M_LOST) as [Hm|Hm], (Z.leb_spec (a_until a) (now e)); cbn [andb];
    split; cbn; try done; try lia; naive_solver.
Qed.

(** After [turn_join] and [turn_expire] the clock of this turn counts. *)
Lemma safe_join e l s : safe l (auth_of s) -> l <= now e ->
  safe l (auth_of (turn_join core_web_port e s)) \/ safe (now e) (auth_of (turn_join core_web_port e s)).
Proof.
  intros Hs Hl. unfold turn_join. destruct (Z.eqb_spec (join_id s) 0) as [|Hj]; [by left|].
  destruct (join_result e) as [r ip]. pose proof (s_join _ _ Hs Hj) as Hst. cbn in Hst.
  set (r' := if _ && _ then -1 else r). clearbody r'. destruct (Z.ltb_spec 0 r'); [|destruct (Z.ltb_spec r' 0); [|by left]].
  - left. set (s1 := (set_state ST_PROVISIONED s) <| provisioned_at := now e |>).
    assert (auth_of s1 = with_st ST_PROVISIONED (auth_of s)) as E1 by apply (auth_set_state ST_PROVISIONED s).
    clearbody s1. set (s2 := if bool_decide _ then _ else _).
    assert (auth_of s2 = with_st ST_PROVISIONED (auth_of s)) as E2.
    { subst s2. case_match; unfold result1; by rewrite auth_set_result. }
    clearbody s2. injection E2 as F1 F2 F3 F4 F5 F6.
    change (auth_of (s2 <| join_id := 0 |>)) with (mk_auth (auth_until s2) (st s2) (mode s2) 0 (joins s2) (presses s2)).
    rewrite F1, F2, F3, F5, F6. destruct Hs as [H1 H2 H3 H4 H5]. split; cbn in *; try done; naive_solver.
  - right. set (s1 := set_error _ s). assert (auth_of s1 = auth_of s) as E1 by apply auth_set_error.
    assert (safe l (mk_auth (auth_until s) (st s) (mode s) 0 (joins s) (presses s))) as Hs0.
    { destruct Hs as [H1 H2 H3 H4 H5]. split; cbn in *; done. }
    clearbody s1. set (s2 := set_state _ s1).
    assert (auth_of s2 = with_st (at_rest (now e) s1) (auth_of s1)) as E2 by apply auth_set_state.
    clearbody s2. injection E1 as G1 G2 G3 G4 G5 G6. injection E2 as F1 F2 F3 F4 F5 F6.
    change (auth_of (s2 <| join_id := 0 |>)) with (mk_auth (auth_until s2) (st s2) (mode s2) 0 (joins s2) (presses s2)).
    rewrite F1, F2, F3, F5, F6. rewrite G1, G3, G5, G6. exact (safe_at_rest e l _ s1 Hs0 Hl G1 G3 eq_refl).
Qed.

Lemma safe_expire e l s : safe l (auth_of s) -> l <= now e -> safe (now e) (auth_of (turn_expire e s)).
Proof.
  intros Hs Hl. unfold turn_expire.
  destruct (Z.eqb_spec (st s) ST_AUTHORIZED) as [H1|H1], (Z.eqb_spec (mode s) M_LOST) as [H2|H2],
    (Z.leb_spec (auth_until s) (now e)); cbn [andb];
    try (destruct Hs as [I1 I2 I3 I4 I5]; split; cbn in *; try done; try lia; naive_solver lia).
  assert (safe (now e) (with_st ST_AUTH_REQUIRED (auth_of s))) as Hx.
  { destruct Hs as [I1 I2 I3 I4 I5]. split; cbn in *; try done; try lia; intros;
      (rewrite H1 in I5; exfalso; naive_solver) || naive_solver. }
  case_match; rewrite ?auth_emit, ?auth_set_state by done; exact Hx.
Qed.

Lemma auth_offline e s : auth_of (turn_offline e s) = auth_of s.
Proof. unfold turn_offline. by repeat case_match. Qed.

Lemma not_busy s : busy s = false -> join_id s = 0.
Proof. unfold busy. intros. bsimp. by destruct (Z.eqb_spec (join_id s) 0). Qed.

Lemma safe_done e s : safe (now e) (auth_of s) -> safe (now e) (auth_of (turn_done T e s)).
Proof.
  intros Hs. unfold turn_done. destruct (busy s) eqn:Hb; cbn [negb andb]; [done|].
  case_match; [|done]. rewrite auth_set_state. apply (safe_at_rest e (now e)); try done; try lia. by apply not_busy.
Qed.

Lemma want_cases e s : want T e s = mode s \/
  (join_id s = 0 /\ (want T e s = M_OOBE \/ want T e s = M_LOST \/ want T e s = M_OFF)).
Proof.
  unfold want. destruct (busy s) eqn:Hb; cbn [negb andb]; [by left|]. apply not_busy in Hb.
  repeat case_match; auto.
Qed.

Lemma safe_mode e s : 0 <= now e -> safe (now e) (auth_of s) -> safe (now e) (auth_of (turn_mode T core_name e s)).
Proof.
  intros Hn Hs. unfold turn_mode. destruct (Z.eqb_spec (want T e s) (mode s)) as [|Hw]; [done|].
  destruct (want_cases e s) as [|[Hj Hc]]; [done|]. rewrite auth_advertise.
  set (s1 := s <| mode := want T e s |>).
  assert (auth_of s1 = mk_auth (auth_until s) (st s) (want T e s) 0 (joins s) (presses s)) as E1 by (by rewrite <- Hj).
  assert (auth_until s1 = auth_until s) as Eu by done. clearbody s1.
  set (v := if want T e s =? M_LOST then (if now e <? auth_until s then ST_AUTHORIZED else ST_AUTH_REQUIRED) else ST_AUTHORIZED).
  match goal with |- safe _ (auth_of (?x <| err := _ |>)) => set (s2 := x) end.
  assert (auth_of s2 = with_st v (auth_of s1)) as E2.
  { subst s2 v. rewrite Eu. destruct Hc as [-> | [-> | ->]]; cbn; rewrite ?auth_set_state; done. }
  clearbody s2. change (safe (now e) (auth_of s2)). rewrite E2, E1.
  destruct Hs as [I1 I2 I3 I4 I5]. subst v.
  destruct Hc as [-> | [-> | ->]]; cbn; [| |]; try (split; cbn in *; done).
  destruct (Z.ltb_spec (now e) (auth_until s)); split; cbn in *; try done; naive_solver.
Qed.

Lemma auth_last s : auth_of (turn_last core_name s) = auth_of s.
Proof.
  unfold turn_last. match goal with |- auth_of (?x <| last_st := _ |>) = _ => set (s1 := x) end. assert (auth_of s1 = auth_of s) as E by (subst s1; case_match; [apply auth_advertise|done]).
  by clearbody s1.
Qed.

Lemma safe_turn e l s : 0 <= l -> l <= now e -> safe l (auth_of s) -> safe (now e) (auth_of (turn e s)).
Proof.
  intros Hl He Hs. unfold Improv.turn. rewrite auth_last. apply safe_mode; [lia|]. apply safe_done.
  rewrite auth_offline. destruct (safe_join e l (turn_scan e (turn_command core_name VERSION model e s))) as [H|H]; [|done|..].
  - by apply safe_scan, safe_command.
  - by apply (safe_expire e l).
  - apply (safe_expire e (now e)); [done|lia].
Qed.

Lemma auth_on_write c d s : auth_of (on_write c d s) = auth_of s.
Proof.
  unfold on_write. case_match; [done|].
  assert (auth_of (if (RX_SIZE <? length (rx s) + length d)%nat then s <| rx := [] |> else s) = auth_of s) as E1 by by case_match.
  revert E1. generalize (if (RX_SIZE <? length (rx s) + length d)%nat then s <| rx := [] |> else s). intros s1 <-.
  assert (auth_of (if (length d <=? RX_SIZE)%nat then s1 <| rx := rx s1 ++ d |> else s1) = auth_of s1) as E2 by by case_match.
  revert E2. generalize (if (length d <=? RX_SIZE)%nat then s1 <| rx := rx s1 ++ d |> else s1). intros s2 <-.
  case_match; [|done]. match goal with |- auth_of (?x <| rx := _ |>) = _ => change (auth_of x = auth_of s2) end.
  repeat case_match; rewrite ?auth_set_error; done.
Qed.

Lemma auth_on_connection up s : auth_of (on_connection up s) = auth_of s.
Proof. unfold on_connection. by rewrite auth_emit. Qed.

Lemma safe_button t l s : 0 < AUTH_SECS T -> 0 <= l <= t -> safe l (auth_of s) ->
  safe l (auth_of (snd (improv_authorize T t s))).
Proof.
  intros HA Hl Hs. unfold improv_authorize.
  destruct (Z.eqb_spec (mode s) M_LOST) as [Hm|], (Z.eqb_spec (st s) ST_AUTH_REQUIRED) as [Hr|]; cbn [andb snd]; try done.
  set (s1 := set_state ST_AUTHORIZED _).
  assert (auth_of s1 = mk_auth (t + AUTH_SECS T) ST_AUTHORIZED (mode s) (join_id s) (joins s) (presses s)) as E1
    by (subst s1; by rewrite auth_set_state).
  clearbody s1. injection E1 as F1 F2 F3 F4 F5 F6.
  assert (auth_of (emit (Authorized t) (emit (Attention false) s1)) =
    mk_auth (auth_until s1) (st s1) (mode s1) (join_id s1) (joins s1) (presses s1 ++ [t])) as ->.
  { unfold auth_of, joins, presses, emit. cbn. rewrite !omap_app. cbn. by rewrite !app_nil_r. }
  rewrite F1, F2, F3, F4, F5, F6. destruct Hs as [I1 I2 I3 I4 I5].
  split; cbn in *; try done; [|lia|naive_solver|]; [right; exists t; split; [set_solver|done]|].
  intros Hj. specialize (I5 Hj). rewrite Hr in I5. done.
Qed.

(** The runs of the program: clocks do not go back, and [last] is that of the last turn. *)
Inductive reach : improv -> Z -> Prop :=
  | reach_start t0 : 0 <= t0 -> reach (improv0 t0) t0
  | reach_turn e s last : reach s last -> last <= now e -> reach (step s (Turn e)) (now e)
  | reach_button t s last : reach s last -> last <= t -> reach (step s (Button t)) last
  | reach_write c d s last : reach s last -> reach (step s (Write c d)) last
  | reach_connection up s last : reach s last -> reach (step s (Connection up)) last.

Lemma reach_safe s last : 0 < AUTH_SECS T -> reach s last -> 0 <= last /\ safe last (auth_of s).
Proof.
  intros HA. induction 1 as [t0 Ht|e s last _ [IH1 IH2] He|t s last _ [IH1 IH2] Ht|c d s last _ [IH1 IH2]|up s last _ [IH1 IH2]].
  - split; [done|]. split; cbn; try done; auto.
  - split; [lia|]. by apply (safe_turn e last).
  - split; [done|]. by apply safe_button.
  - split; [done|]. cbn [Improv.step]. by rewrite auth_on_write.
  - split; [done|]. cbn [Improv.step]. by rewrite auth_on_connection.
Qed.

(** *** Only the command of a turn asks for a network *)
Lemma joins_turn e s : joins (turn e s) = joins (turn_command core_name VERSION model e s).
Proof.
  set (s0 := turn_command core_name VERSION model e s). unfold Improv.turn. fold s0. clearbody s0.
  assert (forall x y, auth_of x = auth_of y -> joins x = joins y) as Ha by (intros ? ? Hx; by injection Hx).
  assert (forall v x, joins (set_state v x) = joins x) as Hset.
  { intros v x. pose proof (auth_set_state v x) as Hx. by injection Hx. }
  assert (forall v x, joins (set_error v x) = joins x) as Herr by (intros; apply Ha, auth_set_error).
  assert (forall c l x, joins (set_result c l x) = joins x) as Hres by (intros; apply Ha, auth_set_result).
  assert (forall v x, joins (x <| join_id := v |>) = joins x) as Hid by done.
  rewrite (Ha _ _ (auth_last _)).
  transitivity (joins (turn_done T e (turn_offline e (turn_expire e (turn_join core_web_port e (turn_scan e s0)))))).
  { set (x := turn_done T e _). clearbody x. unfold turn_mode. case_match; [done|].
    rewrite (Ha _ _ (auth_advertise _)). repeat case_match; try done; exact (Hset _ (x <| mode := _ |>)). }
  unfold turn_done. set (x := turn_offline e _). transitivity (joins x); [case_match; [apply Hset|done]|].
  subst x. rewrite (Ha _ _ (auth_offline _ _)). unfold turn_expire. set (x := turn_join core_web_port e _).
  transitivity (joins x).
  { repeat case_match; try done; rewrite <- (Hset ST_AUTH_REQUIRED x); apply Ha. by rewrite auth_emit. }
  subst x. transitivity (joins (turn_scan e s0)).
  { set (x := turn_scan e s0). clearbody x. unfold turn_join, result1.
    repeat case_match; try done; rewrite Hid, ?Hres, ?Hset, ?Herr; try done; exact (Hset _ x). }
  unfold turn_scan. repeat case_match; try done.
  - change (joins (scan_answer l s0) = joins s0). apply (Ha _ _ (auth_set_result _ _ _)).
  - rewrite (Ha _ _ (auth_set_error _ _)). done.
Qed.
End safe.

(** C15. An Echo that is set up (it advertises because its network was lost) asks for
    another network for a phone only after its button was pressed: either that press's time
    had not run out in the worker's last turn, or the phone's earlier switch had worked. *)
Theorem join_needs_the_button (T : times) core_name VERSION model port s last e :
  0 < AUTH_SECS T ->
  reach T core_name VERSION model port s last ->
  mode s = M_LOST ->
  joins (turn T core_name VERSION model port e s) <> joins s ->
  exists t, t ∈ presses s /\ auth_until s = t + AUTH_SECS T /\
    ((st s = ST_AUTHORIZED /\ last < t + AUTH_SECS T) \/ (st s = ST_PROVISIONED /\ joins s <> [])).
Proof.
  intros HA Hr Hm Hj. destruct (reach_safe T core_name VERSION model port s last HA Hr) as [Hl [H1 H2 H3 H4 H5]].
  rewrite joins_turn in Hj. unfold turn_command in Hj. case_match; [done|].
  change (joins (command core_name VERSION model e (cmd s) s) <> joins s) in Hj.
  destruct (auth_command core_name VERSION model e (cmd s) s) as [E|(n & w & Ha & _ & _)]; [by injection E|]. cbn in *.
  unfold authorized in Ha. apply orb_true_iff in Ha as [Ha|Ha]; apply Z.eqb_eq in Ha.
  - specialize (H3 Hm Ha). destruct H1 as [|(t & Ht & Et)]; [lia|]. exists t. split_and!; [done..|]. left. split; [done|lia].
  - destruct (H4 Hm (or_intror Ha)) as [Hn Hu]. destruct H1 as [|(t & Ht & Et)]; [done|]. exists t. auto.
Qed.

(** *** Concrete runs *)
Module Run.
Definition quiet_env (t : Z) (on oobe : bool) : env :=
  mk_env t t (fun _ => 0) (fun _ _ => Some 1) None None (0, []) on oobe oobe.
Definition wifi_packet : bytes := let p := [CMD_WIFI; 5; 1; 97; 2; 98; 99] in p ++ [sum p].
Definition go (s : improv) (o : op) : improv := step default_times (str "echo") [] [] 0 s o.

(** Lost for 600 s, the button at 650, a phone that sends the network; the next turn asks for it. *)
Definition pressed : improv :=
  go (go (go (go (go (improv0 10) (Turn (quiet_env 20 false false))) (Turn (quiet_env 620 false false)))
    (Button 650)) (Connection true)) (Write C_RPC wifi_packet).
End Run.

Lemma join_needs_the_button_witness :
  (0 < AUTH_SECS default_times /\ mode Run.pressed = M_LOST /\
   joins (turn default_times (str "echo") [] [] 0 (Run.quiet_env 651 false false) Run.pressed) = [([97], [98; 99])]) /\
  exists t, t ∈ presses Run.pressed /\ auth_until Run.pressed = t + 60 /\
    ((st Run.pressed = ST_AUTHORIZED /\ 620 < t + 60) \/ (st Run.pressed = ST_PROVISIONED /\ joins Run.pressed <> [])).
Proof.
  split; [by vm_compute|].
  apply (join_needs_the_button default_times (str "echo") [] [] 0 Run.pressed 620 (Run.quiet_env 651 false false)).
  - done.
  - apply reach_write, reach_connection, reach_button; [|done].
    apply (reach_turn _ _ _ _ _ (Run.quiet_env 620 false false) _ 20); [|done].
    apply (reach_turn _ _ _ _ _ (Run.quiet_env 20 false false) _ 10); [|done]. by apply reach_start.
  - by vm_compute.
  - by vm_compute.
Defined.

