(* ===== verification/ImprovRpc.v ===== *)
(** * Improv Wi-Fi: packets in pieces, and what the answers hold *)
From S2P Require Import Prelude Cbits Improv.

(** The packet a phone sends: command, length, strings, checksum *)
Definition packet_data (l : list bytes) : bytes := l ≫= fun s => Z.of_nat (length s) :: s.
Definition make_packet (c : Z) (l : list bytes) : bytes :=
  let p := c :: Z.of_nat (length (packet_data l)) :: packet_data l in p ++ [sum p].

Lemma make_packet_length c l : length (make_packet c l) = (length (packet_data l) + 3)%nat.
Proof. unfold make_packet. rewrite length_app. cbn. lia. Qed.
Lemma make_packet_len c l : packet_len (make_packet c l) = length (make_packet c l).
Proof. rewrite make_packet_length. unfold packet_len, make_packet. cbn. lia. Qed.

Lemma improv_eta s : s <| rx := rx s |> = s.
Proof. by destruct s. Qed.

(** *** Reassembly *)

Lemma write_more d s : (length (rx s ++ d) < 3)%nat \/ (length (rx s ++ d) < packet_len (rx s ++ d))%nat ->
  (length (rx s ++ d) <= RX_SIZE)%nat ->
  on_write C_RPC d s = s <| rx := rx s ++ d |>.
Proof.
  intros Hs Hl. rewrite length_app in Hl. unfold on_write. cbn [negb Z.eqb C_RPC Pos.eqb].
  destruct (Nat.ltb_spec RX_SIZE (length (rx s) + length d)); [lia|].
  destruct (Nat.leb_spec (length d) RX_SIZE); [|lia]. cbn [rx].
  match goal with |- (if ?c then _ else _) = _ => destruct c eqn:E end; [|done].
  apply andb_true_iff in E as [E1 E2]. apply Nat.leb_le in E1, E2. cbn in E1, E2. lia.
Qed.

Lemma write_last d s p : rx s ++ d = p -> cmd s = [] -> (3 <= length p)%nat -> packet_len p = length p ->
  (length p <= RX_SIZE)%nat -> nth (length p - 1) p 0 = sum (take (length p - 1) p) ->
  on_write C_RPC d s = s <| cmd := p |> <| rx := [] |>.
Proof.
  intros Hp Hc H3 Hlen Hsz Hsum. pose proof Hsz as Hsz'. rewrite <- Hp, length_app in Hsz'.
  unfold on_write. cbn [negb Z.eqb C_RPC Pos.eqb].
  destruct (Nat.ltb_spec RX_SIZE (length (rx s) + length d)); [lia|].
  destruct (Nat.leb_spec (length d) RX_SIZE); [|lia].
  change (rx (s <| rx := rx s ++ d |>)) with (rx s ++ d). rewrite Hp.
  destruct (Nat.leb_spec 3 (length p)); [|lia]. rewrite Hlen, Nat.leb_refl, Nat.ltb_irrefl. cbn [andb orb].
  rewrite Hsum, Z.eqb_refl. cbn [negb]. change (cmd (s <| rx := p |>)) with (cmd s). rewrite Hc. cbn [length Nat.eqb negb].
  by rewrite take_ge by lia.
Qed.

Lemma write_pieces p pieces s :
  rx s ++ concat pieces = p -> (length (rx s) < length p)%nat -> cmd s = [] ->
  (3 <= length p <= RX_SIZE)%nat -> packet_len p = length p -> nth (length p - 1) p 0 = sum (take (length p - 1) p) ->
  fold_left (fun s d => on_write C_RPC d s) pieces s = s <| cmd := p |> <| rx := [] |>.
Proof.
  intros Hp Hlt Hc Hsz Hlen Hsum. revert s Hp Hlt Hc. induction pieces as [|d pieces IH]; intros s Hp Hlt Hc.
  - cbn in Hp. rewrite app_nil_r in Hp. subst. lia.
  - cbn [fold_left concat] in *. destruct (decide (concat pieces = [])) as [He|He].
    + rewrite He, app_nil_r in Hp. rewrite (write_last d s p) by (done || lia).
      assert (Forall (fun x => x = []) pieces) as Hnil.
      { clear -He. induction pieces as [|x pieces IH]; [done|]. cbn in He. apply app_nil in He as [-> He]. auto. }
      clear -Hnil. induction Hnil as [|x pieces -> _ IH]; [done|]. cbn [fold_left]. rewrite <- IH at 2. f_equal.
    + rewrite app_assoc in Hp. assert (length (rx s ++ d) < length p)%nat as Hlt'.
      { rewrite <- Hp, (length_app (rx s ++ d)). destruct (concat pieces); [done|]. cbn. lia. }
      rewrite write_more.
      * rewrite IH; [by destruct s|done|done|done].
      * destruct (decide (length (rx s ++ d) < 3)%nat); [by left|right]. rewrite <- Hlen in Hlt'.
        enough (packet_len (rx s ++ d) = packet_len p) by lia. rewrite <- Hp. unfold packet_len.
        by rewrite (app_nth1 (rx s ++ d)) by lia.
      * lia.
Qed.

Lemma make_packet_sum c l : nth (length (make_packet c l) - 1) (make_packet c l) 0 =
  sum (take (length (make_packet c l) - 1) (make_packet c l)).
Proof.
  unfold make_packet. set (p := c :: _). rewrite length_app. cbn [length].
  replace (length p + 1 - 1)%nat with (length p) by lia.
  rewrite app_nth2 by lia. rewrite Nat.sub_diag, take_app_length. done.
Qed.

(** *** The strings of a packet *)
Lemma strings_data fuel max l : (length (packet_data l) <= fuel)%nat -> (length l <= max)%nat ->
  strings fuel max (packet_data l) = Some l.
Proof.
  revert fuel max. induction l as [|s l IH]; intros fuel max Hf Hm; [by destruct fuel|].
  change (packet_data (s :: l)) with (Z.of_nat (length s) :: s ++ packet_data l) in *.
  cbn [length] in *. rewrite length_app in Hf. destruct fuel as [|fuel]; [lia|]. destruct max as [|max]; [lia|].
  cbn [strings]. rewrite Nat2Z.id, length_app. destruct (Nat.ltb_spec (length s + length (packet_data l)) (length s)); [lia|].
  rewrite drop_app_length, take_app_length, IH by lia. done.
Qed.

Lemma packet_strings_made c l max : (length l <= max)%nat -> packet_strings (make_packet c l) max = Some l.
Proof.
  intros Hl. unfold packet_strings. rewrite make_packet_length, Nat.add_sub. unfold make_packet.
  match goal with |- context [drop 2 (_ ++ ?x)] => change (drop 2 _) with (packet_data l ++ x) end.
  rewrite take_app_length. by apply strings_data.
Qed.

(** A phone's command arrives whole however its writes cut it: with no packet begun and
    none being handled, the worker gets exactly the packet and reads its strings back. *)
Theorem command_arrives (c : Z) (l : list bytes) (pieces : list bytes) (s : improv) :
  concat pieces = make_packet c l -> (length (packet_data l) <= 255)%nat -> (length l <= 8)%nat ->
  rx s = [] -> cmd s = [] ->
  let s' := fold_left (fun s d => on_write C_RPC d s) pieces s in
  s' = s <| cmd := make_packet c l |> /\ packet_strings (cmd s') 8 = Some l.
Proof.
  cbv zeta. intros Hp Hd Hl Hr Hc. pose proof (make_packet_length c l) as Hlen.
  rewrite (write_pieces (make_packet c l) pieces s).
  - split; [destruct s; cbn in *; by subst|]. by apply packet_strings_made.
  - by rewrite Hr.
  - rewrite Hr, Hlen. cbn. lia.
  - done.
  - unfold RX_SIZE. lia.
  - apply make_packet_len.
  - apply make_packet_sum.
Qed.

Lemma command_arrives_witness :
  (rx (improv0 0) = [] /\ cmd (improv0 0) = []) /\
  let s' := fold_left (fun s d => on_write C_RPC d s) [[1; 5]; [1]; [97; 2; 98]; []; [99; 47]; []] (improv0 0) in
  s' = (improv0 0) <| cmd := make_packet 1 [[97]; [98; 99]] |> /\ packet_strings (cmd s') 8 = Some [[97]; [98; 99]].
Proof.
  split; [done|].
  apply (command_arrives 1 [[97]; [98; 99]] [[1; 5]; [1]; [97; 2; 98]; []; [99; 47]; []] (improv0 0));
    first [reflexivity | vm_compute; lia].
Defined.

(** *** Results *)
Lemma put_strings_all n l : (n + length (packet_data l) <= 257)%nat ->
  Forall (fun s => (length s <= 255)%nat) l -> put_strings n l = packet_data l.
Proof.
  intros Hn Hl. revert n Hn. induction Hl as [|s l Hs _ IH]; intros n Hn; [done|].
  change (packet_data (s :: l)) with (Z.of_nat (length s) :: s ++ packet_data l) in *.
  cbn [length] in Hn. rewrite length_app in Hn. cbn [put_strings].
  destruct (Nat.ltb_spec 255 (length s)); [lia|]. destruct (Nat.ltb_spec (2 + 255) (n + 1 + length s)); [lia|].
  cbn [orb]. rewrite u8_id by lia. by rewrite IH by lia.
Qed.

Lemma set_result_packet c l s : 0 <= c < 256 -> (length (packet_data l) <= 255)%nat ->
  Forall (fun t => (length t <= 255)%nat) l -> result (set_result c l s) = make_packet c l.
Proof.
  intros Hc Hd Hl. unfold set_result. cbn [result emit].
  change (result (emit ?e ?x)) with (result x). cbn [result].
  rewrite put_strings_all by (done || lia). unfold make_packet. by rewrite !u8_id by lia.
Qed.

(** What the scan's rows take fits the room they were given. *)
Lemma scan_rows_fit fuel room nets : Forall (fun n => (length (fst (fst n)) <= 32)%nat) nets ->
  (length (packet_data (scan_rows fuel room nets)) <= room)%nat /\
  Forall (fun t => (length t <= 255)%nat) (scan_rows fuel room nets) /\
  (length (scan_rows fuel room nets) <= 3 * fuel)%nat.
Proof.
  intros Hn. revert fuel room. induction Hn as [|[[ssid signal] sec] nets Hs _ IH]; intros fuel room.
  { by destruct fuel; cbn; split_and!; [lia|constructor|lia|lia|constructor|lia]. }
  destruct fuel as [|fuel]; [by cbn; split_and!; [lia|constructor|lia]|].
  cbn [scan_rows fst] in *. case_match eqn:Hw; [|apply (IH (S fuel))].
  assert (length l <= 4)%nat as Hlw by (repeat case_match; simplify_eq; cbn; lia).
  set (rssi := strcap 8 (dec signal)). assert (length rssi <= 7)%nat as Hr by (subst rssi; unfold strcap; rewrite length_take; lia).
  destruct (Nat.ltb_spec room (3 + length ssid + length rssi + length l)); [by cbn; split_and!; [lia|constructor|lia]|].
  destruct (IH fuel (room - (3 + length ssid + length rssi + length l))%nat) as (I1 & I2 & I3).
  set (rest := scan_rows fuel _ nets) in *. split_and!.
  - unfold packet_data in *. cbn [mbind list_bind]. cbn [length app] in *.
    rewrite !length_app. cbn [length]. rewrite !length_app. cbn [length]. rewrite !length_app. lia.
  - constructor; [lia|]. constructor; [lia|]. constructor; [lia|done].
  - cbn [length]. lia.
Qed.

(** The answer to a scan, as the phone takes it apart: exactly the rows the
    networks were put into, three strings each, nothing cut off. *)
Theorem scan_answer_reads_back (nets : list (bytes * Z * bytes)) (s : improv) :
  Forall (fun n => (length (fst (fst n)) <= 32)%nat) nets ->
  packet_strings (result (scan_answer nets s)) 96 = Some (scan_rows 32 255 nets).
Proof.
  intros Hn. destruct (scan_rows_fit 32 255 nets Hn) as (H1 & H2 & H3). unfold scan_answer.
  rewrite set_result_packet by (done || (unfold CMD_SCAN; lia)). by apply packet_strings_made.
Qed.

Lemma scan_answer_reads_back_witness :
  Forall (fun n => (length (fst (fst n)) <= 32)%nat) [(str "home", -61, str "psk"); (str "cafe", -70, str "wep"); (str "x", -80, str "open")] /\
  packet_strings (result (scan_answer [(str "home", -61, str "psk"); (str "cafe", -70, str "wep"); (str "x", -80, str "open")] (improv0 0))) 96
  = Some [str "home"; str "-61"; str "WPA2"; str "x"; str "-80"; str "NO"].
Proof.
  assert (Forall (fun n => (length (fst (fst n)) <= 32)%nat) [(str "home", -61, str "psk"); (str "cafe", -70, str "wep"); (str "x", -80, str "open")]) as H
    by (repeat constructor; cbn; lia).
  split; [exact H|]. exact (scan_answer_reads_back _ (improv0 0) H).
Defined.

(** *** Advertising fits Bluetooth's 31 bytes, and the name is not cut inside a character *)
Lemma cut_back_spec name k :
  (cut_back name k <= k)%nat /\ (cut_back name k = O \/ Z.land (nth (cut_back name k) name 0) 0xc0 <> 0x80).
Proof.
  induction k as [|k [IH1 IH2]]; [by split; [|left]|]. cbn [cut_back].
  destruct (Z.eqb_spec (Z.land (nth (S k) name 0) 0xc0) 0x80) as [E|E]; [split; [lia|done]|]. split; [lia|by right].
Qed.

Lemma advertise_fits name s : mode s <> M_OFF -> exists a r,
  trace (advertise name s) = trace s ++ [Advertise (Some (a, r))] /\ length a = 31%nat /\ (length r <= 31)%nat.
Proof.
  intros Hm. unfold advertise. rewrite (proj2 (Z.eqb_neq _ _) Hm). eexists _, _. split; [done|]. split; [done|].
  cbn [length]. rewrite length_take. destruct (cut_back_spec name 29). destruct (Nat.ltb_spec 29 (length name)); lia.
Qed.
