(* ===== verification/Buttons.v ===== *)
(** * Buttons: presses, holds and pairs of keys, and the microphone mute (buttons.c)
    A reader's variables are a record; a turn of its loop looks at the stages that are due
    and then takes one input event or wakes.  Calls of the handler are the output.  The
    mute state shared by the readers is a second record; the latch the kernel shows, the
    clock and the state of the keys are arguments.  Times are ms of the monotonic clock. *)
From S2P Require Import Prelude Cbits.

Definition SHORT_PRESS_MS : Z := 1000.
Definition COMBO_MS : Z := 2000.
Definition CHORD_MS : Z := 400.
(** HOLD_WARN_MS and HOLD_RESET_MS, which HASSMIC_HOLD_TIMES sets *)
Record hold_times := mk_hold_times { HOLD_WARN_MS : Z; HOLD_RESET_MS : Z }.
Definition default_holds : hold_times := mk_hold_times 5000 10000.

(** Linux's input codes; the keys' own numbers play no part *)
Inductive key := KEY_HELP | KEY_MUTE | KEY_VOLUMEUP | KEY_VOLUMEDOWN | KEY_OTHER.
Record input_event := mk_input_event { ev_key : bool; code : key; value : Z }.   (* type == EV_KEY *)

Inductive button := BUTTON_ACTION | BUTTON_VOLUME_UP | BUTTON_VOLUME_DOWN.
Definition volume_button (k : bool) : button := if k then BUTTON_VOLUME_DOWN else BUTTON_VOLUME_UP.

(** The handler's functions; which are set *)
Inductive call :=
  | Action | Volume (d : Z) | MuteChanged (on : bool) | Pair | Hold (n : Z) | Event (b : button) (held : bool).
Record button_handler := mk_button_handler {
  h_action : bool; h_volume : bool; h_mute_changed : bool; h_pair : bool; h_hold : bool; h_event : bool }.

Definition calls (set : bool) (c : call) : list call := if set then [c] else [].

(** ** The mute latch *)
Record mute := mk_mute { muted_state : bool; early_until : Z; early_state : bool }.

Section buttons.
Context (HT : hold_times) (H : button_handler) (action_combo : bool) (privacy_settle_ms : Z).
Context (have_latch : bool).

(** [latch]: what latch_read gives; [t]: now_ms *)
Definition buttons_muted (latch : bool) (t : Z) (m : mute) : bool :=
  if negb have_latch then muted_state m
  else if negb (early_until m =? 0) && (t <? early_until m) then early_state m else latch.

Definition report (now : bool) (m : mute) : list call * mute :=
  if Bool.eqb now (muted_state m) then ([], m)
  else (calls (h_mute_changed H) (MuteChanged now), m <| muted_state := now |>).

Definition latch_check (latch : bool) (t : Z) (m : mute) : list call * mute :=
  let now := if have_latch then latch else buttons_muted latch t m in
  if negb (early_until m =? 0) then
    if Bool.eqb now (muted_state m) || (early_until m <=? t) then report now (m <| early_until := 0 |>)
    else ([], m)
  else report now m.

Definition early_press (t : Z) (m : mute) : list call * mute :=
  if early_until m =? 0 then
    let on := negb (muted_state m) in
    (calls (h_mute_changed H) (MuteChanged on),
     m <| muted_state := on |> <| early_state := on |> <| early_until := t + privacy_settle_ms |>)
  else ([], m).

Definition button_reader (ev : input_event) (t : Z) (m : mute) : list call * mute :=
  if ev_key ev && (value ev =? 1) then early_press t m else ([], m).

(** The mute key: the latch 0.1 s later, or toggled and reported *)
Definition mute_key (latch : bool) (t : Z) (m : mute) : list call * mute :=
  if negb (h_mute_changed H) then ([], m)
  else if have_latch then latch_check latch t m
  else ([MuteChanged (negb (muted_state m))], m <| muted_state := negb (muted_state m) |>).

(** ** A reader *)
Record reader := mk_reader {
  action_down : Z; vol_down : bool -> Z;                    (* false: up, true: down *)
  combo_done : bool; held : Z; action_told : bool; vol_told : bool -> bool }.

Definition reader0 : reader := mk_reader 0 (fun _ => 0) false 0 false (fun _ => false).

Definition upd {A} (k : bool) (v : A) (f : bool -> A) : bool -> A := fun j => if Bool.eqb j k then v else f j.
Definition down (r : reader) (k : bool) : bool := negb (vol_down r k =? 0).

(** The stages due at [now], by the clock *)
Definition stage_action (now : Z) (r : reader) : list call * reader :=
  if action_down r =? 0 then ([], r) else
  let t := now - action_down r in
  let '(c1, r) :=
    if negb (action_told r) && (SHORT_PRESS_MS <=? t)
    then (calls (h_event H) (Event BUTTON_ACTION true), r <| action_told := true |>) else ([], r) in
  let '(c2, r) :=
    if h_hold H && (held r <? 2) && ((if held r =? 0 then HOLD_WARN_MS HT else HOLD_RESET_MS HT) <=? t)
    then ([Hold (held r + 1)], r <| held := held r + 1 |>) else ([], r) in
  (c1 ++ c2, r).

Definition stage_volume (now : Z) (k : bool) (r : reader) : list call * reader :=
  if down r k && negb (vol_told r k) && (SHORT_PRESS_MS <=? now - vol_down r k)
  then (calls (h_event H) (Event (volume_button k) true), r <| vol_told := upd k true (vol_told r) |>)
  else ([], r).

Definition stages (now : Z) (r : reader) : list call * reader :=
  let '(c1, r) := stage_action now r in
  let '(c2, r) := stage_volume now false r in
  let '(c3, r) := stage_volume now true r in
  (c1 ++ c2 ++ c3, r).

(** When the loop wakes by itself; [-1]: never *)
Definition next (r : reader) : Z :=
  let n := if action_down r =? 0 then -1
           else if negb (action_told r) then action_down r + SHORT_PRESS_MS
           else if h_hold H && (held r <? 2) then action_down r + (if held r =? 0 then HOLD_WARN_MS HT else HOLD_RESET_MS HT)
           else -1 in
  let by_key n k := if down r k && negb (vol_told r k) && ((n <? 0) || (vol_down r k + SHORT_PRESS_MS <? n))
                    then vol_down r k + SHORT_PRESS_MS else n in
  by_key (by_key n false) true.

Definition action_key (v now : Z) (r : reader) : list call * reader :=
  if v =? 1 then ([], r <| action_down := now |> <| held := 0 |> <| action_told := false |>)
  else if v =? 0 then
    let c1 :=
      if negb (action_down r =? 0) && (now - action_down r <? SHORT_PRESS_MS) then calls (h_action H) Action
      else if negb (action_down r =? 0) && negb (action_told r) then calls (h_event H) (Event BUTTON_ACTION true) else [] in
    (c1 ++ (if held r =? 1 then calls (h_hold H) (Hold 0) else []), r <| action_down := 0 |> <| held := 0 |>)
  else ([], r).

(** [k]: the volume-down key *)
Definition volume_key (k : bool) (v now : Z) (r : reader) : list call * reader :=
  let '(c1, r) :=
    if v =? 1 then
      let r := r <| vol_down := upd k now (vol_down r) |> <| vol_told := upd k false (vol_told r) |> in
      ([], if down r (negb k) then r <| vol_told := fun _ => true |> else r)
    else if v =? 0 then
      let a := vol_down r false in let b := vol_down r true in
      let c1 := if action_combo && down r false && down r true && negb (combo_done r) && (Z.abs (a - b) <=? CHORD_MS)
                   && (now - Z.max a b <? SHORT_PRESS_MS) then calls (h_action H) Action else [] in
      let c2 := if down r k && negb (vol_told r k) then
                  let held := SHORT_PRESS_MS <=? now - vol_down r k in
                  (if held then [] else calls (h_volume H) (Volume (if k then -1 else 1))) ++
                  calls (h_event H) (Event (volume_button k) held)
                else [] in
      (c1 ++ c2, r <| vol_down := upd k 0 (vol_down r) |> <| combo_done := false |>)
    else ([], r) in
  if down r false && down r true && negb (combo_done r) && (COMBO_MS <=? now - Z.max (vol_down r false) (vol_down r true))
     && h_pair H
  then (c1 ++ [Pair], r <| combo_done := true |>) else (c1, r).

(** One event; the mute key is the only one that concerns [m]. *)
Definition key_event (ev : input_event) (now : Z) (latch : bool) (rm : reader * mute) : list call * (reader * mute) :=
  let '(r, m) := rm in
  if negb (ev_key ev) then ([], rm) else
  match code ev with
  | KEY_HELP => let '(c, r) := action_key (value ev) now r in (c, (r, m))
  | KEY_MUTE => if value ev =? 0 then let '(c, m) := mute_key latch now m in (c, (r, m)) else ([], rm)
  | KEY_VOLUMEUP => let '(c, r) := volume_key false (value ev) now r in (c, (r, m))
  | KEY_VOLUMEDOWN => let '(c, r) := volume_key true (value ev) now r in (c, (r, m))
  | KEY_OTHER => ([], rm)
  end.

(** A turn of the loop: the clock at its start and, unless it woke for a stage, the event
    with the clock and the latch when it was read *)
Record pass := mk_pass { p_now : Z; p_event : option (input_event * Z * bool) }.

Definition reader_turn (p : pass) (rm : reader * mute) : list call * (reader * mute) :=
  let '(r, m) := rm in
  let '(c1, r) := stages (p_now p) r in
  match p_event p with
  | None => (c1, (r, m))
  | Some (ev, now, latch) => let '(c2, rm) := key_event ev now latch (r, m) in (c1 ++ c2, rm)
  end.

Fixpoint reader_run (ps : list pass) (rm : reader * mute) : list call * (reader * mute) :=
  match ps with
  | [] => ([], rm)
  | p :: ps => let '(c1, rm) := reader_turn p rm in let '(c2, rm) := reader_run ps rm in (c1 ++ c2, rm)
  end.

(** privacy_reader: any event of the latch's own device but a separator *)
Definition privacy_reader (syn : bool) (latch : bool) (t : Z) (m : mute) : list call * mute :=
  if syn then ([], m) else latch_check latch t m.
End buttons.

(** ** Grabbing the keys *)
(** The code of the first key down in EVIOCGKEY's bits, 0 if none, -1 if the device cannot say *)
Fixpoint ctz (fuel : nat) (b : Z) : Z :=
  match fuel with
  | O => 0
  | S fuel => if Z.odd b then 0 else 1 + ctz fuel (b / 2)
  end.
Definition key_down (keys : option bytes) : Z :=
  match keys with
  | None => -1
  | Some keys =>
      match find_index (fun b => negb (b =? 0)) keys with
      | Some i => Z.of_nat i * 8 + ctz 8 (nth i keys 0)
      | None => 0
      end
  end.

(** What the device answers to the loop's requests: the keys, and whether a grab worked *)
Record look := mk_look { before : option bytes; grab_ok : bool; after : option bytes }.
Inductive grabbed := Grabbed | NotGrabbed | Waiting.

(** One element per turn of the loop; [Waiting] when the looks run out *)
Fixpoint grab_loop (looks : list look) : grabbed :=
  match looks with
  | [] => Waiting
  | l :: looks =>
      if key_down (before l) <=? 0 then
        if negb (grab_ok l) then NotGrabbed
        else if key_down (after l) <=? 0 then Grabbed else grab_loop looks
      else grab_loop looks
  end.
Definition grab (grab_keys : bool) (looks : list look) : grabbed := if grab_keys then grab_loop looks else NotGrabbed.
