(* ===== verification/ButtonsRun.v ===== *)
(** * Buttons: what a press, a hold and a pair come to; the mute state's reports *)
From S2P Require Import Prelude Cbits Buttons.

Definition is_press (c : call) : bool := match c with Action | Event BUTTON_ACTION _ => true | _ => false end.
Definition is_hold (c : call) : bool := match c with Hold _ => true | _ => false end.
Definition is_step (c : call) : bool :=
  match c with Volume _ | Event BUTTON_VOLUME_UP _ | Event BUTTON_VOLUME_DOWN _ => true | _ => false end.

(** The action key's own events, key repeats apart *)
Definition action_event (p : pass) : Prop :=
  match p_event p with
  | Some (ev, _, _) => ev_key ev = true /\ code ev = KEY_HELP /\ (value ev = 0 \/ value ev = 1)
  | None => False
  end.
Definition help (v : Z) : input_event := mk_input_event true KEY_HELP v.
Definition pass_of (now : Z) (ev : input_event) (t : Z) : pass := mk_pass now (Some (ev, t, false)).

Lemma filter_calls (f : call -> bool) set c : f c = false -> filter f (calls set c) = [].
Proof. intros Hf. unfold calls. destruct set; [|done]. cbn. by rewrite Hf. Qed.

Section run.
Context (HT : hold_times) (H : button_handler) (have_latch : bool).
Local Abbreviation reader_turn := (reader_turn HT H false have_latch).
Local Abbreviation reader_run := (reader_run HT H false have_latch).
Local Abbreviation volume_key := (volume_key H false).

(** Nothing but the action key makes its calls (without board.action_combo) or moves its variables. *)
Definition same_action (r r' : reader) : Prop :=
  action_down r' = action_down r /\ held r' = held r /\ action_told r' = action_told r.

Lemma stage_volume_action now k r :
  let '(c, r') := stage_volume H now k r in
  filter is_press c = [] /\ filter is_hold c = [] /\ same_action r r'.
Proof. unfold stage_volume, same_action, calls. destruct k; repeat case_match; simplify_eq; cbn; done. Qed.

Lemma volume_key_action k v now r :
  let '(c, r') := volume_key k v now r in
  filter is_press c = [] /\ filter is_hold c = [] /\ same_action r r'.
Proof.
  unfold Buttons.volume_key, same_action, calls. cbn [andb]. destruct k; repeat case_match; simplify_eq; cbn;
    rewrite ?list.filter_app; cbn; done.
Qed.

Lemma mute_key_calls latch t m :
  let '(c, _) := mute_key H have_latch latch t m in
  filter is_press c = [] /\ filter is_hold c = [] /\ filter is_step c = [].
Proof.
  unfold mute_key, latch_check, report, calls. repeat case_match; simplify_eq; cbn; done.
Qed.

(** While the action key is down since [t0]: what was called so far, and that it was due by [t1] *)
Record pressed (t0 t1 : Z) (c : list call) (r : reader) : Prop := {
  pr_down : action_down r = t0;
  pr_told : filter is_press c = (if action_told r then calls (h_event H) (Event BUTTON_ACTION true) else []);
  pr_late : action_told r = true -> t0 + SHORT_PRESS_MS <= t1;
  pr_held : (held r = 0 /\ filter is_hold c = []) \/
            (held r = 1 /\ filter is_hold c = [Hold 1] /\ t0 + HOLD_WARN_MS HT <= t1 /\ h_hold H = true) \/
            (held r = 2 /\ filter is_hold c = [Hold 1; Hold 2] /\ t0 + HOLD_RESET_MS HT <= t1 /\ h_hold H = true) }.

Lemma pressed_same t0 t1 c c' r r' : pressed t0 t1 c r -> filter is_press c' = [] -> filter is_hold c' = [] ->
  same_action r r' -> pressed t0 t1 (c ++ c') r'.
Proof.
  intros [P1 P2 P3 P4] Hp Hh (E1 & E2 & E3).
  split; rewrite ?list.filter_app, ?Hp, ?Hh, ?app_nil_r, ?E1, ?E2, ?E3; done.
Qed.

Lemma stage_action_pressed t0 t1 now c r : t0 <> 0 -> now <= t1 -> pressed t0 t1 c r ->
  let '(c', r') := stage_action HT H now r in pressed t0 t1 (c ++ c') r'.
Proof.
  intros Ht0 Hn Hp. pose proof Hp as [P1 P2 P3 P4]. unfold stage_action. rewrite P1. destruct (Z.eqb_spec t0 0) as [|_]; [done|].
  set (fire := negb (action_told r) && (SHORT_PRESS_MS <=? now - t0)).
  assert (exists c1 r1, (if fire then (calls (h_event H) (Event BUTTON_ACTION true), r <| action_told := true |>) else ([], r)) = (c1, r1) /\
    pressed t0 t1 (c ++ c1) r1) as (c1 & r1 & -> & [Q1 Q2 Q3 Q4]).
  { subst fire. destruct (action_told r) eqn:Ht, (Z.leb_spec SHORT_PRESS_MS (now - t0)); cbn [negb andb];
      eexists _, _; (split; [done|]); try (rewrite app_nil_r; exact Hp).
    split; cbn; try done.
    - rewrite list.filter_app, P2. unfold calls. by destruct (h_event H).
    - lia.
    - rewrite list.filter_app, (filter_calls is_hold) by done. by rewrite app_nil_r. }
  assert (pressed t0 t1 (c ++ c1) r1) as Hp1 by by split.
  destruct (h_hold H) eqn:Eh; cbn [andb]; [|by rewrite app_nil_r].
  destruct Q4 as [[E1 E2]|[(E1 & E2 & E3 & _)|(E1 & E2 & E3 & _)]]; rewrite E1; cbn [Z.eqb Z.ltb Z.compare Pos.compare Pos.compare_cont andb].
  - destruct (Z.leb_spec (HOLD_WARN_MS HT) (now - t0)); [|by rewrite app_nil_r].
    rewrite app_assoc. split; [exact Q1|by rewrite list.filter_app, Q2, app_nil_r|exact Q3|].
    rewrite list.filter_app, E2. cbn. right; left. split_and!; (done || lia).
  - destruct (Z.leb_spec (HOLD_RESET_MS HT) (now - t0)); [|by rewrite app_nil_r].
    rewrite app_assoc. split; [exact Q1|by rewrite list.filter_app, Q2, app_nil_r|exact Q3|].
    rewrite list.filter_app, E2. cbn. right; right. split_and!; (done || lia).
  - by rewrite app_nil_r.
Qed.

Lemma stages_pressed t0 t1 now c r : t0 <> 0 -> now <= t1 -> pressed t0 t1 c r ->
  let '(c', r') := stages HT H now r in pressed t0 t1 (c ++ c') r'.
Proof.
  intros Ht0 Hn Hp. unfold stages. pose proof (stage_action_pressed t0 t1 now c r Ht0 Hn Hp) as H1.
  destruct (stage_action HT H now r) as [c1 r1].
  pose proof (stage_volume_action now false r1) as H2. destruct (stage_volume H now false r1) as [c2 r2].
  pose proof (stage_volume_action now true r2) as H3. destruct (stage_volume H now true r2) as [c3 r3].
  destruct H2 as (? & ? & ?), H3 as (? & ? & ?). rewrite !app_assoc.
  apply (pressed_same _ _ _ _ r2); [by apply (pressed_same _ _ _ _ r1)|done..].
Qed.

Lemma key_event_pressed t0 t1 ev now latch c r m : pressed t0 t1 c r ->
  ~ (ev_key ev = true /\ code ev = KEY_HELP /\ (value ev = 0 \/ value ev = 1)) ->
  let '(c', (r', _)) := key_event H false have_latch ev now latch (r, m) in pressed t0 t1 (c ++ c') r'.
Proof.
  intros Hp Hne. unfold key_event. destruct (ev_key ev); cbn [negb]; [|by rewrite app_nil_r].
  destruct (code ev).
  - unfold action_key. destruct (Z.eqb_spec (value ev) 1); [naive_solver|]. destruct (Z.eqb_spec (value ev) 0); [naive_solver|].
    by rewrite app_nil_r.
  - destruct (value ev =? 0); [|by rewrite app_nil_r]. pose proof (mute_key_calls latch now m) as Hm.
    destruct (mute_key H have_latch latch now m).
    destruct Hm as (Ha & Hb & _). by apply (pressed_same _ _ _ _ r).
  - pose proof (volume_key_action false (value ev) now r) as Hv. destruct (Buttons.volume_key H false false _ _ r).
    destruct Hv as (Ha & Hb & Hs). by apply (pressed_same _ _ _ _ r).
  - pose proof (volume_key_action true (value ev) now r) as Hv. destruct (Buttons.volume_key H false true _ _ r).
    destruct Hv as (Ha & Hb & Hs). by apply (pressed_same _ _ _ _ r).
  - by rewrite app_nil_r.
Qed.

Lemma run_pressed t0 t1 ps c r m : t0 <> 0 -> Forall (fun p => p_now p <= t1 /\ ~ action_event p) ps -> pressed t0 t1 c r ->
  let '(c', (r', _)) := reader_run ps (r, m) in pressed t0 t1 (c ++ c') r'.
Proof.
  intros Ht0 Hps. revert c r m. induction Hps as [|p ps [Hn Hp] _ IH]; intros c r m Hpr; [by cbn; rewrite app_nil_r|].
  cbn [Buttons.reader_run]. unfold Buttons.reader_turn.
  pose proof (stages_pressed t0 t1 (p_now p) c r Ht0 Hn Hpr) as H1. destruct (stages HT H (p_now p) r) as [c1 r1].
  unfold action_event in Hp. destruct (p_event p) as [[[ev now] latch]|].
  - pose proof (key_event_pressed t0 t1 ev now latch _ r1 m H1 Hp) as H2.
    destruct (key_event H false have_latch ev now latch (r1, m)) as [c2 [r2 m2]].
    specialize (IH _ _ m2 H2). destruct (Buttons.reader_run _ _ _ _ ps (r2, m2)) as [c3 [r3 m3]].
    by rewrite !app_assoc in *.
  - specialize (IH _ _ m H1). destruct (Buttons.reader_run _ _ _ _ ps (r1, m)) as [c3 [r3 m3]].
    by rewrite !app_assoc in *.
Qed.

Lemma reader_run_app ps qs rm :
  reader_run (ps ++ qs) rm =
  let '(c1, rm1) := reader_run ps rm in let '(c2, rm2) := reader_run qs rm1 in (c1 ++ c2, rm2).
Proof.
  revert rm. induction ps as [|p ps IH]; intros rm; cbn [app Buttons.reader_run].
  - by destruct (Buttons.reader_run _ _ _ _ qs rm).
  - destruct (reader_turn p rm) as [c1 rm1]. rewrite IH. destruct (Buttons.reader_run _ _ _ _ ps rm1) as [c2 rm2].
    destruct (Buttons.reader_run _ _ _ _ qs rm2) as [c3 rm3]. by rewrite app_assoc.
Qed.

Lemma press_starts n0 t0 t1 r m : action_down r = 0 ->
  let '(c, (r', _)) := reader_turn (pass_of n0 (help 1) t0) (r, m) in pressed t0 t1 c r'.
Proof.
  intros Hd. unfold Buttons.reader_turn, pass_of. cbn [p_now p_event]. unfold stages, stage_action. rewrite Hd, Z.eqb_refl.
  pose proof (stage_volume_action n0 false r) as H1. destruct (stage_volume H n0 false r) as [c1 r1].
  pose proof (stage_volume_action n0 true r1) as H2. destruct (stage_volume H n0 true r1) as [c2 r2].
  destruct H1 as (A1 & B1 & _), H2 as (A2 & B2 & _). cbn.
  split; cbn; rewrite ?app_nil_r, ?list.filter_app, ?A1, ?A2, ?B1, ?B2; naive_solver.
Qed.

Lemma release_ends n1 t0 t1 c r m : t0 <> 0 -> n1 <= t1 -> pressed t0 t1 c r ->
  let out := c ++ fst (reader_turn (pass_of n1 (help 0) t1) (r, m)) in
  filter is_press out =
    (if t1 - t0 <? SHORT_PRESS_MS then calls (h_action H) Action else calls (h_event H) (Event BUTTON_ACTION true)) /\
  (filter is_hold out = [] \/
   (filter is_hold out = [Hold 1; Hold 0] /\ HOLD_WARN_MS HT <= t1 - t0) \/
   (filter is_hold out = [Hold 1; Hold 2] /\ HOLD_RESET_MS HT <= t1 - t0)).
Proof.
  intros Ht0 Hn Hp. cbv zeta. unfold Buttons.reader_turn, pass_of. cbn [p_now p_event].
  pose proof (stages_pressed t0 t1 n1 c r Ht0 Hn Hp) as H1. destruct (stages HT H n1 r) as [c1 r1].
  unfold key_event, help. cbn [ev_key code value negb]. unfold action_key. cbn [Z.eqb].
  destruct H1 as [P1 P2 P3 P4]. rewrite P1. destruct (Z.eqb_spec t0 0) as [|_]; [done|]. cbn [negb andb fst].
  rewrite (app_assoc c c1). set (c0 := c ++ c1) in *. clearbody c0.
  rewrite !list.filter_app, P2. split.
  - assert (filter is_press (if held r1 =? 1 then calls (h_hold H) (Hold 0) else []) = []) as ->
      by (destruct (held r1 =? 1); [by apply filter_calls|done]).
    rewrite app_nil_r. destruct (action_told r1) eqn:Et; cbn [negb].
    + specialize (P3 eq_refl). destruct (Z.ltb_spec (t1 - t0) SHORT_PRESS_MS); [lia|]. by rewrite app_nil_r.
    + destruct (t1 - t0 <? SHORT_PRESS_MS); unfold calls; by destruct (h_action H), (h_event H).
  - assert (filter is_hold (if t1 - t0 <? SHORT_PRESS_MS then calls (h_action H) Action
      else if negb (action_told r1) then calls (h_event H) (Event BUTTON_ACTION true) else []) = []) as ->
      by (destruct (_ <? SHORT_PRESS_MS), (negb (action_told r1)); try done; by apply filter_calls).
    destruct P4 as [[E1 E2]|[(E1 & E2 & E3 & E4)|(E1 & E2 & E3 & E4)]]; rewrite E1, E2; cbn [Z.eqb Pos.eqb app].
    + by left.
    + right; left. rewrite E4. split; [done|lia].
    + right; right. split; [done|lia].
Qed.
End run.

(** One press of the action button, from t0 to t1, with anything else going on between: let
    go within the second it is the action, and held longer it is told as held, in either
    case exactly once; a warned hold is always taken back or carried out, and the reset is
    called only after the full hold. *)
Theorem action_press_told_once (HT : hold_times) (H : button_handler) (have_latch : bool) (t0 t1 n0 n1 : Z) ps r m :
  t0 <> 0 -> action_down r = 0 -> n1 <= t1 -> Forall (fun p => p_now p <= t1 /\ ~ action_event p) ps ->
  let out := fst (reader_run HT H false have_latch (pass_of n0 (help 1) t0 :: ps ++ [pass_of n1 (help 0) t1]) (r, m)) in
  filter is_press out =
    (if t1 - t0 <? SHORT_PRESS_MS then calls (h_action H) Action else calls (h_event H) (Event BUTTON_ACTION true)) /\
  (filter is_hold out = [] \/
   (filter is_hold out = [Hold 1; Hold 0] /\ HOLD_WARN_MS HT <= t1 - t0) \/
   (filter is_hold out = [Hold 1; Hold 2] /\ HOLD_RESET_MS HT <= t1 - t0)).
Proof.
  intros Ht0 Hd Hn1 Hps. cbv zeta. cbn [reader_run].
  pose proof (press_starts HT H have_latch n0 t0 t1 r m Hd) as H0.
  destruct (reader_turn HT H false have_latch _ (r, m)) as [c0 [r0 m0]]. rewrite reader_run_app.
  pose proof (run_pressed HT H have_latch t0 t1 ps c0 r0 m0 Ht0 Hps H0) as H1.
  destruct (reader_run HT H false have_latch ps (r0, m0)) as [c1 [r1 m1]].
  pose proof (release_ends HT H have_latch n1 t0 t1 _ r1 m1 Ht0 Hn1 H1) as H2. cbv zeta in H2. cbn [reader_run].
  destruct (reader_turn HT H false have_latch _ (r1, m1)) as [c2 [r2 m2]]. cbn [fst] in *.
  by rewrite app_nil_r, app_assoc.
Qed.

Definition all_set : button_handler := mk_button_handler true true true true true true.

Lemma action_press_told_once_witness :
  let ps := [mk_pass 2000 None; pass_of 2100 (mk_input_event true KEY_VOLUMEUP 1) 2150; mk_pass 3150 None; mk_pass 6100 None] in
  (action_down reader0 = 0 /\
   Forall (fun p => p_now p <= 7000 /\ ~ action_event p) ps) /\
  let out := fst (reader_run default_holds all_set false true (pass_of 900 (help 1) 1000 :: ps ++ [pass_of 6900 (help 0) 7000])
                    (reader0, mk_mute false 0 false)) in
  filter is_press out = (if 7000 - 1000 <? SHORT_PRESS_MS then calls true Action else calls true (Event BUTTON_ACTION true)) /\
  (filter is_hold out = [] \/
   (filter is_hold out = [Hold 1; Hold 0] /\ HOLD_WARN_MS default_holds <= 7000 - 1000) \/
   (filter is_hold out = [Hold 1; Hold 2] /\ HOLD_RESET_MS default_holds <= 7000 - 1000)).
Proof.
  intros ps. assert (Forall (fun p => p_now p <= 7000 /\ ~ action_event p) ps) as Hps.
  { unfold ps, action_event. repeat (constructor; [split; [cbn; lia|cbn; naive_solver]|]). constructor. }
  split; [split; [done|exact Hps]|].
  apply (action_press_told_once default_holds all_set true 1000 7000 900 6900 ps reader0 (mk_mute false 0 false));
    [lia|done|lia|exact Hps].
Defined.

(** *** Both volume keys at once *)
Definition volume_press (p : pass) : Prop :=
  match p_event p with
  | Some (ev, _, _) => ev_key ev = true /\ (code ev = KEY_VOLUMEUP \/ code ev = KEY_VOLUMEDOWN) /\ value ev = 1
  | None => False
  end.
Definition both_told (r : reader) : Prop := forall k, vol_told r k = true.

Section pair.
Context (HT : hold_times) (H : button_handler) (action_combo have_latch : bool).
Local Abbreviation volume_key := (volume_key H action_combo).

Lemma stages_told now r : both_told r ->
  let '(c, r') := stages HT H now r in filter is_step c = [] /\ both_told r'.
Proof.
  intros Hr. unfold stages. assert (forall k x, both_told x -> stage_volume H now k x = ([], x)) as Hv.
  { intros k x Hx. unfold stage_volume. by rewrite (Hx k), andb_false_r. }
  assert (let '(c, r') := stage_action HT H now r in filter is_step c = [] /\ both_told r') as Ha.
  { unfold stage_action, calls. repeat case_match; simplify_eq; cbn; done. }
  destruct (stage_action HT H now r) as [c1 r1]. destruct Ha as [Ha1 Ha2]. rewrite !Hv by done. by rewrite !app_nil_r.
Qed.

Lemma volume_key_told k v now r : both_told r -> v <> 1 ->
  let '(c, r') := volume_key k v now r in filter is_step c = [] /\ both_told r'.
Proof.
  intros Hr Hv. unfold Buttons.volume_key, calls. rewrite (Hr k), andb_false_r.
  destruct (Z.eqb_spec v 1); [done|]. repeat case_match; simplify_eq; cbn; done.
Qed.

Lemma key_event_told ev now latch r m : both_told r ->
  ~ (ev_key ev = true /\ (code ev = KEY_VOLUMEUP \/ code ev = KEY_VOLUMEDOWN) /\ value ev = 1) ->
  let '(c, (r', _)) := key_event H action_combo have_latch ev now latch (r, m) in filter is_step c = [] /\ both_told r'.
Proof.
  intros Hr Hne. unfold key_event. destruct (ev_key ev); cbn [negb]; [|done]. destruct (code ev).
  - unfold action_key, calls. repeat case_match; simplify_eq; cbn; done.
  - destruct (value ev =? 0); [|done]. pose proof (mute_key_calls H have_latch latch now m) as Hm.
    destruct (mute_key H have_latch latch now m). naive_solver.
  - pose proof (volume_key_told false (value ev) now r Hr) as Hk. destruct (Buttons.volume_key H action_combo false _ _ r).
    apply Hk. naive_solver.
  - pose proof (volume_key_told true (value ev) now r Hr) as Hk. destruct (Buttons.volume_key H action_combo true _ _ r).
    apply Hk. naive_solver.
  - done.
Qed.

Lemma run_told ps r m : both_told r -> Forall (fun p => ~ volume_press p) ps ->
  filter is_step (fst (reader_run HT H action_combo have_latch ps (r, m))) = [].
Proof.
  intros Hr Hps. revert r m Hr. induction Hps as [|p ps Hp _ IH]; intros r m Hr; [done|].
  cbn [reader_run]. unfold reader_turn. pose proof (stages_told (p_now p) r Hr) as H1.
  destruct (stages HT H (p_now p) r) as [c1 r1]. destruct H1 as [H1 Hr1]. unfold volume_press in Hp.
  destruct (p_event p) as [[[ev now] latch]|].
  - pose proof (key_event_told ev now latch r1 m Hr1 Hp) as H2.
    destruct (key_event H action_combo have_latch ev now latch (r1, m)) as [c2 [r2 m2]]. destruct H2 as [H2 Hr2].
    specialize (IH r2 m2 Hr2). destruct (reader_run HT H action_combo have_latch ps (r2, m2)). cbn [fst] in *.
    by rewrite !list.filter_app, H1, H2, IH.
  - specialize (IH r1 m Hr1). destruct (reader_run HT H action_combo have_latch ps (r1, m)). cbn [fst] in *.
    by rewrite list.filter_app, H1, IH.
Qed.
End pair.

(** A volume key pressed while the other is down makes a pair: from then until a volume key
    goes down again there is no volume step and no press or hold of a volume key to tell. *)
Theorem pair_changes_nothing (HT : hold_times) (H : button_handler) (action_combo have_latch k : bool) (now : Z)
    (r : reader) (m : mute) (ps : list pass) :
  down r (negb k) = true -> Forall (fun p => ~ volume_press p) ps ->
  let '(c, r') := volume_key H action_combo k 1 now r in
  filter is_step (c ++ fst (reader_run HT H action_combo have_latch ps (r', m))) = [].
Proof.
  intros Hd Hps. unfold volume_key. cbn [Z.eqb Pos.eqb].
  assert (down (r <| vol_down := upd k now (vol_down r) |> <| vol_told := upd k false (vol_told r) |>) (negb k) = true) as ->.
  { revert Hd. unfold down, upd. cbn. by destruct k. }
  match goal with |- context [if ?c then _ else _] => destruct c end.
  all: rewrite list.filter_app, (run_told HT H action_combo have_latch ps _ m); (done || by intros j).
Qed.

Lemma pair_changes_nothing_witness :
  (down (reader0 <| vol_down := upd false 500 (fun _ => 0) |>) (negb true) = true /\
   Forall (fun p => ~ volume_press p) [mk_pass 1600 None; pass_of 1700 (mk_input_event true KEY_VOLUMEUP 0) 1700]) /\
  filter is_step (fst (volume_key all_set false true 1 600 (reader0 <| vol_down := upd false 500 (fun _ => 0) |>)) ++
    fst (reader_run default_holds all_set false true [mk_pass 1600 None; pass_of 1700 (mk_input_event true KEY_VOLUMEUP 0) 1700]
      (snd (volume_key all_set false true 1 600 (reader0 <| vol_down := upd false 500 (fun _ => 0) |>)), mk_mute false 0 false))) = [].
Proof.
  set (r := reader0 <| vol_down := upd false 500 (fun _ => 0) |>).
  assert (Forall (fun p => ~ volume_press p) [mk_pass 1600 None; pass_of 1700 (mk_input_event true KEY_VOLUMEUP 0) 1700]) as Hps.
  { repeat constructor; unfold volume_press; cbn; naive_solver. }
  split; [by split|].
  exact (pair_changes_nothing default_holds all_set false true true 600 r (mk_mute false 0 false) _ eq_refl Hps).
Defined.

(** *** The mute state *)
Inductive mute_op := Check (latch : bool) (t : Z) | Early (t : Z) | Toggle (latch : bool) (t : Z).

Section mute_ops.
Context (H : button_handler) (privacy_settle_ms : Z) (have_latch : bool).

Definition mute_step (o : mute_op) (m : mute) : list call * mute :=
  match o with
  | Check latch t => latch_check H have_latch latch t m
  | Early t => early_press H privacy_settle_ms t m
  | Toggle latch t => mute_key H have_latch latch t m
  end.
Fixpoint mute_run (os : list mute_op) (m : mute) : list call * mute :=
  match os with
  | [] => ([], m)
  | o :: os => let '(c1, m) := mute_step o m in let '(c2, m) := mute_run os m in (c1 ++ c2, m)
  end.

Definition said (c : list call) : list bool := omap (fun x => match x with MuteChanged b => Some b | _ => None end) c.
(** Each differs from the one before; the last of all *)
Fixpoint alternates (b : bool) (l : list bool) : Prop :=
  match l with [] => True | x :: l => x = negb b /\ alternates x l end.
Definition last_of (b : bool) (l : list bool) : bool := fold_left (fun _ x => x) l b.

Lemma alternates_app b l l' : alternates b (l ++ l') <-> alternates b l /\ alternates (last_of b l) l'.
Proof. revert b. induction l as [|x l IH]; intros b; cbn; [naive_solver|]. rewrite IH. naive_solver. Qed.

Lemma mute_step_said o m : h_mute_changed H = true ->
  let '(c, m') := mute_step o m in
  alternates (muted_state m) (said c) /\ last_of (muted_state m) (said c) = muted_state m'.
Proof.
  intros Hm. unfold mute_step, mute_key, latch_check, early_press, report, calls. rewrite Hm.
  assert (forall a b, Bool.eqb a b = false -> a = negb b) as Hx by (by intros [] []).
  destruct o; repeat case_match; simplify_eq; cbn; auto.
Qed.

Lemma mute_run_said os m : h_mute_changed H = true ->
  let '(c, m') := mute_run os m in
  alternates (muted_state m) (said c) /\ last_of (muted_state m) (said c) = muted_state m'.
Proof.
  intros Hm. revert m. induction os as [|o os IH]; intros m; cbn [mute_run]; [by cbn|].
  pose proof (mute_step_said o m Hm) as H1. destruct (mute_step o m) as [c1 m1]. destruct H1 as [A1 L1].
  specialize (IH m1). destruct (mute_run os m1) as [c2 m2]. destruct IH as [A2 L2].
  unfold said, last_of in *. rewrite omap_app, fold_left_app, L1. split; [|done]. apply alternates_app.
  unfold last_of. by rewrite L1.
Qed.
End mute_ops.

(** However presses, looks at the latch and early presses follow each other, what is reported
    alternates and the last report is the state kept; once an early press has had its time,
    one look at the latch makes the latch that state. *)
Theorem mute_reports_follow (H : button_handler) (settle : Z) (have_latch : bool) os m latch t :
  h_mute_changed H = true ->
  let '(c, m') := mute_run H settle have_latch os m in
  alternates (muted_state m) (said c) /\ last_of (muted_state m) (said c) = muted_state m' /\
  (have_latch = true -> early_until m' <= t ->
   let '(c', m'') := latch_check H have_latch latch t m' in
   last_of (muted_state m) (said (c ++ c')) = latch /\ muted_state m'' = latch /\ buttons_muted have_latch latch t m'' = latch).
Proof.
  intros Hm. pose proof (mute_run_said H settle have_latch os m Hm) as Hr.
  destruct (mute_run H settle have_latch os m) as [c m']. destruct Hr as [Ha Hl]. split_and!; [done|done|].
  intros -> Ht. pose proof (mute_step_said H settle true (Check latch t) m' Hm) as Hs. cbn [mute_step] in Hs.
  assert (muted_state (snd (latch_check H true latch t m')) = latch /\ early_until (snd (latch_check H true latch t m')) = 0) as Hz.
  { unfold latch_check, report. cbn [negb]. destruct (Z.leb_spec (early_until m') t); [|lia]. rewrite orb_true_r.
    destruct (Z.eqb_spec (early_until m') 0), (Bool.eqb latch _) eqn:Eb; cbn; split; try done; by apply Bool.eqb_prop in Eb. }
  destruct (latch_check H true latch t m') as [c' m'']. destruct Hs as [_ Hl'], Hz as [Hz1 Hz2]. cbn [snd] in *.
  split_and!; [|done|].
  - unfold said, last_of in *. by rewrite omap_app, fold_left_app, Hl, Hl'.
  - unfold buttons_muted. by rewrite Hz2.
Qed.

Lemma mute_reports_follow_witness :
  (h_mute_changed all_set = true /\ early_until (snd (mute_run all_set 1500 true [Early 1000; Check false 1500] (mk_mute false 0 false))) <= 3000) /\
  (last_of false (said (fst (mute_run all_set 1500 true [Early 1000; Check false 1500] (mk_mute false 0 false)))) = true /\
   last_of false (said (fst (mute_run all_set 1500 true [Early 1000; Check false 1500] (mk_mute false 0 false)) ++
     fst (latch_check all_set true false 3000 (snd (mute_run all_set 1500 true [Early 1000; Check false 1500] (mk_mute false 0 false)))))) = false).
Proof.
  split; [by vm_compute|].
  pose proof (mute_reports_follow all_set 1500 true [Early 1000; Check false 1500] (mk_mute false 0 false) false 3000 eq_refl) as Hw.
  cbn in Hw. split; [exact (proj1 (proj2 Hw))|]. apply (proj2 (proj2 Hw)); [done|by vm_compute].
Defined.

(** *** Grabbing waits until no key is down *)
Lemma ctz_bound fuel b : 0 <= ctz fuel b.
Proof. revert b. induction fuel as [|fuel IH]; intros b; cbn; [done|]. case_match; [done|]. specialize (IH (b / 2)). lia. Qed.

(** [key_down] says 0 only for no key at all (bit 0 is KEY_RESERVED, no key's). *)
Lemma key_down_free keys : Z.odd (nth 0 keys 0) = false -> key_down (Some keys) <= 0 -> Forall (fun b => b = 0) keys.
Proof.
  intros Ho. cbn [key_down]. destruct (find_index _ keys) as [i|] eqn:E.
  - intros Hk. pose proof (ctz_bound 8 (nth i keys 0)). assert (i = 0%nat) as -> by lia.
    change (ctz 8 (nth 0 keys 0)) with (if Z.odd (nth 0 keys 0) then 0 else 1 + ctz 7 (nth 0 keys 0 / 2)) in Hk.
    rewrite Ho in Hk. pose proof (ctz_bound 7 (nth 0 keys 0 / 2)). lia.
  - intros _. rewrite find_index_None in E. apply list.Forall_forall. intros b Hb.
    specialize (E b Hb). cbn in E. by destruct (Z.eqb_spec b 0).
Qed.

Lemma grab_needs_all_up looks : grab true looks = Grabbed ->
  exists l, l ∈ looks /\ grab_ok l = true /\
    forall keys, after l = Some keys -> Z.odd (nth 0 keys 0) = false -> Forall (fun b => b = 0) keys.
Proof.
  cbn [grab]. induction looks as [|l looks IH]; cbn [grab_loop]; [done|]. intros Hg.
  assert (grab_loop looks = Grabbed -> exists l', l' ∈ l :: looks /\ grab_ok l' = true /\
    forall keys, after l' = Some keys -> Z.odd (nth 0 keys 0) = false -> Forall (fun b => b = 0) keys) as Hrest.
  { intros Hl. destruct (IH Hl) as (l' & Hin & Hr). exists l'. split; [by right|done]. }
  destruct (key_down (before l) <=? 0); [|auto]. destruct (grab_ok l) eqn:Eg; cbn [negb] in Hg; [|done].
  destruct (Z.leb_spec (key_down (after l)) 0) as [Hk|]; [|auto].
  exists l. split; [left|]. split; [done|]. intros keys Ek Ho. apply key_down_free; [done|]. by rewrite <- Ek.
Qed.
