(* ===== verification/BleCrypto.v ===== *)
(** * Bluetooth LE pairing: AES-128, AES-CMAC and the functions of the Security Manager
    (ble_crypto.c).  Loops over the sixteen bytes of a block are maps over their indices;
    the arrays the code fills are lists that grow. *)
From S2P Require Import Prelude Cbits.

Definition sbox : bytes :=
  [99; 124; 119; 123; 242; 107; 111; 197; 48; 1; 103; 43; 254; 215; 171; 118;
   202; 130; 201; 125; 250; 89; 71; 240; 173; 212; 162; 175; 156; 164; 114; 192;
   183; 253; 147; 38; 54; 63; 247; 204; 52; 165; 229; 241; 113; 216; 49; 21;
   4; 199; 35; 195; 24; 150; 5; 154; 7; 18; 128; 226; 235; 39; 178; 117;
   9; 131; 44; 26; 27; 110; 90; 160; 82; 59; 214; 179; 41; 227; 47; 132;
   83; 209; 0; 237; 32; 252; 177; 91; 106; 203; 190; 57; 74; 76; 88; 207;
   208; 239; 170; 251; 67; 77; 51; 133; 69; 249; 2; 127; 80; 60; 159; 168;
   81; 163; 64; 143; 146; 157; 56; 245; 188; 182; 218; 33; 16; 255; 243; 210;
   205; 12; 19; 236; 95; 151; 68; 23; 196; 167; 126; 61; 100; 93; 25; 115;
   96; 129; 79; 220; 34; 42; 144; 136; 70; 238; 184; 20; 222; 94; 11; 219;
   224; 50; 58; 10; 73; 6; 36; 92; 194; 211; 172; 98; 145; 149; 228; 121;
   231; 200; 55; 109; 141; 213; 78; 169; 108; 86; 244; 234; 101; 122; 174; 8;
   186; 120; 37; 46; 28; 166; 180; 198; 232; 221; 116; 31; 75; 189; 139; 138;
   112; 62; 181; 102; 72; 3; 246; 14; 97; 53; 87; 185; 134; 193; 29; 158;
   225; 248; 152; 17; 105; 217; 142; 148; 155; 30; 135; 233; 206; 85; 40; 223;
   140; 161; 137; 13; 191; 230; 66; 104; 65; 153; 45; 15; 176; 84; 187; 22].

(** A byte of an array *)
Definition at_ (l : bytes) (i : nat) : Z := nth i l 0.
Definition sub_byte (x : Z) : Z := at_ sbox (Z.to_nat x).

Definition xt (x : Z) : Z := u8 (Z.lxor (u8 (Z.shiftl x 1)) (Z.shiftr x 7 * 0x1b)).

(** ** AES-128 *)

(** One turn of the key expansion: [rk] holds the bytes below [i]. *)
Definition expand_step (i : nat) (st : bytes * Z) : bytes * Z :=
  let '(rk, rcon) := st in
  let w j := at_ rk (i - 4 + j) in
  let '(w, rcon) :=
    if (i mod 16 =? 0)%nat
    then ([Z.lxor (sub_byte (w 1%nat)) rcon; sub_byte (w 2%nat); sub_byte (w 3%nat); sub_byte (w 0%nat)], xt rcon)
    else ([w 0%nat; w 1%nat; w 2%nat; w 3%nat], rcon) in
  (rk ++ map (fun j => Z.lxor (at_ rk (i - 16 + j)) (at_ w j)) (seq 0 4), rcon).
Definition expand_key (key : bytes) : bytes :=
  fst (fold_left (fun st k => expand_step (16 + 4 * k) st) (seq 0 40) (key, 1)).

Definition sub_shift (s : bytes) : bytes :=
  map (fun i => let c := (i / 4)%nat in let row := (i mod 4)%nat in sub_byte (at_ s (4 * ((c + row) mod 4) + row))) (seq 0 16).

Definition mix_column (a0 a1 a2 a3 : Z) : bytes :=
  let e := Z.lxor (Z.lxor (Z.lxor a0 a1) a2) a3 in
  [Z.lxor a0 (Z.lxor e (xt (Z.lxor a0 a1))); Z.lxor a1 (Z.lxor e (xt (Z.lxor a1 a2)));
   Z.lxor a2 (Z.lxor e (xt (Z.lxor a2 a3))); Z.lxor a3 (Z.lxor e (xt (Z.lxor a3 a0)))].
Definition mix_columns (t : bytes) : bytes :=
  concat (map (fun c => mix_column (at_ t (4 * c)) (at_ t (4 * c + 1)) (at_ t (4 * c + 2)) (at_ t (4 * c + 3))) (seq 0 4)).

Definition add_key (rk : bytes) (r : nat) (t : bytes) : bytes :=
  map (fun i => Z.lxor (at_ t i) (at_ rk (16 * r + i))) (seq 0 16).

Definition round (rk : bytes) (s : bytes) (r : nat) : bytes :=
  let t := sub_shift s in
  add_key rk r (if (r <? 10)%nat then mix_columns t else t).

Definition aes128 (key inp : bytes) : bytes :=
  let rk := expand_key key in fold_left (round rk) (seq 1 10) (add_key rk 0 inp).

(** ** AES-CMAC *)
Definition dbl (l : bytes) : bytes :=
  let carry := Z.shiftr (at_ l 0) 7 in
  map (fun i => Z.lor (u8 (Z.shiftl (at_ l i) 1)) (Z.shiftr (at_ l (i + 1)) 7)) (seq 0 15) ++
  [Z.lxor (u8 (Z.shiftl (at_ l 15) 1)) (if carry =? 0 then 0 else 0x87)].

Definition cmac_block (key m : bytes) (x : bytes) (b : nat) : bytes :=
  aes128 key (map (fun i => Z.lxor (at_ x i) (at_ m (16 * b + i))) (seq 0 16)).

Definition aes_cmac (key m : bytes) : bytes :=
  let l := aes128 key (replicate 16 0) in
  let k1 := dbl l in
  let k2 := dbl k1 in
  let n := length m in
  let blocks := (if (n =? 0)%nat then 1 else (n + 15) / 16)%nat in
  let whole := negb (n =? 0)%nat && (n mod 16 =? 0)%nat in
  let x := fold_left (cmac_block key m) (seq 0 (blocks - 1)) (replicate 16 0) in
  let rest := (n - 16 * (blocks - 1))%nat in
  let last := drop (16 * (blocks - 1)) m ++ replicate (16 - rest) 0 in
  let last := if whole then last else <[rest := 0x80]> last in
  aes128 key (map (fun i => Z.lxor (at_ x i) (Z.lxor (at_ last i) (if whole then at_ k1 i else at_ k2 i))) (seq 0 16)).

(** [out] after the swaps, from [in] *)
Fixpoint reverse_loop (inp : bytes) (n : nat) (k : nat) (out : bytes) : bytes :=
  match k with
  | O => out
  | S k' =>
      let i := (n / 2 - k)%nat in
      reverse_loop inp n k' (<[(n - 1 - i)%nat := at_ inp i]> (<[i := at_ inp (n - 1 - i)]> out))
  end.
Definition bytes_reverse (inp : bytes) (out : bytes) : bytes :=
  let n := length inp in
  let out := reverse_loop inp n (n / 2) out in
  if (n mod 2 =? 0)%nat then out else <[(n / 2)%nat := at_ inp (n / 2)]> out.

(** ** The Security Manager's functions *)
Definition smp_f4 (u v x : bytes) (z : Z) : bytes := aes_cmac x (u ++ v ++ [z]).

Definition salt : bytes :=
  [0x6c; 0x88; 0x83; 0x91; 0xaa; 0xf5; 0xa5; 0x38; 0x60; 0x37; 0x0b; 0xdb; 0x5a; 0x60; 0x83; 0xbe].
(** MacKey and LTK *)
Definition smp_f5 (w n1 n2 a1 a2 : bytes) : bytes * bytes :=
  let t := aes_cmac salt w in
  let m c := [c] ++ str "btle" ++ n1 ++ n2 ++ a1 ++ a2 ++ [0x01; 0x00] in
  (aes_cmac t (m 0), aes_cmac t (m 1)).

Definition smp_f6 (w n1 n2 r io a1 a2 : bytes) : bytes := aes_cmac w (n1 ++ n2 ++ r ++ io ++ a1 ++ a2).

Definition e_le (k inp : bytes) : bytes :=
  let z := replicate 16 0 in
  let out := aes128 (bytes_reverse k z) (bytes_reverse inp z) in bytes_reverse out out.

Definition xor16 (a b : bytes) : bytes := map (fun i => Z.lxor (at_ a i) (at_ b i)) (seq 0 16).

Definition smp_c1 (k r preq pres : bytes) (iat : Z) (ia : bytes) (rat : Z) (ra : bytes) : bytes :=
  let p1 := [iat; rat] ++ preq ++ pres in
  let p2 := ra ++ ia ++ replicate 4 0 in
  e_le k (xor16 (e_le k (xor16 r p1)) p2).

Definition smp_s1 (k r1 r2 : bytes) : bytes := e_le k (take 8 r2 ++ take 8 r1).

Definition smp_ah_match (irk addr : bytes) : bool :=
  let r := [at_ addr 3; at_ addr 4; at_ addr 5] ++ replicate 13 0 in
  if negb (Z.shiftr (at_ addr 5) 6 =? 1) then false else
  let h := e_le irk r in
  (at_ h 0 =? at_ addr 0) && (at_ h 1 =? at_ addr 1) && (at_ h 2 =? at_ addr 2).

(** Sample data of FIPS 197 (C.1) and RFC 4493 *)
Example aes128_sample :
  aes128 (map Z.of_nat (seq 0 16)) (map (fun i => Z.of_nat (17 * i)) (seq 0 16)) =
  [0x69; 0xc4; 0xe0; 0xd8; 0x6a; 0x7b; 0x04; 0x30; 0xd8; 0xcd; 0xb7; 0x80; 0x70; 0xb4; 0xc5; 0x5a].
Proof. by vm_compute. Qed.
Example aes_cmac_sample :
  let k := [0x2b; 0x7e; 0x15; 0x16; 0x28; 0xae; 0xd2; 0xa6; 0xab; 0xf7; 0x15; 0x88; 0x09; 0xcf; 0x4f; 0x3c] in
  aes_cmac k [] =
    [0xbb; 0x1d; 0x69; 0x29; 0xe9; 0x59; 0x37; 0x28; 0x7f; 0xa3; 0x7d; 0x12; 0x9b; 0x75; 0x67; 0x46] /\
  aes_cmac k [0x6b; 0xc1; 0xbe; 0xe2; 0x2e; 0x40; 0x9f; 0x96; 0xe9; 0x3d; 0x7e; 0x11; 0x73; 0x93; 0x17; 0x2a] =
    [0x07; 0x0a; 0x16; 0xb4; 0x6b; 0x4d; 0x41; 0x44; 0xf7; 0x9b; 0xdd; 0x9d; 0xd0; 0x4a; 0x28; 0x7c].
Proof. by vm_compute. Qed.
