(* ===== verification/BleSpec.v ===== *)
(** * AES-128 and AES-CMAC against FIPS 197 and RFC 4493
    [Fips] states the cipher as the standard does: the field of 256 elements, the S-box as
    inverse and affine map, the key schedule on words, the round's four transformations.
    [Rfc4493] states CMAC by recursion on the message.  The code's tables, its column trick
    and its index loops are shown to compute the same. *)
From S2P Require Import Prelude Cbits BleCrypto.

Module Fips.
Definition xtime (b : Z) : Z := if b <? 128 then 2 * b else Z.lxor (2 * b) 0x11b.
(** The product in GF(2^8): [n] bits of [a] *)
Fixpoint mul (n : nat) (a b : Z) : Z :=
  match n with
  | O => 0
  | S n => Z.lxor (if Z.odd a then b else 0) (mul n (a / 2) (xtime b))
  end.
Definition gmul (a b : Z) : Z := mul 8 a b.

Definition bytes256 : list Z := seqZ 0 256.
Definition inv (b : Z) : Z := match find (fun c => gmul b c =? 1) bytes256 with Some c => c | None => 0 end.
Definition bit (b : Z) (i : Z) : Z := Z.b2z (Z.testbit b (i mod 8)).
Definition affine (b : Z) : Z :=
  foldr Z.add 0 (map (fun i => (bit b i + bit b (i + 4) + bit b (i + 5) + bit b (i + 6) + bit b (i + 7) + bit 0x63 i) mod 2 * 2 ^ i)
    (seqZ 0 8)).
Definition SubByte (b : Z) : Z := affine (inv b).

Abbreviation word := (list Z).
Definition xor (a b : list Z) : list Z := zip_with Z.lxor a b.
Definition SubWord (w : word) : word := map SubByte w.
Definition RotWord (w : word) : word := match w with a :: w => w ++ [a] | [] => [] end.
Fixpoint power (i : nat) : Z := match i with O => 1 | S i => gmul 2 (power i) end.
Definition Rcon (i : nat) : word := [power (i - 1); 0; 0; 0].

(** w[4 .. 4 + n - 1] after w[0 .. 3] *)
Fixpoint schedule (n : nat) (key : list word) : list word :=
  match n with
  | O => key
  | S n =>
      let ws := schedule n key in
      let i := length ws in
      let temp := nth (i - 1) ws [] in
      let temp := if (i mod 4 =? 0)%nat then xor (SubWord (RotWord temp)) (Rcon (i / 4)) else temp in
      ws ++ [xor (nth (i - 4) ws []) temp]
  end.

(** The state is sixteen bytes, column after column. *)
Definition SubBytes (s : bytes) : bytes := map SubByte s.
Definition ShiftRows (s : bytes) : bytes :=
  match s with
  | [a; b; c; d; e; f; g; h; i; j; k; l; m; n; o; p] => [a; f; k; p; e; j; o; d; i; n; c; h; m; b; g; l]
  | _ => s
  end.
Definition MixColumn (a b c d : Z) : word :=
  let x l := foldr Z.lxor 0 l in
  [x [gmul 2 a; gmul 3 b; c; d]; x [a; gmul 2 b; gmul 3 c; d]; x [a; b; gmul 2 c; gmul 3 d]; x [gmul 3 a; b; c; gmul 2 d]].
Fixpoint MixColumns (s : bytes) : bytes :=
  match s with a :: b :: c :: d :: s => MixColumn a b c d ++ MixColumns s | _ => [] end.
Definition AddRoundKey (ws : list word) (r : nat) (s : bytes) : bytes := xor s (concat (take 4 (drop (4 * r) ws))).

Definition Cipher (key inp : bytes) : bytes :=
  let ws := schedule 40 [take 4 key; take 4 (drop 4 key); take 4 (drop 8 key); take 4 (drop 12 key)] in
  let s := AddRoundKey ws 0 inp in
  let s := fold_left (fun s r => AddRoundKey ws r (MixColumns (ShiftRows (SubBytes s)))) (seq 1 9) s in
  AddRoundKey ws 10 (ShiftRows (SubBytes s)).
End Fips.

Module Rfc4493.
Definition xor := Fips.xor.
(** Doubling of 128 bits *)
Definition double (l : bytes) : bytes :=
  let v := be_value l in be_bytes 16 (if v <? 2 ^ 127 then 2 * v else Z.lxor (2 * v) 0x87).
Section cmac.
Context (AES : bytes -> bytes).
Definition K1 : bytes := double (AES (replicate 16 0)).
Definition K2 : bytes := double K1.
Definition pad (m : bytes) : bytes := m ++ [0x80] ++ replicate (15 - length m) 0.
(** Blocks of sixteen while more than one is left *)
Fixpoint mac (fuel : nat) (x m : bytes) : bytes :=
  match fuel with
  | O => []
  | S fuel =>
      if (length m <=? 16)%nat
      then AES (xor x (if (length m =? 16)%nat then xor m K1 else xor (pad m) K2))
      else mac fuel (AES (xor x (take 16 m))) (drop 16 m)
  end.
Definition CMAC (m : bytes) : bytes := mac (S (length m)) (replicate 16 0) m.
End cmac.
End Rfc4493.

(** ** Tables and bytes *)
Definition all_bytes (f : Z -> bool) : bool := forallb f Fips.bytes256.
Lemma all_bytes_spec f : all_bytes f = true -> forall b, is_byte b -> f b = true.
Proof.
  unfold all_bytes, is_byte. rewrite forallb_elem. intros Hf b Hb. apply Hf. apply elem_of_seqZ. lia.
Qed.

Lemma sub_byte_spec b : is_byte b -> sub_byte b = Fips.SubByte b.
Proof.
  intros Hb. apply Z.eqb_eq. revert b Hb. apply (all_bytes_spec (fun b => sub_byte b =? Fips.SubByte b)). by vm_compute.
Qed.
Lemma xt_spec b : is_byte b -> Fips.gmul 2 b = xt b.
Proof.
  intros Hb. apply Z.eqb_eq. revert b Hb. apply (all_bytes_spec (fun b => Fips.gmul 2 b =? xt b)). by vm_compute.
Qed.
Lemma gmul3_spec b : is_byte b -> Fips.gmul 3 b = Z.lxor (xt b) b.
Proof.
  intros Hb. apply Z.eqb_eq. revert b Hb. apply (all_bytes_spec (fun b => Fips.gmul 3 b =? Z.lxor (xt b) b)). by vm_compute.
Qed.
Lemma xt_lxor a b : is_byte a -> is_byte b -> xt (Z.lxor a b) = Z.lxor (xt a) (xt b).
Proof.
  intros Ha Hb. apply Z.eqb_eq. revert b Hb.
  apply (all_bytes_spec (fun b => xt (Z.lxor a b) =? Z.lxor (xt a) (xt b))). revert a Ha.
  apply (all_bytes_spec (fun a => all_bytes (fun b => xt (Z.lxor a b) =? Z.lxor (xt a) (xt b)))). by vm_compute.
Qed.
Lemma sub_byte_byte x : is_byte (sub_byte x).
Proof.
  unfold sub_byte, at_. assert (are_bytes sbox) as Hs by (apply Forall_forall; intros b Hb;
    assert (forallb (fun b => (0 <=? b) && (b <? 256)) sbox = true) as Hf by (by vm_compute);
    rewrite forallb_forall in Hf; specialize (Hf b Hb); bsimp; unfold is_byte; lia).
  destruct (nth_in_or_default (Z.to_nat x) sbox 0) as [Hi|Hd]; [|by rewrite Hd].
  revert Hi. apply Forall_forall. done.
Qed.

Lemma lxor_byte a b : is_byte a -> is_byte b -> is_byte (Z.lxor a b).
Proof.
  unfold is_byte. intros Ha Hb. assert (0 <= Z.lxor a b) by (apply Z.lxor_nonneg; lia). split; [done|].
  destruct (Z.eq_dec (Z.lxor a b) 0) as [->|Hn]; [lia|]. change 256 with (2 ^ 8). apply Z.log2_lt_pow2; [lia|].
  pose proof (Z.log2_lxor a b ltac:(lia) ltac:(lia)). 
  assert (forall x, 0 <= x < 256 -> Z.log2 x < 8) as Hl.
  { intros x Hx. destruct (Z.eq_dec x 0) as [->|]; [done|]. apply Z.log2_lt_pow2; [lia|]. change (2 ^ 8) with 256. lia. }
  pose proof (Hl a Ha). pose proof (Hl b Hb). lia.
Qed.
Lemma xt_byte b : is_byte (xt b).
Proof. apply u8_bound. Qed.

(** Equations between exclusive ors, bit by bit *)
Ltac xors :=
  apply Z.bits_inj'; intros i _; rewrite ?Z.lxor_spec, ?Z.bits_0;
  repeat match goal with |- context [Z.testbit ?x i] => generalize (Z.testbit x i); intro end;
  repeat match goal with b : bool |- _ => destruct b end; reflexivity.

(** ** The round *)
Lemma mix_column_spec a b c d : is_byte a -> is_byte b -> is_byte c -> is_byte d ->
  mix_column a b c d = Fips.MixColumn a b c d.
Proof.
  intros Ha Hb Hc Hd. unfold mix_column, Fips.MixColumn. cbn [foldr].
  rewrite !xt_lxor, !xt_spec, !gmul3_spec by done.
  generalize (xt a), (xt b), (xt c), (xt d). intros xa xb xc xd. do 4 (apply (f_equal2 cons); [xors|]). done.
Qed.

(** A hypothesis on the bytes of a list, one by one *)
Ltac split_bytes :=
  unfold are_bytes in *;
  repeat match goal with H : Forall is_byte (_ :: _) |- _ => apply Forall_cons_1 in H as [? H] end.

Lemma list16 (l : bytes) : length l = 16%nat ->
  exists a b c d e f g h i j k l' m n o p, l = [a; b; c; d; e; f; g; h; i; j; k; l'; m; n; o; p].
Proof. intros H. do 17 (destruct l as [|? l]; try discriminate). eauto 20. Qed.

Lemma sub_shift_spec s : length s = 16%nat -> are_bytes s -> sub_shift s = Fips.ShiftRows (Fips.SubBytes s).
Proof.
  intros Hl Hs. assert (Fips.SubBytes s = map sub_byte s) as ->.
  { unfold Fips.SubBytes. apply map_ext_in. intros b Hb. symmetry. apply sub_byte_spec. by apply (proj1 (Forall_forall _ _) Hs). }
  destruct (list16 s Hl) as (?&?&?&?&?&?&?&?&?&?&?&?&?&?&?&?&->). reflexivity.
Qed.

Lemma sub_shift_bytes s : are_bytes (sub_shift s) /\ length (sub_shift s) = 16%nat.
Proof.
  split; [|by unfold sub_shift; rewrite length_map, length_seq].
  apply Forall_map, Forall_forall. intros i _. apply sub_byte_byte.
Qed.

Lemma mix_columns_spec t : length t = 16%nat -> are_bytes t -> mix_columns t = Fips.MixColumns t.
Proof.
  intros Hl Ht. destruct (list16 t Hl) as (?&?&?&?&?&?&?&?&?&?&?&?&?&?&?&?&->).
  split_bytes.
  change (mix_columns ?l) with (concat (map (fun c => mix_column (at_ l (4 * c)) (at_ l (4 * c + 1)) (at_ l (4 * c + 2)) (at_ l (4 * c + 3))) [0; 1; 2; 3]%nat)).

  cbn [map concat at_ nth Nat.mul Nat.add].
  rewrite !mix_column_spec by done. reflexivity.
Qed.

Lemma mix_column_bytes a b c d : is_byte a -> is_byte b -> is_byte c -> is_byte d -> are_bytes (mix_column a b c d).
Proof.
  intros. unfold mix_column, are_bytes. cbv zeta.
  repeat (apply Forall_cons_2; [by repeat (apply lxor_byte || apply xt_byte)|]). apply Forall_nil_2.
Qed.

Lemma mix_columns_bytes t : length t = 16%nat -> are_bytes t -> are_bytes (mix_columns t) /\ length (mix_columns t) = 16%nat.
Proof.
  intros Hl Ht. destruct (list16 t Hl) as (?&?&?&?&?&?&?&?&?&?&?&?&?&?&?&?&->).
  split_bytes. split; [|done].
  change (mix_columns ?l) with (concat (map (fun c => mix_column (at_ l (4 * c)) (at_ l (4 * c + 1)) (at_ l (4 * c + 2)) (at_ l (4 * c + 3))) [0; 1; 2; 3]%nat)).
  cbn [map concat at_ nth Nat.mul Nat.add]. repeat apply Forall_app_2; try (by apply mix_column_bytes). apply Forall_nil_2.
Qed.

Lemma at_bytes l i : are_bytes l -> is_byte (at_ l i).
Proof. intros Hl. unfold at_. destruct (nth_in_or_default i l 0) as [Hi|Hd]; [by apply (proj1 (Forall_forall _ _) Hl)|by rewrite Hd]. Qed.

Lemma add_key_bytes rk r t : are_bytes rk -> are_bytes t -> are_bytes (add_key rk r t) /\ length (add_key rk r t) = 16%nat.
Proof.
  intros Hr Ht. unfold add_key. split; [|by rewrite length_map, length_seq].
  apply Forall_map, Forall_forall. intros i _. by apply lxor_byte; apply at_bytes.
Qed.

(** ** The key schedule *)

(** Words of four: their bytes one after the other *)
Definition words (ws : list Fips.word) : Prop := Forall (fun w => length w = 4%nat) ws.

Lemma at_concat ws i j : words ws -> (j < 4)%nat -> at_ (concat ws) (4 * i + j) = at_ (nth i ws []) j.
Proof.
  intros Hw Hj. revert i. induction Hw as [|w ws Hl _ IH]; intros i.
  - unfold at_. cbn [concat]. destruct (4 * i + j)%nat, i; cbn; by destruct j.
  - unfold at_ in *. cbn [concat]. destruct i as [|i]; cbn [nth].
    + by rewrite app_nth1 by lia.
    + rewrite app_nth2 by lia. rewrite <- IH. f_equal. lia.
Qed.

Lemma concat_length ws : words ws -> length (concat ws) = (4 * length ws)%nat.
Proof. induction 1 as [|w ws Hl _ IH]; [done|]. cbn [concat length]. rewrite length_app, IH. lia. Qed.

Lemma word_bytes w : length w = 4%nat -> w = [at_ w 0; at_ w 1; at_ w 2; at_ w 3].
Proof. by destruct w as [|? [|? [|? [|? [|]]]]]. Qed.

Lemma take_drop_concat ws r : words ws -> (4 * r + 4 <= length ws)%nat ->
  concat (take 4 (drop (4 * r) ws)) = map (fun i => at_ (concat ws) (16 * r + i)) (seq 0 16).
Proof.
  intros Hw Hl. set (us := take 4 (drop (4 * r) ws)).
  assert (length us = 4%nat) as Hu by (subst us; rewrite length_take, length_drop; lia).
  assert (forall c, (c < 4)%nat -> nth c us [] = nth (4 * r + c) ws []) as Hn.
  { intros c Hc. subst us. rewrite !nth_lookup, lookup_take, lookup_drop by lia. by case_decide; [|lia]. }
  assert (words us) as Hwu by (by apply Forall_take, Forall_drop).
  assert (concat us = map (fun i => at_ (concat us) i) (seq 0 16)) as ->.
  { destruct (list16 (concat us)) as (?&?&?&?&?&?&?&?&?&?&?&?&?&?&?&?&->); [by rewrite concat_length, Hu|done]. }
  apply map_ext_in. intros i Hi. apply in_seq in Hi.
  assert (i = 4 * (i / 4) + i mod 4)%nat as Hi' by apply Nat.div_mod_eq.
  assert (i mod 4 < 4)%nat by (apply Nat.mod_upper_bound; lia). assert (i / 4 < 4)%nat by (apply Nat.Div0.div_lt_upper_bound; lia).
  rewrite Hi' at 1. rewrite at_concat, Hn by done.
  replace (16 * r + i)%nat with (4 * (4 * r + i / 4) + i mod 4)%nat by lia. by rewrite at_concat.
Qed.

Lemma nth_word ws i : words ws -> are_bytes (concat ws) -> (i < length ws)%nat ->
  length (nth i ws []) = 4%nat /\ are_bytes (nth i ws []).
Proof.
  intros Hw Hb. revert i. induction Hw as [|w ws Hl Hw IH]; intros i Hi; cbn in *; [lia|].
  apply Forall_app in Hb as [Hb1 Hb2]. destruct i as [|i]; [done|]. apply IH; [done|lia].
Qed.

(** The code's bytes are the schedule's words, and its round constant is the power of two
    for the next word that takes one. *)
Lemma expand_step_spec ws rcon :
  words ws -> are_bytes (concat ws) -> (4 <= length ws)%nat ->
  ((length ws mod 4 = 0)%nat -> rcon = Fips.power (length ws / 4 - 1)) ->
  let i := length ws in
  let temp := nth (i - 1) ws [] in
  let temp := if (i mod 4 =? 0)%nat then Fips.xor (Fips.SubWord (Fips.RotWord temp)) (Fips.Rcon (i / 4)) else temp in
  expand_step (4 * i) (concat ws, rcon) =
    (concat (ws ++ [Fips.xor (nth (i - 4) ws []) temp]), if (i mod 4 =? 0)%nat then xt rcon else rcon).
Proof.
  intros Hw Hb Hl Hr. cbv zeta. set (i := length ws) in *.
  destruct (nth_word ws (i - 1) Hw Hb ltac:(lia)) as [Hp Hpb]. destruct (nth_word ws (i - 4) Hw Hb ltac:(lia)) as [Hq Hqb].
  unfold expand_step. replace (4 * i mod 16)%nat with (4 * (i mod 4))%nat by (rewrite <- Nat.Div0.mul_mod_distr_l; done).
  replace (4 * i - 4)%nat with (4 * (i - 1))%nat by lia. replace (4 * i - 16)%nat with (4 * (i - 4))%nat by lia.
  rewrite !at_concat by (done || lia). cbn [map seq]. rewrite !at_concat by (done || lia).
  set (p := nth (i - 1) ws []) in *. set (q := nth (i - 4) ws []) in *.
  rewrite concat_app. cbn [concat]. rewrite app_nil_r.
  destruct q as [|q0 [|q1 [|q2 [|q3 [|]]]]]; try done. destruct p as [|p0 [|p1 [|p2 [|p3 [|]]]]]; try done. clear Hp Hq.
  split_bytes. destruct (Nat.eqb_spec (i mod 4) 0) as [E|E].
  - rewrite E. cbn [Nat.mul Nat.eqb at_ nth]. rewrite !sub_byte_spec, Hr by done.
    unfold Fips.Rcon. cbn [Fips.RotWord Fips.SubWord map app Fips.xor zip_with]. by rewrite !Z.lxor_0_r.
  - destruct (Nat.eqb_spec (4 * (i mod 4)) 0); [lia|]. done.
Qed.

Lemma power_byte i : is_byte (Fips.power i).
Proof. induction i as [|i IH]; [done|]. cbn [Fips.power]. rewrite xt_spec by done. apply xt_byte. Qed.

Lemma SubByte_byte b : is_byte b -> is_byte (Fips.SubByte b).
Proof. intros. rewrite <- sub_byte_spec by done. apply sub_byte_byte. Qed.

Lemma next_word_ok (p q : Fips.word) i :
  length p = 4%nat -> are_bytes p -> length q = 4%nat -> are_bytes q ->
  let temp := if (i mod 4 =? 0)%nat then Fips.xor (Fips.SubWord (Fips.RotWord p)) (Fips.Rcon (i / 4)) else p in
  length (Fips.xor q temp) = 4%nat /\ are_bytes (Fips.xor q temp).
Proof.
  intros Hp Hpb Hq Hqb. destruct q as [|q0 [|q1 [|q2 [|q3 [|]]]]]; try done. destruct p as [|p0 [|p1 [|p2 [|p3 [|]]]]]; try done.
  split_bytes. cbv zeta. destruct (i mod 4 =? 0)%nat; cbn; (split; [done|]);
    repeat (apply Forall_cons_2; [repeat (apply lxor_byte || apply SubByte_byte || apply power_byte || done)|]); done.
Qed.

Lemma schedule_spec n key : words key -> are_bytes (concat key) -> length key = 4%nat ->
  let ws := Fips.schedule n key in
  fold_left (fun st k => expand_step (16 + 4 * k) st) (seq 0 n) (concat key, 1) =
    (concat ws, Fips.power ((4 + n + 3) / 4 - 1)) /\
  words ws /\ are_bytes (concat ws) /\ length ws = (4 + n)%nat.
Proof.
  intros Hw Hb Hl. cbv zeta. induction n as [|n (IH1 & IH2 & IH3 & IH4)]; [done|].
  rewrite seq_S, fold_left_app, IH1. cbn [fold_left]. change (0 + n)%nat with n. set (ws := Fips.schedule n key) in *.
  replace (16 + 4 * n)%nat with (4 * length ws)%nat by lia.
  set (i := length ws) in *. replace (4 + n + 3)%nat with (i + 3)%nat by lia.
  assert (i mod 4 < 4)%nat by (apply Nat.mod_upper_bound; lia). pose proof (Nat.div_mod_eq i 4) as Hi.
  assert ((i + 3) / 4 = i / 4 + if (i mod 4 =? 0)%nat then 0 else 1)%nat as Hd.
  { rewrite Hi at 1. destruct (Nat.eqb_spec (i mod 4) 0) as [E|E]; symmetry.
    - apply (Nat.div_unique _ 4 _ 3); lia.
    - apply (Nat.div_unique _ 4 _ (i mod 4 - 1)); lia. }
  assert ((i + 4) / 4 = i / 4 + 1)%nat as Hd'.
  { replace (i + 4)%nat with (i + 1 * 4)%nat by lia. by rewrite Nat.div_add by lia. }
  assert ((i mod 4 = 0)%nat -> Fips.power ((i + 3) / 4 - 1) = Fips.power (i / 4 - 1)) as Hrc.
  { intros E. rewrite Hd, E. cbn [Nat.eqb]. f_equal. lia. }
  pose proof (expand_step_spec ws _ IH2 IH3 ltac:(lia) Hrc) as Hex. cbv zeta in Hex. fold i in Hex.
  rewrite Hex. clear Hex.
  destruct (nth_word ws (i - 1) IH2 IH3 ltac:(lia)) as [Hp Hpb]. destruct (nth_word ws (i - 4) IH2 IH3 ltac:(lia)) as [Hq Hqb].
  destruct (next_word_ok _ _ i Hp Hpb Hq Hqb) as [Hx1 Hx2].
  assert (Fips.schedule (S n) key = ws ++ [Fips.xor (nth (i - 4) ws [])
    (if (i mod 4 =? 0)%nat then Fips.xor (Fips.SubWord (Fips.RotWord (nth (i - 1) ws []))) (Fips.Rcon (i / 4)) else nth (i - 1) ws [])]) as -> by done.
  set (x := Fips.xor _ _) in *. split_and!.
  - f_equal. replace (4 + S n + 3)%nat with (i + 4)%nat by lia. rewrite Hd', Hd.
    destruct (Nat.eqb_spec (i mod 4) 0) as [E|E]; [|f_equal; lia].
    assert (1 <= i / 4)%nat by lia. rewrite <- xt_spec by apply power_byte.
    replace (i / 4 + 1 - 1)%nat with (S (i / 4 + 0 - 1)) by lia. done.
  - apply Forall_app_2; [done|]. by apply Forall_cons_2.
  - rewrite concat_app. apply Forall_app_2; [done|]. cbn. by rewrite app_nil_r.
  - rewrite length_app. cbn. lia.
Qed.

(** ** The cipher *)
Lemma add_key_spec ws r s : words ws -> (4 * r + 4 <= length ws)%nat -> length s = 16%nat ->
  add_key (concat ws) r s = Fips.AddRoundKey ws r s.
Proof.
  intros Hw Hr Hs. unfold Fips.AddRoundKey. rewrite take_drop_concat by done. unfold add_key.
  destruct (list16 s Hs) as (?&?&?&?&?&?&?&?&?&?&?&?&?&?&?&?&->). reflexivity.
Qed.

(** C37. The AES of the pairing is FIPS 197's: S-box, key schedule and rounds, for every key and block. *)
Theorem aes128_is_fips (key inp : bytes) :
  length key = 16%nat -> are_bytes key -> length inp = 16%nat -> are_bytes inp ->
  aes128 key inp = Fips.Cipher key inp.
Proof.
  intros Hk Hkb Hi Hib. unfold aes128, Fips.Cipher, expand_key.
  set (kw := [take 4 key; take 4 (drop 4 key); take 4 (drop 8 key); take 4 (drop 12 key)]).
  assert (key = concat kw /\ words kw) as [Hkc Hkw].
  { subst kw. destruct (list16 key Hk) as (?&?&?&?&?&?&?&?&?&?&?&?&?&?&?&?&->). split; [done|]. by repeat apply Forall_cons_2. }
  assert (are_bytes (concat kw)) as Hkb' by by rewrite <- Hkc.
  destruct (schedule_spec 40 kw Hkw Hkb' eq_refl) as (Hs & Hw & Hwb & Hwl). rewrite Hkc, Hs. cbn [fst]. clear Hs.
  set (ws := Fips.schedule 40 kw) in *. clearbody ws. rewrite <- (add_key_spec ws 0 inp) by (done || lia).
  assert (length (add_key (concat ws) 0 inp) = 16%nat /\ are_bytes (add_key (concat ws) 0 inp)) as [Hl0 Hb0]
    by (destruct (add_key_bytes (concat ws) 0 inp Hwb Hib); done).
  revert Hl0 Hb0. generalize (add_key (concat ws) 0 inp). intros s0 Hl0 Hb0.
  change (seq 1 10) with (seq 1 9 ++ [10%nat]). rewrite fold_left_app. cbn [fold_left].
  assert (forall l s, Forall (fun r => (r < 10)%nat) l -> length s = 16%nat -> are_bytes s ->
    let s' := fold_left (round (concat ws)) l s in
    s' = fold_left (fun s r => Fips.AddRoundKey ws r (Fips.MixColumns (Fips.ShiftRows (Fips.SubBytes s)))) l s /\
    length s' = 16%nat /\ are_bytes s') as Hrounds.
  { cbv zeta. induction l as [|r l IH]; intros s Hr Hls Hbs; [done|]. apply Forall_cons_1 in Hr as [Hr Hl]. cbn [fold_left].
    assert (round (concat ws) s r = Fips.AddRoundKey ws r (Fips.MixColumns (Fips.ShiftRows (Fips.SubBytes s))) /\
      length (round (concat ws) s r) = 16%nat /\ are_bytes (round (concat ws) s r)) as (E & E2 & E3).
    { unfold round. destruct (sub_shift_bytes s) as [Hb1 Hl1]. destruct (Nat.ltb_spec r 10); [|lia].
      destruct (mix_columns_bytes _ Hl1 Hb1) as [Hb2 Hl2]. destruct (add_key_bytes (concat ws) r _ Hwb Hb2) as [Hb3 Hl3].
      split; [|done]. rewrite add_key_spec, mix_columns_spec, sub_shift_spec by (done || lia). done. }
    rewrite <- E. by apply IH. }
  destruct (Hrounds (seq 1 9) s0) as (E & E2 & E3); [|done|done|].
  { apply Forall_forall. intros r Hr. apply in_seq in Hr. lia. }
  rewrite <- E. set (s := fold_left (round _) _ s0) in *. clearbody s. unfold round at 1. cbn [Nat.ltb Nat.leb].
  destruct (sub_shift_bytes s) as [_ Hl1]. by rewrite add_key_spec, sub_shift_spec by (done || lia).
Qed.

Lemma aes128_length key inp : length (aes128 key inp) = 16%nat.
Proof.
  unfold aes128. change (seq 1 10) with (seq 1 9 ++ [10%nat]). rewrite fold_left_app. cbn [fold_left].
  generalize (fold_left (round (expand_key key)) (seq 1 9) (add_key (expand_key key) 0 inp)). intros s.
  unfold round, add_key. by rewrite length_map, length_seq.
Qed.

Lemma aes128_bytes key inp : length key = 16%nat -> are_bytes key -> are_bytes inp -> are_bytes (aes128 key inp).
Proof.
  intros Hk Hkb Hib. unfold aes128, expand_key.
  set (kw := [take 4 key; take 4 (drop 4 key); take 4 (drop 8 key); take 4 (drop 12 key)]).
  assert (key = concat kw /\ words kw) as [Hkc Hkw].
  { subst kw. destruct (list16 key Hk) as (?&?&?&?&?&?&?&?&?&?&?&?&?&?&?&?&->). split; [done|]. by repeat apply Forall_cons_2. }
  assert (are_bytes (concat kw)) as Hkb' by by rewrite <- Hkc.
  destruct (schedule_spec 40 kw Hkw Hkb' eq_refl) as (Hs & _ & Hwb & _). rewrite Hkc, Hs. cbn [fst]. clear Hs.
  revert Hwb. generalize (concat (Fips.schedule 40 kw)). intros rk Hwb.
  change (seq 1 10) with (seq 1 9 ++ [10%nat]). rewrite fold_left_app. cbn [fold_left].
  generalize (fold_left (round rk) (seq 1 9) (add_key rk 0 inp)). intros s. unfold round.
  destruct (sub_shift_bytes s) as [Hb _]. by apply add_key_bytes.
Qed.

(** *** Doubling *)
Lemma be_bytes_value l n : are_bytes l -> length l = n -> be_bytes n (be_value l) = l.
Proof.
  intros Hl <-. unfold be_bytes. rewrite be_value_rev, <- (length_rev l), le_bytes_value by by apply Forall_rev.
  apply rev_involutive.
Qed.

Lemma double_byte x y : is_byte x -> is_byte y ->
  Z.lor (u8 (Z.shiftl x 1)) (Z.shiftr y 7) = 2 * (x mod 128) + y / 128.
Proof.
  intros Hx Hy. apply Z.eqb_eq. revert y Hy.
  apply (all_bytes_spec (fun y => Z.lor (u8 (Z.shiftl x 1)) (Z.shiftr y 7) =? 2 * (x mod 128) + y / 128)). revert x Hx.
  apply (all_bytes_spec (fun x => all_bytes (fun y => Z.lor (u8 (Z.shiftl x 1)) (Z.shiftr y 7) =? 2 * (x mod 128) + y / 128))).
  by vm_compute.
Qed.

(** Shifted left by one bit, without the reduction *)
Definition shifted (l : bytes) : bytes :=
  map (fun i => Z.lor (u8 (Z.shiftl (at_ l i) 1)) (Z.shiftr (at_ l (i + 1)) 7)) (seq 0 15) ++ [u8 (Z.shiftl (at_ l 15) 1)].

Lemma shifted_value l : length l = 16%nat -> are_bytes l ->
  are_bytes (shifted l) /\ length (shifted l) = 16%nat /\ 2 * be_value l = (at_ l 0 / 128) * 2 ^ 128 + be_value (shifted l).
Proof.
  intros Hl Hb. destruct (list16 l Hl) as (?&?&?&?&?&?&?&?&?&?&?&?&?&?&?&?&->). split_bytes.
  assert (forall x, is_byte x -> u8 (Z.shiftl x 1) = 2 * (x mod 128)) as Hs.
  { intros y Hy. pose proof (double_byte y 0 Hy ltac:(done)) as Hd. by rewrite Z.lor_0_r, Z.add_0_r in Hd. }
  assert (forall x y, is_byte x -> is_byte y -> is_byte (2 * (x mod 128) + y / 128)) as Hbb.
  { unfold is_byte. intros u v Hu Hv. pose proof (Z.mod_pos_bound u 128). pose proof (Z.div_lt_upper_bound v 128 2).
    pose proof (Z.div_pos v 128). lia. }
  unfold shifted. cbn [map seq at_ nth Nat.add app]. rewrite !double_byte, Hs by done. split_and!; [|done|].
  - repeat (apply Forall_cons_2; [by apply Hbb|]). apply Forall_cons_2; [|apply Forall_nil_2].
    match goal with |- is_byte (2 * (?x mod 128)) => pose proof (Hbb x 0 ltac:(done) ltac:(done)) as Hz end. by rewrite Z.add_0_r in Hz.
  - unfold be_value. cbn [fold_left].
    repeat match goal with H : is_byte ?x |- _ =>
      pose proof (Z.div_mod x 128 ltac:(lia)); generalize dependent (x / 128); generalize dependent (x mod 128); clear H end.
    intros. subst. lia.
Qed.

Lemma u8_lxor x y : is_byte y -> u8 (Z.lxor x y) = Z.lxor (u8 x) y /\ Z.lxor x y / 256 = x / 256.
Proof.
  intros Hy. unfold u8. change 256 with (2 ^ 8). split.
  - rewrite <- (u8_id y Hy) at 2. unfold u8. rewrite <- !Z.land_ones by lia. apply Z.bits_inj'. intros i _.
    rewrite !Z.land_spec, !Z.lxor_spec, !Z.land_spec. by destruct (Z.testbit x i), (Z.testbit y i), (Z.testbit _ i).
  - rewrite <- !Z.shiftr_div_pow2, Z.shiftr_lxor by lia. rewrite (Z.shiftr_div_pow2 y) by lia.
    rewrite (Z.div_small y) by (unfold is_byte in Hy; lia). apply Z.lxor_0_r.
Qed.

Lemma dbl_spec l : length l = 16%nat -> are_bytes l -> dbl l = Rfc4493.double l.
Proof.
  intros Hl Hb. destruct (shifted_value l Hl Hb) as (Sb & Sl & Sv).
  pose proof (le_value_bound (rev (shifted l)) ltac:(by apply Forall_rev)) as HW.
  rewrite <- be_value_rev, length_rev, Sl in HW. change (8 * Z.of_nat 16) with 128 in HW.
  pose proof (at_bytes l 0 Hb) as H0. unfold is_byte in H0.
  assert (le_bytes 16 (2 * be_value l) = rev (shifted l)) as Hle.
  { rewrite <- (le_bytes_mod 16), Sv. change (2 ^ (8 * Z.of_nat 16)) with (2 ^ 128).
    rewrite Z.add_comm, Z.mod_add, Z.mod_small by lia. rewrite be_value_rev.
    rewrite <- Sl, <- length_rev. apply le_bytes_value. by apply Forall_rev. }
  unfold Rfc4493.double, dbl. rewrite shiftr_div by lia. change (2 ^ 7) with 128.
  set (x := u8 (Z.shiftl (at_ l 15) 1)). unfold shifted in Hle, Sv, HW. fold x in Hle, Sv, HW.
  set (d := map _ (seq 0 15)) in *. set (W := be_value (d ++ [x])) in *.
  assert (at_ l 0 / 128 = 0 \/ at_ l 0 / 128 = 1) as Hc.
  { assert (0 <= at_ l 0 / 128 < 2); [|lia]. split; [apply Z.div_pos; lia|apply Z.div_lt_upper_bound; lia]. }
  rewrite rev_app_distr in Hle. cbn [rev app] in Hle. unfold be_bytes.
  destruct Hc as [Hc|Hc]; rewrite Hc in *; cbn [Z.eqb]; destruct (Z.ltb_spec (be_value l) (2 ^ 127)); try lia.
  - rewrite Hle. cbn [rev]. by rewrite rev_involutive, Z.lxor_0_r.
  - destruct (u8_lxor (2 * be_value l) 0x87 ltac:(done)) as [E1 E2].
    assert (forall v, le_bytes 16 v = u8 v :: le_bytes 15 (v / 256)) as H16 by done.
    rewrite H16 in Hle. rewrite H16. 
    pose proof (f_equal (hd 0) Hle) as Hx. pose proof (f_equal (@tl Z) Hle) as Hd. cbn [hd tl] in Hx, Hd.
    rewrite E1, E2, Hx, Hd. cbn [rev]. by rewrite rev_involutive.
Qed.

(** *** CMAC *)
Lemma xor_map x y : length x = 16%nat -> length y = 16%nat ->
  map (fun i => Z.lxor (at_ x i) (at_ y i)) (seq 0 16) = Fips.xor x y.
Proof.
  intros Hx Hy. destruct (list16 x Hx) as (?&?&?&?&?&?&?&?&?&?&?&?&?&?&?&?&->).
  destruct (list16 y Hy) as (?&?&?&?&?&?&?&?&?&?&?&?&?&?&?&?&->). reflexivity.
Qed.

Lemma at_drop l n i : at_ (drop n l) i = at_ l (n + i).
Proof. unfold at_. by rewrite !nth_lookup, lookup_drop. Qed.
Lemma at_take l n i : (i < n)%nat -> at_ (take n l) i = at_ l i.
Proof. intros. unfold at_. rewrite !nth_lookup, lookup_take. by case_decide. Qed.

Lemma cmac_block_spec key m x b : length x = 16%nat -> (16 * b + 16 <= length m)%nat ->
  cmac_block key m x b = aes128 key (Rfc4493.xor x (take 16 (drop (16 * b) m))).
Proof.
  intros Hx Hm. unfold cmac_block, Rfc4493.xor. f_equal.
  rewrite <- xor_map by (rewrite ?length_take, ?length_drop; lia).
  apply map_ext_in. intros i Hi. apply in_seq in Hi. by rewrite at_take, at_drop by lia.
Qed.

(** The last block: its bytes with the padding, and the subkey by whether it is whole *)
Lemma cmac_last (r : bytes) (f : bytes -> bytes) x k1 k2 : length x = 16%nat -> (length r <= 16)%nat ->
  length k1 = 16%nat -> length k2 = 16%nat ->
  let whole := (length r =? 16)%nat in
  let last := r ++ replicate (16 - length r) 0 in
  let last := if whole then last else <[length r := 0x80]> last in
  f (map (fun i => Z.lxor (at_ x i) (Z.lxor (at_ last i) (if whole then at_ k1 i else at_ k2 i))) (seq 0 16)) =
  f (Rfc4493.xor x (if whole then Rfc4493.xor r k1 else Rfc4493.xor (Rfc4493.pad r) k2)).
Proof.
  intros Hx Hr H1 H2. cbv zeta. f_equal.
  assert (forall y k, length y = 16%nat -> length k = 16%nat ->
    map (fun i => Z.lxor (at_ x i) (Z.lxor (at_ y i) (at_ k i))) (seq 0 16) = Rfc4493.xor x (Rfc4493.xor y k)) as Hgen.
  { intros y k Hy Hk. unfold Rfc4493.xor. rewrite <- (xor_map x) by (done || (unfold Fips.xor; rewrite length_zip_with; lia)).
    apply map_ext_in. intros i Hi. apply in_seq in Hi. f_equal. rewrite <- (xor_map y k) by done.
    unfold at_ at 3. rewrite (nth_indep _ 0 (Z.lxor (at_ y 0) (at_ k 0))) by (rewrite length_map, length_seq; lia).
    rewrite (map_nth (fun i => Z.lxor (at_ y i) (at_ k i)) (seq 0 16) 0%nat i). by rewrite seq_nth by lia. }
  destruct (Nat.eqb_spec (length r) 16) as [E|E].
  - rewrite E, Nat.sub_diag. cbn [replicate]. rewrite app_nil_r. by apply Hgen.
  - assert (<[length r := 0x80]> (r ++ replicate (16 - length r) 0) = Rfc4493.pad r) as ->.
    { unfold Rfc4493.pad. rewrite <- (Nat.add_0_r (length r)) at 1. rewrite insert_app_r.
      replace (16 - length r)%nat with (S (15 - length r)) by lia. done. }
    apply Hgen; [|done]. unfold Rfc4493.pad. rewrite !length_app, length_replicate. cbn. lia.
Qed.

Lemma cmac_blocks key m fuel k b x : length x = 16%nat -> (k < fuel)%nat ->
  (length m <= 16 * (b + k) + 16)%nat -> (k = 0 \/ 16 * (b + k) < length m)%nat -> (16 * b <= length m)%nat ->
  Rfc4493.mac (aes128 key) fuel x (drop (16 * b) m) =
  Rfc4493.mac (aes128 key) (fuel - k) (fold_left (cmac_block key m) (seq b k) x) (drop (16 * (b + k)) m) /\
  length (fold_left (cmac_block key m) (seq b k) x) = 16%nat.
Proof.
  revert fuel b x. induction k as [|k IH]; intros fuel b x Hx Hf Hm1 Hm2 Hm3.
  - cbn [seq fold_left]. by rewrite Nat.add_0_r, Nat.sub_0_r.
  - destruct fuel as [|fuel]; [lia|]. cbn [Rfc4493.mac seq fold_left]. rewrite length_drop.
    destruct (Nat.leb_spec (length m - 16 * b) 16); [lia|]. rewrite drop_drop.
    rewrite <- cmac_block_spec by (done || lia). replace (16 * b + 16)%nat with (16 * S b)%nat by lia.
    replace (S fuel - S k)%nat with (fuel - k)%nat by lia. replace (b + S k)%nat with (S b + k)%nat by lia.
    apply IH; try lia. apply aes128_length.
Qed.

Lemma last_block_whole n blocks : (1 <= blocks)%nat -> (n <= 16 * blocks)%nat -> (blocks = 1 \/ 16 * (blocks - 1) < n)%nat ->
  negb (n =? 0)%nat && (n mod 16 =? 0)%nat = (n - 16 * (blocks - 1) =? 16)%nat.
Proof.
  intros B1 B2 B3. pose proof (Nat.div_mod_eq n 16). pose proof (Nat.mod_upper_bound n 16 ltac:(lia)).
  destruct (Nat.eqb_spec n 0), (Nat.eqb_spec (n mod 16) 0), (Nat.eqb_spec (n - 16 * (blocks - 1)) 16); cbn; (reflexivity || lia).
Qed.

(** The message authentication of the pairing is RFC 4493's AES-CMAC, whatever the length of
    the message. *)
Theorem aes_cmac_is_rfc4493 (key m : bytes) :
  length key = 16%nat -> are_bytes key -> aes_cmac key m = Rfc4493.CMAC (aes128 key) m.
Proof.
  intros Hk Hkb. unfold aes_cmac, Rfc4493.CMAC.
  assert (are_bytes (aes128 key (replicate 16 0))) as Hlb by (apply aes128_bytes; [done|done|by repeat apply Forall_cons_2]).
  pose proof (aes128_length key (replicate 16 0)) as Hll.
  assert (dbl (aes128 key (replicate 16 0)) = Rfc4493.K1 (aes128 key)) as E1 by by apply dbl_spec.
  assert (are_bytes (Rfc4493.K1 (aes128 key)) /\ length (Rfc4493.K1 (aes128 key)) = 16%nat) as [Kb Kl].
  { unfold Rfc4493.K1, Rfc4493.double. split; [|by apply be_bytes_length]. apply Forall_rev, le_bytes_are_bytes. }
  rewrite E1, (dbl_spec (Rfc4493.K1 _)) by done.
  assert (length (Rfc4493.K2 (aes128 key)) = 16%nat) as Kl2 by apply be_bytes_length.
  change (Rfc4493.double (Rfc4493.K1 (aes128 key))) with (Rfc4493.K2 (aes128 key)).
  set (n := length m). set (blocks := (if (n =? 0)%nat then 1 else (n + 15) / 16)%nat).
  set (k1 := Rfc4493.K1 _) in *. set (k2 := Rfc4493.K2 _) in *.
  assert (1 <= blocks /\ n <= 16 * blocks /\ (blocks = 1 \/ 16 * (blocks - 1) < n))%nat as (B1 & B2 & B3).
  { subst blocks. destruct (Nat.eqb_spec n 0) as [|Hn]; [lia|].
    pose proof (Nat.div_mod_eq (n + 15) 16). pose proof (Nat.mod_upper_bound (n + 15) 16 ltac:(lia)). lia. }
  destruct (cmac_blocks key m (S n) (blocks - 1) 0 (replicate 16 0)) as [Hc Hx]; try (cbn [Nat.add]; lia); [done|].
  change (drop (16 * 0) m) with m in Hc. cbn [Nat.add] in Hc. rewrite Hc.
  set (x := fold_left (cmac_block key m) _ _) in *. clearbody x. set (r := drop (16 * (blocks - 1)) m).
  assert (length r = n - 16 * (blocks - 1))%nat as Hr by (subst r; by rewrite length_drop).
  replace (S n - (blocks - 1))%nat with (S (n - (blocks - 1))) by lia. cbn [Rfc4493.mac].
  destruct (Nat.leb_spec (length r) 16); [|lia].
  assert (negb (n =? 0)%nat && (n mod 16 =? 0)%nat = (length r =? 16)%nat) as Ew.
  { rewrite Hr. by apply (last_block_whole n blocks). }
  rewrite Ew, <- Hr. symmetry. fold k1 k2.
  rewrite (cmac_last r (aes128 key) x k1 k2) by (done || lia). done.
Qed.

(** *** Reversal and the values sent least significant byte first *)
Definition reversed_at (inp out : bytes) (j : nat) : Prop := at_ out j = at_ inp (length inp - 1 - j).

Lemma at_insert l i j v : (i < length l)%nat -> at_ (<[i := v]> l) j = if decide (i = j) then v else at_ l j.
Proof. intros. unfold at_. rewrite !nth_lookup. case_decide; [subst; by rewrite list_lookup_insert_eq|by rewrite list_lookup_insert_ne]. Qed.

Lemma reverse_loop_spec inp k out :
  length out = length inp -> (k <= length inp / 2)%nat ->
  (forall j, (j < length inp)%nat -> (j < length inp / 2 - k \/ length inp - 1 - j < length inp / 2 - k)%nat -> reversed_at inp out j) ->
  let out' := reverse_loop inp (length inp) k out in
  length out' = length inp /\
  forall j, (j < length inp)%nat -> (j < length inp / 2 \/ length inp - 1 - j < length inp / 2)%nat -> reversed_at inp out' j.
Proof.
  pose proof (Nat.div_mod_eq (length inp) 2) as Hn. set (n := length inp) in *. set (h := (n / 2)%nat) in *. cbv zeta.
  revert out. induction k as [|k IH]; intros out Hl Hk Hr; cbn [reverse_loop].
  - split; [done|]. intros j Hj Hd. apply Hr; [done|lia].
  - fold h. apply IH; [by rewrite !length_insert|lia|]. intros j Hj Hd.
    unfold reversed_at. fold n. rewrite !at_insert by (rewrite ?length_insert; lia).
    case_decide; [f_equal; lia|]. case_decide; [f_equal; lia|]. apply Hr; lia.
Qed.

Lemma bytes_reverse_spec inp out : length out = length inp -> bytes_reverse inp out = rev inp.
Proof.
  intros Hl. unfold bytes_reverse. destruct (reverse_loop_spec inp (length inp / 2) out) as [Hl' Hr]; [done|lia|intros; lia|].
  set (out' := reverse_loop _ _ _ _) in *. clearbody out'. pose proof (Nat.div_mod_eq (length inp) 2) as Hn.
  pose proof (Nat.mod_upper_bound (length inp) 2 ltac:(lia)).
  match goal with |- ?x = rev inp => set (res := x) end. assert (length res = length inp /\ forall j, (j < length inp)%nat -> reversed_at inp res j) as [Hlr Hres].
  { subst res. destruct (Nat.eqb_spec (length inp mod 2) 0).
    - split; [done|]. intros j Hj. apply Hr; lia.
    - split; [by rewrite length_insert|]. intros j Hj. unfold reversed_at. rewrite at_insert by lia.
      case_decide; [f_equal; lia|]. apply Hr; lia. }
  clearbody res. apply (nth_ext _ _ 0 0); [by rewrite length_rev|]. intros j Hj. rewrite rev_nth by lia.
  specialize (Hres j ltac:(lia)). unfold reversed_at, at_ in Hres. rewrite Hres. f_equal. lia.
Qed.

Lemma e_le_spec k inp : length k = 16%nat -> length inp = 16%nat -> e_le k inp = rev (aes128 (rev k) (rev inp)).
Proof. intros Hk Hi. unfold e_le. by rewrite !bytes_reverse_spec by (rewrite ?length_replicate; done). Qed.

(** A resolvable private address, made of three random bytes and their hash under the device's
    key as the Core specification says, is recognised with that key; any other hash or a
    prefix other than 01 is not. *)
Theorem resolvable_address_matches (irk prand hash : bytes) :
  length irk = 16%nat -> length prand = 3%nat -> length hash = 3%nat ->
  smp_ah_match irk (hash ++ prand) = true <->
  Z.shiftr (at_ prand 2) 6 = 1 /\ hash = take 3 (rev (aes128 (rev irk) (replicate 13 0 ++ rev prand))).
Proof.
  intros Hk Hp Hh. destruct prand as [|p0 [|p1 [|p2 [|]]]]; try done. destruct hash as [|h0 [|h1 [|h2 [|]]]]; try done.
  unfold smp_ah_match. change (at_ ([h0; h1; h2] ++ [p0; p1; p2]) 3) with p0.
  change (at_ ([h0; h1; h2] ++ [p0; p1; p2]) 4) with p1. change (at_ ([h0; h1; h2] ++ [p0; p1; p2]) 5) with p2.
  change (at_ [p0; p1; p2] 2) with p2. rewrite e_le_spec by done.
  change (rev ([p0; p1; p2] ++ replicate 13 0)) with (replicate 13 0 ++ rev [p0; p1; p2]).
  pose proof (aes128_length (rev irk) (replicate 13 0 ++ rev [p0; p1; p2])) as Hl.
  revert Hl. generalize (aes128 (rev irk) (replicate 13 0 ++ rev [p0; p1; p2])). intros t Hl. rewrite <- length_rev in Hl.
  destruct (list16 (rev t) Hl) as (t0&t1&t2&?&?&?&?&?&?&?&?&?&?&?&?&?&->). cbn [at_ nth app take].
  destruct (Z.eqb_spec (Z.shiftr p2 6) 1); cbn [negb]; [|naive_solver].
  rewrite !andb_true_iff, !Z.eqb_eq. split; [intros [[-> ->] ->]; done|intros [_ E]; by simplify_eq].
Qed.

(** *** Concrete runs *)
Lemma bytes_check l : forallb (fun b => (0 <=? b) && (b <? 256)) l = true -> are_bytes l.
Proof.
  rewrite forallb_forall. intros Hl. apply Forall_forall. intros b Hb. specialize (Hl b Hb). bsimp. unfold is_byte. lia.
Qed.

Lemma aes128_is_fips_witness :
  let key := map Z.of_nat (seq 0 16) in
  (length key = 16%nat /\ are_bytes key) /\ aes128 key (rev key) = Fips.Cipher key (rev key).
Proof.
  intros key. assert (are_bytes key /\ are_bytes (rev key)) as [Hk Hr] by (split; apply bytes_check; reflexivity).
  split; [done|]. exact (aes128_is_fips key (rev key) eq_refl Hk eq_refl Hr).
Defined.

Lemma aes_cmac_is_rfc4493_witness :
  let key := map Z.of_nat (seq 0 16) in
  (length key = 16%nat /\ are_bytes key) /\ aes_cmac key (str "twenty bytes and one") = Rfc4493.CMAC (aes128 key) (str "twenty bytes and one").
Proof.
  intros key. assert (are_bytes key) as Hk by (apply bytes_check; reflexivity).
  split; [done|]. exact (aes_cmac_is_rfc4493 key (str "twenty bytes and one") eq_refl Hk).
Defined.

Lemma resolvable_address_matches_witness :
  let irk := map Z.of_nat (seq 1 16) in
  let hash := take 3 (rev (aes128 (rev irk) (replicate 13 0 ++ rev [1; 2; 0x43]))) in
  (length irk = 16%nat /\ length hash = 3%nat) /\ smp_ah_match irk (hash ++ [1; 2; 0x43]) = true.
Proof.
  intros irk hash. assert (length hash = 3%nat) as Hh by (by vm_compute). split; [done|].
  apply (resolvable_address_matches irk [1; 2; 0x43] hash); [done|done|exact Hh|]. split; [by vm_compute|reflexivity].
Defined.
