(* ===== verification/EspPb.v ===== *)
(** * The protobuf fields of the ESPHome native API (proto_esphome.c)
    A message is written into a buffer of fixed size and read field by field.  A field list
    that fits is read back as it was written. *)
From S2P Require Import Prelude Cbits.

Record pb := mk_pb { pb_p : bytes; pb_cap : nat }.     (* n is the length *)
Definition PB (size : nat) : pb := mk_pb [] size.

Definition pb_raw (d : bytes) (b : pb) : pb :=
  if (length (pb_p b) + length d <=? pb_cap b)%nat then b <| pb_p := pb_p b ++ d |> else b.

(** [do c = v & 0x7f ... while (v)]: ten bytes are enough for 64 bits *)
Fixpoint varint_loop (fuel : nat) (v : Z) (b : pb) : pb :=
  match fuel with
  | O => b
  | S fuel =>
      let c := Z.land v 0x7f in
      let v := Z.shiftr v 7 in
      let b := pb_raw [if v =? 0 then c else Z.lor c 0x80] b in
      if v =? 0 then b else varint_loop fuel v b
  end.
Definition pb_varint (v : Z) (b : pb) : pb := varint_loop 10 v b.

Definition pb_uint (f v : Z) (b : pb) : pb :=
  if v =? 0 then b else pb_varint v (pb_varint (Z.shiftl f 3) b).
Definition pb_bytes (f : Z) (d : bytes) (b : pb) : pb :=
  if (length d =? 0)%nat then b
  else pb_raw d (pb_varint (Z.of_nat (length d)) (pb_varint (Z.lor (Z.shiftl f 3) 2) b)).
Definition pb_str (f : Z) (s : bytes) (b : pb) : pb := pb_bytes f s b.
(** [v]: an int32_t; [v >> 31] is all its sign bits *)
Definition pb_sint (f v : Z) (b : pb) : pb :=
  pb_uint f (Z.lxor (u32 (Z.shiftl (u32 v) 1)) (u32 (Z.shiftr v 31))) b.
Definition pb_fixed32 (f v : Z) (b : pb) : pb := pb_raw (le_bytes 4 v) (pb_varint (Z.lor (Z.shiftl f 3) 5) b).
(** [u]: the float's bits *)
Definition pb_float (f u : Z) (b : pb) : pb := pb_fixed32 f u b.

(** [data] is [None] for NULL; its length is [len]. *)
Record pbf := mk_pbf { field : Z; wire : Z; pbf_v : Z; data : option bytes }.
Definition pbf_len (f : pbf) : nat := length (from_option id [] (data f)).

(** A varint from the bytes left.  C leaves a shift of 64 or more undefined; here it gives 0. *)
Fixpoint read_var (sh : Z) (v : Z) (p : bytes) : Z * bytes :=
  match p with
  | [] => (v, [])
  | c :: p =>
      let v := Z.lor v (u64 (Z.shiftl (Z.land c 0x7f) sh)) in
      if Z.land c 0x80 =? 0 then (v, p) else read_var (sh + 7) v p
  end.

(** [None]: no field left, or a malformed one *)
Definition pb_next (p : bytes) : option (pbf * bytes) :=
  match p with
  | [] => None
  | _ =>
      let '(k, p) := read_var 0 0 p in
      let f := u32 (Z.shiftr k 3) in
      let w := Z.land k 7 in
      if w =? 0 then let '(v, p) := read_var 0 0 p in Some (mk_pbf f w v None, p)
      else if w =? 1 then if (length p <? 8)%nat then None else Some (mk_pbf f w 0 None, drop 8 p)
      else if w =? 2 then
        let '(v, p) := read_var 0 0 p in
        if Z.of_nat (length p) <? v then None
        else Some (mk_pbf f w 0 (Some (take (Z.to_nat v) p)), drop (Z.to_nat v) p)
      else if w =? 5 then
        if (length p <? 4)%nat then None else Some (mk_pbf f w (le_value (take 4 p)) None, drop 4 p)
      else None
  end.

(** [while (pb_next(&p, end, &f)) ...]: the fields it goes through; every field takes a byte *)
Fixpoint pb_fields_loop (fuel : nat) (p : bytes) : list pbf :=
  match fuel with
  | O => []
  | S fuel => match pb_next p with None => [] | Some (f, p) => f :: pb_fields_loop fuel p end
  end.
Definition pb_fields (p : bytes) : list pbf := pb_fields_loop (length p) p.

Definition pbf_str (f : pbf) (outsz : nat) : bytes := take (outsz - 1) (from_option id [] (data f)).

(** ** What is written is read *)

(** The varint of [v], when it all fits *)
Fixpoint varint (fuel : nat) (v : Z) : bytes :=
  match fuel with
  | O => []
  | S fuel => if v <? 128 then [v] else (v mod 128 + 128) :: varint fuel (v / 128)
  end.

Lemma land_127 v : Z.land v 0x7f = v mod 128.
Proof. apply (Z.land_ones v 7). lia. Qed.

Lemma varint_loop_spec fuel v b : 0 <= v < 2 ^ (7 * Z.of_nat fuel) -> (length (pb_p b) + length (varint fuel v) <= pb_cap b)%nat ->
  varint_loop fuel v b = b <| pb_p := pb_p b ++ varint fuel v |>.
Proof.
  revert v b. induction fuel as [|fuel IH]; intros v b Hv Hc; cbn [varint_loop varint] in *.
  - rewrite app_nil_r. by destruct b.
  - replace (7 * Z.of_nat (S fuel)) with (7 * Z.of_nat fuel + 7) in Hv by lia. rewrite Z.pow_add_r in Hv by lia.
    change (2 ^ 7) with 128 in Hv. rewrite land_127, shiftr_div by lia. change (2 ^ 7) with 128.
    pose proof (Z.mod_pos_bound v 128). pose proof (Z.div_mod v 128).
    revert Hc. destruct (Z.ltb_spec v 128) as [Hs|Hs]; intros Hc.
    + rewrite Z.div_small, Z.mod_small by lia. cbn [Z.eqb]. unfold pb_raw. cbn [length] in *.
      destruct (Nat.leb_spec (length (pb_p b) + 1) (pb_cap b)); [done|lia].
    + destruct (Z.eqb_spec (v / 128) 0); [lia|]. cbn [length] in Hc.
      assert (Z.lor (v mod 128) 128 = v mod 128 + 128) as ->.
      { rewrite Z.lor_comm. change (Z.lor 128 ?x) with (Z.lor (Z.shiftl 1 7) x). rewrite lor_shiftl_add by lia. lia. }
      unfold pb_raw. cbn [length]. destruct (Nat.leb_spec (length (pb_p b) + 1) (pb_cap b)); [|lia].
      rewrite IH.
      * cbn. by rewrite <- app_assoc.
      * split; [lia|]. apply Z.div_lt_upper_bound; lia.
      * cbn. rewrite length_app. cbn. lia.
Qed.

Lemma read_var_spec fuel v sh acc rest : 0 <= v < 2 ^ (7 * Z.of_nat fuel) -> 0 <= sh -> 0 <= acc < 2 ^ sh -> (0 < fuel)%nat ->
  acc + v * 2 ^ sh < 2 ^ 64 ->
  read_var sh acc (varint fuel v ++ rest) = (acc + v * 2 ^ sh, rest).
Proof.
  revert v sh acc. induction fuel as [|fuel IH]; intros v sh acc Hv Hsh Ha Hf Hb; [lia|]. cbn [varint].
  replace (7 * Z.of_nat (S fuel)) with (7 * Z.of_nat fuel + 7) in Hv by lia. rewrite Z.pow_add_r in Hv by lia.
  change (2 ^ 7) with 128 in Hv. pose proof (Z.mod_pos_bound v 128). pose proof (Z.div_mod v 128). pose proof (Z.pow_pos_nonneg 2 sh).
  assert (forall x, 0 <= x -> acc + x * 2 ^ sh < 2 ^ 64 -> Z.lor acc (u64 (Z.shiftl x sh)) = acc + x * 2 ^ sh) as Hlor.
  { intros x Hx Hxb. rewrite Z.shiftl_mul_pow2, u64_id by nia. rewrite Z.lor_comm, <- Z.shiftl_mul_pow2 by lia.
    rewrite lor_shiftl_add by done. rewrite ?Z.shiftl_mul_pow2 by lia. lia. }
  destruct (Z.ltb_spec v 128) as [Hs|Hs]; cbn [app read_var].
  - rewrite land_127, Z.mod_small by lia. change 0x80 with (Z.shiftl 1 7).
    assert (Z.land v (Z.shiftl 1 7) = 0) as ->.
    { apply Z.bits_inj'. intros i Hi. rewrite Z.land_spec, Z.bits_0.
      destruct (Z.lt_ge_cases i 7); [rewrite Z.shiftl_spec_low by done; apply andb_false_r|].
      rewrite <- (Z.mod_small v (2 ^ 7)), Z.mod_pow2_bits_high by lia. done. }
    cbn [Z.eqb]. by rewrite Hlor by lia.
  - rewrite land_127. replace ((v mod 128 + 128) mod 128) with (v mod 128) by (rewrite Z.add_mod, Z.mod_same, Z.add_0_r, !Z.mod_mod by lia; done).
    assert ((Z.land (v mod 128 + 128) 0x80 =? 0) = false) as ->.
    { apply Z.eqb_neq. intros E. apply (f_equal (fun x => Z.testbit x 7)) in E. rewrite Z.land_spec, Z.bits_0 in E.
      change (Z.testbit 0x80 7) with true in E. rewrite andb_true_r in E.
      assert (v mod 128 + 128 = Z.lor (Z.shiftl 1 7) (v mod 128)) as E2 by (rewrite lor_shiftl_add by lia; lia).
      rewrite E2, Z.lor_spec in E. by rewrite Z.shiftl_spec in E by lia. }
    destruct fuel as [|fuel]; [change (2 ^ (7 * Z.of_nat 0)) with 1 in Hv; lia|].
    assert (v mod 128 * 2 ^ sh <= v * 2 ^ sh) by nia. rewrite Hlor by lia.
    rewrite IH; [| |lia| |lia|].
    + f_equal. rewrite Z.pow_add_r by lia. change (2 ^ 7) with 128. nia.
    + split; [lia|]. apply Z.div_lt_upper_bound; lia.
    + rewrite Z.pow_add_r by lia. change (2 ^ 7) with 128. nia.
    + rewrite Z.pow_add_r by lia. change (2 ^ 7) with 128. nia.
Qed.

Lemma varint_pos v : (0 < length (varint 10 v))%nat.
Proof. cbn [varint]. case_match; cbn; lia. Qed.
#[local] Opaque varint le_bytes.

(** A field as the code writes it *)
Inductive item := IUint (f v : Z) | IBytes (f : Z) (d : bytes) | ISint (f v : Z) | IFixed32 (f v : Z).
Definition write_item (b : pb) (i : item) : pb :=
  match i with
  | IUint f v => pb_uint f v b
  | IBytes f d => pb_bytes f d b
  | ISint f v => pb_sint f v b
  | IFixed32 f v => pb_fixed32 f v b
  end.

Definition field_ok (f : Z) : Prop := 0 < f < 2 ^ 29.
Definition item_ok (i : item) : Prop :=
  match i with
  | IUint f v => field_ok f /\ 0 <= v < 2 ^ 64
  | IBytes f d => field_ok f /\ Z.of_nat (length d) < 2 ^ 64
  | ISint f v => field_ok f /\ INT_MIN <= v <= INT_MAX
  | IFixed32 f v => field_ok f /\ 0 <= v < 2 ^ 32
  end.

Definition zigzag (v : Z) : Z := if 0 <=? v then 2 * v else - 2 * v - 1.

(** What its reader gets: a zero and an empty string are not written. *)
Definition item_field (i : item) : option pbf :=
  match i with
  | IUint f v => if v =? 0 then None else Some (mk_pbf f 0 v None)
  | IBytes f d => if (length d =? 0)%nat then None else Some (mk_pbf f 2 0 (Some d))
  | ISint f v => if v =? 0 then None else Some (mk_pbf f 0 (zigzag v) None)
  | IFixed32 f v => Some (mk_pbf f 5 v None)
  end.

Definition item_bytes (i : item) : bytes :=
  match i with
  | IUint f v => if v =? 0 then [] else varint 10 (8 * f) ++ varint 10 v
  | IBytes f d => if (length d =? 0)%nat then [] else varint 10 (8 * f + 2) ++ varint 10 (Z.of_nat (length d)) ++ d
  | ISint f v => if v =? 0 then [] else varint 10 (8 * f) ++ varint 10 (zigzag v)
  | IFixed32 f v => varint 10 (8 * f + 5) ++ le_bytes 4 v
  end.

Lemma pb_varint_fits v b : 0 <= v < 2 ^ 64 -> (length (pb_p b) + length (varint 10 v) <= pb_cap b)%nat ->
  pb_varint v b = b <| pb_p := pb_p b ++ varint 10 v |>.
Proof. intros Hv Hc. apply varint_loop_spec; [|done]. assert (2 ^ 64 < 2 ^ (7 * Z.of_nat 10)) by (by vm_compute). lia. Qed.

Lemma pb_raw_fits d b : (length (pb_p b) + length d <= pb_cap b)%nat -> pb_raw d b = b <| pb_p := pb_p b ++ d |>.
Proof. intros Hc. unfold pb_raw. by destruct (Nat.leb_spec (length (pb_p b) + length d) (pb_cap b)); [|lia]. Qed.

Lemma field_key f w : field_ok f -> 0 <= w < 8 -> Z.lor (Z.shiftl f 3) w = 8 * f + w /\ 0 <= 8 * f + w < 2 ^ 64.
Proof. unfold field_ok. intros Hf Hw. rewrite lor_shiftl_add by lia. lia. Qed.

Lemma zigzag_code v : INT_MIN <= v <= INT_MAX -> Z.lxor (u32 (Z.shiftl (u32 v) 1)) (u32 (Z.shiftr v 31)) = zigzag v /\ 0 <= zigzag v < 2 ^ 32.
Proof.
  unfold INT_MIN, INT_MAX, zigzag. intros Hv. rewrite shiftr_div by lia. rewrite Z.shiftl_mul_pow2 by lia. change (2 ^ 1) with 2.
  destruct (Z.leb_spec 0 v).
  - rewrite Z.div_small by lia. change (u32 0) with 0. rewrite Z.lxor_0_r. unfold u32.
    rewrite (Z.mod_small v), Z.mod_small by lia. lia.
  - replace (v / 2 ^ 31) with (-1) by (apply (Z.div_unique v (2 ^ 31) (-1) (v + 2 ^ 31)); lia).
    unfold u32. replace (v mod 2 ^ 32) with (v + 2 ^ 32) by (apply (Z.mod_unique v (2 ^ 32) (-1)); lia).
    replace ((v + 2 ^ 32) * 2 mod 2 ^ 32) with (2 * v + 2 ^ 32) by (apply (Z.mod_unique _ (2 ^ 32) 1); lia).
    change (-1 mod 2 ^ 32) with (Z.ones 32). split; [|lia].
    assert (forall x, 0 <= x < 2 ^ 32 -> Z.lxor x (Z.ones 32) = Z.ones 32 - x) as Hx.
    { intros x Hx. rewrite Z.sub_nocarry_ldiff; [apply Z.bits_inj'; intros i Hi|]; [|apply Z.bits_inj'; intros i Hi].
      - rewrite Z.lxor_spec, Z.ldiff_spec. destruct (Z.lt_ge_cases i 32).
        + rewrite Z.ones_spec_low by lia. by destruct (Z.testbit x i).
        + rewrite Z.ones_spec_high by lia. rewrite <- (Z.mod_small x (2 ^ 32)), Z.mod_pow2_bits_high by lia. done.
      - rewrite Z.ldiff_spec, Z.bits_0. destruct (Z.lt_ge_cases i 32).
        + rewrite Z.ones_spec_low by lia. by destruct (Z.testbit x i).
        + rewrite <- (Z.mod_small x (2 ^ 32)), Z.mod_pow2_bits_high by lia. done. }
    rewrite Hx by lia. change (Z.ones 32) with (2 ^ 32 - 1). lia.
Qed.

Lemma write_item_fits i b : item_ok i -> (length (pb_p b) + length (item_bytes i) <= pb_cap b)%nat ->
  write_item b i = b <| pb_p := pb_p b ++ item_bytes i |>.
Proof.
  assert (b <| pb_p := pb_p b ++ [] |> = b) as Hnil by (destruct b; unfold set; cbn; by rewrite app_nil_r).
  assert (forall f v, field_ok f -> 0 <= v < 2 ^ 64 -> v <> 0 ->
    (length (pb_p b) + length (varint 10 (8 * f) ++ varint 10 v) <= pb_cap b)%nat ->
    pb_uint f v b = b <| pb_p := pb_p b ++ varint 10 (8 * f) ++ varint 10 v |>) as Huint.
  { intros f v Hf Hv Hn Hc. rewrite length_app in Hc. unfold pb_uint. destruct (Z.eqb_spec v 0); [done|].
    destruct (field_key f 0 Hf ltac:(lia)) as [Ek Hk]. rewrite Z.lor_0_r, Z.add_0_r in *. rewrite Ek.
    rewrite (pb_varint_fits (8 * f)) by lia. rewrite pb_varint_fits by (try lia; cbn; rewrite length_app; lia). cbn.
    by rewrite <- app_assoc. }
  destruct i as [f v|f d|f v|f v]; cbn [write_item item_bytes item_ok]; intros [Hf Hv] Hc.
  - destruct (Z.eqb_spec v 0) as [->|]; [by rewrite Hnil|]. by apply Huint.
  - unfold pb_bytes. destruct (Nat.eqb_spec (length d) 0); [by rewrite Hnil|]. rewrite !length_app in Hc.
    destruct (field_key f 2 Hf ltac:(lia)) as [-> Hk].
    rewrite (pb_varint_fits (8 * f + 2)) by lia. rewrite pb_varint_fits by (try lia; cbn; rewrite length_app; lia).
    rewrite pb_raw_fits by (cbn; rewrite !length_app; lia). cbn. by rewrite <- !app_assoc.
  - unfold pb_sint. destruct (zigzag_code v Hv) as [-> Hz]. destruct (Z.eqb_spec v 0) as [->|]; [by rewrite Hnil|].
    apply Huint; [done|lia| |done]. unfold zigzag. destruct (Z.leb_spec 0 v); lia.
  - rewrite length_app in Hc. unfold pb_fixed32. destruct (field_key f 5 Hf ltac:(lia)) as [-> Hk].
    rewrite (pb_varint_fits (8 * f + 5)) by lia. rewrite pb_raw_fits by (cbn; rewrite !length_app; lia). cbn. by rewrite <- app_assoc.
Qed.

Lemma write_items_fit items b : Forall item_ok items -> (length (pb_p b) + length (items ≫= item_bytes) <= pb_cap b)%nat ->
  fold_left write_item items b = b <| pb_p := pb_p b ++ (items ≫= item_bytes) |>.
Proof.
  intros Hi. revert b. induction Hi as [|i items Hi _ IH]; intros b Hc; cbn [fold_left mbind list_bind] in *.
  - destruct b. unfold set; cbn. by rewrite app_nil_r.
  - rewrite length_app in Hc. rewrite write_item_fits by (done || lia). rewrite IH by (cbn; rewrite length_app; lia).
    cbn. by rewrite <- app_assoc.
Qed.

Lemma read_varint_bytes v rest : 0 <= v < 2 ^ 64 -> read_var 0 0 (varint 10 v ++ rest) = (v, rest).
Proof.
  intros Hv. rewrite (read_var_spec 10) by (lia || (split; [lia|]; assert (2 ^ 64 < 2 ^ (7 * Z.of_nat 10)) by (by vm_compute); lia)).
  f_equal. lia.
Qed.

Lemma pb_next_key f w rest : field_ok f -> 0 <= w < 8 ->
  let p := varint 10 (8 * f + w) ++ rest in
  p <> [] /\ read_var 0 0 p = (8 * f + w, rest) /\ u32 (Z.shiftr (8 * f + w) 3) = f /\ Z.land (8 * f + w) 7 = w.
Proof.
  intros Hf Hw. destruct (field_key f w Hf Hw) as [_ Hk]. unfold field_ok in Hf. cbv zeta. split_and!.
  - pose proof (varint_pos (8 * f + w)). by destruct (varint 10 (8 * f + w)); [cbn in *; lia|].
  - by apply read_varint_bytes.
  - rewrite shiftr_div by lia. change (2 ^ 3) with 8. rewrite (Z.mul_comm 8), Z.div_add_l, Z.div_small, Z.add_0_r by lia.
    apply Z.mod_small. lia.
  - change 7 with (Z.ones 3). rewrite Z.land_ones by lia. change (2 ^ 3) with 8.
    rewrite (Z.mul_comm 8), Z.add_comm, Z.mod_add, Z.mod_small by lia. done.
Qed.

Lemma pb_next_item i rest : item_ok i ->
  match item_field i with
  | Some f => pb_next (item_bytes i ++ rest) = Some (f, rest) /\ (0 < length (item_bytes i))%nat
  | None => item_bytes i = []
  end.
Proof.
  assert (forall p, p <> [] -> pb_next p = (let '(k, p) := read_var 0 0 p in
      let f := u32 (Z.shiftr k 3) in
      let w := Z.land k 7 in
      if w =? 0 then let '(v, p) := read_var 0 0 p in Some (mk_pbf f w v None, p)
      else if w =? 1 then if (length p <? 8)%nat then None else Some (mk_pbf f w 0 None, drop 8 p)
      else if w =? 2 then
        let '(v, p) := read_var 0 0 p in
        if Z.of_nat (length p) <? v then None
        else Some (mk_pbf f w 0 (Some (take (Z.to_nat v) p)), drop (Z.to_nat v) p)
      else if w =? 5 then
        if (length p <? 4)%nat then None else Some (mk_pbf f w (le_value (take 4 p)) None, drop 4 p)
      else None)) as Hnext by (by intros []).
  assert (forall f v, field_ok f -> 0 <= v < 2 ^ 64 ->
    pb_next ((varint 10 (8 * f) ++ varint 10 v) ++ rest) = Some (mk_pbf f 0 v None, rest)) as Huint.
  { intros f v Hf Hv. destruct (pb_next_key f 0 (varint 10 v ++ rest) Hf ltac:(lia)) as (Hn & Hr & Ef & Ew).
    rewrite Z.add_0_r in *. rewrite <- app_assoc, Hnext, Hr by done. rewrite Ef, Ew. cbn [Z.eqb].
    by rewrite read_varint_bytes. }
  assert (forall a b : bytes, (0 < length a)%nat -> (0 < length (a ++ b))%nat) as Hpos by (intros; rewrite length_app; lia).
  destruct i as [f v|f d|f v|f v]; cbn [item_field item_bytes item_ok]; intros [Hf Hv].
  - destruct (v =? 0); [done|]. split; [by apply Huint|]. apply Hpos, varint_pos.
  - destruct (length d =? 0)%nat; [done|]. split; [|apply Hpos, varint_pos].
    destruct (pb_next_key f 2 (varint 10 (Z.of_nat (length d)) ++ d ++ rest) Hf ltac:(lia)) as (Hn & Hr & Ef & Ew).
    rewrite <- !app_assoc, Hnext, Hr by done. rewrite Ef, Ew. cbn [Z.eqb Pos.eqb]. rewrite read_varint_bytes by lia.
    rewrite length_app. destruct (Z.ltb_spec (Z.of_nat (length d + length rest)) (Z.of_nat (length d))); [lia|].
    by rewrite Nat2Z.id, take_app_length, drop_app_length.
  - destruct (zigzag_code v Hv) as [_ Hz]. destruct (v =? 0); [done|]. split; [apply Huint; [done|lia]|]. apply Hpos, varint_pos.
  - split; [|apply Hpos, varint_pos].
    destruct (pb_next_key f 5 (le_bytes 4 v ++ rest) Hf ltac:(lia)) as (Hn & Hr & Ef & Ew).
    rewrite <- !app_assoc, Hnext, Hr by done. rewrite Ef, Ew. cbn [Z.eqb Pos.eqb]. rewrite length_app, le_bytes_length.
    destruct (Nat.ltb_spec (4 + length rest) 4); [lia|].
    rewrite take_app_le, drop_app_ge, take_ge, le_bytes_length, Nat.sub_diag, drop_0, le_value_bytes by (rewrite ?le_bytes_length; lia).
    change (2 ^ (8 * Z.of_nat 4)) with (2 ^ 32). by rewrite Z.mod_small.
Qed.

Lemma pb_fields_items items fuel : Forall item_ok items -> (length (items ≫= item_bytes) <= fuel)%nat ->
  pb_fields_loop fuel (items ≫= item_bytes) = omap item_field items.
Proof.
  intros Hi. revert fuel. induction Hi as [|i items Hi _ IH]; intros fuel Hf; [by destruct fuel|].
  cbn [mbind list_bind omap list_omap] in *. pose proof (pb_next_item i (items ≫= item_bytes) Hi) as Hn.
  destruct (item_field i) as [f|].
  - destruct Hn as [Hn Hp]. rewrite length_app in Hf. destruct fuel as [|fuel]; [lia|]. cbn [pb_fields_loop].
    cbn [mbind list_bind] in Hn. rewrite Hn. f_equal. apply IH. cbn [mbind list_bind] in *. lia.
  - rewrite Hn in *. apply IH. exact Hf.
Qed.

(** A message built field by field that fits its buffer is taken apart into the same fields: every
    integer to 64 bits, every signed and fixed one to 32, every string; zeros and empty
    strings are not sent. *)
Theorem message_reads_back (items : list item) (cap : nat) :
  Forall item_ok items -> (length (items ≫= item_bytes) <= cap)%nat ->
  pb_fields (pb_p (fold_left write_item items (PB cap))) = omap item_field items.
Proof. intros Hi Hc. rewrite write_items_fit by done. by apply pb_fields_items. Qed.

Lemma message_reads_back_witness :
  let items := [IUint 1 1; IUint 2 300; IUint 3 0; IBytes 4 (str "kitchen"); ISint 5 (-7); IFixed32 6 0x3f800000] in
  (Forall item_ok items /\ (length (items ≫= item_bytes) <= 64)%nat) /\
  pb_fields (pb_p (fold_left write_item items (PB 64))) =
    [mk_pbf 1 0 1 None; mk_pbf 2 0 300 None; mk_pbf 4 2 0 (Some (str "kitchen")); mk_pbf 5 0 13 None; mk_pbf 6 5 0x3f800000 None].
Proof.
  intros items. assert (Forall item_ok items) as Hi.
  { unfold items. repeat constructor; unfold field_ok, INT_MIN, INT_MAX; cbn; lia. }
  assert (length (items ≫= item_bytes) <= 64)%nat as Hc by (vm_compute; lia).
  split; [done|]. exact (message_reads_back items 64 Hi Hc).
Defined.
