(* ===== verification/EspApi.v ===== *)
(** * The ESPHome native API: clients, the encryption key, requests (proto_esphome.c)
    [esp] is what the file keeps about its clients: the table, who has the voice assistant,
    the device key with its file, and for each slot the thread that serves it.  A request's
    effect on other parts of the daemon is an event of [out]; the messages those parts send
    in turn are not modelled.  Steps are what one thread does under the lock: accept, the
    first bytes, the end of a handshake, one message, the end of a connection.  Writes to a
    socket succeed; the bytes a step reads are its argument, and too few of them are the end
    of the stream. *)
From S2P Require Import Prelude Cbits Crypto Hash Noise EspPb.

Definition MAX_CLIENTS : nat := 4.
Definition BLE_ACTIVE : Z := 1.
Definition BLE_PASSIVE : Z := 0.
Definition UPDATE_CMD_INSTALL : Z := 1.
Definition UPDATE_CMD_CHECK : Z := 2.
Definition RING_LEDS_MAX : nat := 24.
Definition TIME_ASK_MS : Z := 6 * 3600 * 1000.

(** Entity keys the requests below look at *)
Definition KEY_ARB_SERVICE : Z := 19.
Definition KEY_UPDATE : Z := 36.
Definition KEY_IDENTIFY : Z := 40.
Definition KEY_RESET : Z := 41.
Definition KEY_DROPIN_SERVICE : Z := 44.
Definition KEY_DROPIN_END : Z := 47.
Definition KEY_RESTART : Z := 48.
Definition KEY_TIMER_STOP : Z := 50.
Definition KEY_RING_LEDS : Z := 60.
Definition KEY_NEXT_TIMER : Z := 63.

(** The requests the Echo answers *)
Inductive request :=
  | HELLO_REQ | CONNECT_REQ | DISCONNECT_REQ | PING_REQ | DEVICE_INFO_REQ | LIST_ENTITIES_REQ | SUBSCRIBE_STATES
  | LIGHT_COMMAND | SWITCH_COMMAND | SUBSCRIBE_HA_ACTIONS | GET_TIME_RESP | SUBSCRIBE_HA_STATES | HA_STATE | EXECUTE_SERVICE
  | NUMBER_COMMAND | SELECT_COMMAND | BUTTON_COMMAND | MEDIA_PLAYER_COMMAND | BLE_SUBSCRIBE | BLE_DEVICE_REQ
  | BLE_SERVICES_REQ | BLE_READ_REQ | BLE_WRITE_REQ | BLE_READ_DESC_REQ | BLE_WRITE_DESC_REQ | BLE_NOTIFY_REQ
  | BLE_CONN_FREE_REQ | BLE_UNSUBSCRIBE | SUBSCRIBE_VA | VA_RESPONSE | VA_EVENT | VA_AUDIO | VA_TIMER_EVENT
  | UPDATE_COMMAND | VA_ANNOUNCE | VA_CONFIG_REQ | VA_SET_CONFIG | SET_KEY_REQ | BLE_SCANNER_SET_MODE.

#[export] Instance request_eq_dec : EqDecision request.
Proof. solve_decision. Defined.

Definition requests : list (Z * request) :=
  [(1, HELLO_REQ); (3, CONNECT_REQ); (5, DISCONNECT_REQ); (7, PING_REQ); (9, DEVICE_INFO_REQ); (11, LIST_ENTITIES_REQ);
   (20, SUBSCRIBE_STATES); (32, LIGHT_COMMAND); (33, SWITCH_COMMAND); (34, SUBSCRIBE_HA_ACTIONS); (37, GET_TIME_RESP);
   (38, SUBSCRIBE_HA_STATES); (40, HA_STATE); (42, EXECUTE_SERVICE); (51, NUMBER_COMMAND); (54, SELECT_COMMAND);
   (62, BUTTON_COMMAND); (65, MEDIA_PLAYER_COMMAND); (66, BLE_SUBSCRIBE); (68, BLE_DEVICE_REQ); (70, BLE_SERVICES_REQ);
   (73, BLE_READ_REQ); (75, BLE_WRITE_REQ); (76, BLE_READ_DESC_REQ); (77, BLE_WRITE_DESC_REQ); (78, BLE_NOTIFY_REQ);
   (80, BLE_CONN_FREE_REQ); (87, BLE_UNSUBSCRIBE); (89, SUBSCRIBE_VA); (91, VA_RESPONSE); (92, VA_EVENT); (106, VA_AUDIO);
   (115, VA_TIMER_EVENT); (118, UPDATE_COMMAND); (119, VA_ANNOUNCE); (121, VA_CONFIG_REQ); (123, VA_SET_CONFIG);
   (124, SET_KEY_REQ); (127, BLE_SCANNER_SET_MODE)].
Definition request_of (type : Z) : option request := snd <$> find (fun r => fst r =? type) requests.

(** The answers' types *)
Definition HELLO_RESP : Z := 2.
Definition CONNECT_RESP : Z := 4.
Definition DISCONNECT_RESP : Z := 6.
Definition PING_RESP : Z := 8.
Definition GET_TIME_REQ : Z := 36.
Definition SET_KEY_RESP : Z := 125.

(** What is called of the rest of the daemon, and what is written *)
Inductive ev :=
  | Write (fd : Z) (b : bytes)
  | TtsData (d : bytes) | DeviceInfo | Entities | MpState | AllSettings | TokenState | WebState
  | ClockFromHa (epoch : Z) (tz : bytes) | HaTime (epoch : Z) | SendSetting (key : Z) | ScreenTz (tz : bytes)
  | OnSetting (r : request) (p : bytes) | OnLight (p : bytes) | Identify | Reset | Reboot | AlarmStop | DropinHangup
  | UpdateCheck | UpdateInstall | ArbHaState (ent st : bytes) | RingLeds (colors : list bytes) | DropinCall (target : bytes)
  | ArbKey (network key : bytes) | CoreLink (up va : bool) | CoreError | OnEvent (p : bytes) | OnTimer (p : bytes)
  | OnAnnounce (p : bytes) | VaConfig | OnVaSetConfig (p : bytes) | OnMpCommand (p : bytes)
  | BleScan (on active : bool) | ScannerState | Slots | OnBleRequest (r : request) (p : bytes) | BleDisconnectAll
  | MdnsRefresh | Started.

Record client := mk_client {
  fd : Z; states : bool; enc : bool; keyed : bool; ble : bool; ble_free : bool; ble_user : bool; actions : bool; ha_states : bool;
  tx : noise_cs; rx : noise_cs }.
Definition cs0 : noise_cs := mk_noise_cs (replicate 32 0) 0.
Definition no_client : client := mk_client (-1) false false false false false false false false cs0 cs0.

#[export] Instance client_inhabited : Inhabited client := populate no_client.

(** The thread of a slot: the key state it saw when it was accepted, and where it is *)
Inductive phase :=
  | Hello                                                (* the first byte is to come *)
  | Shaking (snap : bool) (psk msg : bytes)              (* the key as it was, the client's message 1 *)
  | Plain (first : bool) | Encrypted.
Record thread := mk_thread { t_fd : Z; t_keyed : bool; t_phase : phase }.

Record esp := mk_esp {
  clients : list client; va_fd : Z;
  api_key : bytes; have_key : bool; key_file : option bytes;
  tts_expected : bool; ble_mode : Z; time_asked : Z;
  loaded : bool; threads : list (option thread);
  out : list ev }.

Definition esp0 (file : option bytes) : esp :=
  mk_esp (replicate MAX_CLIENTS no_client) (-1) (replicate 32 0) false file false BLE_ACTIVE 0 false (replicate MAX_CLIENTS None) [].

(** What the rest of the daemon answers *)
Record env := mk_env {
  listed : Z -> bool; ble_present : bool; arb_running : bool; core_local_wake : bool;
  ha_time_moved : bool; timer_next : bool;
  file_ok : bool; unlink_ok : bool; now_ms : Z }.

Definition emit (e : ev) (s : esp) : esp := s <| out := out s ++ [e] |>.
Definition upd_client (c : nat) (f : client -> client) (s : esp) : esp := s <| clients := alter f c (clients s) |>.

Section api.
Context `{C : Crypto} `{E : Entropy} `{I : Ietf} (node_name mac_plain VERSION : bytes).

Definition client_of (f : Z) (s : esp) : option nat :=
  find_index (fun c => (0 <=? f) && (fd c =? f)) (clients s).

(** ** Frames *)
(** Frames sent are at most 8212 bytes (the largest message, its head and the tag), within
    the 16 bits of the length *)
Definition write_frame (d : bytes) : bytes :=
  [1; u8 (Z.shiftr (Z.of_nat (length d)) 8); Z.land (Z.of_nat (length d)) 0xff] ++ d.

(** What an encrypted frame holds, and a plain message *)
Definition inner (type : Z) (b : bytes) : bytes :=
  let n := Z.of_nat (length b) in
  [u8 (Z.shiftr type 8); u8 type; u8 (Z.shiftr n 8); u8 n] ++ b.
Definition plain_head (type : Z) (b : bytes) : bytes :=
  pb_p (pb_varint type (pb_varint (Z.of_nat (length b)) (pb_raw [0] (PB 12)))).

Definition send_to (f type : Z) (b : bytes) (s : esp) : esp :=
  if f <? 0 then s else
  let plain := emit (Write f (plain_head type b ++ b)) s in
  match client_of f s with
  | None => plain
  | Some c =>
      let cl := clients s !!! c in
      if enc cl then
        if 4 + 8192 <? 4 + Z.of_nat (length b) then s else
        let '(ct, t) := noise_encrypt (inner type b) (tx cl) in
        emit (Write f (write_frame ct)) (upd_client c (fun x => x <| tx := t |>) s)
      else plain
  end.

(** ** The device key *)
Definition strcspn (stop : list Z) (l : bytes) : bytes :=
  match find_index (fun c => bool_decide (c ∈ stop)) l with Some i => take i l | None => l end.
(** fgets of a buffer of 128: at most 127 bytes, up to the first line's end *)
Definition first_line (f : bytes) : bytes := strcspn [0; 13; 10] (take 127 f).

(** Where decoding fails the code may leave part of what it decoded in [api_key], which
    nothing reads without [have_key] *)
Definition key_load (s : esp) : esp :=
  match key_file s with
  | None => s <| have_key := false |>
  | Some f =>
      match Base64.b64_decode (first_line f) 32 with
      | Some k => if (length k =? 32)%nat then s <| api_key := k |> <| have_key := true |> else s <| have_key := false |>
      | None => s <| have_key := false |>
      end
  end.

Definition key_set (e : env) (k : bytes) (s : esp) : bool * esp :=
  if (length k =? 0)%nat then
    if negb (unlink_ok e) then (false, s)
    else (true, emit MdnsRefresh (s <| key_file := None |> <| api_key := replicate 32 0 |> <| have_key := false |>))
  else if (64 <=? length k)%nat then (false, s)
  else
    match Base64.b64_decode k 32 with
    | Some raw =>
        if negb (length raw =? 32)%nat then (false, s)
        else if negb (file_ok e) then (false, s)
        else (true, emit MdnsRefresh (s <| key_file := Some (strcspn [0] k ++ [10]) |> <| api_key := raw |> <| have_key := true |>))
    | None => (false, s)
    end.

(** ** Requests *)
Definition ask_time (e : env) (c : option nat) (f : Z) (force : bool) (s : esp) : esp :=
  match c with
  | None => s
  | Some _ =>
      if negb force && negb (time_asked s =? 0) && (now_ms e - time_asked s <? TIME_ASK_MS) then s
      else send_to f GET_TIME_REQ [] (s <| time_asked := now_ms e |>)
  end.

Definition ble_subscribers (s : esp) : nat := length (filter (fun c => (0 <=? fd c) && ble c) (clients s)).
Definition ble_update (s : esp) : esp := emit (BleScan (0 <? ble_subscribers s)%nat (ble_mode s =? BLE_ACTIVE)) s.

Definition is_keyed (c : option nat) (s : esp) : bool :=
  match c with Some i => keyed (clients s !!! i) | None => false end.
Definition is_data (f : pbf) : bool := match data f with Some _ => true | None => false end.

Definition get_time_resp (e : env) (c : option nat) (p : bytes) (s : esp) : esp :=
  let '(epoch, tz) := fold_left (fun '(ep, tz) f =>
    if (field f =? 1) && (wire f =? 5) then (u32 (pbf_v f), tz)
    else if (field f =? 2) && (wire f =? 2) then (ep, pbf_str f 128) else (ep, tz)) (pb_fields p) (0, []) in
  let s := if is_keyed c s && negb (epoch =? 0) then emit (ClockFromHa epoch tz) s else s in
  let s := if bool_decide (is_Some c) && negb (epoch =? 0) then
             let s := emit (HaTime epoch) s in
             if ha_time_moved e && timer_next e then emit (SendSetting KEY_NEXT_TIMER) s else s
           else s in
  if is_keyed c s && negb (length (strcspn [0%Z] tz) =? 0)%nat then emit (ScreenTz tz) s else s.

Definition button_field (e : env) (s : esp) (f : pbf) : esp :=
  if negb (field f =? 1) then s
  else if pbf_v f =? KEY_IDENTIFY then emit Identify s
  else if pbf_v f =? KEY_RESET then emit Reset s
  else if pbf_v f =? KEY_RESTART then emit Reboot s
  else if pbf_v f =? KEY_TIMER_STOP then emit AlarmStop s
  else if (pbf_v f =? KEY_DROPIN_END) && listed e KEY_DROPIN_END then emit DropinHangup s
  else s.

Definition update_command (c : option nat) (p : bytes) (s : esp) : esp :=
  let '(key, cmd) := fold_left (fun '(k, m) f =>
    if field f =? 1 then (u32 (pbf_v f), m) else if field f =? 2 then (k, u32 (pbf_v f)) else (k, m)) (pb_fields p) (0, 0) in
  if negb (key =? KEY_UPDATE) then s
  else if cmd =? UPDATE_CMD_CHECK then emit UpdateCheck s
  else if (cmd =? UPDATE_CMD_INSTALL) && is_keyed c s then emit UpdateInstall s
  else s.

Definition ha_state (e : env) (c : option nat) (p : bytes) (s : esp) : esp :=
  let '(ent, st, attr) := fold_left (fun '(a, b, d) f =>
    if negb (is_data f) then (a, b, d)
    else if field f =? 1 then (pbf_str f 128, b, d)
    else if field f =? 2 then (a, pbf_str f 300, d)
    else if field f =? 3 then (a, b, pbf_str f 64) else (a, b, d)) (pb_fields p) ([], [], []) in
  if negb (length (strcspn [0%Z] attr) =? 0)%nat || negb (arb_running e) || negb (is_keyed c s) then s
  else emit (ArbHaState ent st) s.

(** The arguments of a service call: its key, the first two arguments' strings, and the colours *)
Record service := mk_service { sv_key : Z; argn : nat; arg_list : list bytes; colors : list bytes }.
Definition service_arg (sv : service) (g : pbf) : service :=
  if (field g =? 4) && is_data g then sv <| arg_list := <[argn sv := pbf_str g 256]> (arg_list sv) |>
  else if (field g =? 9) && is_data g && (length (colors sv) <? RING_LEDS_MAX)%nat
  then sv <| colors := colors sv ++ [pbf_str g 16] |> else sv.
Definition service_field (sv : service) (f : pbf) : service :=
  if field f =? 1 then sv <| sv_key := u32 (pbf_v f) |>
  else if (field f =? 2) && is_data f && (argn sv <? 2)%nat then
    let sv := fold_left service_arg (pb_fields (from_option id [] (data f))) sv in
    sv <| argn := S (argn sv) |>
  else sv.

Definition execute_service (e : env) (c : option nat) (p : bytes) (s : esp) : esp :=
  let sv := fold_left service_field (pb_fields p) (mk_service 0 0 [[]; []] []) in
  if (sv_key sv =? KEY_RING_LEDS) && listed e KEY_RING_LEDS then emit (RingLeds (colors sv)) s
  else if (sv_key sv =? KEY_DROPIN_SERVICE) && listed e KEY_DROPIN_SERVICE then
    if negb (is_keyed c s) then s else emit (DropinCall (arg_list sv !!! 0%nat)) s
  else if negb (sv_key sv =? KEY_ARB_SERVICE) || negb (arb_running e) then s
  else if negb (is_keyed c s) then s
  else emit (ArbKey (arg_list sv !!! 0%nat) (arg_list sv !!! 1%nat)) s.

(** [f]: the client that asks ([reply_fd]) *)
Definition subscribe_va (f : Z) (p : bytes) (s : esp) : esp :=
  let sub := fold_left (fun b x => if field x =? 1 then negb (pbf_v x =? 0) else b) (pb_fields p) false in
  if sub && (0 <=? va_fd s) && negb (va_fd s =? f) then s
  else if negb sub && negb (va_fd s =? f) then s
  else
    let s := s <| va_fd := if sub then f else -1 |> in
    let s := if sub then s else s <| tts_expected := false |> in
    emit (CoreLink true sub) s.

Definition set_key_req (e : env) (c : option nat) (f : Z) (p : bytes) (s : esp) : esp :=
  let k := fold_left (fun k x => if (field x =? 1) && is_data x then from_option id [] (data x) else k) (pb_fields p) [] in
  let '(ok, s) :=
    match c with
    | Some i =>
        if (if have_key s then keyed (clients s !!! i) else enc (clients s !!! i)) then
          let '(ok, s) := key_set e k s in
          (ok, if ok && have_key s then upd_client i (fun x => x <| keyed := true |>) s else s)
        else (false, s)
    | None => (false, s)
    end in
  send_to f SET_KEY_RESP (pb_p (pb_uint 1 (if ok then 1 else 0) (PB 8))) s.

Definition set_flag (c : option nat) (f : client -> client) (s : esp) : esp :=
  match c with Some i => upd_client i f s | None => s end.

Definition ble_request (e : env) (r : request) (c : option nat) (p : bytes) (s : esp) : esp :=
  if ble_present e && bool_decide (is_Some c)
  then emit (OnBleRequest r p) (set_flag c (fun x => x <| ble_user := true |>) s) else s.

Definition scanner_mode (p : bytes) : Z :=
  fold_left (fun m x => if (field x =? 1) && (pbf_v x =? BLE_ACTIVE) then BLE_ACTIVE else m) (pb_fields p) BLE_PASSIVE.

Definition hello_resp : bytes :=
  pb_p (pb_str 4 node_name (pb_str 3 (str "hassmic " ++ VERSION) (pb_uint 2 10 (pb_uint 1 1 (PB 128))))).

(** The switch of [handle], the key looked at before; the first result is [keep]. *)
Definition answer (e : env) (r : request) (f : Z) (c : option nat) (p : bytes) (s : esp) : bool * esp :=
  match r with
  | HELLO_REQ => (true, send_to f HELLO_RESP hello_resp s)
  | CONNECT_REQ => (true, send_to f CONNECT_RESP [] s)
  | DISCONNECT_REQ => (false, send_to f DISCONNECT_RESP [] s)
  | PING_REQ => (true, ask_time e c f false (send_to f PING_RESP [] s))
  | DEVICE_INFO_REQ => (true, emit DeviceInfo s)
  | LIST_ENTITIES_REQ => (true, emit Entities s)
  | SUBSCRIBE_STATES =>
      let s := s <| clients := map (fun x => if fd x =? f then x <| states := true |> else x) (clients s) |> in
      (true, ask_time e c f true (emit WebState (emit TokenState (emit AllSettings (emit MpState s)))))
  | GET_TIME_RESP => (true, get_time_resp e c p s)
  | SELECT_COMMAND | NUMBER_COMMAND | SWITCH_COMMAND => (true, emit (OnSetting r p) s)
  | LIGHT_COMMAND => (true, emit (OnLight p) s)
  | BUTTON_COMMAND => (true, fold_left (button_field e) (pb_fields p) s)
  | UPDATE_COMMAND => (true, update_command c p s)
  | SUBSCRIBE_HA_ACTIONS => (true, set_flag c (fun x => x <| actions := true |>) s)
  | SUBSCRIBE_HA_STATES => (true, set_flag c (fun x => x <| ha_states := true |>) s)
  | HA_STATE => (true, ha_state e c p s)
  | EXECUTE_SERVICE => (true, execute_service e c p s)
  | SUBSCRIBE_VA => (true, subscribe_va f p s)
  | VA_RESPONSE => (true, fold_left (fun s x => if (field x =? 2) && negb (pbf_v x =? 0) then emit CoreError s else s) (pb_fields p) s)
  | VA_EVENT => (true, emit (OnEvent p) s)
  | VA_TIMER_EVENT => (true, emit (OnTimer p) s)
  | VA_ANNOUNCE => (true, emit (OnAnnounce p) s)
  | VA_CONFIG_REQ => (true, emit VaConfig s)
  | VA_SET_CONFIG => (true, if core_local_wake e then emit (OnVaSetConfig p) s else s)
  | MEDIA_PLAYER_COMMAND => (true, emit (OnMpCommand p) s)
  | BLE_SUBSCRIBE | BLE_UNSUBSCRIBE =>
      if negb (bool_decide (is_Some c)) || negb (ble_present e) then (true, s) else
      let on := match r with BLE_SUBSCRIBE => true | _ => false end in
      let s := ble_update (set_flag c (fun x => x <| ble := on |>) s) in
      (true, if on then emit ScannerState s else s)
  | BLE_SCANNER_SET_MODE => (true, emit ScannerState (ble_update (s <| ble_mode := scanner_mode p |>)))
  | BLE_CONN_FREE_REQ =>
      (true, if bool_decide (is_Some c) && ble_present e then emit Slots (set_flag c (fun x => x <| ble_free := true |>) s) else s)
  | BLE_DEVICE_REQ | BLE_SERVICES_REQ | BLE_READ_REQ | BLE_READ_DESC_REQ | BLE_WRITE_REQ | BLE_WRITE_DESC_REQ | BLE_NOTIFY_REQ =>
      (true, ble_request e r c p s)
  | SET_KEY_REQ => (true, set_key_req e c f p s)
  | VA_AUDIO => (true, s)                               (* handled before *)
  end.

Definition va_audio (p : bytes) (s : esp) : esp :=
  fold_left (fun s x => match data x with Some d => if field x =? 1 then emit (TtsData d) s else s | None => s end) (pb_fields p) s.

Definition handle (e : env) (f type : Z) (p : bytes) (s : esp) : bool * esp :=
  match request_of type with
  | Some VA_AUDIO => (true, va_audio p s)
  | r =>
      let c := client_of f s in
      if have_key s && bool_decide (is_Some c) && negb (is_keyed c s) && negb (type =? 5) then (false, s)
      else match r with Some r => answer e r f c p s | None => (true, s) end
  end.
End api.
