(* ===== verification/EspServe.v ===== *)
(** * The ESPHome native API: connections (proto_esphome.c, from read_varint to serve)
    The steps of a thread that serves a client, and the runs of all of them together. *)
From S2P Require Import Prelude Cbits Crypto Hash Noise EspPb EspApi.

(** [read_full] of [n] bytes *)
Definition read_full (n : nat) (b : bytes) : option (bytes * bytes) :=
  if (length b <? n)%nat then None else Some (take n b, drop n b).

(** A 32-bit varint of at most five bytes *)
Fixpoint read_varint_loop (n : nat) (sh v : Z) (b : bytes) : option (Z * bytes) :=
  match n, b with
  | S n, c :: b =>
      let v := Z.lor v (u32 (Z.shiftl (Z.land c 0x7f) sh)) in
      if Z.land c 0x80 =? 0 then Some (v, b) else read_varint_loop n (sh + 7) v b
  | _, _ => None
  end.
Definition read_varint (b : bytes) : option (Z * bytes) := read_varint_loop 5 0 0 b.

Definition read_frame (b : bytes) : option (bytes * bytes) :=
  match read_full 2 b with
  | Some (h, b) => read_full (Z.to_nat (be_value h)) b
  | None => None
  end.

Definition upd_thread (slot : nat) (t : option thread) (s : esp) : esp := s <| threads := <[slot := t]> (threads s) |>.
Definition set_phase (slot : nat) (p : phase) (s : esp) : esp :=
  s <| threads := alter (fun t => (fun t => t <| t_phase := p |>) <$> t) slot (threads s) |>.

Section serve.
Context `{C : Crypto} `{E : Entropy} `{I : Ietf} (node_name mac_plain VERSION : bytes).
Local Abbreviation handle := (handle node_name VERSION).

Definition fresh_client (f : Z) (x : client) : client :=
  mk_client f false false false false false false false false (tx x) (rx x).
Definition active (s : esp) : nat := length (filter (fun c => 0 <=? fd c) (clients s)).

(** Up to the first read: the first client at all has the key loaded and the rest of the
    daemon started; [None] when every slot is taken. *)
Definition accept (f : Z) (s : esp) : option nat * esp :=
  let s := if loaded s then s else emit Started (key_load (s <| loaded := true |>)) in
  match find_index (fun c => fd c <? 0) (clients s) with
  | None => (None, s)
  | Some slot =>
      let n := active s in
      let s := upd_client slot (fresh_client f) s in
      let s := if (n =? 0)%nat then emit (CoreLink true false) s else s in
      (Some slot, upd_thread slot (Some (mk_thread f (have_key s) Hello)) s)
  end.

(** [done:] *)
Definition close_client (slot : nat) (f : Z) (s : esp) : esp :=
  let s := upd_client slot (fun x => fresh_client (-1) x) s in
  let s := ble_update s in
  let s := if (ble_subscribers s =? 0)%nat && negb (existsb (fun c => (0 <=? fd c) && (ble_free c || ble_user c)) (clients s))
           then emit BleDisconnectAll s else s in
  let s := upd_client slot (fun x => x <| tx := cs0 |> <| rx := cs0 |>) s in
  let n := active s in
  let s := if va_fd s =? f then emit (CoreLink (0 <? n)%nat false) (s <| va_fd := -1 |> <| tts_expected := false |>)
           else if (n =? 0)%nat then emit (CoreLink false false) s else s in
  upd_thread slot None s.

(** noise_handshake before its lock: the client's hello, which is ignored, and message 1 *)
Definition read_hello (b : bytes) : option bytes :=
  match read_frame b with
  | None => None
  | Some (_, b) =>
      match read_full 1 b with
      | Some ([1], b) =>
          match read_frame b with
          | Some (0 :: m, _) => Some m
          | _ => None
          end
      | _ => None
      end
  end.

Definition server_hello : bytes := [1] ++ node_name ++ [0] ++ mac_plain ++ [0].

(** The first bytes of a connection: 1 begins a handshake with the key as it is now, anything
    else needs that there was no key when it was accepted, and is the first of a message. *)
Definition first_bytes (slot : nat) (b : bytes) (s : esp) : esp :=
  match threads s !!! slot with
  | Some t =>
      match b with
      | [] => close_client slot (t_fd t) s
      | pre :: b =>
          if pre =? 1 then
            match read_hello b with
            | None => close_client slot (t_fd t) s
            | Some m =>
                let psk := if have_key s then api_key s else replicate 32 0 in
                set_phase slot (Shaking (have_key s) psk m) (emit (Write (t_fd t) (write_frame server_hello)) s)
            end
          else if t_keyed t then close_client slot (t_fd t) (emit (Write (t_fd t) (write_frame [])) s)
          else if pre =? 0 then set_phase slot (Plain true) s
          else close_client slot (t_fd t) s
      end
  | None => s
  end.

Definition noise_prologue : bytes := str "NoiseAPIInit" ++ [0; 0].
Definition mac_failure : bytes := [1] ++ str "Handshake MAC failure".

(** The rest of noise_handshake; [rnd]: which random numbers it draws *)
Definition finish_handshake (slot rnd : nat) (s : esp) : esp :=
  match threads s !!! slot with
  | Some (mk_thread f _ (Shaking snap psk m) as t) =>
      let fail := close_client slot f (emit (Write f (write_frame mac_failure)) s) in
      if (32 + NOISE_TAG + 64 <? length m)%nat then fail else
      match noise_nn_read_msg1 psk m (noise_nn_responder_init noise_prologue) with
      | (None, _) => fail
      | (Some _, hs) =>
          let '(m2, (_, send, recv)) := noise_nn_write_msg2 rnd [] hs in
          let s := upd_client slot (fun x => x <| tx := send |> <| rx := recv |> <| enc := true |> <| keyed := snap |>) s in
          set_phase slot Encrypted (emit (Write f (write_frame (0 :: m2))) s)
      end
  | _ => s
  end.

(** One message of a plain connection; [first]: its first byte is read already. *)
Definition plain_message (first : bool) (b : bytes) : option (Z * bytes) :=
  match (if first then Some b else match b with 0 :: b => Some b | _ => None end) with
  | None => None
  | Some b =>
      match read_varint b with
      | None => None
      | Some (len, b) =>
          match read_varint b with
          | None => None
          | Some (type, b) =>
              if 2 ^ 20 <? len then None else
              match read_full (Z.to_nat len) b with Some (m, _) => Some (type, m) | None => None end
          end
      end
  end.

(** One message of an encrypted connection, with the state of its key after it *)
Definition encrypted_message (b : bytes) (c : noise_cs) : option (Z * bytes) * noise_cs :=
  match read_full 1 b with
  | Some ([1], b) =>
      match read_frame b with
      | None => (None, c)
      | Some (f, _) =>
          match noise_decrypt f c with
          | (None, c) => (None, c)
          | (Some pt, c) =>
              match pt with
              | t1 :: t0 :: l1 :: l0 :: m =>
                  if Z.lor (Z.shiftl l1 8) l0 =? Z.of_nat (length m) then (Some (Z.lor (Z.shiftl t1 8) t0, m), c) else (None, c)
              | _ => (None, c)
              end
          end
      end
  | _ => (None, c)
  end.

(** A turn of serve's loop *)
Definition serve_message (e : env) (slot : nat) (b : bytes) (s : esp) : esp :=
  match threads s !!! slot with
  | Some t =>
      let '(msg, s) :=
        match t_phase t with
        | Plain first => (plain_message first b, set_phase slot (Plain false) s)
        | Encrypted =>
            let '(msg, c) := encrypted_message b (rx (clients s !!! slot)) in
            (msg, upd_client slot (fun x => x <| rx := c |>) s)
        | _ => (None, s)
        end in
      match t_phase t with
      | Plain _ | Encrypted =>
          match msg with
          | None => close_client slot (t_fd t) s
          | Some (type, m) =>
              let '(keep, s) := handle e (t_fd t) type m s in
              if (keep : bool) then s else close_client slot (t_fd t) s
          end
      | _ => s
      end
  | None => s
  end.

(** ** Runs *)
Inductive op :=
  | Accept (f : Z) | First (slot : nat) (b : bytes) | Shake (slot rnd : nat) | Message (e : env) (slot : nat) (b : bytes).

Definition step (s : esp) (o : op) : esp :=
  match o with
  | Accept f => snd (accept f s)
  | First slot b => match threads s !!! slot with Some (mk_thread _ _ Hello) => first_bytes slot b s | _ => s end
  | Shake slot rnd => finish_handshake slot rnd s
  | Message e slot b => serve_message e slot b s
  end.

(** A new socket's number is no client's. *)
Inductive reach : esp -> Prop :=
  | reach_start file : reach (esp0 file)
  | reach_accept f s : reach s -> 0 <= f -> client_of f s = None -> reach (step s (Accept f))
  | reach_first slot b s : reach s -> reach (step s (First slot b))
  | reach_shake slot rnd s : reach s -> reach (step s (Shake slot rnd))
  | reach_message e slot b s : reach s -> reach (step s (Message e slot b)).
End serve.
