(* ===== verification/EspSafe.v ===== *)
(** * The ESPHome native API: what the device key guards
    [view] is what authorization depends on; every request but two leaves it alone.  The
    invariant [ok] of the runs ties clients, threads and the voice assistant together. *)
From S2P Require Import Prelude Cbits Crypto Hash Noise EspPb EspApi EspServe.

Definition ids (x : client) : Z * bool * bool := (fd x, enc x, keyed x).
Definition view (s : esp) :=
  (map ids (clients s), threads s, loaded s, (have_key s, api_key s, key_file s), va_fd s).

Lemma view_emit e s : view (emit e s) = view s.
Proof. done. Qed.
Lemma view_upd_client c f s : (forall x, ids (f x) = ids x) -> view (upd_client c f s) = view s.
Proof.
  intros Hf. assert (forall l j, map ids (alter f j l) = map ids l) as Hm.
  { induction l as [|x l IH]; intros [|j]; [done..| |]; cbn [map alter list_alter]; [by rewrite Hf|]. f_equal. apply IH. }
  unfold view, upd_client. cbn -[map ids alter]. by rewrite Hm.
Qed.

Section view.
Context `{C : Crypto} `{E : Entropy} `{I : Ietf} (node_name mac_plain VERSION : bytes).
Local Abbreviation handle := (handle node_name VERSION).
Local Abbreviation answer := (answer node_name VERSION).

Lemma view_send_to f type b s : view (send_to f type b s) = view s.
Proof.
  unfold send_to. case_match; [done|]. destruct (client_of f s) as [c|]; [|done]. case_match; [|done]. case_match; [done|].
  destruct (noise_encrypt _ _) as [ct t]. rewrite view_emit. by apply view_upd_client.
Qed.
Lemma view_ask_time e c f force s : view (ask_time e c f force s) = view s.
Proof. unfold ask_time. destruct c; [|done]. case_match; [done|]. by rewrite view_send_to. Qed.
Lemma view_set_flag c f s : (forall x, ids (f x) = ids x) -> view (set_flag c f s) = view s.
Proof. intros Hf. destruct c; [|done]. by apply view_upd_client. Qed.
Lemma view_fold {A} (f : esp -> A -> esp) l s : (forall s x, view (f s x) = view s) -> view (fold_left f l s) = view s.
Proof. intros Hf. revert s. induction l as [|x l IH]; intros s; [done|]. cbn. by rewrite IH, Hf. Qed.

(** A request that is neither a new key nor about the voice assistant *)
Lemma view_answer e r f c p s : r <> SET_KEY_REQ -> r <> SUBSCRIBE_VA -> view (snd (answer e r f c p s)) = view s.
Proof.
  intros Hk Hv. destruct r; try done; cbn [EspApi.answer snd]; try apply view_send_to; try reflexivity.
  - rewrite view_ask_time. apply view_send_to.
  - rewrite view_ask_time, !view_emit. unfold view. cbn -[map ids alter].
    rewrite map_map, (map_ext _ ids); [done|]. intros x. by case_match.
  - by apply view_set_flag.
  - unfold get_time_resp. destruct (fold_left _ _ _) as [epoch tz]. by repeat case_match.
  - by apply view_set_flag.
  - unfold ha_state. destruct (fold_left _ _ _) as [[ent st] attr]. by case_match.
  - unfold execute_service. by repeat case_match.
  - apply view_fold. intros t x. unfold button_field. by repeat case_match.
  - case_match; cbn [snd]; [done|]. rewrite view_emit. unfold ble_update. rewrite view_emit. by apply view_set_flag.
  - unfold ble_request. case_match; [|done]. rewrite view_emit. by apply view_set_flag.
  - unfold ble_request. case_match; [|done]. rewrite view_emit. by apply view_set_flag.
  - unfold ble_request. case_match; [|done]. rewrite view_emit. by apply view_set_flag.
  - unfold ble_request. case_match; [|done]. rewrite view_emit. by apply view_set_flag.
  - unfold ble_request. case_match; [|done]. rewrite view_emit. by apply view_set_flag.
  - unfold ble_request. case_match; [|done]. rewrite view_emit. by apply view_set_flag.
  - unfold ble_request. case_match; [|done]. rewrite view_emit. by apply view_set_flag.
  - case_match; [|done]. rewrite view_emit. by apply view_set_flag.
  - case_match; cbn [snd]; [done|]. unfold ble_update. rewrite view_emit. by apply view_set_flag.
  - apply view_fold. intros t x. by case_match.
  - unfold update_command. destruct (fold_left _ _ _) as [key cmd]. by repeat case_match.
  - by case_match.
Qed.

Lemma view_va_audio p s : view (va_audio p s) = view s.
Proof. apply view_fold. intros t x. by repeat case_match. Qed.
End view.

(** ** The invariant *)
Abbreviation entry := (Z * bool * bool)%type.
Definition e_fd (e : entry) : Z := fst (fst e).
Definition e_enc (e : entry) : bool := snd (fst e).
Definition e_keyed (e : entry) : bool := snd e.

(** A slot's client and its thread: keyed means encrypted, and the thread knows whether it is. *)
Definition slot_ok (e : entry) (t : option thread) : Prop :=
  (e_keyed e = true -> e_enc e = true) /\
  match t with
  | None => e_fd e = -1
  | Some t => e_fd e = t_fd t /\ 0 <= t_fd t /\ (t_phase t = Encrypted <-> e_enc e = true)
  end.

Record ok_view (l : list entry) (th : list (option thread)) (va : Z) : Prop := {
  v_len : length l = MAX_CLIENTS /\ length th = MAX_CLIENTS;
  v_slot : forall c e t, l !! c = Some e -> th !! c = Some t -> slot_ok e t;
  v_dist : forall c d e e', l !! c = Some e -> l !! d = Some e' -> e_fd e = e_fd e' -> 0 <= e_fd e -> c = d;
  v_va : va = -1 \/ (0 <= va /\ exists c e, l !! c = Some e /\ e_fd e = va) }.
Definition ok (s : esp) : Prop := ok_view (map ids (clients s)) (threads s) (va_fd s).

Lemma ok_of_view s s' : view s = view s' -> ok s -> ok s'.
Proof. unfold view, ok. intros [= -> -> _ _ _ _ ->]. done. Qed.

(** One slot changes, and the others' sockets stay apart from its. *)
Lemma ok_update l th va slot e e' t va' : ok_view l th va -> l !! slot = Some e -> slot_ok e' t ->
  (forall c x, c <> slot -> l !! c = Some x -> e_fd x = e_fd e' -> 0 <= e_fd e' -> False) ->
  (va' = -1 \/ (0 <= va' /\ exists c x, <[slot := e']> l !! c = Some x /\ e_fd x = va')) ->
  ok_view (<[slot := e']> l) (<[slot := t]> th) va'.
Proof.
  intros [[L1 L2] Hs Hd Hv] He Ht Ho Hva. split; [by rewrite !length_insert| | |done].
  - intros c x u Hx Hu. apply list_lookup_insert_Some in Hx, Hu. destruct Hx as [(-> & -> & _)|[Hc Hx]].
    + destruct Hu as [(_ & -> & _)|[Hn _]]; done.
    + destruct Hu as [(Hn & _)|[_ Hu]]; [done|]. by eapply Hs.
  - intros c d x y Hx Hy Exy H0. apply list_lookup_insert_Some in Hx, Hy.
    destruct Hx as [(-> & -> & _)|[Hc Hx]], Hy as [(-> & -> & _)|[Hn Hy]]; [done| | |by eapply Hd].
    + exfalso. eapply (Ho d y); [congruence|done|by rewrite Exy|done].
    + exfalso. eapply (Ho c x); [congruence|done..|]. by rewrite <- Exy.
Qed.

Lemma map_alter_ids (f : client -> client) slot l x : l !! slot = Some x -> map ids (alter f slot l) = <[slot := ids (f x)]> (map ids l).
Proof.
  revert slot. induction l as [|y l IH]; intros [|slot] Hx; cbn in Hx; [done|done|by simplify_eq|].
  cbn [map alter list_alter insert list_insert]. f_equal. by apply IH.
Qed.

Lemma client_at s c : ok s -> (c < MAX_CLIENTS)%nat -> exists x, clients s !! c = Some x /\ clients s !!! c = x.
Proof.
  intros [[L _] _ _ _] Hc. rewrite length_map in L. destruct (lookup_lt_is_Some_2 (clients s) c) as [x Hx]; [lia|].
  exists x. split; [done|]. by apply list_lookup_total_correct.
Qed.
Lemma ids_at s c x : clients s !! c = Some x -> map ids (clients s) !! c = Some (ids x).
Proof. intros Hx. by rewrite list_lookup_fmap, Hx. Qed.

(** A thread's socket is its slot's client's. *)
Lemma thread_client s slot t : ok s -> threads s !! slot = Some (Some t) ->
  client_of (t_fd t) s = Some slot /\
  exists x, clients s !! slot = Some x /\ fd x = t_fd t /\ 0 <= t_fd t /\ (t_phase t = Encrypted <-> enc x = true) /\
    (keyed x = true -> enc x = true).
Proof.
  intros Hok Ht. pose proof Hok as [[L1 L2] Hs Hd _].
  destruct (client_at s slot Hok) as (x & Hx & _); [rewrite <- L2; by eapply lookup_lt_Some|].
  destruct (Hs slot _ _ (ids_at _ _ _ Hx) Ht) as (Hk & Hf & H0 & Hp). unfold e_fd, e_enc, e_keyed, ids in *. cbn in *.
  split; [|by exists x]. unfold client_of.
  destruct (find_index _ (clients s)) as [j|] eqn:Ej.
  - destruct (find_index_Some _ _ _ Ej) as (y & Hy & Hfy & _). bsimp. f_equal.
    apply (Hd j slot _ _ (ids_at _ _ _ Hy) (ids_at _ _ _ Hx)); unfold e_fd, ids; cbn; lia.
  - rewrite find_index_None in Ej. specialize (Ej x (list_elem_of_lookup_2 _ _ _ Hx)). cbn in Ej.
    destruct (Z.leb_spec 0 (t_fd t)), (Z.eqb_spec (fd x) (t_fd t)); cbn in Ej; (done || lia).
Qed.

Section preserve.
Context `{C : Crypto} `{E : Entropy} `{I : Ietf} (node_name mac_plain VERSION : bytes).
Local Abbreviation handle := (handle node_name VERSION).
Local Abbreviation answer := (answer node_name VERSION).
Local Abbreviation step := (step node_name mac_plain VERSION).

(** Only the key part changes when a key is set. *)
Lemma key_set_frame e k s : clients (snd (key_set e k s)) = clients s /\ threads (snd (key_set e k s)) = threads s /\
  va_fd (snd (key_set e k s)) = va_fd s /\ loaded (snd (key_set e k s)) = loaded s /\
  (fst (key_set e k s) = false -> snd (key_set e k s) = s).
Proof. unfold key_set. repeat case_match; cbn; done. Qed.

Definition may_set_key (s : esp) (x : client) : bool := if have_key s then keyed x else enc x.

Lemma set_key_req_view e slot f p s x : clients s !! slot = Some x ->
  let s' := set_key_req e (Some slot) f p s in
  view s' = view s \/
  (may_set_key s x = true /\ threads s' = threads s /\ va_fd s' = va_fd s /\ loaded s' = loaded s /\
   exists b, map ids (clients s') = <[slot := (fd x, enc x, b)]> (map ids (clients s)) /\ (b = true -> keyed x = true \/ enc x = true)).
Proof.
  intros Hx. cbv zeta. unfold set_key_req. rewrite (list_lookup_total_correct _ _ _ Hx). fold (may_set_key s x).
  destruct (may_set_key s x) eqn:Hm; [|left; apply view_send_to].
  destruct (key_set e _ s) as [okb s1] eqn:Ek.
  destruct (key_set_frame e (fold_left (fun k y => if (field y =? 1) && is_data y then from_option id [] (data y) else k) (pb_fields p) []) s)
    as (F1 & F2 & F3 & F4 & _). rewrite Ek in F1, F2, F3, F4. cbn [snd] in *. right. split; [done|].
  match goal with |- context [send_to f SET_KEY_RESP _ ?y] => set (s2 := y) end.
  assert (threads s2 = threads s /\ va_fd s2 = va_fd s /\ loaded s2 = loaded s) as (G1 & G2 & G3) by (subst s2; by case_match).
  pose proof (view_send_to f SET_KEY_RESP (pb_p (pb_uint 1 (if okb then 1 else 0) (PB 8))) s2) as Hv.
  set (s' := send_to _ _ _ _) in *. clearbody s'. unfold view in Hv. injection Hv as -> -> -> _ _ _ ->.
  split_and!; [done..|]. subst s2. case_match.
  - exists true. cbn [clients upd_client set]. split.
    + cbn -[map ids alter]. rewrite F1. by rewrite (map_alter_ids _ _ _ _ Hx).
    + intros _. unfold may_set_key in Hm. destruct (have_key s); auto.
  - exists (keyed x). split; [|by left]. rewrite F1. symmetry. apply list_insert_id. by apply ids_at.
Qed.

Lemma ok_handle e slot t type p s : ok s -> threads s !! slot = Some (Some t) ->
  ok (snd (handle e (t_fd t) type p s)) /\ threads (snd (handle e (t_fd t) type p s)) = threads s.
Proof.
  intros Hok Ht. destruct (thread_client s slot t Hok Ht) as (Hc & x & Hx & Hf & H0 & _ & Hke).
  assert (forall s', view s' = view s -> ok s' /\ threads s' = threads s) as Hsame.
  { intros s' Hv. split; [by apply (ok_of_view s)|]. unfold view in Hv. by injection Hv. }
  unfold EspApi.handle. rewrite Hc. destruct (request_of type) as [r|]; [|case_match; by apply Hsame].
  destruct (decide (r = VA_AUDIO)) as [->|Hr]; [apply Hsame, view_va_audio|].
  assert (forall b : bool, ok (snd (if b then (false, s) else answer e r (t_fd t) (Some slot) p s)) /\
    threads (snd (if b then (false, s) else answer e r (t_fd t) (Some slot) p s)) = threads s) as Hb.
  2:{ destruct r; try apply Hb. done. }
  intros []; [by apply Hsame|].
  destruct (decide (r = SET_KEY_REQ)) as [->|Hk]; [|destruct (decide (r = SUBSCRIBE_VA)) as [->|Hv]].
  - cbn [EspApi.answer snd]. destruct (set_key_req_view e slot (t_fd t) p s x Hx) as [Hv|(_ & H1 & H2 & _ & b & H3 & H4)]; [by apply Hsame|].
    split; [|done]. unfold ok. rewrite H1, H2, H3. destruct Hok as [Hl Hs Hd Hva].
    rewrite <- (list_insert_id (threads s) slot (Some t)) by done.
    destruct (Hs slot _ _ (ids_at _ _ _ Hx) Ht) as (S1 & S2 & S3 & S4). unfold e_fd, e_enc, e_keyed, ids in S1, S2, S3, S4. cbn in S1, S2, S3, S4.
    apply (ok_update _ _ (va_fd s) slot (ids x)); [done|by apply ids_at|split; cbn; [naive_solver|done]| |].
    + intros c y Hn Hy Ey Hy0. apply Hn. apply (Hd c slot _ _ Hy (ids_at _ _ _ Hx)); [exact Ey|]. change (0 <= e_fd y). by rewrite Ey.
    + destruct Hva as [|(Hv0 & c & y & Hy & Hyf)]; [by left|right]. split; [done|].
      destruct (decide (c = slot)) as [->|Hn].
      * exists slot, (fd x, enc x, b). split; [apply list_lookup_insert_eq; by apply (lookup_lt_Some _ _ _ (ids_at _ _ _ Hx))|].
        rewrite (ids_at _ _ _ Hx) in Hy. by injection Hy as <-.
      * exists c, y. by rewrite list_lookup_insert_ne.
  - cbn [EspApi.answer snd]. unfold subscribe_va. set (sub := fold_left _ _ _). clearbody sub.
    case_match; [by apply Hsame|]. case_match; [by apply Hsame|].
    assert (forall va', (va' = -1 \/ va' = t_fd t) -> ok_view (map ids (clients s)) (threads s) va') as Hva.
    { intros va' Hv'. destruct Hok as [Hl Hs Hd _]. split; [done..|]. destruct Hv' as [ -> | -> ]; [by left|right].
      split; [done|]. exists slot, (ids x). split; [by apply ids_at|done]. }
    destruct sub; cbn; (split; [|done]); apply Hva; auto.
  - apply Hsame. by apply view_answer.
Qed.

(** A slot gets another client and another thread. *)
Lemma ok_slot s s' slot x e t va :
  ok s -> clients s !! slot = Some x -> map ids (clients s') = <[slot := e]> (map ids (clients s)) ->
  threads s' = <[slot := t]> (threads s) -> va_fd s' = va -> slot_ok e t ->
  (forall c y, c <> slot -> clients s !! c = Some y -> fd y = e_fd e -> 0 <= e_fd e -> False) ->
  (va = -1 \/ (va = va_fd s /\ (e_fd e = fd x \/ fd x <> va_fd s))) ->
  ok s'.
Proof.
  intros Hok Hx Hm Ht Hva Hsl Ho Hv. unfold ok. rewrite Hm, Ht, Hva. pose proof Hok as [Hl Hs Hd Hva0].
  assert (slot < length (map ids (clients s)))%nat as Hlt by (eapply lookup_lt_Some, ids_at, Hx).
  apply (ok_update _ _ (va_fd s) slot (ids x)); [done|by apply ids_at|done| |].
  - intros c y Hn Hy Ey Hy0. rewrite list_lookup_fmap in Hy. destruct (clients s !! c) as [z|] eqn:Hz; [|done].
    injection Hy as <-. by apply (Ho c z).
  - destruct Hv as [->|(-> & Hv)]; [by left|]. destruct Hva0 as [|(H0 & c & y & Hy & Hyf)]; [by left|right]. split; [done|].
    destruct (decide (c = slot)) as [->|Hn].
    + exists slot, e. split; [by apply list_lookup_insert_eq|]. rewrite (ids_at _ _ _ Hx) in Hy. injection Hy as <-.
      unfold e_fd, ids in Hyf. cbn in Hyf. destruct Hv as [Hv|Hv]; congruence.
    + exists c, y. by rewrite list_lookup_insert_ne.
Qed.

Lemma view_key_load s : clients (key_load s) = clients s /\ threads (key_load s) = threads s /\ va_fd (key_load s) = va_fd s.
Proof. unfold key_load. by repeat case_match. Qed.

Lemma ok_accept f s : ok s -> 0 <= f -> client_of f s = None -> ok (snd (accept f s)).
Proof.
  intros Hok Hf Hn. unfold accept.
  match goal with |- context [find_index _ (clients ?y)] => set (s1 := y) end.
  assert (clients s1 = clients s /\ threads s1 = threads s /\ va_fd s1 = va_fd s) as (E1 & E2 & E3).
  { subst s1. destruct (loaded s); [done|]. exact (view_key_load (s <| loaded := true |>)). }
  clearbody s1. assert (ok s1) as Hok1 by (unfold ok; by rewrite E1, E2, E3).
  destruct (find_index _ (clients s1)) as [slot|] eqn:Ei; [|done]. cbn [snd].
  destruct (find_index_Some _ _ _ Ei) as (x & Hx & Hneg & _). bsimp.
  pose proof Hok1 as [[L1 L2] _ _ Hva].
  eapply (ok_slot s1 _ slot x (f, false, false) (Some (mk_thread f (have_key _) Hello)) (va_fd s1)); try done.
  - case_match; exact (map_alter_ids (fresh_client f) _ _ _ Hx).
  - by case_match.
  - by case_match.
  - intros c y Hc Hy Ey _. unfold client_of in Hn. rewrite E1 in Hy. rewrite find_index_None in Hn.
    specialize (Hn y (list_elem_of_lookup_2 _ _ _ Hy)). cbn in Hn, Ey.
    destruct (Z.leb_spec 0 f), (Z.eqb_spec (fd y) f); cbn in Hn; (done || lia).
  - destruct Hva as [Hva|(Hva & _)]; [by left|right]. split; [done|]. right. lia.
Qed.

Lemma ok_close slot t s : ok s -> threads s !! slot = Some (Some t) -> ok (close_client slot (t_fd t) s).
Proof.
  intros Hok Ht. destruct (thread_client s slot t Hok Ht) as (_ & x & Hx & Hf & H0 & _).
  unfold close_client.
  match goal with |- context [ble_update ?y] => set (s1 := y) end.
  assert (map ids (clients s1) = <[slot := (-1, false, false)]> (map ids (clients s)) /\ threads s1 = threads s /\ va_fd s1 = va_fd s)
    as (A1 & A2 & A3) by (split; [exact (map_alter_ids (fresh_client (-1)) _ _ _ Hx)|done]). clearbody s1.
  match goal with |- context [upd_client slot ?g ?y] => set (s2 := y) end.
  assert (view s2 = view s1) as E2 by (subst s2; by case_match). clearbody s2.
  set (s3 := upd_client slot _ s2). assert (view s3 = view s1) as E3 by (rewrite <- E2; by apply view_upd_client). clearbody s3.
  unfold view in E3. injection E3 as B1 B2 _ _ _ _ B3.
  match goal with |- ok (upd_thread slot None ?y) => set (s4 := y) end.
  assert (map ids (clients s4) = map ids (clients s3) /\ threads s4 = threads s3 /\
    va_fd s4 = if va_fd s =? t_fd t then -1 else va_fd s) as (D1 & D2 & D3).
  { subst s4. rewrite B3, A3. destruct (va_fd s =? t_fd t); [done|]. case_match; cbn; by rewrite B3, A3. }
  clearbody s4.
  apply (ok_slot s _ slot x (-1, false, false) None (if va_fd s =? t_fd t then -1 else va_fd s)); try done.
  - cbn -[map ids]. by rewrite D1, B1.
  - cbn. by rewrite D2, B2, A2.
  - destruct (Z.eqb_spec (va_fd s) (t_fd t)); [by left|right]. split; [done|]. right. congruence.
Qed.

Lemma ok_phase slot t p s : ok s -> threads s !! slot = Some (Some t) -> (t_phase t = Encrypted <-> p = Encrypted) -> ok (set_phase slot p s).
Proof.
  intros Hok Ht Hp. destruct (thread_client s slot t Hok Ht) as (_ & x & Hx & Hf & H0 & He & Hk).
  assert (threads (set_phase slot p s) = <[slot := Some (t <| t_phase := p |>)]> (threads s)) as Hth.
  { unfold set_phase. cbn. revert slot Ht Hx. generalize (threads s). intros l slot Ht _. revert slot Ht.
    induction l as [|u l IH]; intros [|slot] Hu; cbn in Hu; [done|done|by simplify_eq|]. cbn. f_equal. by apply IH. }
  apply (ok_slot s _ slot x (ids x) (Some (t <| t_phase := p |>)) (va_fd s)); try done.
  - rewrite list_insert_id; [done|by apply ids_at].
  - split; [exact Hk|]. cbn. split_and!; [done|done|]. unfold e_enc, ids. cbn. by rewrite <- Hp.
  - intros c y Hc Hy Ey Hy0. apply Hc. apply (v_dist _ _ _ Hok c slot _ _ (ids_at _ _ _ Hy) (ids_at _ _ _ Hx)); [exact Ey|].
    change (0 <= fd y). by rewrite Ey.
  - right. split; [done|]. by left.
Qed.

Lemma threads_total s slot : threads s !!! slot = default None (threads s !! slot).
Proof. by rewrite list_lookup_total_alt. Qed.

(** A thread found by its slot *)
Lemma thread_at s slot t : threads s !!! slot = Some t -> threads s !! slot = Some (Some t).
Proof. rewrite threads_total. destruct (threads s !! slot) as [u|]; cbn; [by intros ->|done]. Qed.

Lemma ok_first_bytes slot t b s : ok s -> threads s !! slot = Some (Some t) -> t_phase t = Hello -> ok (first_bytes node_name mac_plain slot b s).
Proof.
  intros Hok Ht Hp. unfold first_bytes. rewrite threads_total, Ht. cbn.
  assert (forall p, p <> Encrypted -> t_phase t = Encrypted <-> p = Encrypted) as Hph by (rewrite Hp; naive_solver).
  destruct b as [|pre b]; [by apply ok_close|]. case_match.
  - destruct (read_hello b); [|by apply ok_close]. apply (ok_phase _ t); [done|done|by apply Hph].
  - case_match; [by apply ok_close|]. case_match; [|by apply ok_close]. apply (ok_phase _ t); [done|done|by apply Hph].
Qed.

Lemma ok_finish slot rnd s : ok s -> ok (finish_handshake slot rnd s).
Proof.
  intros Hok. unfold finish_handshake. destruct (threads s !!! slot) as [t|] eqn:Ht; [|done]. apply thread_at in Ht.
  destruct t as [f k p]. destruct p as [|snap psk m| |]; try done.
  assert (ok (close_client slot f (emit (Write f (write_frame mac_failure)) s))) as Hfail by exact (ok_close slot _ (emit _ s) Hok Ht).
  case_match; [exact Hfail|]. destruct (noise_nn_read_msg1 _ _ _) as [[pl|] hs]; [|exact Hfail].
  destruct (noise_nn_write_msg2 rnd [] hs) as [m2 [[hs2 send] recv]].
  destruct (thread_client s slot _ Hok Ht) as (_ & x & Hx & Hf & H0 & He & Hk). cbn in Hf, H0.
  match goal with |- ok (set_phase slot Encrypted (emit ?w ?y)) => set (s1 := y) end.
  assert (map ids (clients s1) = <[slot := (f, true, snap)]> (map ids (clients s))) as Hm.
  { rewrite <- Hf. exact (map_alter_ids (fun x => x <| tx := send |> <| rx := recv |> <| enc := true |> <| keyed := snap |>) _ _ _ Hx). }
  assert (threads s1 = threads s /\ va_fd s1 = va_fd s) as [Hth Hva] by done. clearbody s1.
  apply (ok_slot s _ slot x (f, true, snap) (Some (mk_thread f k Encrypted)) (va_fd s)); try done.
  - cbn. rewrite Hth. clear -Ht. revert slot Ht. induction (threads s) as [|u l IH]; intros [|slot] Hu; cbn in Hu; [done|done|by simplify_eq|].
    cbn. f_equal. by apply IH.
  - intros c y Hc Hy Ey Hy0. apply Hc. apply (v_dist _ _ _ Hok c slot _ _ (ids_at _ _ _ Hy) (ids_at _ _ _ Hx)).
    + unfold e_fd, ids in *. cbn in *. congruence.
    + unfold e_fd, ids in *. cbn in *. lia.
  - right. split; [done|]. left. done.
Qed.

Lemma set_phase_thread slot t p s : threads s !! slot = Some (Some t) ->
  threads (set_phase slot p s) !! slot = Some (Some (t <| t_phase := p |>)).
Proof. intros Ht. unfold set_phase. cbn. by rewrite list_lookup_alter_eq, Ht. Qed.

(** The state a message is answered in *)
Definition read_state (slot : nat) (b : bytes) (t : thread) (s : esp) : option (Z * bytes) * esp :=
  match t_phase t with
  | Plain first => (plain_message first b, set_phase slot (Plain false) s)
  | Encrypted => let '(msg, c) := encrypted_message b (rx (clients s !!! slot)) in (msg, upd_client slot (fun x => x <| rx := c |>) s)
  | _ => (None, s)
  end.

Lemma read_state_ok slot b t s : ok s -> threads s !! slot = Some (Some t) ->
  let s' := snd (read_state slot b t s) in
  ok s' /\ (exists t', threads s' !! slot = Some (Some t') /\ t_fd t' = t_fd t) /\ map ids (clients s') = map ids (clients s) /\
  have_key s' = have_key s /\ api_key s' = api_key s /\ key_file s' = key_file s /\ out s' = out s /\ va_fd s' = va_fd s.
Proof.
  intros Hok Ht. cbv zeta. unfold read_state. destruct (t_phase t) as [| |first|] eqn:Hp; cbn [snd].
  - split_and!; try done. by exists t.
  - split_and!; try done. by exists t.
  - split_and!; try done.
    + apply (ok_phase _ t); [done|done|]. rewrite Hp. done.
    + eexists. split; [by apply set_phase_thread|done].
  - destruct (encrypted_message _ _) as [msg c]. cbn [snd].
    assert (view (upd_client slot (fun x => x <| rx := c |>) s) = view s) as Hv by by apply view_upd_client.
    split_and!; try done; [by apply (ok_of_view s)|by exists t|]. unfold view in Hv. by injection Hv.
Qed.

Lemma serve_message_eq e slot b s t : threads s !! slot = Some (Some t) ->
  serve_message node_name VERSION e slot b s =
  match t_phase t with
  | Plain _ | Encrypted =>
      let '(msg, s') := read_state slot b t s in
      match msg with
      | None => close_client slot (t_fd t) s'
      | Some (type, m) =>
          let '(keep, s') := handle e (t_fd t) type m s' in
          if (keep : bool) then s' else close_client slot (t_fd t) s'
      end
  | _ => s
  end.
Proof. intros Ht. unfold serve_message, read_state. rewrite threads_total, Ht. cbn. by destruct (t_phase t). Qed.

Lemma ok_message e slot b s : ok s -> ok (serve_message node_name VERSION e slot b s).
Proof.
  intros Hok. destruct (threads s !!! slot) as [t|] eqn:Ht; [|unfold serve_message; by rewrite Ht]. apply thread_at in Ht.
  rewrite (serve_message_eq e slot b s t Ht).
  destruct (read_state_ok slot b t s Hok Ht) as (Hok' & (t' & Ht' & Hf) & _).
  destruct (read_state slot b t s) as [msg s']. cbn [snd] in *.
  assert (ok (match msg with
    | None => close_client slot (t_fd t) s'
    | Some (type, m) => let '(keep, s') := handle e (t_fd t) type m s' in if (keep : bool) then s' else close_client slot (t_fd t) s'
    end)) as Hm.
  { rewrite <- Hf. destruct msg as [[type m]|]; [|by apply ok_close].
    destruct (ok_handle e slot t' type m s' Hok' Ht') as [Hh Hth]. destruct (handle e (t_fd t') type m s') as [keep s2]. cbn [snd] in *.
    destruct keep; [done|]. apply ok_close; [done|]. by rewrite Hth. }
  by destruct (t_phase t).
Qed.

Lemma ok_start file : ok (esp0 file).
Proof.
  split; [done| | |by left].
  - intros c e t He Ht. apply list_elem_of_lookup_2 in He, Ht. cbn in He, Ht. set_unfold.
    assert (e = (-1, false, false)) as -> by naive_solver. assert (t = None) as -> by naive_solver. done.
  - intros c d e e' He _ _ H0. apply list_elem_of_lookup_2 in He. cbn in He. set_unfold.
    assert (e = (-1, false, false)) as -> by naive_solver. unfold e_fd in H0. cbn in H0. lia.
Qed.

Lemma reach_ok s : reach node_name mac_plain VERSION s -> ok s.
Proof.
  induction 1 as [file|f s _ IH Hf Hn|slot b s _ IH|slot rnd s _ IH|e slot b s _ IH]; cbn [EspServe.step].
  - apply ok_start.
  - by apply ok_accept.
  - destruct (threads s !!! slot) as [[f k p]|] eqn:Ht; [|done]. destruct p; try done. apply thread_at in Ht.
    exact (ok_first_bytes slot _ b s IH Ht eq_refl).
  - by apply ok_finish.
  - by apply ok_message.
Qed.
End preserve.
