(* ===== verification/EspDemo.v ===== *)
(** * The ESPHome native API: a run with a concrete Home Assistant
    The client's half of NNpsk0 (Noise.v) with the toy primitives: it gets in without a key,
    sets one, and then installs an update.  The witnesses of the theorems on runs use it. *)
From S2P Require Import Prelude Cbits Crypto Hash Noise EspPb EspApi EspServe.

#[export] Existing Instances Toy.crypto Toy.laws Toy.entropy_ IetfToy.ietf IetfToy.laws.

Definition demo_env : env := mk_env (fun _ => true) true true true false false true true 1000.
Definition demo_step : esp -> op -> esp := step (str "echo") (str "001122334455") (str "1").

(** Its half of the handshake, and the bytes of its first message *)
Definition demo_msg1 : bytes * noise_hs := Eval vm_compute in nn_write_msg1 (replicate 32 0) [3] [] (noise_nn_responder_init noise_prologue).
Definition demo_first : bytes := [1; 0; 0] ++ write_frame (0 :: fst demo_msg1).

Definition demo0 : esp := esp0 None.
Definition demo1 : esp := demo_step demo0 (Accept 5).
Definition demo2 : esp := Eval vm_compute in demo_step demo1 (First 0 demo_first).
Definition demo3 : esp := Eval vm_compute in demo_step demo2 (Shake 0 7).

(** The key of its messages, from the Echo's answer *)
Definition demo_answer : bytes := match list_basics.list.last (out demo3) with Some (Write _ d) => drop 4 d | _ => [] end.
Definition demo_keys : option (noise_cs * noise_cs) :=
  match nn_read_msg2 demo_answer (snd demo_msg1) with Some (_, _, recv, send) => Some (recv, send) | None => None end.
Definition demo_send : noise_cs := Eval vm_compute in from_option snd cs0 demo_keys.

Definition demo_key : bytes := str "AAECAwQFBgcICQoLDA0ODxAREhMUFRYXGBkaGxwdHh8=".
Definition demo_set_key : bytes := Eval vm_compute in write_frame (fst (noise_encrypt (inner 124 (pb_p (pb_bytes 1 demo_key (PB 100)))) demo_send)).
Definition demo4 : esp := Eval vm_compute in demo_step demo3 (Message demo_env 0 demo_set_key).

Definition demo_install : bytes := Eval vm_compute in
  write_frame (fst (noise_encrypt (inner 118 (pb_p (pb_uint 2 1 (pb_fixed32 1 36 (PB 100)))))
                                  (snd (noise_encrypt [] demo_send)))).
(** A client without encryption, which takes the voice assistant *)
Definition demo_va : esp :=
  Eval vm_compute in demo_step (demo_step demo1 (First 0 [0])) (Message demo_env 0 [2; 89; 8; 1]).

Lemma demo_va_reached : reach (str "echo") (str "001122334455") (str "1") demo_va.
Proof.
  change demo_va with (demo_step (demo_step demo1 (First 0 [0])) (Message demo_env 0 [2; 89; 8; 1])).
  apply reach_message, reach_first, reach_accept; [apply reach_start|lia|reflexivity].
Qed.

Lemma demo2_is : demo_step demo1 (First 0 demo_first) = demo2.
Proof. vm_compute. reflexivity. Qed.
Lemma demo_msg1_is : nn_write_msg1 (replicate 32 0) [3] [] (noise_nn_responder_init noise_prologue) = demo_msg1.
Proof. vm_compute. reflexivity. Qed.
Lemma demo3_is : demo_step demo2 (Shake 0 7) = demo3.
Proof. vm_compute. reflexivity. Qed.
Lemma demo4_is : demo_step demo3 (Message demo_env 0 demo_set_key) = demo4.
Proof. vm_compute. reflexivity. Qed.

Lemma demo4_sets : have_key (step (str "echo") (str "001122334455") (str "1") demo3 (Message demo_env 0 demo_set_key)) = true.
Proof. vm_compute. reflexivity. Qed.

Lemma demo3_reached : reach (str "echo") (str "001122334455") (str "1") demo3.
Proof.
  rewrite <- demo3_is. apply reach_shake. rewrite <- demo2_is. apply reach_first. apply reach_accept; [apply reach_start|lia|reflexivity].
Qed.
Lemma demo4_reached : reach (str "echo") (str "001122334455") (str "1") demo4.
Proof. rewrite <- demo4_is. apply reach_message, demo3_reached. Qed.
