(* ===== verification/EspKey.v ===== *)
(** * The ESPHome native API: who may set the key, and what needs it *)
From S2P Require Import Prelude Cbits Crypto Hash Noise NoiseAgree EspPb EspApi EspServe EspSafe EspDemo.

Definition key_state (s : esp) := (have_key s, api_key s, key_file s).



Section key.
Context `{C : Crypto} `{E : Entropy} `{I : Ietf} (node_name mac_plain VERSION : bytes).
Local Abbreviation handle := (handle node_name VERSION).
Local Abbreviation answer := (answer node_name VERSION).
Local Abbreviation step := (step node_name mac_plain VERSION).






Lemma key_state_send_to f type b s : key_state (send_to f type b s) = key_state s /\ loaded (send_to f type b s) = loaded s.
Proof. pose proof (view_send_to f type b s) as Hv. unfold view in Hv. injection Hv as _ _ H1 H2 H3 H4 _. unfold key_state. by rewrite H1, H2, H3, H4. Qed.

Lemma key_state_view s s' : view s = view s' -> key_state s = key_state s'.
Proof. unfold view, key_state. by intros [= _ _ _ -> -> -> _]. Qed.

Lemma key_state_close slot f s : key_state (close_client slot f s) = key_state s.
Proof.
  unfold close_client. set (s1 := upd_client slot _ s). assert (key_state s1 = key_state s) as E1 by done. clearbody s1.
  set (s2 := ble_update s1). assert (key_state s2 = key_state s1) as E2 by done. clearbody s2. rewrite <- E1, <- E2.
  repeat case_match; done.
Qed.

(** A message changes the key only as a set-key request of a client that may. *)
Lemma key_state_handle e slot t type m s x : ok s -> threads s !! slot = Some (Some t) -> clients s !! slot = Some x ->
  key_state (snd (handle e (t_fd t) type m s)) <> key_state s -> type = 124 /\ may_set_key s x = true.
Proof.
  intros Hok Ht Hx. destruct (thread_client s slot t Hok Ht) as (Hc & _). unfold EspApi.handle. rewrite Hc.
  assert (forall s', view s' = view s -> key_state s' <> key_state s -> type = 124 /\ may_set_key s x = true) as Hsame.
  { intros s' Hv Hn. by apply key_state_view in Hv. }
  destruct (request_of type) as [r|] eqn:Hr; [|case_match; by apply Hsame].
  destruct (decide (r = VA_AUDIO)) as [->|Hv]; [apply Hsame, view_va_audio|].
  assert (forall b : bool, key_state (snd (if b then (false, s) else answer e r (t_fd t) (Some slot) m s)) <> key_state s ->
    type = 124 /\ may_set_key s x = true) as Hb.
  2:{ destruct r; try apply Hb. done. }
  intros []; [by apply Hsame|]. destruct (decide (r = SET_KEY_REQ)) as [->|Hk].
  - intros Hn. split.
    + unfold request_of in Hr. destruct (find _ requests) as [[z r]|] eqn:Hf; [|done]. injection Hr as ->.
      apply find_some in Hf as [Hin Heq]. cbn in Heq. apply Z.eqb_eq in Heq. subst z. cbn in Hin. naive_solver.
    + destruct (set_key_req_view e slot (t_fd t) m s x Hx) as [Hvw|(Hm & _)]; [|done]. cbn [EspApi.answer snd] in Hn.
      by apply key_state_view in Hvw.
  - destruct (decide (r = SUBSCRIBE_VA)) as [->|Hsv]; [|apply Hsame; by apply view_answer].
    cbn [EspApi.answer snd]. unfold subscribe_va. repeat case_match; done.
Qed.


End key.

(** C12. The device key, its use and its file change in a run only when the first client loads the file,
    or by a set-key message that came encrypted, from a client that has the key if there
    is one. *)
Theorem key_changes_need_the_key `{C : Crypto} `{E : Entropy} `{I : Ietf} node_name mac_plain VERSION s o :
  reach node_name mac_plain VERSION s ->
  key_state (step node_name mac_plain VERSION s o) <> key_state s ->
  (loaded s = false /\ exists f, o = Accept f) \/
  exists e slot b t x m, o = Message e slot b /\ threads s !! slot = Some (Some t) /\ t_phase t = Encrypted /\
    clients s !! slot = Some x /\ enc x = true /\ (have_key s = true -> keyed x = true) /\
    fst (encrypted_message b (rx x)) = Some (124, m).
Proof.
  intros Hr Hn. apply reach_ok in Hr. destruct o as [f|slot b|slot rnd|e slot b]; cbn [EspServe.step] in Hn.
  - left. split; [|by exists f]. destruct (loaded s) eqn:Hl; [|done]. exfalso. apply Hn. unfold accept. rewrite Hl.
    destruct (find_index _ (clients s)); [|done]. cbn [snd]. by case_match.
  - exfalso. apply Hn. destruct (threads s !!! slot) as [[f k p]|] eqn:Ht; [|done]. destruct p; try done.
    unfold first_bytes. rewrite Ht. repeat case_match; try done; by rewrite key_state_close.
  - exfalso. apply Hn. unfold finish_handshake. destruct (threads s !!! slot) as [[f k p]|]; [|done]. destruct p; try done.
    repeat case_match; try done; by rewrite key_state_close.
  - right. destruct (threads s !!! slot) as [t|] eqn:Ht; [|unfold serve_message in Hn; by rewrite Ht in Hn].
    apply thread_at in Ht. destruct (thread_client s slot t Hr Ht) as (_ & x & Hx & _ & _ & He & Hk).
    destruct (read_state_ok slot b t s Hr Ht) as (Hok' & (t' & Ht' & Hf) & Hm' & K1 & K2 & K3 & _).
    rewrite (serve_message_eq node_name VERSION e slot b s t Ht) in Hn.
    destruct (client_at (snd (read_state slot b t s)) slot Hok') as (x' & Hx' & _).
    { destruct Hok' as [[_ L] _ _ _]. rewrite <- L. by eapply lookup_lt_Some. }
    assert (ids x' = ids x) as Hids.
    { pose proof (ids_at _ _ _ Hx') as Hi. rewrite Hm', (ids_at _ _ _ Hx) in Hi. by apply (inj Some) in Hi. }
    destruct (read_state slot b t s) as [msg s'] eqn:Hrs. cbn [snd] in *.
    assert (key_state s' = key_state s) as Ks by (unfold key_state; by rewrite K1, K2, K3).
    assert (exists type m, msg = Some (type, m) /\ key_state (snd (EspApi.handle node_name VERSION e (t_fd t) type m s')) <> key_state s') as (type & m & -> & Hh).
    { destruct (t_phase t); try done; (destruct msg as [[type m]|]; [|by rewrite key_state_close in Hn]);
        exists type, m; (split; [done|]); rewrite Ks; intros Heq; apply Hn;
        destruct (EspApi.handle node_name VERSION e (t_fd t) type m s') as [keep s2]; cbn [snd] in Heq;
        (destruct keep; [done|by rewrite key_state_close]). }
    rewrite <- Hf in Hh. destruct (key_state_handle node_name VERSION e slot t' type m s' x' Hok' Ht' Hx' Hh) as [-> Hmay].
    unfold may_set_key in Hmay. rewrite K1 in Hmay. unfold ids in Hids. injection Hids as _ He' Hk'. rewrite He', Hk' in Hmay.
    assert (enc x = true) as Hex by (destruct (have_key s); auto).
    exists e, slot, b, t, x, m. split_and!; try done; [by apply He| |].
    + intros Hh'. by rewrite Hh' in Hmay.
    + unfold read_state in Hrs. rewrite (proj2 He Hex) in Hrs. rewrite (list_lookup_total_correct _ _ _ Hx) in Hrs.
      destruct (encrypted_message b (rx x)) as [ms c]. by injection Hrs as -> _.
Qed.


Lemma key_state_have a b : key_state a = key_state b -> have_key a = have_key b.
Proof. unfold key_state. congruence. Qed.

(** *** Concrete runs: the key of the demo is set, and then used *)
Lemma key_changes_need_the_key_witness :
  (loaded demo3 = false /\ exists f, Message demo_env 0 demo_set_key = Accept f) \/
  exists e slot b t x m, Message demo_env 0 demo_set_key = Message e slot b /\ threads demo3 !! slot = Some (Some t) /\ t_phase t = Encrypted /\
    clients demo3 !! slot = Some x /\ enc x = true /\ (have_key demo3 = true -> keyed x = true) /\
    fst (encrypted_message b (rx x)) = Some (124, m).
Proof.
  apply (key_changes_need_the_key (str "echo") (str "001122334455") (str "1") demo3 (Message demo_env 0 demo_set_key) demo3_reached).
  intros H. apply key_state_have in H. rewrite demo4_sets in H. discriminate H.
Defined.

