(* ===== verification/EspRuns.v ===== *)
(** * The ESPHome native API: getting in, the assistant's owner, the key across a restart *)
From S2P Require Import Prelude Cbits Crypto Hash Noise NoiseAgree EspPb EspApi EspServe EspSafe EspDemo EspKey.

(** ** Frames *)
Lemma be_two n : 0 <= n < 2 ^ 16 -> be_value [u8 (Z.shiftr n 8); Z.land n 0xff] = n.
Proof.
  intros Hn. unfold be_value, u8. cbn [fold_left]. rewrite land_255, shiftr_div by lia. change (2 ^ 8) with 256.
  pose proof (Z.div_mod n 256). rewrite (Z.mod_small (n / 256)); [lia|]. split; [apply Z.div_pos; lia|apply Z.div_lt_upper_bound; lia].
Qed.

Lemma read_full_has n a b : length a = n -> read_full n (a ++ b) = Some (a, b).
Proof. intros <-. unfold read_full. rewrite length_app, take_app_length, drop_app_length. destruct (Nat.ltb_spec (length a + length b) (length a)); [lia|done]. Qed.

Lemma read_frame_app d rest : Z.of_nat (length d) < 2 ^ 16 -> read_frame (drop 1 (write_frame d) ++ rest) = Some (d, rest).
Proof.
  intros Hd. unfold write_frame. cbn [app drop]. rewrite ?skipn_O. unfold read_frame.
  change (?a :: ?b :: d ++ rest) with ([a; b] ++ (d ++ rest)). rewrite (read_full_has 2) by done.
  rewrite be_two by lia. rewrite Nat2Z.id. by apply read_full_has.
Qed.

Section frames.
Context `{I : Ietf} `{!IetfLaws I}.

(** An encrypted message is read by the end that receives with the same key and nonce. *)
Lemma encrypted_message_reads type b c rest : 0 <= type < 2 ^ 16 -> Z.of_nat (length b) + 20 < 2 ^ 16 ->
  encrypted_message (write_frame (fst (noise_encrypt (inner type b) c)) ++ rest) c = (Some (type, b), snd (noise_encrypt (inner type b) c)).
Proof.
  intros Ht Hb. unfold encrypted_message, noise_encrypt. cbn [fst snd].
  set (ct := aead_encrypt _ _ _ _).
  assert (length ct = length b + 20)%nat as Hl by (subst ct; rewrite aead_length; unfold inner, NOISE_TAG; cbn; lia).
  change (write_frame ct ++ rest) with ([1] ++ (drop 1 (write_frame ct) ++ rest)).
  rewrite (read_full_has 1) by done. rewrite read_frame_app by lia. unfold noise_decrypt. subst ct.
  rewrite aead_round_trip. unfold inner. cbn [app].
  assert (forall n, 0 <= n < 2 ^ 16 -> Z.lor (Z.shiftl (u8 (Z.shiftr n 8)) 8) (u8 n) = n) as Hw.
  { intros n Hn. pose proof (u8_bound n). rewrite lor_shiftl_add by lia. pose proof (be_two n Hn) as E.
    unfold be_value in E. cbn [fold_left] in E. rewrite land_255 in E. unfold u8 in *.
    change (2 ^ 8) with 256 in *. lia. }
  rewrite !Hw by lia. by rewrite Z.eqb_refl.
Qed.
End frames.

Section runs.
Context `{C : Crypto} `{E : Entropy} `{I : Ietf} (node_name mac_plain VERSION : bytes).
Local Abbreviation step := (step node_name mac_plain VERSION).

(** The first bytes of a client that begins a handshake with message [m]: the key is taken as
    it is at that moment. *)
Lemma handshake_begins slot f k m s : threads s !! slot = Some (Some (mk_thread f k Hello)) -> Z.of_nat (length m) + 1 < 2 ^ 16 ->
  threads (step s (First slot ([1; 0; 0] ++ write_frame (0 :: m)))) !! slot =
  Some (Some (mk_thread f k (Shaking (have_key s) (if have_key s then api_key s else replicate 32 0) m))).
Proof.
  intros Ht Hm. cbn [EspServe.step]. rewrite threads_total, Ht. cbn [default from_option id].
  unfold first_bytes. rewrite threads_total, Ht. cbn [default from_option app]. rewrite Z.eqb_refl.
  assert (read_hello (0 :: 0 :: write_frame (0 :: m)) = Some m) as ->.
  { change (0 :: 0 :: write_frame (0 :: m)) with ((drop 1 (write_frame [])) ++ write_frame (0 :: m)).
    unfold read_hello. rewrite read_frame_app by done.
    change (write_frame (0 :: m)) with ([1] ++ drop 1 (write_frame (0 :: m))). rewrite (read_full_has 1) by done.
    rewrite <- (app_nil_r (drop 1 _)), read_frame_app; [done|]. cbn [length]. lia. }
  cbv beta iota delta [id]. by erewrite set_phase_thread by exact Ht.
Qed.

(** *** Who has the voice assistant *)
Lemma va_close slot f s : va_fd (close_client slot f s) = if va_fd s =? f then -1 else va_fd s.
Proof.
  unfold close_client. match goal with |- context [ble_update ?y] => set (s1 := y) end. assert (va_fd s1 = va_fd s) as E1 by done. clearbody s1.
  assert (va_fd (ble_update s1) = va_fd s) as E2 by done. revert E2. generalize (ble_update s1). intros s2 E2.
  match goal with |- context [upd_client slot ?g ?y] => set (s3 := upd_client slot g y) end.
  assert (va_fd s3 = va_fd s) as E3 by (subst s3; rewrite <- E2; by case_match). clearbody s3. rewrite E3.
  destruct (va_fd s =? f); [done|]. case_match; exact E3.
Qed.

Lemma va_handle e f type m s c : client_of f s = Some c -> 0 <= va_fd s ->
  let s' := snd (handle node_name VERSION e f type m s) in
  va_fd s' = va_fd s \/ (f = va_fd s /\ va_fd s' = -1).
Proof.
  intros Hc H0. cbv zeta.
  assert (forall s', view s' = view s -> va_fd s' = va_fd s \/ (f = va_fd s /\ va_fd s' = -1)) as Hv
    by (unfold view; intros s' Hw; left; congruence).
  unfold EspApi.handle. rewrite Hc. destruct (request_of type) as [r|]; [|case_match; by left].
  destruct (decide (r = VA_AUDIO)) as [->|Hr]; [apply Hv, view_va_audio|].
  assert (forall b : bool, va_fd (snd (if b then (false, s) else answer node_name VERSION e r f (Some c) m s)) = va_fd s \/
    (f = va_fd s /\ va_fd (snd (if b then (false, s) else answer node_name VERSION e r f (Some c) m s)) = -1)) as Hb.
  2:{ destruct r; try apply Hb. done. }
  intros []; [by left|]. destruct (decide (r = SET_KEY_REQ)) as [->|Hk]; [|destruct (decide (r = SUBSCRIBE_VA)) as [->|Hs]].
  - destruct (find_index_Some _ _ _ Hc) as (x & Hx & _). cbn [EspApi.answer snd].
    destruct (set_key_req_view e c f m s x Hx) as [Hw|(_ & _ & Hw & _)]; [by apply Hv|by left].
  - cbn [EspApi.answer snd]. unfold subscribe_va. set (sub := fold_left _ _ _). clearbody sub.
    assert ((0 <=? va_fd s) = true) as -> by lia. destruct (Z.eqb_spec (va_fd s) f) as [<-|]; destruct sub; cbn; auto.
  - apply Hv. by apply view_answer.
Qed.

Lemma va_close_gone slot f s s1 : va_fd s1 = va_fd s \/ (f = va_fd s /\ va_fd s1 = -1) ->
  va_fd (close_client slot f s1) <> va_fd s -> f = va_fd s /\ va_fd (close_client slot f s1) = -1.
Proof. intros E1. rewrite va_close. destruct (Z.eqb_spec (va_fd s1) f), E1 as [E1|[-> E1]]; rewrite E1 in *; auto; done. Qed.
Lemma va_serve_message e slot b s t : ok s -> threads s !! slot = Some (Some t) -> 0 <= va_fd s ->
  let s' := serve_message node_name VERSION e slot b s in
  va_fd s' = va_fd s \/ (t_fd t = va_fd s /\ va_fd s' = -1).
Proof.
  intros Hr Ht H0. cbv zeta. rewrite (serve_message_eq node_name VERSION e slot b s t Ht).
  destruct (read_state_ok slot b t s Hr Ht) as (Hok' & (t' & Ht' & Hf) & _ & _ & _ & _ & _ & Hva).
  destruct (thread_client _ slot t' Hok' Ht') as (Hc & _). rewrite Hf in Hc.
  destruct (read_state slot b t s) as [msg s']. cbn [snd] in *.
  assert (forall s1, va_fd s1 = va_fd s \/ (t_fd t = va_fd s /\ va_fd s1 = -1) ->
    va_fd (close_client slot (t_fd t) s1) = va_fd s \/ (t_fd t = va_fd s /\ va_fd (close_client slot (t_fd t) s1) = -1)) as Hcl.
  { intros s1 Hs1. destruct (decide (va_fd (close_client slot (t_fd t) s1) = va_fd s)); [by left|right]. by apply va_close_gone. }
  destruct (t_phase t); try (by left);
    (destruct msg as [[type m]|]; [|apply Hcl; by left]);
    pose proof (va_handle e (t_fd t) type m s' slot Hc) as Hh; rewrite Hva in Hh; specialize (Hh H0); cbv zeta in Hh;
    destruct (EspApi.handle node_name VERSION e (t_fd t) type m s') as [[] s2]; auto.
Qed.
End runs.

(** C27. A client whose handshake was made with the key the thread took gets in, whatever the other
    threads did meanwhile: its slot is encrypted and has the key if the Echo had one, and
    both ends hold the same two keys, so that any message of theirs is read by the other. *)
Theorem right_key_gets_in `{CL : CryptoLaws} `{E : Entropy} `{I : Ietf} `{!IetfLaws I} node_name mac_plain VERSION
    s slot rnd f k snap psk x ek payload m i1 :
  nn_write_msg1 psk ek payload (noise_nn_responder_init noise_prologue) = (m, i1) ->
  threads s !! slot = Some (Some (mk_thread f k (Shaking snap psk m))) -> clients s !! slot = Some x ->
  (length payload <= 64)%nat ->
  let s' := step node_name mac_plain VERSION s (Shake slot rnd) in
  exists x' m2 h, threads s' !! slot = Some (Some (mk_thread f k Encrypted)) /\ clients s' !! slot = Some x' /\
    fd x' = fd x /\ enc x' = true /\ keyed x' = snap /\ out s' = out s ++ [Write f (write_frame (0 :: m2))] /\
    nn_read_msg2 m2 i1 = Some ([], h, tx x', rx x') /\
    forall type b rest, 0 <= type < 2 ^ 16 -> Z.of_nat (length b) + 20 < 2 ^ 16 ->
      fst (encrypted_message (write_frame (fst (noise_encrypt (inner type b) (rx x'))) ++ rest) (rx x')) = Some (type, b).
Proof.
  pose proof (nn_first_message psk ek payload (noise_nn_responder_init noise_prologue) (nn_init_unset noise_prologue)) as H1.
  assert (length (fst (nn_write_msg1 psk ek payload (noise_nn_responder_init noise_prologue))) = 32 + (length payload + NOISE_TAG))%nat as Hlen.
  { rewrite nn_write_msg1_eq. unfold write_payload. cbn [fst]. rewrite length_app, aead_length. f_equal. apply public_key_length. }
  intros Em Ht Hx Hp. rewrite Em in H1, Hlen. cbn [fst] in Hlen. destruct H1 as (r1 & Hr1 & Hh & Hck & Hre & Hset & Hek). cbv zeta. cbn [EspServe.step]. unfold finish_handshake. rewrite threads_total, Ht. cbn [default from_option id].
  destruct (Nat.ltb_spec (32 + NOISE_TAG + 64) (length m)); [lia|]. rewrite Hr1.
  pose proof (nn_second_message ek [] rnd r1 i1 Hh Hck Hre Hset Hek) as H2.
  destruct (noise_nn_write_msg2 rnd [] r1) as [m2 [[r2 send] recv]].
  exists (x <| tx := send |> <| rx := recv |> <| enc := true |> <| keyed := snap |>), m2, (hash_out r2). split_and!; try done.
  - by erewrite set_phase_thread by exact Ht.
  - cbn. by rewrite list_lookup_alter_eq, Hx.
  - intros type b rest Htype Hb. by rewrite encrypted_message_reads.
Qed.

(** Who has the voice assistant keeps it: in a run only a message or the end of that client's
    own connection takes it away, and then nobody has it; another's subscription is no
    such thing. *)
Theorem voice_assistant_stays `{C : Crypto} `{E : Entropy} `{I : Ietf} node_name mac_plain VERSION s o :
  reach node_name mac_plain VERSION s -> 0 <= va_fd s -> va_fd (step node_name mac_plain VERSION s o) <> va_fd s ->
  va_fd (step node_name mac_plain VERSION s o) = -1 /\
  exists slot t, threads s !! slot = Some (Some t) /\ t_fd t = va_fd s /\
    ((exists b, o = First slot b) \/ (exists rnd, o = Shake slot rnd) \/ exists e b, o = Message e slot b).
Proof.
  intros Hr H0 Hn. apply reach_ok in Hr. destruct o as [f|slot b|slot rnd|e slot b]; cbn [EspServe.step] in *.
  - exfalso. apply Hn. unfold accept. match goal with |- context [find_index _ (clients ?y)] => set (s1 := y) end.
    assert (va_fd s1 = va_fd s) as <-.
    { subst s1. destruct (loaded s); [done|]. by destruct (view_key_load (s <| loaded := true |>)) as (_ & _ & E3). }
    clearbody s1. destruct (find_index _ _); [|done]. by case_match.
  - destruct (threads s !!! slot) as [[f k ph]|] eqn:Ht; [|done]. destruct ph; try done.
    assert (va_fd (first_bytes node_name mac_plain slot b s) = va_fd s \/
      exists s1, first_bytes node_name mac_plain slot b s = close_client slot f s1 /\ va_fd s1 = va_fd s) as [Hs|(s1 & Hs & E1)]; [|done|].
    { unfold first_bytes. rewrite Ht. destruct b as [|pre b]; [right; by eexists|]. repeat case_match; auto; right; by eexists. }
    rewrite Hs in *. destruct (va_close_gone slot f s s1 (or_introl E1) Hn) as [-> ->]. apply thread_at in Ht. split; [done|].
    exists slot, (mk_thread (va_fd s) k Hello). eauto.
  - destruct (threads s !!! slot) as [[f k ph]|] eqn:Ht; [|unfold finish_handshake in Hn; by rewrite Ht in Hn].
    assert (va_fd (finish_handshake slot rnd s) = va_fd s \/
      exists s1, finish_handshake slot rnd s = close_client slot f s1 /\ va_fd s1 = va_fd s) as [Hs|(s1 & Hs & E1)]; [|done|].
    { unfold finish_handshake. rewrite Ht. destruct ph as [|snap psk m| |]; auto. case_match; [right; by eexists|].
      destruct (noise_nn_read_msg1 _ _ _) as [[pl|] hs]; [|right; by eexists].
      destruct (noise_nn_write_msg2 rnd [] hs) as [m2 [[hs2 send] recv]]. by left. }
    rewrite Hs in *. destruct (va_close_gone slot f s s1 (or_introl E1) Hn) as [-> ->]. apply thread_at in Ht. split; [done|].
    exists slot, (mk_thread (va_fd s) k ph). eauto 6.
  - destruct (threads s !!! slot) as [t|] eqn:Ht; [|unfold serve_message in Hn; by rewrite Ht in Hn]. apply thread_at in Ht.
    destruct (va_serve_message node_name VERSION e slot b s t Hr Ht H0) as [|[Hf ->]]; [done|]. split; [done|]. exists slot, t. eauto 8.
Qed.

(** *** The key's file *)
Lemma strcspn_nil stop : strcspn stop [] = [].
Proof. done. Qed.
Lemma strcspn_cons stop c l : strcspn stop (c :: l) = if bool_decide (c ∈ stop) then [] else c :: strcspn stop l.
Proof. unfold strcspn. cbn [find_index]. destruct (bool_decide (c ∈ stop)); [done|]. by destruct (find_index _ l). Qed.
Lemma strcspn_length stop l : (length (strcspn stop l) <= length l)%nat.
Proof. induction l as [|c l IH]; [done|]. rewrite strcspn_cons. case_match; cbn [length]; lia. Qed.

(** What decoding reads of a key is in its first line. *)
Lemma decode_first_line cap k acc bits got raw : Base64.decode_loop cap acc bits got k = Some raw ->
  Base64.decode_loop cap acc bits got (strcspn [0; 13; 10] (strcspn [0] k ++ [10])) = Some raw.
Proof.
  revert acc bits got. induction k as [|c k IH]; intros acc bits got Hd; [done|]. cbn [Base64.decode_loop] in Hd.
  rewrite strcspn_cons. destruct (Z.eqb_spec c 61) as [->|Hc].
  - rewrite bool_decide_false by (vm_compute; set_solver). cbn [app]. rewrite strcspn_cons.
    rewrite bool_decide_false by set_solver. exact Hd.
  - destruct (Base64.b64_value c) as [v|] eqn:Hv; [|done].
    assert (c ∉ [0; 13; 10]) as Hin.
    { intros Hin. assert (c = 0 \/ c = 13 \/ c = 10) as [-> | [-> | ->]] by set_solver; discriminate Hv. }
    rewrite bool_decide_false by set_solver. cbn [app]. rewrite strcspn_cons, bool_decide_false by done.
    cbn [Base64.decode_loop]. rewrite (proj2 (Z.eqb_neq c 61) Hc), Hv.
    destruct (8 <=? bits + 6); [|by apply IH]. destruct (cap <=? length got)%nat; [done|by apply IH].
Qed.

(** What a set-key request stored is what the next start loads: the same key, or none when it was
    cleared. *)
Theorem key_survives_restart e k s s1 boot :
  key_set e k s = (true, s1) -> key_file boot = key_file s1 ->
  have_key (key_load boot) = have_key s1 /\ (have_key s1 = true -> api_key (key_load boot) = api_key s1).
Proof.
  unfold key_set, key_load. intros Hk Hf. rewrite Hf. destruct (length k =? 0)%nat.
  - destruct (unlink_ok e); [|done]. injection Hk as <-. done.
  - destruct (Nat.leb_spec 64 (length k)) as [|Hl]; [done|]. destruct (Base64.b64_decode k 32) as [raw|] eqn:Hd; [|done].
    destruct (length raw =? 32)%nat eqn:Hr; [|done]. destruct (file_ok e); [|done]. injection Hk as <-. cbn [key_file emit set].
    assert (Base64.b64_decode (first_line (strcspn [0] k ++ [10])) 32 = Some raw) as E1.
    { unfold first_line. rewrite take_ge by (rewrite length_app; pose proof (strcspn_length [0] k); cbn; lia). by apply decode_first_line. }
    cbn -[Base64.b64_decode first_line strcspn]. by rewrite E1, Hr.
Qed.

(** *** Concrete inputs *)
Lemma right_key_gets_in_witness :
  let s' := step (str "echo") (str "001122334455") (str "1") demo2 (Shake 0 7) in
  exists x' m2 h, threads s' !! 0%nat = Some (Some (mk_thread 5 false Encrypted)) /\ clients s' !! 0%nat = Some x' /\
    fd x' = 5 /\ enc x' = true /\ keyed x' = false /\ out s' = out demo2 ++ [Write 5 (write_frame (0 :: m2))] /\
    nn_read_msg2 m2 (snd demo_msg1) = Some ([], h, tx x', rx x') /\
    forall type b rest, 0 <= type < 2 ^ 16 -> Z.of_nat (length b) + 20 < 2 ^ 16 ->
      fst (encrypted_message (write_frame (fst (noise_encrypt (inner type b) (rx x'))) ++ rest) (rx x')) = Some (type, b).
Proof.
  apply (right_key_gets_in (str "echo") (str "001122334455") (str "1") demo2 0 7 5 false false (replicate 32 0)
    (fresh_client 5 no_client) [3] [] (fst demo_msg1) (snd demo_msg1)); [exact demo_msg1_is|reflexivity|reflexivity|cbn; lia].
Defined.

Lemma demo_va_leaves : va_fd demo_va = 5 /\ va_fd (step (str "echo") (str "001122334455") (str "1") demo_va (Message demo_env 0 [])) = -1.
Proof. vm_compute. done. Qed.
Lemma voice_assistant_stays_witness :
  let s' := step (str "echo") (str "001122334455") (str "1") demo_va (Message demo_env 0 []) in
  va_fd s' = -1 /\
  exists slot t, threads demo_va !! slot = Some (Some t) /\ t_fd t = va_fd demo_va /\
    ((exists b, Message demo_env 0 [] = First slot b) \/ (exists rnd, Message demo_env 0 [] = Shake slot rnd) \/
     exists e b, Message demo_env 0 [] = Message e slot b).
Proof.
  apply (voice_assistant_stays (str "echo") (str "001122334455") (str "1") demo_va (Message demo_env 0 []) demo_va_reached).
  - cbn. lia.
  - rewrite (proj2 demo_va_leaves). discriminate.
Defined.

Lemma key_survives_restart_witness :
  let s1 := snd (key_set demo_env demo_key demo3) in
  have_key (key_load (esp0 (key_file s1))) = have_key s1 /\ (have_key s1 = true -> api_key (key_load (esp0 (key_file s1))) = api_key s1).
Proof.
  apply (key_survives_restart demo_env demo_key demo3 (snd (key_set demo_env demo_key demo3)) (esp0 (key_file (snd (key_set demo_env demo_key demo3))))); vm_compute; reflexivity.
Defined.
