(* ===== verification/StateFile.v ===== *)
(** * State files that survive a reset (statefile.c)
    A function of the file is a finite tree of the calls it makes ([io]), its loop of at most
    100 turns unrolled; threads run their trees one call at a time, in any order.  The system
    underneath ([sys]) is what the file's comment says of the flash: the content of a file is
    safe only after fsync, and a reset may go back to any earlier state of the folder's names
    that no later fsync of the folder has put there. *)
From stdpp Require Import gmap.
From S2P Require Import Prelude Cbits.

(** ** The calls *)
Inductive call :=
  | FetchAdd                                             (* atomic_fetch_add(&seq, 1) *)
  | Exchange (n : nat)                                   (* atomic_exchange(&busy[n], 1) *)
  | Store (n : nat)                                      (* atomic_store(&busy[n], 0) *)
  | Unlink (p : bytes)
  | Open (p : bytes)                                     (* a new file: O_CREAT | O_EXCL *)
  | Fdopen (i : nat) | Close (i : nat)
  | Fwrite (i : nat) (d : bytes) | Ferror (i : nat) | Fflush (i : nat) | Fsync (i : nat) | Fclose (i : nat)
  | Rename (a b : bytes)
  | FsyncDir (d : bytes).                                (* open, fsync and close of a folder *)

(** A program: a result, or a call and what follows its answer *)
Inductive io (A : Type) :=
  | Ret (a : A)
  | Do (c : call) (k : Z -> io A).
Arguments Ret {A} a.
Arguments Do {A} c k.

Fixpoint bind {A B} (m : io A) (f : A -> io B) : io B :=
  match m with Ret a => f a | Do c k => Do c (fun z => bind (k z) f) end.

Declare Scope io_scope.
Delimit Scope io_scope with io.
Notation "x <- c ;; m" := (Do c (fun x => m%io)) (at level 63, c at next level, right associativity) : io_scope.
Notation "c ;;; m" := (Do c (fun _ => m%io)) (at level 63, right associativity) : io_scope.

(** ** statefile.c *)
Record statefile := mk_statefile { f : nat; path : bytes; tmp : bytes; slot : nat }.

(** "%d" of a number below 100 *)
Definition dec2 (n : nat) : bytes :=
  if (n <? 10)%nat then [48 + Z.of_nat n] else [48 + Z.of_nat n / 10; 48 + Z.of_nat n mod 10].
Definition tmp_name (p : bytes) (n : nat) : bytes := p ++ str ".tmp" ++ dec2 n.

(** The folder of a path: "." when it names none, "/" when it begins with its only slash *)
Fixpoint last_slash (p : bytes) : option nat :=
  match p with
  | [] => None
  | c :: p => match last_slash p with Some i => Some (S i) | None => if c =? 47 then Some 0%nat else None end
  end.
Definition parent (p : bytes) : bytes :=
  match last_slash p with
  | None => str "."
  | Some i => take (if (i =? 0)%nat then 1 else i) p
  end.

(** The temp number: drawn until one is not in flight, 100 times at most *)
Fixpoint take_slot {A} (i : nat) (k : option nat -> io A) : io A :=
  match i with
  | O => k None
  | S i =>
      (q <- FetchAdd;;
       let n := Z.to_nat (q mod 100) in
       b <- Exchange n;;
       if b =? 0 then k (Some n) else take_slot i k)%io
  end.

Definition statefile_open {A} (p : bytes) (k : option statefile -> io A) : io A :=
  if (320 <=? length p)%nat then k None else
  take_slot 100 (fun sl =>
    match sl with
    | None => k None
    | Some n =>
        let t := tmp_name p n in
        (Unlink t;;;
         fd <- Open t;;
         if fd <? 0 then Store n;;; k None else
         r <- Fdopen (Z.to_nat fd);;
         if r <? 0 then Close (Z.to_nat fd);;; Unlink t;;; Store n;;; k None
         else k (Some (mk_statefile (Z.to_nat fd) p t n)))%io
    end).

(** [ferror || fflush || fsync]: the first that is not 0 ends it. *)
Definition statefile_commit {A} (s : statefile) (k : Z -> io A) : io A :=
  let close bad :=
    (c <- Fclose (f s);;
     let fail := Unlink (tmp s);;; Store (slot s);;; k (-1) in
     if bad || negb (c =? 0) then fail else
     r <- Rename (tmp s) (path s);;
     if negb (r =? 0) then fail
     else Store (slot s);;; FsyncDir (parent (path s));;; k 0)%io in
  (e <- Ferror (f s);;
   if negb (e =? 0) then close true else
   r <- Fflush (f s);;
   if negb (r =? 0) then close true else
   r <- Fsync (f s);;
   close (negb (r =? 0)))%io.

Definition statefile_abort {A} (s : statefile) (k : io A) : io A :=
  (Fclose (f s);;; Unlink (tmp s);;; Store (slot s);;; k)%io.

Definition statefile_write (p : bytes) (d : bytes) : io Z :=
  statefile_open p (fun o =>
    match o with
    | None => Ret (-1)
    | Some s =>
        if (0 <? length d)%nat then
          (w <- Fwrite (f s) d;;
           if negb (w =? Z.of_nat (length d)) then statefile_abort s (Ret (-1)) else statefile_commit s Ret)%io
        else statefile_commit s Ret
    end).

(** What the other users do: several writes, their results not looked at, then the commit *)
Fixpoint fprintf_all (i : nat) (ds : list bytes) (k : io Z) : io Z :=
  match ds with [] => k | d :: ds => Do (Fwrite i d) (fun _ => fprintf_all i ds k) end.
Definition save (p : bytes) (ds : list bytes) : io Z :=
  statefile_open p (fun o => match o with None => Ret (-1) | Some s => fprintf_all (f s) ds (statefile_commit s Ret) end).

(** ** The system *)
Record file := mk_file { content : bytes; buf : bytes; ferr : bool; synced : bool }.
Abbreviation names := (gmap bytes nat).

(** [flash]: the names a reset may come back to, those of now among them *)
Record sys := mk_sys { seq : Z; busy : list bool; dir : names; flash : list names; files : gmap nat file; fresh_ino : nat }.

(** How a call goes: well or not, and how much of the buffer stdio writes out *)
Record luck := mk_luck { fine : bool; amount : nat }.

Definition upd_file (i : nat) (g : file -> file) (s : sys) : sys := s <| files := alter g i (files s) |>.
Definition set_dir (d : names) (s : sys) : sys := s <| dir := d |> <| flash := d :: flash s |>.
(** [n] bytes of the buffer reach the file. *)
Definition drain (n : nat) (x : file) : file :=
  if (n =? 0)%nat || (length (buf x) =? 0)%nat then x
  else x <| content := content x ++ take n (buf x) |> <| buf := drop n (buf x) |> <| synced := false |>.
Definition flush_all (x : file) : file := drain (length (buf x)) x.

Definition answer (b : bool) : Z := if b then 0 else -1.
Definition exec (c : call) (l : luck) (s : sys) : Z * sys :=
  match c with
  | FetchAdd => (seq s, s <| seq := u32 (seq s + 1) |>)
  | Exchange n => (if bool_decide (busy s !! n = Some true) then 1 else 0, s <| busy := <[n := true]> (busy s) |>)
  | Store n => (0, s <| busy := <[n := false]> (busy s) |>)
  | Unlink p =>
      if fine l && bool_decide (is_Some (dir s !! p)) then (0, set_dir (delete p (dir s)) s) else (-1, s)
  | Open p =>
      if fine l && bool_decide (dir s !! p = None) then
        let i := fresh_ino s in
        (Z.of_nat i, (set_dir (<[p := i]> (dir s)) s) <| files := <[i := mk_file [] [] false false]> (files s) |>
                                                       <| fresh_ino := S i |>)
      else (-1, s)
  | Fdopen i => (answer (fine l), s)
  | Close i => (0, s)
  | Fwrite i d =>
      if fine l then (Z.of_nat (length d), upd_file i (fun x => drain (amount l) (x <| buf := buf x ++ d |>)) s)
      else (-1, upd_file i (fun x => (drain (amount l) x) <| ferr := true |>) s)
  | Ferror i => (match files s !! i with Some x => if ferr x then 1 else 0 | None => 0 end, s)
  | Fflush i =>
      if fine l then (0, upd_file i flush_all s)
      else (-1, upd_file i (fun x => (drain (amount l) x) <| ferr := true |>) s)
  | Fsync i =>
      if fine l then (0, upd_file i (fun x => x <| synced := true |>) s) else (-1, s)
  | Fclose i =>
      if fine l then (0, upd_file i flush_all s) else (-1, upd_file i (drain (amount l)) s)
  | Rename a b =>
      match dir s !! a with
      | Some i => if fine l then (0, set_dir (<[b := i]> (delete a (dir s))) s) else (-1, s)
      | None => (-1, s)
      end
  | FsyncDir d =>
      if fine l then
        (0, s <| flash := map (fun v => filter (fun x => parent (fst x) = d) (dir s) ∪
                                        filter (fun x => parent (fst x) <> d) v) (flash s) |>)
      else (-1, s)
  end.

(** One thread makes its next call. *)
Definition turn (i : nat) (l : luck) (x : list (io Z) * sys) : list (io Z) * sys :=
  match fst x !! i with
  | Some (Do c k) => let '(a, s) := exec c l (snd x) in (<[i := k a]> (fst x), s)
  | _ => x
  end.
Definition run (turns : list (nat * luck)) (x : list (io Z) * sys) : list (io Z) * sys :=
  fold_left (fun x t => turn (fst t) (snd t) x) turns x.

(** What a path holds now, and what it may hold after a reset *)
Definition holds_now (s : sys) (p : bytes) : option bytes :=
  match dir s !! p with Some i => content <$> files s !! i | None => None end.
Definition after_reset (s : sys) (p : bytes) (o : option bytes) : Prop :=
  exists v, v ∈ flash s /\
    match v !! p with
    | None => o = None
    | Some i => exists x, files s !! i = Some x /\ if synced x then o = Some (content x) else is_Some o
    end.

Definition sys0 (d : names) (fs : gmap nat file) (next : nat) : sys := mk_sys 0 (replicate 100 false) d [d] fs next.
