(* ===== verification/StateFileSafe.v ===== *)
(** * State files that survive a reset: threads that write at once, failures, a reset at any moment
    What a thread may do next is a protocol on what it owns: a temp number, then a temp file,
    from its opening to its name.  The functions of statefile.c keep to it ([follows]); a
    call made by it leaves every other thread's file alone and the real names good. *)
From stdpp Require Import gmap.
From S2P Require Import Prelude Cbits StateFile.

(** ** The protocol *)
Inductive stage := Writing (d : bytes) | Broken | Flushed (d : bytes) | Synced (d : bytes) | Whole (d : bytes) | Closed.
Inductive own := Idle | Slot (n : nat) | Temp (n i : nat) (st : stage).

Definition may (p D : bytes) (o : own) (c : call) : Prop :=
  match c, o with
  | FetchAdd, Idle => True
  | Exchange n, Idle => (n < 100)%nat
  | Store m, Slot n => m = n
  | Unlink t, Slot n => t = tmp_name p n
  | Unlink t, Temp n _ (Whole _ | Closed) => t = tmp_name p n
  | Open t, Slot n => t = tmp_name p n
  | Fdopen j, Temp _ i _ | Close j, Temp _ i (Writing _) | Fwrite j _, Temp _ i (Writing _ | Broken)
  | Ferror j, Temp _ i (Writing _ | Broken) | Fflush j, Temp _ i (Writing _) | Fsync j, Temp _ i (Flushed _) => j = i
  | Fclose j, Temp _ i (Writing _ | Broken | Flushed _ | Synced _) => j = i
  | Rename a b, Temp n _ (Whole d) => a = tmp_name p n /\ b = p /\ d = D
  | FsyncDir _, Idle => True
  | _, _ => False
  end.

(** What it owns after an answer; [None]: no such answer *)
Definition next (o : own) (c : call) (a : Z) : option own :=
  match c, o with
  | Exchange n, _ => Some (if a =? 0 then Slot n else Idle)
  | Store _, _ => Some Idle
  | Unlink _, Temp n _ _ => Some (Slot n)
  | Open _, Slot n => Some (if a <? 0 then Slot n else Temp n (Z.to_nat a) (Writing []))
  | Close _, Temp n i _ => Some (Temp n i Closed)
  | Fwrite _ d', Temp n i (Writing d) => Some (Temp n i (if a =? Z.of_nat (length d') then Writing (d ++ d') else Broken))
  | Ferror _, Temp n i (Writing d) => if a =? 0 then Some o else None
  | Ferror _, Temp n i Broken => if a =? 0 then None else Some o
  | Fflush _, Temp n i (Writing d) => Some (Temp n i (if a =? 0 then Flushed d else Broken))
  | Fsync _, Temp n i (Flushed d) => Some (Temp n i (if a =? 0 then Synced d else Flushed d))
  | Fclose _, Temp n i (Synced d) => Some (Temp n i (if a =? 0 then Whole d else Closed))
  | Fclose _, Temp n i _ => Some (Temp n i Closed)
  | Rename _ _, Temp n i st => Some (if a =? 0 then Slot n else o)
  | _, _ => Some o
  end.

Fixpoint follows {A} (p D : bytes) (o : own) (m : io A) : Prop :=
  match m with
  | Ret _ => o = Idle
  | Do c k => may p D o c /\ forall a o', next o c a = Some o' -> follows p D o' (k a)
  end.

(** *** The functions of the file keep to it *)
Lemma take_slot_follows {A} p D i (k : option nat -> io A) :
  follows p D Idle (k None) -> (forall n, follows p D (Slot n) (k (Some n))) -> follows p D Idle (take_slot i k).
Proof.
  intros H0 H1. induction i as [|i IH]; [done|]. cbn [take_slot follows]. split; [done|].
  intros q o' [= <-]. split; [cbn; pose proof (Z.mod_pos_bound q 100); lia|].
  intros b o' [= <-]. by destruct (b =? 0).
Qed.

Lemma open_follows {A} p D (k : option statefile -> io A) :
  follows p D Idle (k None) ->
  (forall n i, follows p D (Temp n i (Writing [])) (k (Some (mk_statefile i p (tmp_name p n) n)))) ->
  follows p D Idle (statefile_open p k).
Proof.
  intros H0 H1. unfold statefile_open. destruct (320 <=? length p)%nat; [done|]. apply take_slot_follows; [done|].
  intros n. cbn [follows]. split; [done|]. intros a o' [= <-]. split; [done|]. intros fd o' [= <-].
  destruct (fd <? 0); cbn [follows].
  - split; [done|]. by intros b o' [= <-].
  - split; [done|]. intros r o' [= <-]. destruct (r <? 0); [|apply H1].
    cbn [follows]. split; [done|]. intros ? o' [= <-]. split; [done|]. intros ? o' [= <-]. split; [done|]. by intros ? o' [= <-].
Qed.

Lemma fail_follows p D n i st (r : Z) : st = Closed \/ (exists d, st = Whole d) ->
  follows p D (Temp n i st) (Unlink (tmp_name p n);;; Store n;;; Ret r)%io.
Proof.
  intros Hst. cbn [follows]. split; [by destruct Hst as [ -> | [d ->]]|]. intros a o' [= <-].
  split; [done|]. by intros b o' [= <-].
Qed.

Lemma commit_follows p D n i st : st = Writing D \/ st = Broken ->
  follows p D (Temp n i st) (statefile_commit (mk_statefile i p (tmp_name p n) n) Ret).
Proof.
  intros Hst. unfold statefile_commit. cbn [f tmp slot path]. cbn [follows]. split; [by destruct Hst as [-> | ->]|].
  assert (forall st', (exists d, st' = Writing d) \/ st' = Broken \/ (exists d, st' = Flushed d) ->
    forall c o', next (Temp n i st') (Fclose i) c = Some o' ->
    follows p D o' (Unlink (tmp_name p n);;; Store n;;; Ret (-1))%io) as Hbad.
  { intros st' Hs c o' Hn. assert (o' = Temp n i Closed) as ->; [|apply fail_follows; by left].
    destruct Hs as [[d ->] | [ -> | [d ->]]]; by injection Hn as <-. }
  intros e o' Hn. destruct Hst as [ -> | -> ]; cbn in Hn; destruct (e =? 0) eqn:He; simplify_eq.
  2:{ cbn [negb follows orb]. split; [done|]. intros c o' Hc. apply (Hbad Broken) with c; auto. }
  cbn [negb follows]. split; [done|]. intros r o' [= <-]. destruct (r =? 0).
  2:{ cbn [negb follows orb]. split; [done|]. intros c o' Hc. apply (Hbad Broken) with c; auto. }
  cbn [negb follows]. split; [done|]. intros y o' [= <-]. destruct (y =? 0).
  2:{ cbn [negb follows orb]. split; [done|]. intros c o' Hc. apply (Hbad (Flushed D)) with c; eauto. }
  cbn [negb follows orb]. split; [done|]. intros c o' [= <-]. destruct (c =? 0); cbn [negb].
  2:{ apply fail_follows. by left. }
  cbn [follows]. split; [done|]. intros z o' [= <-]. destruct (z =? 0); cbn [negb].
  2:{ apply fail_follows. right. by eexists. }
  cbn [follows]. split; [done|]. intros ? o' [= <-]. split; [done|]. by intros ? o' [= <-].
Qed.

Lemma statefile_write_follows p D : follows p D Idle (statefile_write p D).
Proof.
  unfold statefile_write. apply open_follows; [done|]. intros n i. destruct (Nat.ltb_spec 0 (length D)) as [Hd|Hd].
  - cbn [follows f]. split; [done|]. intros w o' [= <-]. destruct (w =? Z.of_nat (length D)); cbn [negb app].
    + apply commit_follows. by left.
    + cbn [follows statefile_abort f tmp slot]. split; [done|]. intros ? o' [= <-].
      exact (fail_follows p D n i Closed (-1) (or_introl eq_refl)).
  - destruct D as [|x D]; [|cbn in Hd; lia]. apply commit_follows. by left.
Qed.

Lemma fprintf_follows p D n i ds k st : (forall st', st' = Writing D \/ st' = Broken -> follows p D (Temp n i st') k) ->
  (exists d, st = Writing d /\ d ++ concat ds = D) \/ st = Broken -> follows p D (Temp n i st) (fprintf_all i ds k).
Proof.
  intros Hk. revert st. induction ds as [|d ds IH]; intros st Hst; cbn [fprintf_all].
  - apply Hk. destruct Hst as [(d & -> & Hd) | -> ]; [left|by right]. cbn in Hd. by rewrite app_nil_r in Hd; subst.
  - cbn [follows]. split; [by destruct Hst as [(d' & -> & _) | -> ]|]. intros a o' Hn.
    destruct Hst as [(d' & -> & Hd) | -> ]; cbn in Hn; simplify_eq; apply IH; [|by right].
    destruct (a =? Z.of_nat (length d)); [left|by right]. eexists. split; [done|]. by rewrite <- app_assoc.
Qed.

Lemma save_follows p ds : follows p (concat ds) Idle (save p ds).
Proof.
  unfold save. apply open_follows; [done|]. intros n i. cbn [f]. apply fprintf_follows.
  - intros st' Hs. by apply commit_follows.
  - left. by eexists.
Qed.

(** Temp names of different numbers differ, whatever the paths. *)
Lemma tmp_name_inj p q n m : (n < 100)%nat -> (m < 100)%nat -> tmp_name p n = tmp_name q m -> n = m.
Proof.
  intros Hn Hm Heq. unfold tmp_name in Heq. change (str ".tmp") with [46; 116; 109; 112] in Heq.
  apply (f_equal (@rev Z)) in Heq. rewrite !rev_app_distr in Heq. unfold dec2 in Heq.
  pose proof (Z.div_mod (Z.of_nat n) 10). pose proof (Z.div_mod (Z.of_nat m) 10).
  pose proof (Z.mod_pos_bound (Z.of_nat n) 10). pose proof (Z.mod_pos_bound (Z.of_nat m) 10).
  destruct (Nat.ltb_spec n 10), (Nat.ltb_spec m 10); cbn [rev app] in Heq; injection Heq; intros; lia.
Qed.

Section safe.
(** [real]: the names that are written; [good p o]: [o] is the old content of [p] or a new one. *)
Variable real : bytes -> Prop.
Variable good : bytes -> option bytes -> Prop.
Hypothesis real_not_tmp : forall p q n, real p -> real q -> (n < 100)%nat -> tmp_name p n <> q.

Definition stage_ok (st : stage) (x : file) : Prop :=
  match st with
  | Writing d => ferr x = false /\ content x ++ buf x = d
  | Broken => ferr x = true
  | Flushed d => content x = d /\ buf x = []
  | Synced d | Whole d => content x = d /\ buf x = [] /\ synced x = true
  | Closed => True
  end.

(** A thread's part of the system *)
Definition mine (s : sys) (p : bytes) (o : own) : Prop :=
  match o with
  | Idle => True
  | Slot n => (n < 100)%nat /\ busy s !! n = Some true
  | Temp n i st => (n < 100)%nat /\ busy s !! n = Some true /\ dir s !! tmp_name p n = Some i /\ (i < fresh_ino s)%nat /\
      (forall v q, v ∈ flash s -> real q -> v !! q <> Some i) /\ exists x, files s !! i = Some x /\ stage_ok st x
  end.
Definition apart (a b : own) : Prop :=
  match a, b with
  | Idle, _ | _, Idle => True
  | Slot n, Slot m | Slot n, Temp m _ _ | Temp n _ _, Slot m => n <> m
  | Temp n i _, Temp m j _ => n <> m /\ i <> j
  end.

Definition name_ok (s : sys) (v : names) (q : bytes) : Prop :=
  match v !! q with
  | None => good q None
  | Some i => exists x, files s !! i = Some x /\ synced x = true /\ buf x = [] /\ good q (Some (content x))
  end.
Record safe (s : sys) : Prop := {
  s_busy : length (busy s) = 100%nat;
  s_dir : dir s ∈ flash s;
  s_range : forall v q i, v ∈ flash s -> v !! q = Some i -> (i < fresh_ino s)%nat;
  s_names : forall v q, v ∈ flash s -> real q -> name_ok s v q }.

(** A step that leaves alone what another thread owns *)
Definition leaves (n : option nat) (i : option nat) (s s' : sys) : Prop :=
  (forall m, Some m <> n -> busy s !! m = Some true -> busy s' !! m = Some true) /\
  (forall q m, real q -> (m < 100)%nat -> Some m <> n -> dir s' !! tmp_name q m = dir s !! tmp_name q m) /\
  (forall j, Some j <> i -> (j < fresh_ino s)%nat -> files s' !! j = files s !! j) /\
  (fresh_ino s <= fresh_ino s')%nat /\
  (forall v q j, v ∈ flash s' -> real q -> v !! q = Some j -> Some j = i \/ exists v', v' ∈ flash s /\ v' !! q = Some j).

Definition slot_of (o : own) : option nat := match o with Idle => None | Slot n | Temp n _ _ => Some n end.
Definition ino_of (o : own) : option nat := match o with Temp _ i _ => Some i | _ => None end.

Lemma mine_leaves s s' n i q o : leaves n i s s' -> real q -> (slot_of o = None \/ slot_of o <> n) -> (ino_of o = None \/ ino_of o <> i) ->
  mine s q o -> mine s' q o.
Proof.
  intros (H1 & H2 & H3 & H4 & H5) Hq Hn Hi Hm. destruct o as [|m|m j st]; cbn in *; [done| |].
  - destruct Hm as [Hm Hb]. split; [done|]. apply H1; [|done]. destruct Hn; congruence.
  - destruct Hm as (Hm & Hb & Hd & Hj & Hv & x & Hx & Hs). assert (Some m <> n) by (destruct Hn; congruence).
    assert (Some j <> i) by (destruct Hi; congruence). split_and!; [done|by apply H1|by rewrite H2|lia| |].
    + intros v p Hvf Hp E. destruct (H5 v p j Hvf Hp E) as [|(v' & Hv' & E')]; [done|]. by apply (Hv v' p).
    + exists x. by rewrite H3.
Qed.

(** Changes of one file, of the names, of nothing but the numbers *)
Lemma leaves_refl s n i : leaves n i s s.
Proof. split_and!; eauto. Qed.
Lemma leaves_file s n i g : leaves n (Some i) s (upd_file i g s).
Proof.
  split_and!; cbn; eauto. intros j Hj _. apply lookup_alter_ne. congruence.
Qed.
Lemma leaves_tmp s p n i d : real p -> (forall q, q <> tmp_name p n -> d !! q = dir s !! q) -> dir s ∈ flash s -> (n < 100)%nat ->
  leaves (Some n) i s (set_dir d s).
Proof.
  intros Hp Hd Hin Hn. split_and!; cbn; eauto.
  - intros q m Hq Hm Hne. apply Hd. intros E. apply Hne. f_equal. by apply (tmp_name_inj q p m n).
  - intros v q j Hv Hq E. right. apply elem_of_cons in Hv as [->|Hv]; [|by exists v].
    exists (dir s). split; [done|]. rewrite <- Hd; [done|]. intros Eq. by apply (real_not_tmp p q n).
Qed.

(** The names stay good when a file nobody's real name leads to changes. *)
Lemma safe_file s i g : safe s -> (forall v q, v ∈ flash s -> real q -> v !! q <> Some i) -> safe (upd_file i g s).
Proof.
  intros [H1 H2 H3 H4] Hi. split; [done..|]. intros v q Hv Hq. specialize (H4 v q Hv Hq). unfold name_ok in *. cbn.
  destruct (v !! q) as [j|] eqn:Ej; [|done]. rewrite lookup_alter_ne; [done|]. intros ->. by apply (Hi v q).
Qed.
Lemma safe_tmp s p n d : safe s -> real p -> (n < 100)%nat -> (forall q, q <> tmp_name p n -> d !! q = dir s !! q) ->
  (forall i, d !! tmp_name p n = Some i -> (i < fresh_ino s)%nat) -> safe (set_dir d s).
Proof.
  intros [H1 H2 H3 H4] Hp Hn Hd Hr. split; [done|by left| |].
  - intros v q i Hv E. apply elem_of_cons in Hv as [->|Hv]; [|by eapply H3].
    destruct (decide (q = tmp_name p n)) as [->|Hq]; [by apply Hr|]. rewrite Hd in E by done. by eapply H3.
  - intros v q Hv Hq. apply elem_of_cons in Hv as [->|Hv]; [|by apply H4].
    specialize (H4 _ q H2 Hq). unfold name_ok in *. rewrite Hd; [done|]. intros ->. by apply (real_not_tmp p (tmp_name p n) n).
Qed.

(** What a call must achieve for the thread that makes it, and for the others *)
Definition keeps (s s' : sys) (p : bytes) (o o' : own) : Prop :=
  safe s' /\ mine s' p o' /\ forall q o2, real q -> apart o o2 -> mine s q o2 -> mine s' q o2 /\ apart o' o2.

Lemma keeps_leaves s s' p o o' : safe s' -> mine s' p o' -> leaves (slot_of o) (ino_of o) s s' ->
  slot_of o' = None \/ slot_of o' = slot_of o -> ino_of o' = None \/ ino_of o' = ino_of o -> keeps s s' p o o'.
Proof.
  intros Hs Hm Hl H1 H2. split_and!; [done..|]. intros q o2 Hq Ha Hm2. split.
  - apply (mine_leaves s s' (slot_of o) (ino_of o)); [done|done| | |done]; destruct o, o2; cbn in *; naive_solver.
  - destruct o, o', o2; cbn in *; naive_solver.
Qed.

Lemma drain_all n x : content (drain n x) ++ buf (drain n x) = content x ++ buf x /\ ferr (drain n x) = ferr x.
Proof. unfold drain. case_match; [done|]. cbn. by rewrite <- app_assoc, take_drop. Qed.
Lemma drain_empty n x : buf x = [] -> drain n x = x.
Proof. intros Hb. unfold drain. rewrite Hb. cbn. by rewrite orb_true_r. Qed.
Lemma flush_all_spec x : content (flush_all x) = content x ++ buf x /\ buf (flush_all x) = [] /\ ferr (flush_all x) = ferr x.
Proof.
  unfold flush_all, drain. destruct (buf x) as [|b l] eqn:E; cbn; [by rewrite E, app_nil_r|]. by rewrite firstn_all, skipn_all.
Qed.

Lemma exec_idle c l s p D : safe s -> may p D Idle c ->
  exists o', next Idle c (fst (exec c l s)) = Some o' /\ keeps s (snd (exec c l s)) p Idle o'.
Proof.
  intros Hs Hmay. destruct c; try done; cbn [exec fst snd next].
  - exists Idle. split; [done|]. apply keeps_leaves; [by destruct Hs|done|split_and!; cbn; eauto|auto..].
  - cbn in Hmay. destruct (bool_decide_reflect (busy s !! n = Some true)) as [Hb|Hb]; cbn [Z.eqb]; (eexists; split; [done|]).
    + rewrite list_insert_id by done. apply keeps_leaves; [by destruct Hs|done|split_and!; cbn; eauto|auto..].
    + assert (n < length (busy s))%nat as Hn by (destruct Hs as [-> _ _ _]; lia).
      assert (leaves None None s (s <| busy := <[n := true]> (busy s) |>)) as Hl.
      { split_and!; cbn; eauto. intros m _ Hm. destruct (decide (m = n)) as [->|Hne]; [by apply list_lookup_insert_eq|by rewrite list_lookup_insert_ne]. }
      split_and!.
      * destruct Hs as [H1 H2 H3 H4]. split; [cbn; by rewrite length_insert|done..].
      * split; [done|]. by apply list_lookup_insert_eq.
      * intros q o2 Hq _ Hm2. split; [by apply (mine_leaves s _ None None); auto; destruct o2; auto|].
        destruct o2 as [|m|m j st]; cbn in *; [done| |]; intros <-; destruct Hm2 as [_ Hm2]; [done|by destruct Hm2].
  - exists Idle. split; [done|]. destruct (fine l); cbn [fst snd]; [|apply keeps_leaves; [done|done|apply leaves_refl|auto..]].
    match goal with |- context [map ?x (flash s)] => set (g := x) end.
    assert (forall v q, g v !! q = if decide (parent q = d) then dir s !! q else v !! q) as Hg.
    { intros v q. unfold g. rewrite lookup_union, !map_lookup_filter.
      destruct (decide (parent q = d)), (dir s !! q), (v !! q); cbn; repeat case_guard; cbn; done. }
    assert (forall v q, v ∈ map g (flash s) -> exists v', v' ∈ flash s /\ v !! q = v' !! q) as Hv.
    { intros v q Hin. apply list_elem_of_fmap in Hin as (v' & -> & Hv'). rewrite Hg. destruct (decide (parent q = d)); [|by exists v'].
      exists (dir s). split; [by destruct Hs|done]. }
    apply keeps_leaves; [|done| |auto..].
    + destruct Hs as [H1 H2 H3 H4]. split; [done| | |]; cbn.
      * apply list_elem_of_fmap. exists (dir s). split; [|done]. apply map_eq. intros q. rewrite Hg. by case_decide.
      * intros v q i Hin E. destruct (Hv v q Hin) as (v' & Hv' & E'). rewrite E' in E. by eapply H3.
      * intros v q Hin Hq. destruct (Hv v q Hin) as (v' & Hv' & E'). specialize (H4 v' q Hv' Hq). unfold name_ok in *. by rewrite E'.
    + split_and!; cbn; eauto. intros v q j Hin Hq E. right. destruct (Hv v q Hin) as (v' & Hv' & E'). exists v'. by rewrite <- E'.
Qed.

(** The temp name taken away, by one that has its number *)
Lemma unlink_keeps s p n o i l : safe s -> real p -> mine s p o -> slot_of o = Some n -> (n < 100)%nat -> ino_of o = i ->
  keeps s (snd (exec (Unlink (tmp_name p n)) l s)) p o (Slot n).
Proof.
  intros Hs Hp Hm Hn Hlt Hi. assert (busy s !! n = Some true) as Hb by (destruct o; cbn in *; simplify_eq; naive_solver).
  cbn [exec]. destruct (fine l && _); cbn [snd].
  - apply keeps_leaves; [| | |right; by rewrite Hn|by left].
    + apply (safe_tmp s p n); [done|done|done|intros q Hq; by apply lookup_delete_ne|]. intros j Hj. by rewrite lookup_delete_eq in Hj.
    + by split.
    + rewrite Hn. apply (leaves_tmp s p); [done|intros q Hq; by apply lookup_delete_ne|by destruct Hs|done].
  - apply keeps_leaves; [done|by split|apply leaves_refl|right; by rewrite Hn|by left].
Qed.

Lemma exec_slot c l s p D n : safe s -> mine s p (Slot n) -> real p -> may p D (Slot n) c ->
  exists o', next (Slot n) c (fst (exec c l s)) = Some o' /\ keeps s (snd (exec c l s)) p (Slot n) o'.
Proof.
  intros Hs Hm Hp Hmay. pose proof Hm as [Hn Hb]. destruct c; try done; cbn in Hmay; subst; cbn [next].
  - exists Idle. split; [done|]. apply keeps_leaves; [|done| |auto..].
    + destruct Hs as [H1 H2 H3 H4]. split; [cbn; by rewrite length_insert|done..].
    + split_and!; cbn; eauto. intros m Hne Hbm. rewrite list_lookup_insert_ne; [done|congruence].
  - exists (Slot n). split; [done|]. by apply (unlink_keeps s p n (Slot n) None).
  - cbn [exec]. destruct (fine l && _) eqn:Hf; cbn [fst snd].
    2:{ exists (Slot n). split; [done|]. apply keeps_leaves; [done|done|apply leaves_refl|auto..]. }
    apply andb_true_iff in Hf as [_ Hf]. apply bool_decide_eq_true in Hf.
    exists (Temp n (fresh_ino s) (Writing [])). split.
    { destruct (Z.ltb_spec (Z.of_nat (fresh_ino s)) 0); [lia|]. by rewrite Nat2Z.id. }
    set (t := tmp_name p n) in *. set (s' := _ <| fresh_ino := _ |>).
    assert (safe s') as Hs'.
    { destruct Hs as [H1 H2 H3 H4]. split; [done|by left| |].
      - intros v q j Hv E. cbn in *. apply elem_of_cons in Hv as [->|Hv]; [|apply H3 in E; [lia|done]].
        apply lookup_insert_Some in E as [[_ <-]|[_ E]]; [lia|]. apply H3 in E; [lia|done].
      - intros v q Hv Hq. assert (exists v', v' ∈ flash s /\ v !! q = v' !! q) as (v' & Hv' & E).
        { cbn in Hv. apply elem_of_cons in Hv as [->|Hv]; [|by exists v]. exists (dir s). split; [done|].
          apply lookup_insert_ne. by apply real_not_tmp. }
        specialize (H4 v' q Hv' Hq). unfold name_ok in *. rewrite E. destruct (v' !! q) as [j|] eqn:Ej; [|done]. cbn.
        rewrite lookup_insert_ne; [done|]. apply H3 in Ej; [lia|done]. }
    assert (leaves (Some n) None s s') as Hl.
    { split_and!; cbn; eauto.
      - intros q m Hq Hm2 Hne. apply lookup_insert_ne. intros E. apply Hne. f_equal. symmetry. by apply (tmp_name_inj p q n m).
      - intros j _ Hj. apply lookup_insert_ne. lia.
      - intros v q j Hv Hq E. right. apply elem_of_cons in Hv as [->|Hv]; [|by exists v]. exists (dir s).
        split; [by destruct Hs|]. rewrite lookup_insert_ne in E; [done|]. by apply real_not_tmp. }
    split_and!; [done| |].
    + split_and!; [done|done|apply lookup_insert_eq|cbn; lia| |].
      * intros v q Hv Hq E. cbn in Hv. destruct Hl as (_ & _ & _ & _ & Hl). destruct (Hl v q _ Hv Hq E) as [|(v' & Hv' & E')]; [done|].
        apply (s_range s Hs) in E'; [lia|done].
      * eexists. split; [apply lookup_insert_eq|done].
    + intros q o2 Hq Ha Hm2. split.
      * apply (mine_leaves s s' (Some n) None); [done|done| | |done]; destruct o2; cbn in *; auto; right; congruence.
      * destruct o2 as [|m|m j st]; cbn in *; [done|done|]. split; [done|]. destruct Hm2 as (_ & _ & _ & Hj & _). lia.
Qed.

(** A call on the open file: only the file changes. *)
Lemma file_step s p n i st st' g : safe s -> mine s p (Temp n i st) -> (forall x, stage_ok st x -> stage_ok st' (g x)) ->
  keeps s (upd_file i g s) p (Temp n i st) (Temp n i st').
Proof.
  intros Hs Hm Hg. pose proof Hm as (Hn & Hb & Hd & Hi & Hv & x & Hx & Hst).
  apply keeps_leaves; [by apply safe_file| | |auto..].
  - split_and!; [done..|]. exists (g x). split; [cbn; by rewrite lookup_alter_eq, Hx|by apply Hg].
  - cbn. apply leaves_file.
Qed.
Lemma same_step s p n i st st' : safe s -> mine s p (Temp n i st) -> (forall x, stage_ok st x -> stage_ok st' x) ->
  keeps s s p (Temp n i st) (Temp n i st').
Proof.
  intros Hs Hm Hg. pose proof Hm as (Hn & Hb & Hd & Hi & Hv & x & Hx & Hst).
  apply keeps_leaves; [done| |apply leaves_refl|auto..]. split_and!; [done..|]. exists x. auto.
Qed.

(** The temp file gets its real name: whole, on the flash, and good. *)
Lemma rename_keeps s p n i d : safe s -> real p -> good p (Some d) -> mine s p (Temp n i (Whole d)) ->
  keeps s (set_dir (<[p := i]> (delete (tmp_name p n) (dir s))) s) p (Temp n i (Whole d)) (Slot n).
Proof.
  intros Hs Hp Hg (Hn & Hb & Hd & Hi & Hv & x & Hx & Hc & Hbu & Hsy).
  set (dd := <[p := i]> _).
  assert (forall q, real q -> q <> p -> dd !! q = dir s !! q) as Hother.
  { intros q Hq Hne. unfold dd. rewrite lookup_insert_ne, lookup_delete_ne; [done| |done]. by apply real_not_tmp. }
  apply keeps_leaves; [|by split| |by right|by left].
  - destruct Hs as [H1 H2 H3 H4]. split; [done|by left| |].
    + intros v q j Hvf E. cbn in *. apply elem_of_cons in Hvf as [->|Hvf]; [|by eapply H3].
      apply lookup_insert_Some in E as [[_ <-]|[_ E]]; [done|]. apply lookup_delete_Some in E as [_ E]. by eapply H3.
    + intros v q Hvf Hq. cbn in Hvf. apply elem_of_cons in Hvf as [->|Hvf]; [|by apply H4].
      destruct (decide (q = p)) as [->|Hne].
      * unfold name_ok, dd. rewrite lookup_insert_eq. exists x. by rewrite Hc.
      * specialize (H4 _ q H2 Hq). unfold name_ok in *. by rewrite Hother.
  - split_and!; cbn; eauto.
    + intros q m Hq Hm Hne. unfold dd. rewrite lookup_insert_ne by (intros E; by apply (real_not_tmp q p m)).
      apply lookup_delete_ne. intros E. apply Hne. f_equal. symmetry. by apply (tmp_name_inj p q n m).
    + intros v q j Hvf Hq E. apply elem_of_cons in Hvf as [->|Hvf]; [|right; by exists v].
      destruct (decide (q = p)) as [->|Hne]; [left; unfold dd in E; rewrite lookup_insert_eq in E; congruence|].
      right. exists (dir s). split; [by destruct Hs|]. by rewrite <- Hother.
Qed.

Lemma exec_temp c l s p D n i st : safe s -> mine s p (Temp n i st) -> real p -> good p (Some D) -> may p D (Temp n i st) c ->
  exists o', next (Temp n i st) c (fst (exec c l s)) = Some o' /\ keeps s (snd (exec c l s)) p (Temp n i st) o'.
Proof.
  intros Hs Hm Hp HD Hmay. pose proof Hm as (Hn & Hb & Hd & Hi & Hv & x & Hx & Hst).
  destruct c; try done; cbn in Hmay.
  - exists (Slot n). split; [done|]. assert (p0 = tmp_name p n) as -> by by destruct st.
    by apply (unlink_keeps s p n (Temp n i st) (Some i)).
  - eexists. split; [done|]. by apply same_step.
  - eexists. split; [done|]. by apply same_step.
  - assert (i0 = i) as -> by by destruct st. destruct st; try done; cbn [exec next].
    + destruct (fine l); cbn [fst snd].
      * rewrite Z.eqb_refl. eexists. split; [done|]. apply file_step; [done|done|]. intros y [Hy1 Hy2].
        destruct (drain_all (amount l) (y <| buf := buf y ++ d |>)) as [E1 E2]. split; [by rewrite E2|]. rewrite E1. cbn.
        by rewrite app_assoc, Hy2.
      * eexists. split; [done|]. destruct (Z.eqb_spec (-1) (Z.of_nat (length d))); [lia|]. by apply file_step.
    + eexists. split; [done|]. destruct (fine l); apply file_step; try done. intros y Hy. cbn. by rewrite (proj2 (drain_all _ _)).
  - assert (i0 = i) as -> by by destruct st. destruct st; try done; cbn [exec fst snd next stage_ok] in *; rewrite Hx.
    + destruct Hst as [-> _]. eexists. split; [done|]. by apply same_step.
    + rewrite Hst. eexists. split; [done|]. by apply same_step.
  - destruct st; try done. subst i0. cbn [exec next]. destruct (fine l); cbn [fst snd]; (eexists; split; [done|]); apply file_step; try done.
    intros y [Hy1 Hy2]. destruct (flush_all_spec y) as (E1 & E2 & E3). cbn. by rewrite E1, E2.
  - destruct st; try done. subst i0. cbn [exec next]. destruct (fine l); cbn [fst snd]; (eexists; split; [done|]); [|by apply same_step].
    apply file_step; [done|done|]. by intros y [Hy1 Hy2].
  - assert (i0 = i) as -> by by destruct st. destruct st; try done; cbn [exec next];
      destruct (fine l); cbn [fst snd]; (eexists; split; [done|]); apply file_step; try done.
    intros y (Hy1 & Hy2 & Hy3). unfold flush_all. by rewrite drain_empty.
  - destruct st; try done. destruct Hmay as (-> & -> & ->). cbn [exec next]. rewrite Hd. destruct (fine l); cbn [fst snd].
    + eexists. split; [done|]. by apply rename_keeps.
    + eexists. split; [done|]. by apply same_step.
Qed.

Lemma exec_keeps c l s p D o : safe s -> mine s p o -> real p -> good p (Some D) -> may p D o c ->
  exists o', next o c (fst (exec c l s)) = Some o' /\ keeps s (snd (exec c l s)) p o o'.
Proof.
  intros Hs Hm Hp HD Hmay. destruct o as [|n|n i st]; [by apply (exec_idle c l s p D)|by apply (exec_slot c l s p D)|by apply (exec_temp c l s p D)].
Qed.

(** ** All threads *)
Definition all_ok (jobs : list (bytes * bytes)) (x : list (io Z) * sys) : Prop :=
  safe (snd x) /\ exists os : list own,
    length os = length jobs /\ length (fst x) = length jobs /\
    (forall j p D m o, jobs !! j = Some (p, D) -> fst x !! j = Some m -> os !! j = Some o -> follows p D o m /\ mine (snd x) p o) /\
    forall j k a b, j <> k -> os !! j = Some a -> os !! k = Some b -> apart a b.

Lemma apart_sym a b : apart a b -> apart b a.
Proof. destruct a, b; cbn; naive_solver. Qed.

Lemma turn_ok jobs i l x : (forall p D, (p, D) ∈ jobs -> real p /\ good p (Some D)) -> all_ok jobs x -> all_ok jobs (turn i l x).
Proof.
  intros Hj (Hs & os & L1 & L2 & Hos & Hap). unfold turn. destruct (fst x !! i) as [[a|c k]|] eqn:Hi; [by split; [|exists os]| |by split; [|exists os]].
  destruct (lookup_lt_is_Some_2 jobs i) as [[p D] Hji]; [rewrite <- L2; by eapply lookup_lt_Some|].
  destruct (lookup_lt_is_Some_2 os i) as [o Ho]; [rewrite L1, <- L2; by eapply lookup_lt_Some|].
  destruct (Hos i p D _ o Hji Hi Ho) as [[Hmay Hk] Hm]. destruct (Hj p D (list_elem_of_lookup_2 _ _ _ Hji)) as [Hp HD].
  destruct (exec_keeps c l (snd x) p D o Hs Hm Hp HD Hmay) as (o' & Hn & Hs' & Hm' & Hrest).
  destruct (exec c l (snd x)) as [a s']. cbn [fst snd] in *. split; [done|]. exists (<[i := o']> os). cbn [fst snd].
  rewrite !length_insert. split_and!; [done|done| |].
  - intros j q E m b Hjj Hmj Hb. apply list_lookup_insert_Some in Hmj, Hb. destruct Hmj as [(-> & <- & _)|[Hne Hmj]].
    + destruct Hb as [(_ & <- & _)|[? _]]; [|done]. rewrite Hji in Hjj. injection Hjj as <- <-. split; [by apply Hk|done].
    + destruct Hb as [(-> & _)|[_ Hb]]; [done|]. destruct (Hos j q E m b Hjj Hmj Hb) as [Hf Hmb]. split; [done|].
      destruct (Hj q E (list_elem_of_lookup_2 _ _ _ Hjj)) as [Hq _]. apply (Hrest q b Hq); [|done]. by apply (Hap i j).
  - assert (forall j b, j <> i -> os !! j = Some b -> apart o' b) as Ho'.
    { intros j b Hne Hb. destruct (lookup_lt_is_Some_2 jobs j) as [[q E] Hjj]; [rewrite <- L1; by eapply lookup_lt_Some|].
      destruct (lookup_lt_is_Some_2 (fst x) j) as [m Hmj]; [rewrite L2, <- L1; by eapply lookup_lt_Some|].
      destruct (Hos j q E m b Hjj Hmj Hb) as [_ Hmb]. destruct (Hj q E (list_elem_of_lookup_2 _ _ _ Hjj)) as [Hq _].
      apply (Hrest q b Hq); [|done]. by apply (Hap i j). }
    intros j k1 a1 b Hjk Ha Hb. apply list_lookup_insert_Some in Ha, Hb.
    destruct Ha as [(-> & <- & _)|[Hne1 Ha]], Hb as [(-> & <- & _)|[Hne2 Hb]]; [done|by apply (Ho' k1)|apply apart_sym; by apply (Ho' j)|].
    by apply (Hap j k1).
Qed.

Lemma run_ok jobs turns x : (forall p D, (p, D) ∈ jobs -> real p /\ good p (Some D)) -> all_ok jobs x -> all_ok jobs (run turns x).
Proof.
  intros Hj. unfold run. revert x. induction turns as [|[i l] turns IH]; intros x Hx; [done|]. cbn. apply IH. by apply turn_ok.
Qed.

Lemma reset_good s p o : safe s -> real p -> after_reset s p o -> good p o.
Proof.
  intros Hs Hp (v & Hv & Ho). pose proof (s_names s Hs v p Hv Hp) as Hn. unfold name_ok in Hn.
  destruct (v !! p) as [i|]; [|by subst]. destruct Hn as (x & Hx & Hsy & _ & Hg). destruct Ho as (y & Hy & Ho).
  rewrite Hx in Hy. injection Hy as <-. rewrite Hsy in Ho. by subst.
Qed.
Lemma now_good s p : safe s -> real p -> good p (holds_now s p).
Proof.
  intros Hs Hp. pose proof (s_names s Hs _ p (s_dir s Hs) Hp) as Hn. unfold name_ok in Hn. unfold holds_now.
  destruct (dir s !! p) as [i|]; [|done]. destruct Hn as (x & -> & _ & _ & Hg). done.
Qed.
End safe.

Lemma lookup_map {A B} (g : A -> B) l i : map g l !! i = match l !! i with Some a => Some (g a) | None => None end.
Proof. revert i. induction l as [|a l IH]; intros [|i]; try done. apply IH. Qed.

(** What a job writes, and with which function *)
Definition job_text (j : bytes * (bytes + list bytes)) : bytes := match snd j with inl d => d | inr ds => concat ds end.
Definition job_run (j : bytes * (bytes + list bytes)) : io Z :=
  match snd j with inl d => statefile_write (fst j) d | inr ds => save (fst j) ds end.

(** C16. Any number of threads write state files at once, of the same name or others, with
    any calls failing, and a reset may come at any moment: under each name is then, and
    after the reset, the whole old content or the whole text of one of its writes. *)
Theorem file_is_whole (jobs : list (bytes * (bytes + list bytes))) (s0 : sys) (turns : list (nat * luck)) :
  length (busy s0) = 100%nat -> flash s0 = [dir s0] ->
  (forall q i, dir s0 !! q = Some i -> (i < fresh_ino s0)%nat /\ exists x, files s0 !! i = Some x /\ synced x = true /\ buf x = []) ->
  (forall a b n, a ∈ jobs -> b ∈ jobs -> (n < 100)%nat -> tmp_name (fst a) n <> fst b) ->
  let s := snd (run turns (map job_run jobs, s0)) in
  forall j, j ∈ jobs -> forall o, o = holds_now s (fst j) \/ after_reset s (fst j) o ->
    o = holds_now s0 (fst j) \/ exists k, k ∈ jobs /\ fst k = fst j /\ o = Some (job_text k).
Proof.
  intros Hb Hfl Hd Ht s j Hj o Ho.
  set (real := fun q => exists k, k ∈ jobs /\ fst k = q).
  set (good := fun q o => o = holds_now s0 q \/ exists k, k ∈ jobs /\ fst k = q /\ o = Some (job_text k)).
  assert (forall p q n, real p -> real q -> (n < 100)%nat -> tmp_name p n <> q) as Hreal.
  { intros p q n (a & Ha & <-) (b & Hb' & <-) Hn. by apply Ht. }
  assert (safe real good s0) as Hs0.
  { split; [done|rewrite Hfl; by left| |].
    - intros v q i Hv E. rewrite Hfl in Hv. apply list_elem_of_singleton in Hv as ->. by apply (Hd q i).
    - intros v q Hv _. rewrite Hfl in Hv. apply list_elem_of_singleton in Hv as ->. unfold name_ok.
      destruct (dir s0 !! q) as [i|] eqn:E; [|left; unfold holds_now; by rewrite E].
      destruct (Hd q i E) as (_ & x & Hx & Hsy & Hbu). exists x. split_and!; [done..|]. left. unfold holds_now. by rewrite E, Hx. }
  assert (all_ok real good (map (fun k => (fst k, job_text k)) jobs) (run turns (map job_run jobs, s0))) as [Hs _].
  { apply run_ok; [done| |].
    - intros p D Hin. apply list_elem_of_fmap in Hin as (k & [= -> ->] & Hk). split; [by exists k|]. right. by exists k.
    - split; [done|]. exists (replicate (length jobs) Idle). cbn [fst snd]. rewrite length_replicate, !length_map. split_and!; [done..| |].
      + intros i p D m o' Hi Hm Ho'. apply lookup_replicate in Ho' as [-> _]. split; [|done].
        rewrite lookup_map in Hi. rewrite (lookup_map job_run) in Hm. destruct (jobs !! i) as [k|]; [|done]. injection Hi as <- <-. injection Hm as <-.
        unfold job_run, job_text. destruct (snd k); [apply statefile_write_follows|apply save_follows].
      + intros i k a b _ Ha _. by apply lookup_replicate in Ha as [-> _]. }
  destruct Ho as [->|Ho]; [apply (now_good real good s (fst j) Hs); by exists j|apply (reset_good real good s (fst j) o Hs); [by exists j|done]].
Qed.

(** ** One write by itself *)
Lemma turn_one l c k s : turn 0 l ([Do c k], s) = ([k (fst (exec c l s))], snd (exec c l s)).
Proof. unfold turn. cbn [fst snd lookup list_lookup]. by destruct (exec c l s). Qed.

Lemma take_slot_S {A} i (k : option nat -> io A) :
  take_slot (S i) k = (q <- FetchAdd;; b <- Exchange (Z.to_nat (q mod 100));; if b =? 0 then k (Some (Z.to_nat (q mod 100))) else take_slot i k)%io.
Proof. done. Qed.

Lemma written_all d a : let x := flush_all (drain a (mk_file [] d false false)) in content x = d /\ buf x = [] /\ ferr x = false.
Proof.
  intros x. destruct (drain_all a (mk_file [] d false false)) as [E1 E2]. destruct (flush_all_spec (drain a (mk_file [] d false false))) as (F1 & F2 & F3).
  subst x. rewrite F1, F2, F3, E1, E2. done.
Qed.

Lemma run_app ts us x : run (ts ++ us) x = run us (run ts x).
Proof. apply fold_left_app. Qed.

(** Opening by itself: five calls, with the temp file new and its name the only new one *)
Lemma open_alone p a (k : option statefile -> io Z) s : (length p < 320)%nat -> busy s = replicate 100 false ->
  exists n s1, run (replicate 5 (0%nat, mk_luck true a)) ([statefile_open p k], s) =
      ([k (Some (mk_statefile (fresh_ino s) p (tmp_name p n) n))], s1) /\
    (n < 100)%nat /\ busy s1 = <[n := true]> (replicate 100 false) /\ dir s1 !! tmp_name p n = Some (fresh_ino s) /\
    files s1 !! fresh_ino s = Some (mk_file [] [] false false).
Proof.
  intros Hp Hb. set (n := Z.to_nat (seq s mod 100)).
  assert (n < 100)%nat as Hn by (pose proof (Z.mod_pos_bound (seq s) 100); lia).
  unfold statefile_open. destruct (Nat.leb_spec 320 (length p)); [lia|]. rewrite (take_slot_S 99).
  change (replicate 5 (0%nat, mk_luck true a)) with (let x := (0%nat, mk_luck true a) in [x; x; x; x; x]). cbv zeta. unfold run. cbn [fold_left fst snd].
  rewrite turn_one. cbn [exec fst snd]. rewrite turn_one. cbn [exec fst snd]. fold n.
  change (busy (s <| seq := u32 (seq s + 1) |>)) with (busy s). rewrite Hb.
  rewrite bool_decide_false by (rewrite lookup_replicate_2 by done; done). cbn [Z.eqb].
  set (s2 := _ <| busy := _ |>).
  assert (dir s2 = dir s /\ fresh_ino s2 = fresh_ino s /\ busy s2 = <[n := true]> (replicate 100 false)) as (D2 & F2 & B2) by done. clearbody s2.
  rewrite turn_one. set (s3 := snd (exec (Unlink _) _ s2)).
  assert (dir s3 !! tmp_name p n = None /\ fresh_ino s3 = fresh_ino s /\ busy s3 = <[n := true]> (replicate 100 false)) as (D3 & F3 & B3).
  { subst s3. cbn [exec fine andb]. destruct (dir s2 !! tmp_name p n) as [i|] eqn:E.
    - rewrite bool_decide_true by done. cbn. by rewrite lookup_delete_eq.
    - rewrite bool_decide_false by (intros []; congruence). done. }
  clearbody s3. rewrite turn_one. cbn [exec fine andb]. rewrite bool_decide_true by done. cbn [fst snd].
  rewrite F3. destruct (Z.ltb_spec (Z.of_nat (fresh_ino s)) 0); [lia|]. rewrite Nat2Z.id.
  rewrite turn_one. cbn [exec fine fst snd answer Z.ltb Z.compare]. exists n. eexists. split_and!; [done|done|exact B3| |].
  - cbn. apply lookup_insert_eq.
  - cbn. apply lookup_insert_eq.
Qed.

(** The commit by itself: seven calls *)
Lemma commit_alone p a n i s x d : (n < 100)%nat -> busy s = <[n := true]> (replicate 100 false) -> dir s !! tmp_name p n = Some i ->
  files s !! i = Some x -> ferr x = false -> content x ++ buf x = d ->
  exists s', run (replicate 7 (0%nat, mk_luck true a)) ([statefile_commit (mk_statefile i p (tmp_name p n) n) Ret], s) = ([Ret 0], s') /\
    busy s' = replicate 100 false /\ holds_now s' p = Some d /\ forall o, after_reset s' p o -> o = Some d.
Proof.
  intros Hn Hb Hd Hx He Hc. unfold statefile_commit. cbn [f tmp slot path].
  change (replicate 7 (0%nat, mk_luck true a)) with (let x := (0%nat, mk_luck true a) in [x; x; x; x; x; x; x]). cbv zeta. unfold run. cbn [fold_left fst snd].
  rewrite turn_one. cbn [exec fst snd]. rewrite Hx, He. cbn [Z.eqb negb].
  rewrite turn_one. cbn [exec fine fst snd Z.eqb negb]. rewrite turn_one. cbn [exec fine fst snd Z.eqb negb].
  rewrite turn_one. cbn [exec fine fst snd Z.eqb negb orb].
  set (s1 := upd_file i flush_all (upd_file i _ _)).
  assert (busy s1 = busy s /\ dir s1 = dir s /\ files s1 !! i = Some (mk_file d [] false true)) as (B1 & D1 & F1).
  { split_and!; [done|done|]. cbn. rewrite !lookup_alter_eq, Hx. cbn. destruct (flush_all_spec x) as (E1 & E2 & E3).
    assert (flush_all x = mk_file d [] false (synced (flush_all x))) as -> by (destruct (flush_all x); cbn in *; congruence). done. }
  clearbody s1. rewrite turn_one. cbn [exec]. rewrite D1, Hd. cbn [fine fst snd Z.eqb negb].
  rewrite turn_one. cbn [exec fst snd]. rewrite turn_one. cbn [exec fine fst snd]. eexists. split; [done|].
  set (dd := <[p := i]> _). split_and!.
  - transitivity (<[n := false]> (busy s1)); [reflexivity|]. rewrite B1, Hb, list_insert_insert_eq. apply list_insert_id. by apply lookup_replicate_2.
  - unfold holds_now. cbn -[dd]. unfold dd. rewrite lookup_insert_eq. cbn. by rewrite F1.
  - intros o (v & Hv & Ho). change (v ∈ map (fun v => filter (fun x => parent (fst x) = parent p) dd ∪ filter (fun x => parent (fst x) <> parent p) v) (dd :: flash s1)) in Hv.
    cbn -[dd] in Ho. apply list_elem_of_fmap in Hv as (v' & -> & _).
    rewrite lookup_union, map_lookup_filter in Ho. unfold dd in Ho. rewrite lookup_insert_eq in Ho. cbn in Ho.
    case_guard; [|done]. cbn in Ho. destruct (filter _ v' !! p); cbn in Ho; destruct Ho as (y & Hy & Ho); rewrite F1 in Hy; by simplify_eq/=.
Qed.

(** With no other writer and every call going well, however much of the text stdio writes out
    early, statefile_write ends with 0 after 13 calls, and from then on a reset finds the
    new text under the name. *)
Theorem write_is_durable (p d : bytes) (a : nat) (s : sys) :
  (length p < 320)%nat -> (0 < length d)%nat -> busy s = replicate 100 false ->
  exists s', run (replicate 13 (0%nat, mk_luck true a)) ([statefile_write p d], s) = ([Ret 0], s') /\
    busy s' = replicate 100 false /\ holds_now s' p = Some d /\ forall o, after_reset s' p o -> o = Some d.
Proof.
  intros Hp Hd Hb. unfold statefile_write.
  destruct (open_alone p a (fun o => match o with None => Ret (-1) | Some s => if (0 <? length d)%nat then
          (w <- Fwrite (f s) d;; if negb (w =? Z.of_nat (length d)) then statefile_abort s (Ret (-1)) else statefile_commit s Ret)%io
        else statefile_commit s Ret end) s Hp Hb) as (n & s1 & Hr & Hn & B1 & D1 & F1).
  change (replicate 13 (0%nat, mk_luck true a)) with (replicate 5 (0%nat, mk_luck true a) ++ [(0%nat, mk_luck true a)] ++ replicate 7 (0%nat, mk_luck true a)).
  rewrite run_app, Hr, run_app. clear Hr. destruct (Nat.ltb_spec 0 (length d)); [|lia]. cbn [f].
  unfold run at 2. cbn [fold_left fst snd]. rewrite turn_one. cbn [exec fine fst snd]. rewrite Z.eqb_refl. cbn [negb].
  apply (commit_alone p a n (fresh_ino s) _ (drain a (mk_file [] d false false)) d); [done|done|done| | |].
  - cbn. by rewrite lookup_alter_eq, F1.
  - apply drain_all.
  - apply drain_all.
Qed.

(** *** Concrete runs *)
Definition demo_old : sys :=
  mk_sys 7 (replicate 100 false) {[str "/s/vol" := 0%nat]} [{[str "/s/vol" := 0%nat]}] {[0%nat := mk_file (str "30") [] false true]} 1.
Definition demo_jobs : list (bytes * (bytes + list bytes)) := [(str "/s/vol", inl (str "45")); (str "/s/vol", inr [str "5"; str "0"])].
(** Both take a number and open their files; the first fails in fsync, the second commits up to the rename. *)
Definition demo_turns : list (nat * luck) :=
  repeat (0%nat, mk_luck true 1) 8 ++ repeat (1%nat, mk_luck true 1) 8 ++ [(0%nat, mk_luck false 0)] ++ repeat (1%nat, mk_luck true 1) 5 ++ repeat (0%nat, mk_luck true 0) 3.

Example demo_file : holds_now (snd (run demo_turns (map job_run demo_jobs, demo_old))) (str "/s/vol") = Some (str "50").
Proof. by vm_compute. Qed.

Lemma file_is_whole_witness :
  let s := snd (run demo_turns (map job_run demo_jobs, demo_old)) in
  (length demo_jobs > 1)%nat /\
  forall j, j ∈ demo_jobs -> forall o, o = holds_now s (fst j) \/ after_reset s (fst j) o ->
    o = holds_now demo_old (fst j) \/ exists k, k ∈ demo_jobs /\ fst k = fst j /\ o = Some (job_text k).
Proof.
  split; [cbn; lia|].
  apply (file_is_whole demo_jobs demo_old demo_turns); [reflexivity|reflexivity| |].
  - intros q i E. cbn [dir demo_old] in E. apply lookup_singleton_Some in E as [_ <-]. split; [cbn; lia|]. by eexists.
  - intros a b n Ha Hb _ E. apply (f_equal length) in E. unfold tmp_name in E. rewrite !length_app in E.
    assert (length (fst a) = 6%nat /\ length (fst b) = 6%nat) as [La Lb] by (unfold demo_jobs in *; set_unfold; naive_solver).
    rewrite La, Lb in E. cbn in E. lia.
Defined.

Lemma write_is_durable_witness :
  exists s', run (replicate 13 (0%nat, mk_luck true 1)) ([statefile_write (str "/s/vol") (str "45")], demo_old) = ([Ret 0], s') /\
    busy s' = replicate 100 false /\ holds_now s' (str "/s/vol") = Some (str "45") /\ forall o, after_reset s' (str "/s/vol") o -> o = Some (str "45").
Proof. apply (write_is_durable (str "/s/vol") (str "45") 1 demo_old); [cbn; lia|cbn; lia|reflexivity]. Defined.
