(* ===== verification/Wyoming.v ===== *)
(** * Wyoming protocol framing (wyoming.c)
    An event is a line of JSON, a block of JSON data and a block of bytes.  The socket is the
    bytes to come and what a read gives after them; a write is a list of writev's answers.
    [LONG_MAX] is the platform's (31 bits on the Echos, 63 where the tests run).  Then that an event
    arrives as it was sent. *)
From S2P Require Import Prelude Cbits.

Definition WY_MAX_JSON : nat := Z.to_nat 8192.
Definition WY_MAX_PAYLOAD : Z := Z.shiftl 1 20.

(** [payload] is what the reader's buffer holds of it. *)
Record wy_event := mk_wy_event { type : bytes; json : bytes; payload : bytes }.

(** What a C string function sees of an array *)
Fixpoint c_string (l : bytes) : bytes :=
  match l with [] => [] | c :: l => if c =? 0 then [] else c :: c_string l end.

(** ** Looking a key up *)

(** strstr, and past what it found *)
Fixpoint after_sub (pat s : bytes) : option bytes :=
  if bool_decide (take (length pat) s = pat) then Some (drop (length pat) s)
  else match s with [] => None | _ :: s => after_sub pat s end.

Fixpoint skip_spaces (s : bytes) : bytes :=
  match s with c :: s' => if c =? 32 then skip_spaces s' else s | [] => [] end.

(** Every turn is past one occurrence more: the length of the text is enough. *)
Fixpoint find_key_loop (fuel : nat) (pat p : bytes) : option bytes :=
  match fuel with
  | O => None
  | S fuel =>
      match after_sub pat p with
      | None => None
      | Some p =>
          let p := skip_spaces p in
          match p with
          | c :: p' => if c =? 58 then Some (skip_spaces p') else find_key_loop fuel pat p
          | [] => find_key_loop fuel pat p
          end
      end
  end.
Definition find_key (js key : bytes) : option bytes :=
  find_key_loop (S (length js)) (take 63 ([34] ++ key ++ [34])) (c_string js).

Fixpoint skip_white (s : bytes) : bytes :=
  match s with c :: s' => if isspace c then skip_white s' else s | [] => [] end.
(** The digits read, their number, and whether there was one *)
Fixpoint number (v : Z) (any : bool) (s : bytes) : Z * bool :=
  match s with
  | c :: s => if (48 <=? c) && (c <=? 57) then number (v * 10 + (c - 48)) true s else (v, any)
  | [] => (v, any)
  end.

Section wyoming.
Variable LONG_MAX : Z.

(** strtol to base 10: held at its bounds; [None]: no digit *)
Definition strtol (s : bytes) : option Z :=
  let s := skip_white s in
  let '(neg, s) := match s with c :: s' => if c =? 45 then (true, s') else if c =? 43 then (false, s') else (false, s) | [] => (false, s) end in
  let '(v, any) := number 0 false s in
  if any then Some (if neg then Z.max (- v) (- LONG_MAX - 1) else Z.min v LONG_MAX) else None.

Definition wy_json_int (js key : bytes) : option Z :=
  match find_key js key with None => None | Some p => strtol p end.

Fixpoint str_loop (room : nat) (p : bytes) : bytes :=
  match room, p with
  | S room, c :: p =>
      if c =? 34 then []
      else match p with
           | d :: p' => if c =? 92 then d :: str_loop room p' else c :: str_loop room p
           | [] => [c]
           end
  | _, _ => []
  end.
Definition wy_json_str (js key : bytes) (outsz : nat) : option bytes :=
  match find_key js key with
  | Some (c :: p) => if c =? 34 then Some (str_loop (outsz - 1) p) else None
  | _ => None
  end.

(** ** Reading *)

(** [read_n]: what read gives after the last byte, 0 or -1, ends it. *)
Definition read_n (eof : Z) (n : nat) (inp : bytes) : Z + bytes * bytes :=
  if (length inp <? n)%nat then inl eof else inr (take n inp, drop n inp).

Fixpoint header_line (eof : Z) (len : nat) (inp : bytes) : Z + bytes * bytes :=
  match inp with
  | [] => inl eof
  | c :: inp =>
      if c =? 10 then inr ([], inp)
      else if (WY_MAX_JSON <=? len + 1)%nat then inl (-1)
      else match header_line eof (S len) inp with inl e => inl e | inr (l, rest) => inr (c :: l, rest) end
  end.

(** [inl 0]: closed, [inl (-1)]: error *)
Definition wy_read (eof : Z) (inp : bytes) : Z + wy_event * bytes :=
  match header_line eof 0 inp with
  | inl e => inl e
  | inr (line, inp) =>
      match wy_json_str line (str "type") 48 with
      | None => inl (-1)
      | Some ty =>
          let data_len := default 0 (wy_json_int line (str "data_length")) in
          let payload_len := default 0 (wy_json_int line (str "payload_length")) in
          if (data_len <? 0) || (payload_len <? 0) || (WY_MAX_PAYLOAD <? payload_len) then inl (-1) else
          match (if data_len =? 0 then inr (line, inp)
                 else if Z.of_nat WY_MAX_JSON <=? Z.of_nat (length line) + 1 + data_len then inl (-1)
                 else match read_n eof (Z.to_nat data_len) inp with
                      | inl e => inl e
                      | inr (d, inp) => inr (line ++ [10] ++ d, inp)
                      end) with
          | inl e => inl e
          | inr (js, inp) =>
              match read_n eof (Z.to_nat payload_len) inp with
              | inl e => inl e
              | inr (pl, inp) => inr (mk_wy_event ty js pl, inp)
              end
          end
      end
  end.

(** ** Writing *)
Definition wy_head (ty : bytes) (data_len payload_len : nat) : bytes :=
  str "{" ++ [34] ++ str "type" ++ [34] ++ str ":" ++ [34] ++ ty ++ [34] ++ str "," ++ [34] ++ str "version" ++ [34] ++ str ":"
    ++ [34] ++ str "1.5.4" ++ [34]
    ++ (if (data_len =? 0)%nat then [] else str "," ++ [34] ++ str "data_length" ++ [34] ++ str ":" ++ dec (Z.of_nat data_len))
    ++ (if (payload_len =? 0)%nat then [] else str "," ++ [34] ++ str "payload_length" ++ [34] ++ str ":" ++ dec (Z.of_nat payload_len))
    ++ str "}" ++ [10].

(** What writev answers: bytes written, EINTR, or another error *)
Inductive written := Wrote (n : nat) | Interrupted | Failed.
#[export] Instance written_eq_dec : EqDecision written.
Proof. solve_decision. Defined.

Fixpoint skip_empty (iov : list bytes) : list bytes :=
  match iov with b :: iov' => if (length b =? 0)%nat then skip_empty iov' else iov | [] => [] end.
Fixpoint consume (w : nat) (iov : list bytes) : list bytes :=
  match iov with
  | [] => []
  | b :: iov' =>
      if (w =? 0)%nat then iov
      else if (length b <=? w)%nat then consume (w - length b) iov'
      else drop w b :: iov'
  end.

(** The bytes that left, and the result; [None]: writev has not answered yet *)
Fixpoint writev_loop (answers : list written) (iov : list bytes) (sent : bytes) : bytes * option Z :=
  match skip_empty iov with
  | [] => (sent, Some 0)
  | iov =>
      match answers with
      | [] => (sent, None)
      | Failed :: _ => (sent, Some (-1))
      | Interrupted :: answers => writev_loop answers iov sent
      | Wrote w :: answers => writev_loop answers (consume w iov) (sent ++ take w (concat iov))
      end
  end.

(** [data] and [pl] empty for NULL; the head fits its array of 256 for every type the program sends. *)
Definition wy_write (answers : list written) (ty data pl : bytes) : bytes * option Z :=
  writev_loop answers [wy_head ty (length data) (length pl); data; pl] [].
End wyoming.

(** ** Wyoming: what one end writes the other reads, whatever the pieces it leaves in *)
(** ** Short writes *)
Lemma concat_skip_empty iov : concat (skip_empty iov) = concat iov.
Proof. induction iov as [|b iov IH]; [done|]. cbn. destruct b; [exact IH|done]. Qed.
Lemma consume_concat w iov : take w (concat iov) ++ concat (consume w iov) = concat iov.
Proof.
  revert w. induction iov as [|b iov IH]; intros w; cbn [concat consume]; [by rewrite take_nil|].
  destruct (Nat.eqb_spec w 0) as [->|Hw]; [done|]. destruct (Nat.leb_spec (length b) w).
  - rewrite take_app_ge, <- app_assoc by lia. f_equal. apply IH.
  - rewrite take_app_le by lia. cbn [concat]. by rewrite app_assoc, take_drop.
Qed.
Lemma skip_empty_nil iov : skip_empty iov = [] -> concat iov = [].
Proof. intros H. by rewrite <- concat_skip_empty, H. Qed.
Lemma skip_empty_pos iov : skip_empty iov <> [] -> (0 < length (concat iov))%nat.
Proof.
  intros H. rewrite <- concat_skip_empty. induction iov as [|b iov IH]; [done|]. cbn in *. destruct b; cbn in *; [by apply IH|lia].
Qed.

(** What has left is always the beginning of the event, all of it when the loop ends well. *)
Lemma writev_sent answers iov sent : exists rest,
  fst (writev_loop answers iov sent) ++ rest = sent ++ concat iov /\
  (snd (writev_loop answers iov sent) = Some 0 -> rest = []).
Proof.
  revert iov sent. induction answers as [|a answers IH]; intros iov sent; cbn [writev_loop].
  - destruct (skip_empty iov) eqn:E; cbn [fst snd].
    + exists []. rewrite (skip_empty_nil iov E). done.
    + exists (concat iov). done.
  - destruct (skip_empty iov) as [|b l] eqn:E; cbn [fst snd]; [exists []; rewrite (skip_empty_nil iov E); done|].
    assert (concat iov = concat (b :: l)) as Hc by by rewrite <- E, concat_skip_empty. rewrite Hc.
    destruct a as [w| |]; [|apply IH|by exists (concat (b :: l))].
    destruct (IH (consume w (b :: l)) (sent ++ take w (concat (b :: l)))) as (rest & Hr & Hd).
    exists rest. split; [|done]. rewrite Hr, <- app_assoc. f_equal. apply consume_concat.
Qed.

(** It ends: every answer that is no interruption writes at least a byte. *)
Lemma writev_ends answers iov sent :
  Forall (fun a => match a with Wrote w => (0 < w)%nat | Interrupted => True | Failed => False end) answers ->
  (length (concat iov) <= length (filter (fun a => a <> Interrupted) answers))%nat ->
  snd (writev_loop answers iov sent) = Some 0.
Proof.
  intros Ha. revert iov sent. induction Ha as [|a answers Ha _ IH]; intros iov sent Hl; cbn [writev_loop].
  - destruct (skip_empty iov) eqn:E; [done|]. pose proof (skip_empty_pos iov) as Hp. rewrite E in Hp. specialize (Hp ltac:(done)). cbn in Hl. lia.
  - destruct (skip_empty iov) as [|b l] eqn:E; [done|].
    assert (concat iov = concat (b :: l)) as Hc by by rewrite <- E, concat_skip_empty. rewrite Hc in Hl.
    pose proof (skip_empty_pos iov) as Hp. rewrite E, Hc in Hp. specialize (Hp ltac:(done)).
    destruct a as [w| |]; [| |done].
    + rewrite filter_cons_True in Hl by done. cbn [length] in Hl. apply IH.
      pose proof (f_equal length (consume_concat w (b :: l))) as Hcc. rewrite length_app, length_take in Hcc. lia.
    + rewrite filter_cons_False in Hl by naive_solver. by apply IH.
Qed.

(** ** Quotes *)
Definition unquoted (b : bytes) : Prop := Forall (fun c => c <> 34) b.
Fixpoint joined (l : list bytes) : bytes :=
  match l with [] => [] | [a] => a | a :: l => a ++ [34] ++ joined l end.

Lemma joined_cons a b l : joined (a :: b :: l) = a ++ [34] ++ joined (b :: l).
Proof. done. Qed.

Lemma after_sub_here pat s : after_sub pat (pat ++ s) = Some s.
Proof. destruct (pat ++ s) eqn:E; cbn [after_sub]; rewrite <- E, take_app_length, drop_app_length, bool_decide_true by done; done. Qed.

Lemma after_sub_skip pat a s : unquoted a -> after_sub (34 :: pat) (a ++ s) = after_sub (34 :: pat) s.
Proof.
  induction 1 as [|c a Hc _ IH]; [done|]. cbn [app after_sub length take].
  rewrite bool_decide_false by congruence. exact IH.
Qed.

Lemma prefix_quote (k b s : bytes) : unquoted k -> unquoted b ->
  take (length (k ++ [34])) (b ++ [34] ++ s) = k ++ [34] -> k = b.
Proof.
  intros Hk Hb. revert b Hb. induction Hk as [|c k Hc _ IH]; intros b Hb E.
  - destruct Hb as [|d b Hd]; [done|]. cbn in E. by injection E.
  - destruct Hb as [|d b Hd Hb]; cbn in E; [injection E; intros; congruence|]. injection E as -> E. f_equal. by apply IH.
Qed.

(** A key looked for in a text taken apart at its quotes *)
Lemma after_sub_joined k a b c l : unquoted k -> unquoted a -> unquoted b ->
  after_sub ([34] ++ k ++ [34]) (joined (a :: b :: c :: l)) =
  if decide (b = k) then Some (joined (c :: l)) else after_sub ([34] ++ k ++ [34]) (joined (b :: c :: l)).
Proof.
  intros Hk Ha Hb. rewrite joined_cons. change ([34] ++ k ++ [34]) with (34 :: (k ++ [34])). rewrite after_sub_skip by done.
  rewrite joined_cons. case_decide as Hd.
  - subst b. change ([34] ++ k ++ [34] ++ joined (c :: l)) with (34 :: k ++ [34] ++ joined (c :: l)).
    replace (34 :: k ++ [34] ++ joined (c :: l)) with ((34 :: k ++ [34]) ++ joined (c :: l)) by (cbn; by rewrite <- app_assoc).
    apply after_sub_here.
  - change ([34] ++ ?x) with (34 :: x). cbn [after_sub length take].
    rewrite bool_decide_false; [done|]. intros [= E]. apply Hd. symmetry. by apply (prefix_quote k b (joined (c :: l))).
Qed.
Lemma after_sub_short k a b : unquoted k -> unquoted a -> unquoted b ->
  after_sub ([34] ++ k ++ [34]) (joined [a; b]) = None /\ after_sub ([34] ++ k ++ [34]) (joined [b]) = None.
Proof.
  intros Hk Ha Hb. change ([34] ++ k ++ [34]) with (34 :: (k ++ [34])).
  assert (after_sub (34 :: (k ++ [34])) b = None) as H1.
  { rewrite <- (app_nil_r b), after_sub_skip by done. done. }
  split; [|exact H1]. rewrite joined_cons, after_sub_skip by done. change ([34] ++ joined [b]) with (34 :: b). cbn [after_sub length take].
  rewrite bool_decide_false; [exact H1|]. intros [= E].
  assert (34 ∈ b) as Hin by (rewrite <- (take_drop (length (k ++ [34])) b), E; set_solver).
  unfold unquoted in Hb. rewrite list.Forall_forall in Hb. by apply (Hb 34).
Qed.

(** ** Looking up in the head *)
Definition value_at (l : list bytes) : option bytes :=
  match skip_spaces (joined l) with c :: p => if c =? 58 then Some (skip_spaces p) else None | [] => None end.

(** What the look-up loop does with a text taken apart *)
Fixpoint find_joined (k : bytes) (l : list bytes) : option bytes :=
  match l with
  | a :: ((b :: ((c :: _) as l2)) as l1) =>
      if decide (b = k) then match value_at l2 with Some v => Some v | None => find_joined k l2 end else find_joined k l1
  | _ => None
  end.

Lemma skip_spaces_joined c l : skip_spaces (joined (c :: l)) = joined (skip_spaces c :: l).
Proof.
  destruct l as [|b l]; [done|]. rewrite !joined_cons. induction c as [|x c IH]; [done|]. cbn [app skip_spaces].
  destruct (x =? 32); [exact IH|done].
Qed.
Lemma skip_spaces_unquoted c : unquoted c -> unquoted (skip_spaces c).
Proof. induction 1 as [|x c Hx Hc IH]; [by constructor|]. cbn. destruct (x =? 32); [done|by constructor]. Qed.

Lemma find_key_joined k l fuel : unquoted k -> Forall unquoted l -> (length l <= fuel)%nat -> (0 < fuel)%nat ->
  find_key_loop fuel ([34] ++ k ++ [34]) (joined l) = find_joined k l.
Proof.
  intros Hk. revert fuel. remember (length l) as n eqn:Hn. assert (length l <= n)%nat as Hln by lia. clear Hn.
  revert l Hln. induction n as [|n IH]; intros l Hln fuel Hl Hf Hpos; (destruct fuel as [|fuel]; [lia|]).
  - destruct l; [|cbn in Hln; lia]. done.
  - destruct l as [|a [|b [|c l]]].
    + done.
    + cbn [find_key_loop]. destruct (after_sub_short k a a Hk) as [_ ->]; [by inversion Hl..|done].
    + cbn [find_key_loop]. inversion Hl as [|? ? Ha Hl1]; subst. inversion Hl1; subst. by destruct (after_sub_short k a b Hk) as [-> _].
    + inversion Hl as [|? ? Ha Hl1]; subst. inversion Hl1 as [|? ? Hb Hl2]; subst. inversion Hl2 as [|? ? Hc Hl3]; subst. cbn [length] in *.
      cbn [find_key_loop]. rewrite after_sub_joined by done. cbn [find_joined]. case_decide as Hd.
      * unfold value_at. rewrite skip_spaces_joined.
        assert (find_key_loop fuel ([34] ++ k ++ [34]) (joined (skip_spaces c :: l)) = find_joined k (c :: l)) as E.
        { rewrite IH; [destruct l as [|? [|? ?]]; reflexivity|cbn; lia|constructor; [by apply skip_spaces_unquoted|done]|lia|lia]. }
        cbv zeta. destruct (joined (skip_spaces c :: l)) as [|x y]; [exact E|]. by destruct (x =? 58).
      * exact (IH (b :: c :: l) ltac:(cbn; lia) (S fuel) Hl1 ltac:(cbn; lia) ltac:(lia)).
Qed.

(** ** Numbers *)
Lemma digits_number fuel x acc v any : 0 <= x < 10 ^ Z.of_nat fuel -> (0 < fuel)%nat ->
  exists k, number v any (digits fuel x acc) = number (v * 10 ^ k + x) true acc /\ 0 <= k.
Proof.
  revert x acc. induction fuel as [|fuel IH]; intros x acc Hx Hf; [lia|]. cbn [digits].
  pose proof (Z.mod_pos_bound x 10). pose proof (Z.div_mod x 10).
  assert (forall w b, number w b ((48 + x mod 10) :: acc) = number (w * 10 + x mod 10) true acc) as Hd.
  { intros w b. cbn [number]. assert ((48 <=? 48 + x mod 10) && (48 + x mod 10 <=? 57) = true) as -> by lia. f_equal. lia. }
  destruct (Z.eqb_spec (x / 10) 0) as [E|E].
  - exists 1. split; [|lia]. rewrite Hd. f_equal. lia.
  - replace (Z.of_nat (S fuel)) with (Z.of_nat fuel + 1) in Hx by lia. rewrite Z.pow_add_r in Hx by lia.
    destruct fuel as [|fuel]; [change (10 ^ Z.of_nat 0) with 1 in Hx; lia|].
    destruct (IH (x / 10) ((48 + x mod 10) :: acc)) as (k & Hk & Hk0); [split; [lia|apply Z.div_lt_upper_bound; lia]|lia|].
    exists (k + 1). split; [|lia]. rewrite Hk, Hd. f_equal. rewrite Z.pow_add_r by lia. lia.
Qed.
Lemma digits_cons fuel x acc : (0 < fuel)%nat -> exists d l, digits fuel x acc = d :: l /\ 48 <= d <= 57.
Proof.
  revert x acc. induction fuel as [|fuel IH]; intros x acc Hf; [lia|]. cbn [digits]. pose proof (Z.mod_pos_bound x 10).
  destruct (_ =? 0); [do 2 eexists; split; [done|lia]|]. destruct fuel; [do 2 eexists; split; [done|lia]|]. apply IH. lia.
Qed.
Lemma digits_app fuel x acc rest : digits fuel x (acc ++ rest) = digits fuel x acc ++ rest.
Proof. revert x acc. induction fuel as [|fuel IH]; intros x acc; [done|]. cbn [digits]. rewrite app_comm_cons. destruct (_ =? 0); [done|apply IH]. Qed.
Lemma digits_plain fuel x acc : Forall (fun c => 48 <= c <= 57) acc -> Forall (fun c => 48 <= c <= 57) (digits fuel x acc).
Proof.
  revert x acc. induction fuel as [|fuel IH]; intros x acc Ha; [done|]. cbn [digits]. pose proof (Z.mod_pos_bound x 10).
  assert (Forall (fun c => 48 <= c <= 57) ((48 + x mod 10) :: acc)) by (constructor; [lia|done]).
  destruct (_ =? 0); [done|by apply IH].
Qed.

Lemma strtol_dec LONG_MAX n c rest : 0 <= n < 10 ^ 20 -> n <= LONG_MAX -> (c < 48 \/ 57 < c) ->
  strtol LONG_MAX (dec n ++ c :: rest) = Some n.
Proof.
  intros Hn Hm Hc. unfold dec. destruct (Z.ltb_spec n 0); [lia|]. rewrite <- (digits_app 20 n [] (c :: rest)). cbn [app].
  destruct (digits_cons 20 n (c :: rest)) as (d & l & E & Hd); [lia|].
  destruct (digits_number 20 n (c :: rest) 0 false) as (k & Hk & _); [exact Hn|lia|].
  unfold strtol. rewrite E in *. cbn [skip_white]. unfold isspace.
  assert ((d =? 32) || ((9 <=? d) && (d <=? 13)) = false) as -> by lia. cbv zeta.
  destruct (Z.eqb_spec d 45); [lia|]. destruct (Z.eqb_spec d 43); [lia|]. rewrite Hk. cbn [number].
  assert ((48 <=? c) && (c <=? 57) = false) as -> by lia. f_equal. lia.
Qed.

(** ** The head an event begins with *)
Definition tail_segs (dl pl : nat) : list bytes :=
  match dl, pl with
  | O, O => [str "}"]
  | S _, O => [str ","; str "data_length"; str ":" ++ dec (Z.of_nat dl) ++ str "}"]
  | O, S _ => [str ","; str "payload_length"; str ":" ++ dec (Z.of_nat pl) ++ str "}"]
  | S _, S _ => [str ","; str "data_length"; str ":" ++ dec (Z.of_nat dl) ++ str ","; str "payload_length"; str ":" ++ dec (Z.of_nat pl) ++ str "}"]
  end.
Definition head_segs (ty : bytes) (dl pl : nat) : list bytes :=
  [str "{"; str "type"; str ":"; ty; str ","; str "version"; str ":"; str "1.5.4"] ++ tail_segs dl pl.
Definition head_line (ty : bytes) (dl pl : nat) : bytes := joined (head_segs ty dl pl).

Lemma wy_head_line ty dl pl : wy_head ty dl pl = head_line ty dl pl ++ [10].
Proof.
  unfold wy_head, head_line, head_segs. destruct dl, pl; cbn [Nat.eqb tail_segs app]; rewrite ?joined_cons; cbn [joined];
    rewrite <- ?app_assoc; reflexivity.
Qed.

(** A type as the protocol has them: no quote, backslash, line feed or NUL, and not too long *)
Definition plain_type (ty : bytes) : Prop := Forall (fun c => c <> 0 /\ c <> 10 /\ c <> 34 /\ c <> 92) ty /\ (length ty <= 47)%nat.
Definition text_char (c : Z) : Prop := c <> 0 /\ c <> 10 /\ c <> 34.

Lemma dec_digits n : 0 <= n -> Forall (fun c => 48 <= c <= 57) (dec n).
Proof. intros Hn. unfold dec. destruct (Z.ltb_spec n 0); [lia|]. by apply digits_plain. Qed.

Lemma head_segs_text ty dl pl : plain_type ty -> Forall (Forall text_char) (head_segs ty dl pl).
Proof.
  intros [Ht _]. assert (Forall text_char ty) as Hty by (eapply list.Forall_impl; [exact Ht|]; unfold text_char; naive_solver).
  assert (forall n, Forall text_char (dec (Z.of_nat n))) as Hd.
  { intros n. eapply list.Forall_impl; [apply dec_digits; lia|]. unfold text_char. intros c Hc. cbn in Hc. lia. }
  assert (forall s, bool_decide (Forall (fun c => (c =? 0) || (c =? 10) || (c =? 34) = false) s) = true -> Forall text_char s) as Hs.
  { intros s H. apply bool_decide_eq_true in H. eapply list.Forall_impl; [exact H|]. unfold text_char. intros c Hc. cbn in Hc. lia. }
  unfold head_segs. destruct dl, pl; cbn [tail_segs app];
    repeat constructor; rewrite ?Forall_app; try (by apply Hs; vm_compute); try done; split_and!; try apply Hd; by apply Hs; vm_compute.
Qed.

Lemma joined_text l : Forall (Forall text_char) l -> Forall (fun c => c <> 0 /\ c <> 10) (joined l).
Proof.
  induction 1 as [|a l Ha Hl IH]; [by constructor|].
  assert (Forall (fun c => c <> 0 /\ c <> 10) a) as Ha' by (eapply list.Forall_impl; [exact Ha|]; unfold text_char; naive_solver).
  destruct l; [done|]. rewrite joined_cons, !Forall_app. split_and!; [done|by repeat constructor|done].
Qed.
Lemma joined_length l : (length l <= S (length (joined l)))%nat.
Proof. induction l as [|a l IH]; [cbn; lia|]. destruct l; [cbn; lia|]. rewrite joined_cons, !length_app. cbn [length] in *. lia. Qed.
Lemma c_string_text l : Forall (fun c => c <> 0 /\ c <> 10) l -> c_string l = l.
Proof. induction 1 as [|c l Hc _ IH]; [done|]. cbn. destruct (Z.eqb_spec c 0); [naive_solver|by rewrite IH]. Qed.

Lemma find_key_head k ty dl pl : plain_type ty -> unquoted k -> (length k <= 61)%nat ->
  find_key (head_line ty dl pl) k = find_joined k (head_segs ty dl pl).
Proof.
  intros Ht Hk Hl. unfold find_key. pose proof (head_segs_text ty dl pl Ht) as Hs.
  rewrite c_string_text by by apply joined_text. rewrite take_ge by (rewrite !length_app; cbn; lia).
  apply find_key_joined; [done| |apply joined_length|lia].
  eapply list.Forall_impl; [exact Hs|]. intros s H. eapply list.Forall_impl; [exact H|]. unfold text_char. naive_solver.
Qed.

Lemma find_joined_cons k a b c l : find_joined k (a :: b :: c :: l) =
  if decide (b = k) then match value_at (c :: l) with Some v => Some v | None => find_joined k (c :: l) end else find_joined k (b :: c :: l).
Proof. done. Qed.
Lemma find_joined_head k a a' l : find_joined k (a :: l) = find_joined k (a' :: l).
Proof. by destruct l as [|? [|? ?]]. Qed.

Ltac other_key := rewrite find_joined_cons, decide_False by (intros Ek; discriminate Ek).
Lemma find_length k ty dl pl : k = str "data_length" \/ k = str "payload_length" ->
  find_joined k (head_segs ty dl pl) = find_joined k (str "1.5.4" :: tail_segs dl pl).
Proof.
  intros Hk. assert (exists t T, tail_segs dl pl = t :: T) as (t & T & HT) by (destruct dl, pl; by do 2 eexists).
  unfold head_segs. rewrite HT. cbn [app].
  assert (find_joined k (str ":" :: ty :: str "," :: str "version" :: str ":" :: str "1.5.4" :: t :: T) =
          find_joined k (str "," :: str "version" :: str ":" :: str "1.5.4" :: t :: T)) as E.
  { rewrite find_joined_cons. case_decide; [|by destruct Hk as [-> | ->]; other_key].
    assert (forall l, value_at (str "," :: str "version" :: l) = None) as -> by done. done. }
  destruct Hk as [-> | ->]; do 2 other_key; rewrite E; by do 3 other_key.
Qed.

Lemma value_number n w l : 0 <= n -> value_at ((str ":" ++ dec n ++ w) :: l) = Some (dec n ++ joined (w :: l)).
Proof.
  intros Hn. unfold value_at. assert (joined ((str ":" ++ dec n ++ w) :: l) = 58 :: dec n ++ joined (w :: l)) as ->.
  { destruct l; [done|]. rewrite !joined_cons. change (str ":") with [58]. cbn [app]. by rewrite <- app_assoc. }
  cbn [skip_spaces Z.eqb Pos.eqb]. f_equal. pose proof (dec_digits n Hn) as Hd. revert Hd. unfold dec. destruct (Z.ltb_spec n 0); [lia|].
  destruct (digits_cons 20 n []) as (d & t & -> & Hd); [lia|]. intros _. cbn [app skip_spaces]. destruct (Z.eqb_spec d 32); [lia|done].
Qed.

Section lengths.
Variable LONG_MAX : Z.
Variables (ty : bytes) (dl pl : nat).
Hypothesis Hty : plain_type ty.

Ltac key_here := rewrite find_joined_cons, decide_True by done.

Lemma data_length_read : Z.of_nat dl <= LONG_MAX -> Z.of_nat dl < 10 ^ 20 ->
  default 0 (wy_json_int LONG_MAX (head_line ty dl pl) (str "data_length")) = Z.of_nat dl.
Proof.
  intros H1 H2. unfold wy_json_int. rewrite find_key_head by (done || (by repeat constructor) || (cbn; lia)).
  rewrite (find_length _ ty) by auto. destruct dl as [|n] eqn:E1, pl as [|m] eqn:E2; cbn [tail_segs].
  - done.
  - by do 2 other_key.
  - rewrite <- E1 in *. other_key. key_here. rewrite value_number by lia. change (joined [str "}"]) with [125]. by rewrite strtol_dec by (lia || (cbn; lia)).
  - rewrite <- E1, <- E2 in *. other_key. key_here. rewrite value_number by lia. rewrite joined_cons. change (str "," ++ ?x) with (44 :: x). by rewrite strtol_dec by (lia || (cbn; lia)).
Qed.

Lemma payload_length_read : Z.of_nat pl <= LONG_MAX -> Z.of_nat pl < 10 ^ 20 ->
  default 0 (wy_json_int LONG_MAX (head_line ty dl pl) (str "payload_length")) = Z.of_nat pl.
Proof.
  intros H1 H2. unfold wy_json_int. rewrite find_key_head by (done || (by repeat constructor) || (cbn; lia)).
  rewrite (find_length _ ty) by auto. destruct dl as [|n] eqn:E1, pl as [|m] eqn:E2; cbn [tail_segs].
  - done.
  - rewrite <- E2 in *. other_key. key_here. rewrite value_number by lia. change (joined [str "}"]) with [125]. by rewrite strtol_dec by (lia || (cbn; lia)).
  - by do 2 other_key.
  - rewrite <- E1, <- E2 in *. do 3 other_key. key_here. rewrite value_number by lia. change (joined [str "}"]) with [125]. by rewrite strtol_dec by (lia || (cbn; lia)).
Qed.

Lemma str_loop_plain room rest : (length ty <= room)%nat -> str_loop room (ty ++ 34 :: rest) = ty.
Proof.
  destruct Hty as [Ht _]. revert room. induction Ht as [|c t (_ & _ & H34 & H92) Hrest IH]; intros room Hr.
  - by destruct room.
  - destruct room as [|room]; [cbn in Hr; lia|]. cbn [app str_loop]. destruct (Z.eqb_spec c 34); [done|].
    destruct (t ++ 34 :: rest) as [|d u] eqn:E; [by destruct t|]. destruct (Z.eqb_spec c 92); [done|]. f_equal. apply IH.
    + split; [done|]. destruct Hty as [_ Hl]. cbn in *. lia.
    + cbn in Hr. lia.
Qed.

Lemma type_read : wy_json_str (head_line ty dl pl) (str "type") 48 = Some ty.
Proof.
  unfold wy_json_str. rewrite find_key_head by (done || (by repeat constructor) || (cbn; lia)).
  unfold head_segs. cbn [app]. key_here.
  assert (exists t, value_at (str ":" :: ty :: str "," :: str "version" :: str ":" :: str "1.5.4" :: tail_segs dl pl) = Some (34 :: ty ++ 34 :: t)) as [t ->].
  { eexists. unfold value_at. rewrite !joined_cons. reflexivity. }
  rewrite Z.eqb_refl. f_equal. apply str_loop_plain. by destruct Hty.
Qed.

(** It fits the writer's array of 256. *)
Lemma wy_head_fits : (length (wy_head ty dl pl) < 256)%nat.
Proof.
  assert (forall fuel x acc, (length (digits fuel x acc) <= fuel + length acc)%nat) as Hd.
  { induction fuel as [|fuel IH]; intros x acc; cbn [digits]; [lia|]. destruct (_ =? 0); [cbn; lia|]. etrans; [apply IH|cbn; lia]. }
  assert (forall n, (length (dec (Z.of_nat n)) <= 20)%nat) as Hn.
  { intros n. unfold dec. destruct (Z.ltb_spec (Z.of_nat n) 0); [lia|]. etrans; [apply Hd|cbn; lia]. }
  pose proof (Hn dl). pose proof (Hn pl). destruct Hty as [_ Hl]. unfold wy_head. rewrite !length_app.
  destruct (dl =? 0)%nat, (pl =? 0)%nat; rewrite ?length_app; cbn [length str]; cbn; lia.
Qed.
End lengths.

Lemma header_line_read eof line rest len : Forall (fun c => c <> 0 /\ c <> 10) line -> (len + length line < Z.to_nat 8192)%nat ->
  header_line eof len (line ++ 10 :: rest) = inr (line, rest).
Proof.
  intros Hl. revert len. induction Hl as [|c line [_ Hc] _ IH]; intros len Hlen; [done|]. cbn [app header_line length] in *.
  destruct (Z.eqb_spec c 10); [done|]. unfold WY_MAX_JSON. destruct (Nat.leb_spec (Z.to_nat 8192) (len + 1)); [lia|]. by rewrite IH by lia.
Qed.

Lemma read_n_app eof a b : read_n eof (length a) (a ++ b) = inr (a, b).
Proof. unfold read_n. rewrite length_app, take_app_length, drop_app_length. destruct (Nat.ltb_spec (length a + length b) (length a)); [lia|done]. Qed.

(** An event arrives as it was sent, however the socket cuts its writes: the writer ends well with
    all of it out, and the reader at the other end takes exactly it from the stream, type,
    JSON and payload, and leaves what follows. *)
Theorem event_arrives (LONG_MAX eof : Z) (answers : list written) (ty data pl rest : bytes) :
  2 ^ 31 - 1 <= LONG_MAX -> plain_type ty -> (256 + length data < Z.to_nat 8192)%nat -> Z.of_nat (length pl) <= 2 ^ 20 ->
  Forall (fun a => match a with Wrote w => (0 < w)%nat | Interrupted => True | Failed => False end) answers ->
  (256 + length data + length pl <= length (filter (fun a => a <> Interrupted) answers))%nat ->
  let '(sent, rc) := wy_write answers ty data pl in
  rc = Some 0 /\
  wy_read LONG_MAX eof (sent ++ rest) =
    inr (mk_wy_event ty (head_line ty (length data) (length pl) ++ (if (length data =? 0)%nat then [] else [10] ++ data)) pl, rest).
Proof.
  intros HL Ht Hd Hp Ha Hn. assert (length (wy_head ty (length data) (length pl)) < 256)%nat as Hh by by apply wy_head_fits.
  assert (snd (wy_write answers ty data pl) = Some 0) as H0.
  { apply writev_ends; [done|]. cbn [concat]. rewrite !length_app. cbn [length]. lia. }
  destruct (writev_sent answers [wy_head ty (length data) (length pl); data; pl] []) as (r & Hr & Hz). fold (wy_write answers ty data pl) in Hr, Hz.
  destruct (wy_write answers ty data pl) as [sent rc]. cbn [fst snd] in *. subst rc. split; [done|]. rewrite (Hz eq_refl), app_nil_r in Hr. subst sent.
  cbn [concat app]. rewrite app_nil_r, wy_head_line in *. rewrite length_app in Hh. cbn [length] in Hh. rewrite <- !app_assoc. cbn [app].
  unfold wy_read. rewrite header_line_read by ((by apply joined_text, head_segs_text) || lia).
  rewrite type_read, data_length_read, payload_length_read by (done || lia).
  destruct (Z.ltb_spec (Z.of_nat (length data)) 0); [lia|]. destruct (Z.ltb_spec (Z.of_nat (length pl)) 0); [lia|].
  unfold WY_MAX_PAYLOAD. change (Z.shiftl 1 20) with (2 ^ 20). destruct (Z.ltb_spec (2 ^ 20) (Z.of_nat (length pl))); [lia|]. cbn [orb].
  rewrite Nat2Z.id. destruct data as [|x data].
  - cbn [length app]. change (Z.of_nat 0 =? 0) with true. cbv iota. rewrite Nat2Z.id, app_nil_r.
    by rewrite read_n_app.
  - destruct (Z.eqb_spec (Z.of_nat (length (x :: data))) 0); [cbn in *; lia|]. unfold WY_MAX_JSON.
    match goal with |- context [?a <=? ?b] => destruct (Z.leb_spec a b); [lia|] end.
    rewrite read_n_app. by rewrite Nat2Z.id, read_n_app.
Qed.

Lemma event_arrives_witness :
  let data := str "{" ++ [34] ++ str "rate" ++ [34] ++ str ":16000}" in
  let '(sent, rc) := wy_write (Interrupted :: repeat (Wrote 100) 300) (str "audio-start") data [1; 2; 3] in
  rc = Some 0 /\
  wy_read (2 ^ 31 - 1) 0 (sent ++ [7]) =
    inr (mk_wy_event (str "audio-start") (head_line (str "audio-start") (length data) 3 ++ [10] ++ data) [1; 2; 3], [7]).
Proof.
  apply (event_arrives (2 ^ 31 - 1) 0 (Interrupted :: repeat (Wrote 100) 300) (str "audio-start")
    (str "{" ++ [34] ++ str "rate" ++ [34] ++ str ":16000}") [1; 2; 3] [7]).
  - lia.
  - split; [|cbn; lia]. by repeat constructor.
  - cbn [length app str]. vm_compute. lia.
  - cbn. lia.
  - constructor; [done|]. apply Forall_forall. intros a Ha. apply repeat_spec in Ha as ->. lia.
  - vm_compute. lia.
Defined.
