(* ===== verification/Timers.v ===== *)
(** * Timers of the satellite (main.c)
    The table of timers that run, as Home Assistant tells of them, and the ones that ring: one
    ring for all.  A step is a call with core_lock held, or what the earcon thread does; the
    light ring, the wake word engine's hint and the news to Home Assistant are events.
    Then what holds in every run. *)
From S2P Require Import Prelude Cbits.

Definition RINGING_MAX : nat := 4.
Definition RUNNING_MAX : nat := 8.
Definition TIMER_STALE_MS : Z := 10000.
Definition LLONG_MAX : Z := 2 ^ 63 - 1.
Definition TIMER_SOUND_TIMER : Z := 0.
Definition TIMER_SOUND_BEEP : Z := 2.
Definition TIMER_SOUND_CUSTOM : Z := 3.

Inductive ev := Led (on : bool) | PlaybackHint | TimersChanged.

Record ring := mk_ring { g_id : bytes; g_name : bytes }.
Record running := mk_running { id : bytes; name : bytes; total : Z; active : bool; end_ : Z; left : Z }.

#[export] Instance running_inhabited : Inhabited running := populate (mk_running [] [] 0 false 0 0).

Record timers := mk_timers {
  ringing : list ring; timer_ring_s : Z; timer_stop_any : bool; alarm_until : Z;
  runs : list running; timers_stale_at : Z; alarm_on : bool; timer_sound : Z;
  out : list ev }.
Definition timers0 : timers := mk_timers [] 60 false 0 [] LLONG_MAX false TIMER_SOUND_BEEP [].

(** [connected]: with a protocol that has timers_changed *)
Definition emit (e : ev) (s : timers) : timers := s <| out := out s ++ [e] |>.
Definition changed (connected : bool) (s : timers) : timers := if connected then emit TimersChanged s else s.

(** snprintf into an array of [n] *)
Definition fit (n : nat) (s : bytes) : bytes := take (n - 1) s.

Definition drop_at {A} (i : nat) (l : list A) : list A := take i l ++ drop (S i) l.
Definition running_drop (i : nat) (s : timers) : timers := s <| runs := drop_at i (runs s) |>.
Definition running_find (i : bytes) (s : timers) : option nat := find_index (fun r => bool_decide (id r = i)) (runs s).

Definition overdue (r : running) : Z := end_ r + TIMER_STALE_MS.
Definition stale_of (l : list running) : Z :=
  fold_left (fun at_ r => if active r && (overdue r <? at_) then overdue r else at_) l LLONG_MAX.
Definition running_stale_at (s : timers) : timers := s <| timers_stale_at := stale_of (runs s) |>.

(** The oldest paused one goes first, else the oldest *)
Definition victim (l : list running) : nat := default 0%nat (find_index (fun r => negb (active r)) l).

(** The slot of a timer, a new one when it is not in the table *)
Definition running_slot (i : bytes) (s : timers) : nat * timers :=
  match running_find i s with
  | Some k => (k, s)
  | None =>
      let s := if (length (runs s) =? RUNNING_MAX)%nat then running_drop (victim (runs s)) s else s in
      (length (runs s), s <| runs := runs s ++ [mk_running (fit 40 i) [] 0 false 0 0] |>)
  end.
Definition core_timer_running (now : Z) (connected : bool) (i n : bytes) (tot lft : Z) (act : bool) (s : timers) : timers :=
  let '(k, s) := running_slot i s in
  let s := s <| runs := alter (fun r => mk_running (id r) (fit 64 n) tot act (now + lft * 1000) (lft * 1000)) k (runs s) |> in
  changed connected (running_stale_at s).

(** The one that ends first: its name, length and what is left of it *)
Fixpoint best_of (i : nat) (best : option (nat * running)) (l : list running) : option (nat * running) :=
  match l with
  | [] => best
  | r :: l =>
      best_of (S i) (if active r && match best with None => true | Some (_, b) => end_ r <? end_ b end then Some (i, r) else best) l
  end.
Definition core_timer_next (now : Z) (s : timers) : option (bytes * Z * Z) :=
  match best_of 0 None (runs s) with
  | None => None
  | Some (_, b) => Some (name b, total b, if now <? end_ b then end_ b - now else 0)
  end.

(** The ones overdue are dropped one by one. *)
Fixpoint prune (now : Z) (l : list running) : list running * bool :=
  match l with
  | [] => ([], false)
  | r :: l =>
      let '(l, gone) := prune now l in
      if active r && (overdue r <=? now) then (l, true) else (r :: l, gone)
  end.
Definition timers_prune (now : Z) (connected : bool) (s : timers) : timers :=
  let '(l, gone) := prune now (runs s) in
  changed (gone && connected) (running_stale_at (s <| runs := l |>)).

Definition alarm_set (on : bool) (s : timers) : timers :=
  if Bool.eqb (alarm_on s) on then s
  else emit PlaybackHint (emit (Led on) (s <| alarm_on := on |>)).

(** The name it rings under: its length when it has none *)
Definition ring_name (n : bytes) (tot : Z) : bytes :=
  let h := tot / 3600 in let m := tot mod 3600 / 60 in
  fit 64 (if (0 <? length n)%nat then n
          else if negb (tot mod 60 =? 0) || (tot =? 0) then dec tot ++ str " s"
          else if negb (h =? 0) && negb (m =? 0) then dec h ++ str " h " ++ dec m ++ str " min"
          else if negb (h =? 0) then dec h ++ str " h"
          else dec m ++ str " min").

Definition core_timer_finished (now : Z) (connected : bool) (i n : bytes) (tot : Z) (s : timers) : timers :=
  let s := match running_find i s with Some k => running_stale_at (running_drop k s) | None => s end in
  let g := mk_ring (fit 40 i) (ring_name n tot) in
  let l := match find_index (fun r => bool_decide (g_id r = i)) (ringing s) with
           | Some k => <[k := g]> (ringing s)
           | None => (if (length (ringing s) =? RINGING_MAX)%nat then drop 1 (ringing s) else ringing s) ++ [g]
           end in
  let s := s <| ringing := l |>
             <| alarm_until := if timer_ring_s s =? 0 then LLONG_MAX else now + timer_ring_s s * 1000 |> in
  changed connected (alarm_set true s).

Definition core_timer_cancelled (connected : bool) (i : bytes) (s : timers) : timers :=
  let s := match running_find i s with
           | Some k => changed connected (running_stale_at (running_drop k s))
           | None => s
           end in
  match find_index (fun r => bool_decide (g_id r = i)) (ringing s) with
  | Some k =>
      let s := s <| ringing := drop_at k (ringing s) |> in
      changed connected (if (length (ringing s) =? 0)%nat then alarm_set false s else s)
  | None => s
  end.

Definition core_alarm_stop (connected : bool) (s : timers) : timers :=
  if negb (alarm_on s) then s
  else changed connected (alarm_set false (s <| ringing := [] |>)).

(** The earcon thread: timers Home Assistant forgot, and a ring whose time is up *)
Definition earcon_prune (now : Z) (connected : bool) (s : timers) : timers :=
  if timers_stale_at s <? now then timers_prune now connected s else s.
Definition earcon_ring (now : Z) (connected : bool) (s : timers) : timers :=
  if alarm_on s && (alarm_until s <? now) then core_alarm_stop connected s else s.

(** Names, in the order they finished, cut off by the array *)
Fixpoint names_loop (cap : nat) (first : bool) (text : bytes) (n : nat) (l : list ring) : bytes :=
  match l with
  | [] => text
  | r :: l =>
      if (n <? cap)%nat then
        let piece := (if first then [] else str ", ") ++ g_name r in
        names_loop cap false (text ++ take (cap - n - 1) piece) (n + length piece) l
      else text
  end.
Definition core_timers_ringing (cap : nat) (s : timers) : bytes * nat :=
  (names_loop cap true [] 0 (ringing s), length (ringing s)).

(** Settings; a negative value only reads *)
Definition core_timer_ring (v : Z) (s : timers) : timers := if 0 <=? v then s <| timer_ring_s := v |> else s.
Definition core_timer_stop_any (v : Z) (s : timers) : timers := if 0 <=? v then s <| timer_stop_any := negb (v =? 0) |> else s.
(** [present]: which of the sounds the Echo has *)
Definition core_timer_sound (present : Z -> bool) (v : Z) (s : timers) : timers :=
  if (0 <=? v) && (v <=? TIMER_SOUND_CUSTOM) && ((v =? TIMER_SOUND_BEEP) || present v) then s <| timer_sound := v |> else s.
Definition core_timer_sound_default (present : Z -> bool) (s : timers) : timers :=
  let s := core_timer_sound present TIMER_SOUND_TIMER s in
  if timer_sound s =? TIMER_SOUND_TIMER then s else core_timer_sound present TIMER_SOUND_BEEP s.

(** ** Runs *)
Inductive op :=
  | Running (i n : bytes) (tot lft : Z) (act : bool)
  | Finished (i n : bytes) (tot : Z)
  | Cancelled (i : bytes)
  | Stopped | Pruned | RungOut
  | SetRing (v : Z) | SetStopAny (v : Z) | SetSound (present : Z -> bool) (v : Z).

Definition step (now : Z) (connected : bool) (o : op) (s : timers) : timers :=
  match o with
  | Running i n tot lft act => core_timer_running now connected i n tot lft act s
  | Finished i n tot => core_timer_finished now connected i n tot s
  | Cancelled i => core_timer_cancelled connected i s
  | Stopped => core_alarm_stop connected s
  | Pruned => earcon_prune now connected s
  | RungOut => earcon_ring now connected s
  | SetRing v => core_timer_ring v s
  | SetStopAny v => core_timer_stop_any v s
  | SetSound present v => core_timer_sound present v s
  end.
Definition runs_of (l : list (Z * bool * op)) (s : timers) : timers :=
  fold_left (fun s x => step (fst (fst x)) (snd (fst x)) (snd x) s) l s.

(** ** Timers: what holds in every run *)
(** What the light ring was last told *)
Definition lit (l : list ev) : bool := fold_left (fun b e => match e with Led on => on | _ => b end) l false.

Record ok (s : timers) : Prop := {
  o_runs : (length (runs s) <= RUNNING_MAX)%nat;
  o_ringing : (length (ringing s) <= RINGING_MAX)%nat;
  o_ids : NoDup (map id (runs s));
  o_gids : NoDup (map g_id (ringing s));
  o_stale : timers_stale_at s = stale_of (runs s);
  o_alarm : alarm_on s = negb (length (ringing s) =? 0)%nat;
  o_lit : lit (out s) = alarm_on s }.

Lemma lit_snoc l e : lit (l ++ [e]) = match e with Led on => on | _ => lit l end.
Proof. unfold lit. by rewrite fold_left_app. Qed.

Lemma drop_at_sublist {A} i (l : list A) : sublist (drop_at i l) l.
Proof.
  unfold drop_at. rewrite <- (take_drop i l) at 3. apply sublist_app; [done|].
  rewrite <- (take_drop 1 (drop i l)), drop_drop. replace (i + 1)%nat with (S i) by lia. by apply sublist_inserts_l.
Qed.
Lemma sublist_map {A B} (f : A -> B) k l : sublist k l -> sublist (map f k) (map f l).
Proof. intros H. exact (fmap_sublist f _ _ H). Qed.
Lemma NoDup_drop_at {A B} (f : A -> B) i l : NoDup (map f l) -> NoDup (map f (drop_at i l)).
Proof. intros H. eapply sublist_NoDup; [exact H|]. apply sublist_map, drop_at_sublist. Qed.
Lemma length_drop_at {A} i (l : list A) : (i < length l)%nat -> length (drop_at i l) = (length l - 1)%nat.
Proof. intros H. unfold drop_at. rewrite length_app, length_take, length_drop. lia. Qed.

Lemma fit_id n s : (length s < n)%nat -> fit n s = s.
Proof. intros H. unfold fit. apply take_ge. lia. Qed.

(** Parts that touch neither table nor light *)
Lemma ok_changed c s : ok s -> ok (changed c s).
Proof. intros []. unfold changed. destruct c; [|done]. split; try done. change (lit (out s ++ [TimersChanged]) = alarm_on s). by rewrite lit_snoc. Qed.

(** The table of running timers changes, and the time the first is overdue with it. *)
Lemma ok_runs s l : ok s -> (length l <= RUNNING_MAX)%nat -> NoDup (map id l) -> ok (running_stale_at (s <| runs := l |>)).
Proof. intros [] H1 H2. by split. Qed.

Lemma alarm_set_spec on s : alarm_on (alarm_set on s) = on /\ ringing (alarm_set on s) = ringing s /\ runs (alarm_set on s) = runs s /\
  timers_stale_at (alarm_set on s) = timers_stale_at s /\ alarm_until (alarm_set on s) = alarm_until s /\
  (lit (out s) = alarm_on s -> lit (out (alarm_set on s)) = on).
Proof.
  unfold alarm_set. destruct (Bool.eqb (alarm_on s) on) eqn:E; [apply Bool.eqb_prop in E; by rewrite E|].
  split_and!; try done. intros _. change (lit ((out s ++ [Led on]) ++ [PlaybackHint]) = on). by rewrite !lit_snoc.
Qed.

(** The table of ringing ones changes, and the alarm and its light with it. *)
Lemma ok_ringing s l until : ok s -> (length l <= RINGING_MAX)%nat -> NoDup (map g_id l) ->
  ok (alarm_set (negb (length l =? 0)%nat) (s <| ringing := l |> <| alarm_until := until |>)).
Proof.
  intros [H1 H2 H3 H4 H5 H6 H7] Hl Hn.
  destruct (alarm_set_spec (negb (length l =? 0)%nat) (s <| ringing := l |> <| alarm_until := until |>)) as (E1 & E2 & E3 & E4 & _ & E5).
  split; rewrite ?E1, ?E2, ?E3, ?E4; try done. by apply E5.
Qed.

Lemma find_none {A} (f : A -> bytes) i l : find_index (fun r => bool_decide (f r = i)) l = None -> i ∉ map f l.
Proof.
  intros H Hin. apply list_elem_of_fmap in Hin as (r & -> & Hr). rewrite find_index_None in H. specialize (H r Hr). cbn in H.
  by rewrite bool_decide_true in H.
Qed.

Lemma victim_lt l : (0 < length l)%nat -> (victim l < length l)%nat.
Proof. intros H. unfold victim. destruct (find_index _ l) eqn:E; cbn; [by eapply find_index_lt|done]. Qed.

Lemma map_id_alter (g : running -> running) k l : (forall r, id (g r) = id r) -> map id (alter g k l) = map id l.
Proof. intros Hg. revert k. induction l as [|r l IH]; intros [|k]; cbn; [done..| |]; [by rewrite Hg|f_equal; apply IH]. Qed.

Lemma ok_running now c i n tot lft act s : (length i < 40)%nat -> ok s -> ok (core_timer_running now c i n tot lft act s).
Proof.
  intros Hi Hok. unfold core_timer_running.
  assert (exists k l, running_slot i s = (k, s <| runs := l |>) /\ (length l <= RUNNING_MAX)%nat /\ NoDup (map id l)) as (k & l & -> & Hl & Hn).
  { destruct Hok as [H1 _ H3 _ _ _ _]. unfold running_slot, running_find. destruct (find_index _ (runs s)) as [k|] eqn:E.
    - exists k, (runs s). split_and!; try done. by destruct s.
    - pose proof (find_none id i (runs s) E) as Hni. cbv zeta. rewrite fit_id by done.
      assert (exists l, (if (length (runs s) =? RUNNING_MAX)%nat then running_drop (victim (runs s)) s else s) = s <| runs := l |> /\
        (length l < RUNNING_MAX)%nat /\ NoDup (map id l) /\ i ∉ map id l) as (l & -> & Hl & Hn & Hni').
      { destruct (Nat.eqb_spec (length (runs s)) RUNNING_MAX) as [Hm|Hm].
        - exists (drop_at (victim (runs s)) (runs s)). split; [done|]. unfold RUNNING_MAX in *.
          rewrite length_drop_at by (apply victim_lt; lia). split_and!; [lia|by apply NoDup_drop_at|].
          intros Hin. apply Hni. eapply elem_of_sublist; [exact Hin|]. apply sublist_map, drop_at_sublist.
        - exists (runs s). split_and!; [by destruct s|lia|done|done]. }
      exists (length l), (l ++ [mk_running i [] 0 false 0 0]). split_and!; [done| |].
      + rewrite length_app. cbn. unfold RUNNING_MAX in *. lia.
      + rewrite map_app. apply list.NoDup_app. split_and!; [done| |apply NoDup_singleton]. intros x Hx Hs. apply list_elem_of_singleton in Hs as ->. done. }
  apply ok_changed. match goal with |- ok (running_stale_at ?y) => change y with (s <| runs := alter (fun r => mk_running (id r) (fit 64 n) tot act (now + lft * 1000) (lft * 1000)) k l |>) end.
  apply ok_runs; [done|by rewrite length_alter|by rewrite map_id_alter].
Qed.

Lemma ok_dropped k s : ok s -> ok (running_stale_at (running_drop k s)).
Proof.
  intros Hok. pose proof Hok as [H1 _ H3 _ _ _ _]. apply ok_runs; [done| |by apply NoDup_drop_at].
  pose proof (sublist_length _ _ (drop_at_sublist k (runs s))). lia.
Qed.

Lemma prune_sublist now l : sublist (fst (prune now l)) l.
Proof.
  induction l as [|r l IH]; [done|]. cbn [prune]. destruct (prune now l) as [l' gone]. cbn [fst] in IH.
  destruct (active r && (overdue r <=? now)); cbn [fst]; [by apply sublist_cons|by apply sublist_skip].
Qed.

Lemma ok_finished now c i n tot s : (length i < 40)%nat -> ok s -> ok (core_timer_finished now c i n tot s).
Proof.
  intros Hi Hok. unfold core_timer_finished. set (s1 := match running_find i s with Some k => _ | None => s end).
  assert (ok s1) as Hok1 by (subst s1; destruct (running_find i s); [by apply ok_dropped|done]). clearbody s1. clear Hok s.
  apply ok_changed. rewrite fit_id by done. pose proof Hok1 as [_ H2 _ H4 _ _ _]. set (g := mk_ring i (ring_name n tot)).
  match goal with |- ok (alarm_set true (s1 <| ringing := ?y |> <| alarm_until := _ |>)) => set (l := y) end.
  assert ((length l <= RINGING_MAX)%nat /\ NoDup (map g_id l) /\ l <> []) as (Hl & Hn & He).
  { subst l. destruct (find_index _ (ringing s1)) as [k|] eqn:E.
    - destruct (find_index_Some _ _ _ E) as (r & Hr & Hf & _). apply bool_decide_eq_true in Hf.
      rewrite length_insert. split_and!; [done| |].
      + replace (map g_id (<[k := g]> (ringing s1))) with (map g_id (ringing s1)); [done|].
        symmetry. change (g_id <$> <[k := g]> (ringing s1) = g_id <$> ringing s1). rewrite list_fmap_insert. cbn. rewrite <- Hf.
        apply list_insert_id. by rewrite list_lookup_fmap, Hr.
      + intros E0. apply (f_equal length) in E0. rewrite length_insert in E0. apply lookup_lt_Some in Hr. cbn in E0. lia.
    - pose proof (find_none g_id i (ringing s1) E) as Hni.
      assert (forall r, sublist r (ringing s1) -> (length r < RINGING_MAX)%nat ->
        (length (r ++ [g]) <= RINGING_MAX)%nat /\ NoDup (map g_id (r ++ [g])) /\ r ++ [g] <> []) as Hr.
      { intros r Hs Hr. split_and!; [rewrite length_app; cbn; lia| |by destruct r].
        rewrite map_app. apply list.NoDup_app. split_and!; [|intros x Hx Hs'; apply list_elem_of_singleton in Hs' as ->|apply NoDup_singleton].
        - eapply sublist_NoDup; [exact H4|]. by apply sublist_map.
        - apply Hni. eapply elem_of_sublist; [exact Hx|]. by apply sublist_map. }
      destruct (Nat.eqb_spec (length (ringing s1)) RINGING_MAX) as [Hm|Hm]; apply Hr; try done; try lia; [apply sublist_drop|].
      rewrite length_drop. unfold RINGING_MAX in *. lia. }
  replace true with (negb (length l =? 0)%nat) by (destruct l; done). by apply ok_ringing.
Qed.

Lemma ok_until s u : ok s -> ok (s <| alarm_until := u |>).
Proof. intros []. by split. Qed.

Lemma ok_cancelled c i s : ok s -> ok (core_timer_cancelled c i s).
Proof.
  intros Hok. unfold core_timer_cancelled. set (s1 := match running_find i s with Some k => _ | None => s end).
  assert (ok s1) as Hok1 by (subst s1; destruct (running_find i s); [by apply ok_changed, ok_dropped|done]). clearbody s1. clear Hok s.
  destruct (find_index _ (ringing s1)) as [k|] eqn:E; [|done]. apply ok_changed.
  pose proof (find_index_lt _ _ _ E) as Hk. pose proof Hok1 as [_ H2 _ H4 _ H6 H7].
  set (l := drop_at k (ringing s1)). assert (length l = length (ringing s1) - 1)%nat as Hl by by apply length_drop_at.
  assert (NoDup (map g_id l)) as Hn by by apply NoDup_drop_at.
  change (length (ringing (s1 <| ringing := l |>)) =? 0)%nat with (length l =? 0)%nat.
  pose proof (ok_ringing s1 l (alarm_until s1) Hok1 ltac:(lia) Hn) as Hr.
  assert (s1 <| ringing := l |> <| alarm_until := alarm_until s1 |> = s1 <| ringing := l |>) as Eu by done. rewrite Eu in Hr.
  destruct (Nat.eqb_spec (length l) 0) as [Hz|Hz]; [exact Hr|]. revert Hr. unfold alarm_set. cbn [negb].
  assert (alarm_on s1 = true) as Ha by (rewrite H6; destruct (ringing s1); [cbn in Hk; lia|done]).
  change (alarm_on (s1 <| ringing := l |>)) with (alarm_on s1). by rewrite Ha.
Qed.

Lemma ok_stopped c s : ok s -> ok (core_alarm_stop c s).
Proof.
  intros Hok. unfold core_alarm_stop. destruct (negb (alarm_on s)); [done|]. apply ok_changed.
  pose proof (ok_ringing s [] (alarm_until s) Hok) as Hr. apply Hr; [cbn; lia|by constructor].
Qed.

Lemma ok_pruned now c s : ok s -> ok (timers_prune now c s).
Proof.
  intros Hok. unfold timers_prune. pose proof (prune_sublist now (runs s)) as Hs. destruct (prune now (runs s)) as [l gone]. cbn [fst] in Hs.
  apply ok_changed. pose proof Hok as [H1 _ H3 _ _ _ _]. apply ok_runs; [done| |].
  - apply sublist_length in Hs. lia.
  - eapply sublist_NoDup; [exact H3|]. by apply sublist_map.
Qed.

(** Ids as Home Assistant makes them: shorter than the 40 bytes kept of one *)
Definition short_id (o : op) : Prop :=
  match o with Running i _ _ _ _ | Finished i _ _ | Cancelled i => (length i < 40)%nat | _ => True end.

Lemma ok_step now c o s : short_id o -> ok s -> ok (step now c o s).
Proof.
  intros Hi Hok. destruct o; cbn [step short_id] in *.
  - by apply ok_running.
  - by apply ok_finished.
  - by apply ok_cancelled.
  - by apply ok_stopped.
  - unfold earcon_prune. destruct (_ <? now); [by apply ok_pruned|done].
  - unfold earcon_ring. destruct (_ && _); [by apply ok_stopped|done].
  - unfold core_timer_ring. case_match; [|done]. destruct Hok. by split.
  - unfold core_timer_stop_any. case_match; [|done]. destruct Hok. by split.
  - unfold core_timer_sound. case_match; [|done]. destruct Hok. by split.
Qed.

(** C36. Whatever Home Assistant says of its timers and however they are stopped, cancelled or run
    out: at most eight run and four ring, none twice; the Echo rings, and its light shows
    it, exactly while there is one to ring; and it knows when the first is overdue. *)
Theorem timers_agree (l : list (Z * bool * op)) : Forall (fun x => short_id (snd x)) l ->
  let s := runs_of l timers0 in
  (length (runs s) <= RUNNING_MAX)%nat /\ (length (ringing s) <= RINGING_MAX)%nat /\
  NoDup (map id (runs s)) /\ NoDup (map g_id (ringing s)) /\
  (alarm_on s = true <-> ringing s <> []) /\ lit (out s) = alarm_on s /\
  timers_stale_at s = stale_of (runs s).
Proof.
  intros Hl s. assert (ok s) as [H1 H2 H3 H4 H5 H6 H7].
  { subst s. unfold runs_of. assert (ok timers0) as H0 by (split; try done; try (cbn; lia); constructor).
    revert H0. generalize timers0. induction Hl as [|x l Hx _ IH]; intros s Hs; [done|]. cbn. apply IH. by apply ok_step. }
  split_and!; try done. rewrite H6. destruct (ringing s); cbn; split; done.
Qed.

(** ** The next one *)
Lemma best_of_spec l i best :
  match best_of i best l with
  | Some (_, b) => (b ∈ l /\ active b = true \/ (exists j, best = Some (j, b))) /\
      (forall r, r ∈ l -> active r = true -> end_ b <= end_ r) /\ (forall j r, best = Some (j, r) -> end_ b <= end_ r)
  | None => best = None /\ forall r, r ∈ l -> active r = false
  end.
Proof.
  revert i best. induction l as [|r l IH]; intros i best; cbn [best_of].
  - destruct best as [[j b]|]; [|split; [done|]; intros r Hr; by apply not_elem_of_nil in Hr].
    split_and!; [right; by exists j|intros r Hr; by apply not_elem_of_nil in Hr|intros j' r [= _ ->]; lia].
  - set (c := match best with None => true | Some (_, b) => end_ r <? end_ b end).
    specialize (IH (S i) (if active r && c then Some (i, r) else best)).
    destruct (best_of (S i) _ l) as [[k b]|].
    + destruct IH as (IH1 & IH2 & IH3). destruct (active r && c) eqn:E.
      * apply andb_true_iff in E as [Ea Ec]. specialize (IH3 i r eq_refl). split_and!.
        -- left. destruct IH1 as [[Hb Ha]|[j [= -> ->]]]; [split; [by right|done]|split; [by left|done]].
        -- intros x Hx Hax. apply elem_of_cons in Hx as [->|Hx]; [done|by apply IH2].
        -- intros j x ->. subst c. cbn in Ec. apply Z.ltb_lt in Ec. lia.
      * split_and!.
        -- destruct IH1 as [[Hb Ha]|Hj]; [left; split; [by right|done]|by right].
        -- intros x Hx Hax. apply elem_of_cons in Hx as [->|Hx]; [|by apply IH2]. rewrite Hax in E. cbn [andb] in E.
           subst c. destruct best as [[j y]|]; [|done]. apply Z.ltb_ge in E. specialize (IH3 j y eq_refl). lia.
        -- done.
    + destruct IH as [IH1 IH2]. destruct (active r && c) eqn:E; [done|]. split; [done|]. intros x Hx.
      apply elem_of_cons in Hx as [->|Hx]; [|by apply IH2]. subst best. subst c. by rewrite andb_true_r in E.
Qed.

(** core_timer_next tells of the timer that ends first, with what is left of it; only where
    none runs it has none. *)
Theorem next_ends_first now s :
  match core_timer_next now s with
  | Some (n, t, lft) => exists b, b ∈ runs s /\ active b = true /\ n = name b /\ t = total b /\ lft = Z.max 0 (end_ b - now) /\
      forall r, r ∈ runs s -> active r = true -> end_ b <= end_ r
  | None => forall r, r ∈ runs s -> active r = false
  end.
Proof.
  unfold core_timer_next. pose proof (best_of_spec (runs s) 0 None) as H. destruct (best_of 0 None (runs s)) as [[k b]|]; [|by destruct H].
  destruct H as ([[Hb Ha]|[j Hj]] & H2 & _); [|done]. exists b. split_and!; try done. destruct (Z.ltb_spec now (end_ b)); lia.
Qed.

(** A timer that Home Assistant forgot does not stay: the earcon thread's next look after its
    time, and the ten seconds more, drops it. *)
Theorem forgotten_timer_goes now c s : timers_stale_at s = stale_of (runs s) ->
  forall r, r ∈ runs (earcon_prune now c s) -> active r = true -> now <= overdue r \/ LLONG_MAX < overdue r.
Proof.
  intros Hst r. unfold earcon_prune. destruct (Z.ltb_spec (timers_stale_at s) now) as [Hlt|Hge].
  - unfold timers_prune. assert (forall l, r ∈ fst (prune now l) -> active r = true -> now < overdue r) as Hp.
    { induction l as [|x l IH]; [intros H; by apply not_elem_of_nil in H|]. cbn [prune]. destruct (prune now l) as [l' g]. cbn [fst] in IH.
      destruct (active x && (overdue x <=? now)) eqn:E; cbn [fst]; [exact IH|]. intros Hr Ha. apply elem_of_cons in Hr as [->|Hr]; [|by apply IH].
      rewrite Ha in E. cbn [andb] in E. lia. }
    specialize (Hp (runs s)). destruct (prune now (runs s)) as [l g]. cbn [fst] in Hp. intros Hr Ha. left.
    assert (r ∈ l) as Hr' by (unfold changed in Hr; destruct (g && c); exact Hr). specialize (Hp Hr' Ha). lia.
  - intros Hr Ha. rewrite Hst in Hge. destruct (Z.le_gt_cases (overdue r) LLONG_MAX) as [Hl|]; [left|by right].
    assert (forall l at_, r ∈ l -> fold_left (fun at_ r => if active r && (overdue r <? at_) then overdue r else at_) l at_ <= overdue r) as Hs.
    { assert (forall l at_, fold_left (fun at_ r => if active r && (overdue r <? at_) then overdue r else at_) l at_ <= at_) as Hm.
      { induction l as [|x l IH]; intros a; cbn; [lia|]. etrans; [apply IH|]. case_match; bsimp; lia. }
      induction l as [|x l IH]; intros a Hin; [by apply not_elem_of_nil in Hin|]. cbn. apply elem_of_cons in Hin as [->|Hin]; [|by apply IH].
      etrans; [apply Hm|]. rewrite Ha. cbn [andb]. destruct (Z.ltb_spec (overdue x) a); lia. }
    specialize (Hs (runs s) LLONG_MAX Hr). unfold stale_of in Hge. lia.
Qed.

Lemma timers_agree_witness :
  let l := [(0, true, Running (str "a") (str "tea") 300 300 true); (5, true, Finished (str "a") (str "tea") 300); (9, true, Finished (str "b") [] 5400);
            (70000, false, RungOut)] in
  Forall (fun x => short_id (snd x)) l /\
  let s := runs_of l timers0 in
  (length (runs s) <= RUNNING_MAX)%nat /\ (length (ringing s) <= RINGING_MAX)%nat /\ NoDup (map id (runs s)) /\ NoDup (map g_id (ringing s)) /\
  (alarm_on s = true <-> ringing s <> []) /\ lit (out s) = alarm_on s /\ timers_stale_at s = stale_of (runs s).
Proof.
  intros l. assert (Forall (fun x => short_id (snd x)) l) as Hl by (repeat constructor; cbn; lia). split; [exact Hl|]. exact (timers_agree l Hl).
Defined.
