(* ===== verification/Levels.v ===== *)
(** * Volumes, the equalizer, the light's level (main.c)
    One volume, or music's and four kinds of their own; the volume on a Bluetooth speaker, with
    the Echo's own set aside; the mixer kept in step; the files that outlive a restart.  A step
    is a call with core_lock held; volume_led_thread's work, which lets the lock go, is several.
    The mixer's two volumes are fields, since anything may move them.  [point v] is
    board_vol_at(want_db(v)), the point of the curve even steps set the mixer to (floats); a
    gain is kept as the volumes its power of ten is taken of.  Files are written; a volume read
    from a device is what it is. *)
From S2P Require Import Prelude Cbits Wyoming.

Definition VOL_ASSISTANT : nat := 0.
Definition VOL_SOUNDS : nat := 1.
Definition VOL_TIMERS : nat := 2.
Definition VOL_CALLS : nat := 3.
Definition VOL_KINDS : nat := 4.
Definition VOL_OFFSET_MAX : Z := 100.
Inductive speaker := SPEAKER_NONE | SPEAKER_MIXER | SPEAKER_ABSOLUTE.
#[global] Instance speaker_eq : EqDecision speaker.
Proof. solve_decision. Defined.
(** [linked]: an int in the source, 0 or 1 *)
Record kind := mk_kind { level : Z; linked : bool; offset : Z }.
#[global] Instance kind_inhabited : Inhabited kind := populate (mk_kind 0 false 0).

(** What audio of volume [v] is multiplied by: all of it, none, 10^((vol_db v - vol_db at) / 20),
    or 10^((want_db v - vol_db at) / 20) *)
Inductive gain := Full | Silent | Curve (v at_ : Z) | Even (v at_ : Z).
Inductive vev :=
  | Speaker_volume (v : Z) | Proto_volume (v : Z) | Sendspin_volume (v : Z) | A2dp_volume (v : Z)
  | Led_u (p : bytes) | Led_s (p : bytes) | Volume_sound | Settings_saved | Settings_changed.

(** Where music_volume_write is: it has taken a volume, it has written it *)
Inductive writer := Idle | Taken (v : Z) | Written.
(** [looked], [seen]: what volume_sync saw, and what it then read of the mixer *)
Record vols := mk_vols {
  volume : Z; vol_split : bool; vol_even : bool; kinds : list kind; tts_media : bool;
  tts_written : Z; main_written : Z; speaker_mode : speaker; echo_own_volume : Z;
  music_dirty : bool; dropin_live : bool; vol_pat : bytes; vol_clear_at : Z;
  g_music : gain; g_tts : gain; g_sounds : gain; g_timers : gain; g_call : gain; g_click : gain;
  mx_main : option Z; mx_tts : option Z; music_file : option bytes; own_file : option bytes;
  writing : writer; looked : option (Z * Z); seen : option (Z * Z); out : list vev }.
(** The static initialisers, with the mixer and the files as they are *)
Definition vols0 (main tts : option Z) (music own : option bytes) : vols :=
  mk_vols (-1) false true [mk_kind 40 false 0; mk_kind 40 false 0; mk_kind 40 false 0; mk_kind 40 true 0] false
    (-1) (-1) SPEAKER_NONE 0 false false [] 0 Full Full Full Full Full Full main tts music own Idle None None [].

(** [peek_split], [peek_even]: settings_peek of "separate_volumes" and "even_volume";
    [e_tts], [e_alarm]: tts_on, alarm_on *)
Record venv := mk_venv { peek_split : option bytes; peek_even : option bytes; connected : bool; sendspin : bool;
  assistant_steps : bool; use_volume : bool; e_now : Z; e_tts : bool; e_alarm : bool }.

Definition clamp100 (v : Z) : Z := if v <? 0 then 0 else if 100 <? v then 100 else v.
Definition clamp_offset (v : Z) : Z := if v <? - VOL_OFFSET_MAX then - VOL_OFFSET_MAX else if VOL_OFFSET_MAX <? v then VOL_OFFSET_MAX else v.
Definition emit (x : vev) (s : vols) : vols := s <| out := out s ++ [x] |>.
Definition kind_of (k : nat) (s : vols) : kind := kinds s !!! k.
Definition upd_kind (k : nat) (f : kind -> kind) (s : vols) : vols := s <| kinds := alter f k (kinds s) |>.

(** The number at a file's start, as fscanf's %d *)
Definition LONG_MAX : Z := 2 ^ 63 - 1.
Definition saved (f : option bytes) : option Z :=
  match f ≫= strtol LONG_MAX with
  | Some v => let v := i32 v in if (0 <=? v) && (v <=? 100) then Some v else None
  | None => None
  end.
Definition line (v : Z) : bytes := dec v ++ [10].

Section volumes.
Context (point : Z -> Z) (volume_steps : Z).

(** ** What plays how loud *)
Definition stream_owns_volume (s : vols) : bool := negb (vol_split s) && negb (vol_even s).
Definition kind_volume (k : nat) (s : vols) : Z :=
  if linked (kind_of k s) then clamp100 (volume s + offset (kind_of k s)) else level (kind_of k s).
Definition loudest (s : vols) : Z :=
  if vol_split s then
    fold_left (fun v k => if (negb (k =? VOL_CALLS)%nat || dropin_live s) && (v <? kind_volume k s) then kind_volume k s else v)
      (seq 0 VOL_KINDS) (volume s)
  else volume s.
Definition absolute (s : vols) : bool := bool_decide (speaker_mode s = SPEAKER_ABSOLUTE).
Definition own_speaker (s : vols) : bool := bool_decide (speaker_mode s = SPEAKER_NONE).
Definition mix_target (s : vols) : Z :=
  if absolute s then 100 else if vol_even s then point (loudest s) else loudest s.
Definition kind_now (k : nat) (s : vols) : Z := if vol_split s then kind_volume k s else volume s.
Definition mix_gain (v : Z) (s : vols) : gain :=
  if stream_owns_volume s then Full
  else if v <=? 0 then Silent
  else if vol_even s && negb (absolute s) then Even v (mix_target s)
  else Curve v (loudest s).
(** mix_apply, once the volume is known *)
Definition mix_now (s : vols) : vols :=
  let v := mix_target s in
  let s := if v =? main_written s then s else s <| mx_main := Some v |> <| main_written := v |> in
  let s := if v =? tts_written s then s else s <| mx_tts := Some v |> <| tts_written := v |> in
  emit (Speaker_volume (loudest s)) s
    <| g_music := mix_gain (volume s) s |> <| g_tts := mix_gain (if tts_media s then volume s else kind_now VOL_ASSISTANT s) s |>
    <| g_sounds := mix_gain (kind_now VOL_SOUNDS s) s |> <| g_timers := mix_gain (kind_now VOL_TIMERS s) s |>
    <| g_call := mix_gain (kind_now VOL_CALLS s) s |>.

(** ** The volume, read on first use *)
Definition read_volume (s : vols) : Z := default 40 (mx_main s).
Definition is_str (x : option bytes) (t : bytes) : bool := bool_decide (x = Some t).
Definition configured_split (e : venv) : bool :=
  is_str (peek_split e) (str "on") || bool_decide (peek_even e = None) || negb (is_str (peek_even e) (str "off")).
Definition first_use (e : venv) (s : vols) : vols :=
  let split := configured_split e in
  let s := if split then s else s <| music_file := None |> in
  let s := match saved (own_file s) with
           | Some v => s <| volume := v |>
           | None => match saved (music_file s) with
                     | Some v => s <| volume := v |>
                     | None => let v := read_volume s in if split then s <| volume := v |> <| music_file := Some (line v) |> else s <| volume := v |>
                     end
           end in
  mix_now (s <| own_file := None |>).
(** core_volume's first use; [volume] thereafter *)
Definition core_volume (e : venv) (s : vols) : vols := if volume s <? 0 then first_use e s else s.
Definition mix_apply (e : venv) (s : vols) : vols := mix_now (core_volume e s).
Definition tts_kind (e : venv) (media : bool) (s : vols) : vols := mix_apply e (s <| tts_media := media |>).
(** core_dropin, of the volumes: a call is on, or no longer *)
Definition call_live (e : venv) (on : bool) (s : vols) : vols := mix_apply e (s <| dropin_live := on |>).

(** ** The music volume's file *)
Definition music_volume_keep (s : vols) : vols :=
  let s := s <| music_dirty := negb (stream_owns_volume s) |> in
  if stream_owns_volume s then s <| music_file := None |> else s.
(** music_volume_write: what it takes with the lock held, the write without, the look afterwards *)
Definition own_volume (s : vols) : Z := if own_speaker s then volume s else echo_own_volume s.
Definition write_take (s : vols) : vols :=
  match writing s with
  | Idle => s <| writing := if music_dirty s then Taken (own_volume s) else Idle |> <| music_dirty := false |>
  | _ => s
  end.
Definition write_file (s : vols) : vols :=
  match writing s with Taken v => s <| music_file := Some (line v) |> <| writing := Written |> | _ => s end.
Definition write_look (s : vols) : vols :=
  match writing s with
  | Written => (if stream_owns_volume s then s <| music_file := None |> else s) <| writing := Idle |>
  | _ => s
  end.

(** ** The settings *)
Definition core_separate_volumes (e : venv) (set : bool) (s : vols) : vols :=
  if eqb set (vol_split s) then s else
  let s := if set && own_speaker s then core_volume e s else s in
  let s := if set then s <| kinds := map (fun k => mk_kind (own_volume s) (linked k) (offset k)) (kinds s) |> else s in
  let s := s <| vol_split := set |> in
  let s := if negb set || own_speaker s then music_volume_keep s else s in
  mix_apply e s.
Definition core_even_volume (e : venv) (set : bool) (s : vols) : vols :=
  if eqb set (vol_even s) then s else
  let s := s <| vol_even := set |> in
  let s := if stream_owns_volume s || own_speaker s then music_volume_keep s else s in
  mix_apply e s.
Definition core_kind_volume (e : venv) (k : nat) (v : Z) (s : vols) : vols :=
  if v <? 0 then s else mix_apply e (upd_kind k (fun x => mk_kind (clamp100 v) (linked x) (offset x)) s).
Definition core_kind_linked (e : venv) (k : nat) (set : bool) (s : vols) : vols :=
  if eqb set (linked (kind_of k s)) then s else
  let s := if own_speaker s then core_volume e s else s in
  let music := own_volume s in
  mix_apply e (upd_kind k (fun x => if set then mk_kind (level x) true (clamp_offset (level x - music))
                                    else mk_kind (clamp100 (music + offset x)) false (offset x)) s).
Definition core_set_kind_offset (e : venv) (k : nat) (o : Z) (s : vols) : vols :=
  mix_apply e (upd_kind k (fun x => mk_kind (level x) (linked x) (clamp_offset o)) s).

(** ** The volume moved *)
(** "%02d" *)
Definition two_digits (v : Z) : bytes := if (0 <=? v) && (v <? 10) then 48 :: dec v else dec v.
Definition volume_led (e : venv) (v : Z) (assistant : bool) (s : vols) : vols :=
  let n := Z.quot (v * volume_steps) 100 in
  let step := if n =? 0 then 1 else n in
  let pat := (if assistant && assistant_steps e then str "hassmic_assist_" else str "volume_step-") ++ two_digits step in
  let s := if negb (bool_decide (vol_pat s = [])) && negb (bool_decide (vol_pat s = pat)) then emit (Led_u (vol_pat s)) s else s in
  emit (Led_s pat) s <| vol_pat := pat |> <| vol_clear_at := e_now e + 2500 |>.
Definition tell_volume (e : venv) (s : vols) : vols :=
  let s := if connected e then emit (Proto_volume (volume s)) s else s in
  let s := if sendspin e then emit (Sendspin_volume (volume s)) s else s in
  emit (A2dp_volume (volume s)) s.
Definition core_set_volume (e : venv) (v : Z) (s : vols) : vols :=
  let s := s <| volume := clamp100 v |> in
  let s := if negb (stream_owns_volume s) && own_speaker s then music_volume_keep s else s in
  let s := mix_apply e s in
  tell_volume e (volume_led e (volume s) false s).
Definition core_speaker_volume (e : venv) (pct : Z) (s : vols) : vols :=
  let s := if vol_split s then core_volume e s else s in
  core_set_volume e (if vol_split s then volume s + pct - loudest s else pct) s.
Definition core_speaker (e : venv) (mode : speaker) (pct : Z) (s : vols) : vols :=
  let s := core_volume e s in
  let was := volume s in
  if bool_decide (mode = speaker_mode s) then s else
  let s := if own_speaker s then s <| echo_own_volume := was |> <| own_file := Some (line was) |> else s in
  let s := match mode with
           | SPEAKER_NONE => let s := s <| volume := echo_own_volume s |> in if stream_owns_volume s then s else music_volume_keep s
           | SPEAKER_ABSOLUTE => s <| volume := clamp100 pct |>
           | SPEAKER_MIXER => s
           end in
  let s := mix_apply e (s <| speaker_mode := mode |>) in
  let s := match mode with SPEAKER_NONE => s <| own_file := None |> | _ => s end in
  if volume s =? was then s else tell_volume e s.
(** A key's step: to the next ten *)
Definition tens (v dir : Z) : Z := Z.quot (v + 5) 10 * 10 + dir * 10.
Definition level_step (e : venv) (k : nat) (dir : Z) (s : vols) : vols :=
  let s := mix_apply e (upd_kind k (fun x => mk_kind (clamp100 (tens (level x) dir)) (linked x) (offset x)) s) in
  emit Settings_changed (emit Settings_saved (volume_led e (level (kind_of k s)) (k =? VOL_ASSISTANT)%nat s)).
Definition key_kind (e : venv) (s : vols) : option nat :=
  if negb (vol_split s) then None
  else if dropin_live s then Some VOL_CALLS
  else if e_tts e && negb (tts_media s) then Some VOL_ASSISTANT
  else if e_alarm e then Some VOL_TIMERS else None.
Definition on_volume (e : venv) (dir : Z) (s : vols) : vols :=
  if negb (use_volume e) then s else
  let k := key_kind e s in
  let music s := let s := core_volume e s in core_set_volume e (tens (volume s) dir) s in
  let s := match k with Some k => if linked (kind_of k s) then music s else level_step e k dir s | None => music s end in
  let s := core_volume e s in
  let now := match k with Some k => kind_volume k s | None => volume s end in
  emit Volume_sound (s <| g_click := mix_gain (if 0 <? now then now else 10) s |>).

(** ** volume_sync: a look with the lock held, the mixer read without it, the rest *)
Definition sync_look (e : venv) (s : vols) : vols := let s := core_volume e s in s <| looked := Some (volume s, mix_target s) |>.
Definition sync_read (s : vols) : vols :=
  match looked s with Some (_, want) => s <| seen := Some (default want (mx_main s), default want (mx_tts s)) |> | None => s end.
Definition sync_end (e : venv) (s : vols) : vols :=
  match looked s, seen s with
  | Some (cur, want), Some (main_v, tts_v) =>
      let s := s <| looked := None |> <| seen := None |> in
      if absolute s then
        if (main_v =? 100) && negb (tts_v =? 100) then mix_apply e (s <| tts_written := -1 |>) else s
      else if (volume s =? cur) && (mix_target s =? want) then
        let s := if main_v =? want then s
                 else if stream_owns_volume s then tell_volume e (s <| volume := main_v |> <| main_written := main_v |>)
                 else s <| main_written := -1 |> in
        mix_apply e (if tts_v =? mix_target s then s else s <| tts_written := -1 |>)
      else s
  | _, _ => s
  end.
(** volume_led_thread, of the light: the step played out *)
Definition led_clear (now : Z) (s : vols) : vols :=
  if negb (vol_clear_at s =? 0) && (vol_clear_at s <=? now)
  then emit (Led_u (vol_pat s)) s <| vol_pat := [] |> <| vol_clear_at := 0 |> else s.

(** ** What can happen *)
Inductive vop :=
  | First_use | Separate (set : bool) | Even_steps (set : bool) | Kind_volume (k : nat) (v : Z) | Kind_linked (k : nat) (set : bool)
  | Kind_offset (k : nat) (o : Z) | Set_volume (v : Z) | Speaker_set (pct : Z) | Speaker_mode (m : speaker) (pct : Z) | Key (dir : Z)
  | Tts (media : bool) | Call (on : bool) | Write_take | Write_file | Write_look | Sync_look | Sync_read | Sync_end | Led_clear
  | Outside_main (v : Z) | Outside_tts (v : Z).
Definition vstep (s : vols) (x : venv * vop) : vols :=
  let '(e, o) := x in
  match o with
  | First_use => core_volume e s
  | Separate b => core_separate_volumes e b s
  | Even_steps b => core_even_volume e b s
  | Kind_volume k v => core_kind_volume e k v s
  | Kind_linked k b => core_kind_linked e k b s
  | Kind_offset k o => core_set_kind_offset e k o s
  | Set_volume v => core_set_volume e v s
  | Speaker_set p => core_speaker_volume e p s
  | Speaker_mode m p => core_speaker e m p s
  | Key d => on_volume e d s
  | Tts m => tts_kind e m s
  | Call b => call_live e b s
  | Write_take => write_take s
  | Write_file => write_file s
  | Write_look => write_look s
  | Sync_look => sync_look e s
  | Sync_read => sync_read s
  | Sync_end => sync_end e s
  | Led_clear => led_clear (e_now e) s
  | Outside_main v => s <| mx_main := Some v |>
  | Outside_tts v => s <| mx_tts := Some v |>
  end.
End volumes.

(** * What holds in every run *)
Section safe.
Context (point : Z -> Z) (volume_steps : Z) (point_ok : forall v, 0 <= v <= 100 -> 0 <= point v <= 100).
Abbreviation target := (mix_target point).
Abbreviation gain_of := (mix_gain point).
Abbreviation in_mix := (mix_now point).
Abbreviation do_step := (vstep point volume_steps).

Definition pct (v : Z) : Prop := 0 <= v <= 100.
Definition kind_ok (k : kind) : Prop := pct (level k) /\ - VOL_OFFSET_MAX <= offset k <= VOL_OFFSET_MAX.
Definition opt_pct (x : option Z) : Prop := match x with Some v => pct v | None => True end.
Definition two_pct (x : option (Z * Z)) : Prop := match x with Some (a, b) => pct a /\ pct b | None => True end.
Definition ranges (s : vols) : Prop :=
  pct (volume s) /\ length (kinds s) = VOL_KINDS /\ Forall kind_ok (kinds s) /\ pct (echo_own_volume s) /\
  opt_pct (mx_main s) /\ opt_pct (mx_tts s) /\ two_pct (looked s) /\ two_pct (seen s).
(** The mixer was last set to what it should be, and each stream's gain is the one for now *)
Definition in_step (s : vols) : Prop :=
  main_written s = target s /\ tts_written s = target s /\
  g_music s = gain_of (volume s) s /\ g_tts s = gain_of (if tts_media s then volume s else kind_now VOL_ASSISTANT s) s /\
  g_sounds s = gain_of (kind_now VOL_SOUNDS s) s /\ g_timers s = gain_of (kind_now VOL_TIMERS s) s /\ g_call s = gain_of (kind_now VOL_CALLS s) s.
Definition own_ok (s : vols) : Prop := if own_speaker s then own_file s = None else saved (own_file s) = Some (echo_own_volume s).
(** The files say what a restart would have to know, or the thread that writes them has yet to *)
Definition files_ok (s : vols) : Prop :=
  own_ok s /\
  (if stream_owns_volume s then writing s = Idle -> music_file s = None
   else own_speaker s = true -> music_dirty s = false ->
        match writing s with Taken v => v = volume s | _ => saved (music_file s) = Some (volume s) end).
Definition settled (s : vols) : Prop := ranges s /\ files_ok s /\ in_step s.

Lemma saved_line v : pct v -> saved (Some (line v)) = Some v.
Proof.
  intros H. unfold saved, line. cbn [mbind option_bind]. rewrite strtol_dec by (unfold LONG_MAX; unfold pct in H; lia).
  unfold pct in H. replace (i32 v) with v by (unfold i32; rewrite Z.mod_small; lia).
  rewrite (proj2 (Z.leb_le 0 v)), (proj2 (Z.leb_le v 100)) by lia. done.
Qed.
Lemma clamp100_pct v : pct (clamp100 v).
Proof. unfold clamp100, pct. repeat case_match; bsimp; lia. Qed.
Lemma clamp100_id v : pct v -> clamp100 v = v.
Proof. unfold clamp100, pct. intros ?. repeat case_match; bsimp; lia. Qed.
Lemma clamp_offset_ok v : - VOL_OFFSET_MAX <= clamp_offset v <= VOL_OFFSET_MAX.
Proof. unfold clamp_offset, VOL_OFFSET_MAX. repeat case_match; bsimp; lia. Qed.
Lemma kind_of_ok k s : ranges s -> kind_ok (kind_of k s).
Proof.
  intros (_ & _ & F & _). unfold kind_of. destruct (kinds s !! k) as [x|] eqn:E.
  - rewrite (list_lookup_total_correct _ _ _ E). rewrite Forall_lookup in F. by apply (F k).
  - rewrite list_lookup_total_alt, E. split; cbn; unfold pct, VOL_OFFSET_MAX; lia.
Qed.
Lemma kind_volume_pct k s : ranges s -> pct (kind_volume k s).
Proof. intros R. unfold kind_volume. case_match; [apply clamp100_pct|]. apply (kind_of_ok k s R). Qed.
Lemma loudest_pct s : ranges s -> pct (loudest s).
Proof.
  intros R. unfold loudest. case_match; [|apply R]. cbn [fold_left seq VOL_KINDS].
  assert (K : forall (b : bool) v k, pct v -> pct (if b then kind_volume k s else v)) by (intros [] v k Hv; [by apply kind_volume_pct|done]).
  repeat apply K. apply R.
Qed.
Lemma mix_target_pct s : ranges s -> pct (target s).
Proof. intros R. unfold mix_target. repeat case_match; [unfold pct; lia|by apply point_ok, loudest_pct|by apply loudest_pct]. Qed.

(** [in_mix] puts the mixer in step and changes nothing else *)
Lemma mix_now_eq s : exists m t,
  (m = Some (target s) \/ m = mx_main s /\ main_written s = target s) /\ (t = Some (target s) \/ t = mx_tts s) /\
  in_mix s = s <| mx_main := m |> <| main_written := target s |> <| mx_tts := t |> <| tts_written := target s |>
    <| out := out s ++ [Speaker_volume (loudest s)] |>
    <| g_music := gain_of (volume s) s |> <| g_tts := gain_of (if tts_media s then volume s else kind_now VOL_ASSISTANT s) s |>
    <| g_sounds := gain_of (kind_now VOL_SOUNDS s) s |> <| g_timers := gain_of (kind_now VOL_TIMERS s) s |>
    <| g_call := gain_of (kind_now VOL_CALLS s) s |>.
Proof.
  exists (if target s =? main_written s then mx_main s else Some (target s)), (if target s =? tts_written s then mx_tts s else Some (target s)).
  unfold mix_now. destruct (Z.eqb_spec (target s) (main_written s)) as [E1|_].
  - split; [auto|]. rewrite E1. destruct (Z.eqb_spec (main_written s) (tts_written s)) as [E2|_]; (split; [auto|]).
    + rewrite E2 at 1. by destruct s.
    + by destruct s.
  - split; [auto|]. change (tts_written (s <| mx_main := Some (target s) |> <| main_written := target s |>)) with (tts_written s).
    destruct (Z.eqb_spec (target s) (tts_written s)) as [E2|_]; (split; [auto|]).
    + rewrite E2. by destruct s.
    + by destruct s.
Qed.
Lemma mix_now_in_step s : in_step (in_mix s).
Proof. destruct (mix_now_eq s) as (m & t & _ & _ & ->). by split_and!. Qed.
Lemma mix_now_settled s : ranges s -> files_ok s -> settled (in_mix s).
Proof.
  intros R F. split; [|split; [|apply mix_now_in_step]]; pose proof (mix_target_pct s R) as T; destruct (mix_now_eq s) as (m & t & Hm & Ht & ->); [|exact F].
  destruct R as (R1 & R2 & R3 & R4 & R5 & R6 & R7 & R8). split_and!; try done; cbn.
  - by destruct Hm as [->|[-> _]].
  - by destruct Ht as [->| ->].
Qed.
Lemma mix_apply_settled e s : ranges s -> files_ok s -> settled (mix_apply point e s).
Proof. intros R F. unfold mix_apply, core_volume. destruct (Z.ltb_spec (volume s) 0); [destruct R as [[] _]; lia|]. by apply mix_now_settled. Qed.
Lemma core_volume_known e s : ranges s -> core_volume point e s = s.
Proof. intros [[] _]. unfold core_volume. destruct (Z.ltb_spec (volume s) 0); [lia|done]. Qed.

(** What is told and shown is no part of [settled] *)
Lemma emit_settled x s : settled s -> settled (emit x s).
Proof. exact id. Qed.
Lemma volume_led_settled e v b s : settled s -> settled (volume_led volume_steps e v b s).
Proof. intros S. unfold volume_led. destruct (negb (bool_decide (vol_pat s = [])) && _); exact S. Qed.
Lemma tell_volume_settled e s : settled s -> settled (tell_volume e s).
Proof. intros S. unfold tell_volume. destruct (connected e), (sendspin e); exact S. Qed.
Hint Resolve emit_settled volume_led_settled tell_volume_settled : core.

Lemma keep_files s : own_ok s -> files_ok (music_volume_keep s).
Proof.
  intros O. unfold music_volume_keep. change (stream_owns_volume (s <| music_dirty := ?b |>)) with (stream_owns_volume s).
  destruct (stream_owns_volume s) eqn:E; (split; [exact O|]).
  - change (stream_owns_volume (_ <| music_file := None |>)) with (stream_owns_volume s). by rewrite E.
  - change (stream_owns_volume (_ <| music_dirty := _ |>)) with (stream_owns_volume s). by rewrite E.
Qed.
Lemma keep_ranges s : ranges s -> ranges (music_volume_keep s).
Proof. intros R. unfold music_volume_keep. by case_match. Qed.
Lemma own_pct s : ranges s -> pct (own_volume s).
Proof. intros (R & _ & _ & E & _). unfold own_volume. by case_match. Qed.
Lemma kinds_ranges f s : ranges s -> length (f (kinds s)) = VOL_KINDS -> Forall kind_ok (f (kinds s)) -> ranges (s <| kinds := f (kinds s) |>).
Proof. intros (R1 & R2 & R3 & R) L F. exact (conj R1 (conj L (conj F R))). Qed.
Lemma upd_kind_ranges k f s : (forall x, kind_ok x -> kind_ok (f x)) -> ranges s -> ranges (upd_kind k f s).
Proof.
  intros Hf R. unfold upd_kind. apply (kinds_ranges (alter f k)); [done|by rewrite length_alter; apply R|].
  apply Forall_alter; [apply R|]. intros x _. apply Hf.
Qed.

Lemma set_volume_settled e v s : ranges s -> files_ok s -> settled (core_set_volume point volume_steps e v s).
Proof.
  intros R F. unfold core_set_volume. apply tell_volume_settled, volume_led_settled.
  assert (R' : ranges (s <| volume := clamp100 v |>)) by (split; [apply clamp100_pct|apply R]).
  change (stream_owns_volume (s <| volume := ?x |>)) with (stream_owns_volume s). change (own_speaker (s <| volume := ?x |>)) with (own_speaker s).
  destruct (stream_owns_volume s) eqn:E1; cbn [negb andb].
  - apply mix_apply_settled; [done|]. split; [apply F|]. destruct F as [_ F]. change (stream_owns_volume (_ <| volume := _ |>)) with (stream_owns_volume s). by rewrite E1 in *.
  - destruct (own_speaker s) eqn:E2.
    + apply mix_apply_settled; [by apply keep_ranges|]. apply keep_files. apply F.
    + apply mix_apply_settled; [done|]. split; [apply F|]. change (stream_owns_volume (_ <| volume := _ |>)) with (stream_owns_volume s).
      change (own_speaker (_ <| volume := _ |>)) with (own_speaker s). rewrite E1, E2. done.
Qed.
Lemma upd_kind_settled e k f s : (forall x, kind_ok x -> kind_ok (f x)) -> settled s -> settled (mix_apply point e (upd_kind k f s)).
Proof. intros Hf (R & F & _). apply mix_apply_settled; [by apply upd_kind_ranges|exact F]. Qed.
Lemma separate_settled e set s : settled s -> settled (core_separate_volumes point e set s).
Proof.
  intros S. pose proof S as (R & F & _). unfold core_separate_volumes. destruct (eqb set (vol_split s)) eqn:E; [done|].
  rewrite (core_volume_known e s R). replace (if set && own_speaker s then s else s) with s by (by case_match).
  set (s1 := if set then s <| kinds := _ |> else s).
  assert (R1 : ranges s1).
  { subst s1. destruct set; [|done]. apply (kinds_ranges (map (fun k => mk_kind (own_volume s) (linked k) (offset k)))); [done|by rewrite length_map; apply R|].
    apply Forall_fmap. eapply Forall_impl; [|apply R]. intros k [_ K]. split; [by apply own_pct|exact K]. }
  assert (F1 : own_ok s1) by (subst s1; destruct set; apply F).
  set (s2 := s1 <| vol_split := set |>). assert (R2 : ranges s2) by exact R1.
  change (own_speaker s2) with (own_speaker s1). destruct (negb set || own_speaker s1) eqn:E2.
  - apply mix_apply_settled; [by apply keep_ranges|]. by apply keep_files.
  - apply orb_false_iff in E2 as [E2 E3]. destruct set; [|done]. apply mix_apply_settled; [done|]. split; [exact F1|].
    change (own_speaker s2) with (own_speaker s1). by rewrite E3.
Qed.
Lemma even_settled e set s : settled s -> settled (core_even_volume point e set s).
Proof.
  intros S. pose proof S as (R & F & _). unfold core_even_volume. destruct (eqb set (vol_even s)) eqn:E; [done|].
  set (s1 := s <| vol_even := set |>). assert (R1 : ranges s1) by exact R.
  change (own_speaker s1) with (own_speaker s). destruct (stream_owns_volume s1 || own_speaker s) eqn:E2.
  - apply mix_apply_settled; [by apply keep_ranges|]. apply keep_files. apply F.
  - apply orb_false_iff in E2 as [E2 E3]. apply mix_apply_settled; [done|]. split; [apply F|].
    rewrite E2. change (own_speaker s1) with (own_speaker s). by rewrite E3.
Qed.
Lemma linked_settled e k set s : settled s -> settled (core_kind_linked point e k set s).
Proof.
  intros S. pose proof S as (R & _). unfold core_kind_linked. destruct (eqb _ _); [done|].
  rewrite (core_volume_known e s R). replace (if own_speaker s then s else s) with s by (by case_match).
  apply upd_kind_settled; [|done]. intros x [K1 K2]. destruct set; split; cbn; [exact K1|apply clamp_offset_ok|apply clamp100_pct|exact K2].
Qed.
Lemma mix_now_own s o : (in_mix s) <| own_file := o |> = in_mix (s <| own_file := o |>).
Proof.
  unfold mix_now. change (mix_target point (s <| own_file := o |>)) with (target s).
  change (main_written (s <| own_file := o |>)) with (main_written s). destruct (target s =? main_written s).
  - change (tts_written (s <| own_file := o |>)) with (tts_written s). by destruct (_ =? tts_written s).
  - change (tts_written (s <| own_file := o |> <| mx_main := ?m |> <| main_written := ?w |>)) with (tts_written s).
    change (tts_written (s <| mx_main := ?m |> <| main_written := ?w |>)) with (tts_written s). by destruct (_ =? tts_written s).
Qed.
(** The Echo's own volume set aside, and the file that keeps it *)
Definition set_aside (s : vols) : vols :=
  if own_speaker s then s <| echo_own_volume := volume s |> <| own_file := Some (line (volume s)) |> else s.
Lemma set_aside_ok s : settled s -> ranges (set_aside s) /\ saved (own_file (set_aside s)) = Some (echo_own_volume (set_aside s)) /\
  echo_own_volume (set_aside s) = own_volume s.
Proof.
  intros (R & [F _] & _). unfold own_ok in F. unfold set_aside, own_volume. destruct (own_speaker s); [|by split_and!].
  destruct R as (R1 & R2 & R3 & R4 & R5). exact (conj (conj R1 (conj R2 (conj R3 (conj R1 R5)))) (conj (saved_line _ R1) eq_refl)).
Qed.
Lemma back_to_own_settled e s : ranges s -> (stream_owns_volume s = true -> writing s = Idle -> music_file s = None) ->
  settled ((mix_apply point e
    ((let s := s <| volume := echo_own_volume s |> in if stream_owns_volume s then s else music_volume_keep s) <| speaker_mode := SPEAKER_NONE |>))
    <| own_file := None |>).
Proof.
  intros R W. cbv zeta. set (s2 := s <| volume := echo_own_volume s |>).
  assert (R2 : ranges s2) by (destruct R as (_ & R2 & R3 & E & R5); exact (conj E (conj R2 (conj R3 (conj E R5))))).
  set (s3 := if stream_owns_volume s2 then s2 else music_volume_keep s2).
  assert (R3 : ranges (s3 <| speaker_mode := SPEAKER_NONE |>)) by (subst s3; case_match; [exact R2|exact (keep_ranges s2 R2)]).
  unfold mix_apply. rewrite (core_volume_known e (s3 <| speaker_mode := SPEAKER_NONE |>) R3), mix_now_own. apply mix_now_settled; [exact R3|]. split; [done|].
  subst s3. change (stream_owns_volume s2) with (stream_owns_volume s). destruct (stream_owns_volume s) eqn:E.
  - change (stream_owns_volume (s2 <| speaker_mode := ?m |> <| own_file := ?o |>)) with (stream_owns_volume s). rewrite E. by apply W.
  - unfold music_volume_keep. change (stream_owns_volume (s2 <| music_dirty := ?m |>)) with (stream_owns_volume s). rewrite E.
    change (stream_owns_volume s2) with (stream_owns_volume s). rewrite E.
    change (stream_owns_volume (s2 <| music_dirty := ?d |> <| speaker_mode := ?m |> <| own_file := ?o |>)) with (stream_owns_volume s). by rewrite E.
Qed.
Lemma speaker_settled e m p s : settled s -> settled (core_speaker point e m p s).
Proof.
  intros S. destruct (set_aside_ok s S) as (R1 & O1 & _). destruct S as (R & F & I). unfold core_speaker. rewrite (core_volume_known e s R).
  destruct (bool_decide (m = speaker_mode s)) eqn:E; [done|]. change (if own_speaker s then _ else s) with (set_aside s).
  assert (W : stream_owns_volume (set_aside s) = true -> writing (set_aside s) = Idle -> music_file (set_aside s) = None).
  { destruct F as [_ F]. unfold set_aside. destruct (own_speaker s); intros W; [change (stream_owns_volume s = true) in W|]; rewrite W in F; exact F. }
  generalize dependent (set_aside s). intros s1 R1 O1 W.
  assert (T : forall t, settled t -> settled (if volume t =? volume s then t else tell_volume e t)) by (intros t St; destruct (_ =? _); auto).
  apply T. clear T. destruct m; [by apply back_to_own_settled| |].
  all: cbv zeta; apply mix_apply_settled.
  - exact R1.
  - split; [exact O1|]. change (stream_owns_volume (s1 <| speaker_mode := ?m |>)) with (stream_owns_volume s1). destruct (stream_owns_volume s1); [by apply W|done].
  - destruct R1 as [_ R1]. exact (conj (clamp100_pct p) R1).
  - split; [exact O1|]. change (stream_owns_volume (s1 <| volume := ?v |> <| speaker_mode := ?m |>)) with (stream_owns_volume s1). destruct (stream_owns_volume s1); [by apply W|done].
Qed.
Lemma key_settled e d s : settled s -> settled (on_volume point volume_steps e d s).
Proof.
  intros S. pose proof S as (R & F & _). unfold on_volume. destruct (negb (use_volume e)); [done|]. apply emit_settled.
  cbv zeta. rewrite (core_volume_known e s R).
  assert (M : settled (core_set_volume point volume_steps e (tens (volume s) d) s)) by (by apply set_volume_settled).
  assert (K : forall k, settled (level_step point volume_steps e k d s)).
  { intros k. unfold level_step. apply emit_settled, emit_settled, volume_led_settled, upd_kind_settled; [|done]. intros x [_ K]. split; [apply clamp100_pct|exact K]. }
  assert (T : forall t g, settled t -> settled ((core_volume point e t) <| g_click := g |>)) by (intros t g St; rewrite (core_volume_known e t (proj1 St)); exact St).
  apply T. destruct (key_kind e s) as [k|]; [destruct (linked (kind_of k s))|]; auto.
Qed.
Lemma sync_end_settled e s : settled s -> settled (sync_end point e s).
Proof.
  intros S. pose proof S as (R & F & I). unfold sync_end. destruct (looked s) as [[cur want]|] eqn:L; [|done]. destruct (seen s) as [[main_v tts_v]|] eqn:N; [|done].
  set (s1 := s <| looked := None |> <| seen := None |>).
  assert (P : pct main_v) by (destruct R as (_ & _ & _ & _ & _ & _ & _ & R); rewrite N in R; apply R).
  assert (R1 : ranges s1) by (destruct R as (A & B & C & D & E & G & _); exact (conj A (conj B (conj C (conj D (conj E (conj G (conj Logic.I Logic.I)))))))).
  assert (F1 : files_ok s1) by exact F. assert (S1 : settled s1) by exact (conj R1 (conj F1 I)). clearbody s1. clear R F I S L N.
  assert (X : forall t, ranges t -> files_ok t -> settled (mix_apply point e (if tts_v =? target t then t else t <| tts_written := -1 |>)))
    by (intros t Rt Ft; apply mix_apply_settled; destruct (_ =? _); assumption).
  destruct (absolute s1); [destruct (_ && _); [by apply mix_apply_settled|done]|]. destruct (_ && _); [|done]. destruct (main_v =? want); [by apply X|].
  destruct (stream_owns_volume s1) eqn:E; [|by apply X].
  unfold tell_volume. set (t := s1 <| volume := main_v |> <| main_written := main_v |>).
  assert (Rt : ranges t) by exact (conj P (proj2 R1)).
  assert (Ft : files_ok t) by (split; [apply F1|]; destruct F1 as [_ F1]; change (stream_owns_volume t) with (stream_owns_volume s1); by rewrite E in *).
  destruct (connected e), (sendspin e); apply X; assumption.
Qed.

Definition op_ok (o : vop) : Prop := match o with Outside_main v | Outside_tts v => pct v | _ => True end.
Lemma vstep_settled s x : op_ok (snd x) -> settled s -> settled (do_step s x).
Proof.
  destruct x as [e o]. intros O S. pose proof S as (R & F & I). destruct o; cbn [vstep].
  - by rewrite core_volume_known.
  - by apply separate_settled.
  - by apply even_settled.
  - unfold core_kind_volume. destruct (v <? 0); [done|]. apply upd_kind_settled; [|done]. intros x [_ K]. split; [apply clamp100_pct|exact K].
  - by apply linked_settled.
  - apply upd_kind_settled; [|done]. intros x [K _]. split; [exact K|apply clamp_offset_ok].
  - by apply set_volume_settled.
  - unfold core_speaker_volume. rewrite (core_volume_known e s R). replace (if vol_split s then s else s) with s by (by case_match). by apply set_volume_settled.
  - by apply speaker_settled.
  - by apply key_settled.
  - by apply mix_apply_settled.
  - by apply mix_apply_settled.
  - unfold write_take. destruct (writing s) eqn:E; [|done..]. destruct F as [F1 F2]. split; [exact R|]. split; [|exact I]. split; [exact F1|].
    change (stream_owns_volume (s <| writing := ?a |> <| music_dirty := ?b |>)) with (stream_owns_volume s).
    destruct (stream_owns_volume s); [by intros _; apply F2|]. change (own_speaker (s <| writing := ?a |> <| music_dirty := ?b |>)) with (own_speaker s).
    intros O' _. cbn. unfold own_volume. rewrite O'. destruct (music_dirty s); [done|]. rewrite E in F2. by apply F2.
  - unfold write_file. destruct (writing s) eqn:E; [done| |done]. destruct F as [F1 F2]. split; [exact R|]. split; [|exact I]. split; [exact F1|].
    change (stream_owns_volume (s <| music_file := ?a |> <| writing := ?b |>)) with (stream_owns_volume s). rewrite E in F2.
    destruct (stream_owns_volume s); [done|]. intros O' D. cbn [music_file writing]. rewrite (F2 O' D). apply saved_line, R.
  - unfold write_look. destruct (writing s) eqn:E; [done..|]. destruct F as [F1 F2]. rewrite E in F2. destruct (stream_owns_volume s) eqn:W.
    + split; [exact R|]. split; [|exact I]. split; [exact F1|].
      change (stream_owns_volume (s <| music_file := ?a |> <| writing := ?b |>)) with (stream_owns_volume s). by rewrite W.
    + split; [exact R|]. split; [|exact I]. split; [exact F1|]. change (stream_owns_volume (s <| writing := ?b |>)) with (stream_owns_volume s). rewrite W. exact F2.
  - unfold sync_look. rewrite core_volume_known by done. split; [|by split].
    destruct R as (R1 & R2 & R3 & R4 & R5 & R6 & R7 & R8). refine (conj R1 (conj R2 (conj R3 (conj R4 (conj R5 (conj R6 (conj (conj R1 _) R8))))))). by apply mix_target_pct.
  - unfold sync_read. destruct (looked s) as [[cur want]|] eqn:L; [|done]. split; [|by split].
    destruct R as (R1 & R2 & R3 & R4 & R5 & R6 & R7 & R8). refine (conj R1 (conj R2 (conj R3 (conj R4 (conj R5 (conj R6 (conj R7 _))))))).
    rewrite L in R7. destruct R7 as [_ R7]. split; [by destruct (mx_main s)|by destruct (mx_tts s)].
  - by apply sync_end_settled.
  - unfold led_clear. by destruct (_ && _).
  - destruct R as (R1 & R2 & R3 & R4 & _ & R6). split; [|by split]. exact (conj R1 (conj R2 (conj R3 (conj R4 (conj O R6))))).
  - destruct R as (R1 & R2 & R3 & R4 & R5 & _ & R6). split; [|by split]. exact (conj R1 (conj R2 (conj R3 (conj R4 (conj R5 (conj O R6)))))).
Qed.

Lemma run_settled l s : Forall (fun x => op_ok (snd x)) l -> settled s -> settled (fold_left do_step l s).
Proof. intros O. revert s. induction O as [|x l Hx O IH]; intros s S; [done|]. by apply IH, vstep_settled. Qed.

(** ** A restart *)
Definition restart (e : venv) (s : vols) : vols := first_use point e (vols0 (mx_main s) (mx_tts s) (music_file s) (own_file s)).
Lemma mix_now_volume s : volume (in_mix s) = volume s.
Proof. by destruct (mix_now_eq s) as (m & t & _ & _ & ->). Qed.
Lemma loudest_one s : stream_owns_volume s = true -> absolute s = false -> target s = volume s.
Proof.
  unfold stream_owns_volume, mix_target, loudest. intros [->%negb_true_iff ->%negb_true_iff]%andb_true_iff ->. done.
Qed.


(** A start: nothing of it is lost, with an Echo that was on its own speaker *)
Lemma start_settled e main tts music : opt_pct main -> opt_pct tts -> configured_split e = true ->
  settled (first_use point e (vols0 main tts music None)).
Proof.
  intros M T C. unfold first_use. rewrite C. cbn [own_file vols0 saved mbind option_bind music_file].
  assert (P : forall v m, pct v -> saved m = Some v -> settled (in_mix ((vols0 main tts m None) <| volume := v |> <| own_file := None |>))).
  { intros v m V F. apply mix_now_settled.
    - refine (conj V (conj eq_refl (conj _ (conj _ (conj M (conj T (conj Logic.I Logic.I))))))); [|unfold pct; cbn; lia].
      repeat (constructor; [unfold kind_ok, pct, VOL_OFFSET_MAX; cbn; lia|]). constructor.
    - split; [done|]. intros _ _. exact F. }
  destruct (saved music) as [v|] eqn:F; [apply (P v music); [|done]|apply (P (read_volume (vols0 main tts music None)) (Some (line (read_volume (vols0 main tts music None)))))].
  - unfold saved in F. destruct (music ≫= strtol LONG_MAX); [|done]. case_match; simplify_eq. bsimp. unfold pct. lia.
  - unfold read_volume. cbn. destruct main; [exact M|unfold pct; cbn; lia].
  - apply saved_line. unfold read_volume. cbn. destruct main; [exact M|unfold pct; cbn; lia].
Qed.

(** ** How loud it sounds *)
Section loudness.
Context (vol_db want_even : Z -> Z).
(** What the mixer as it was last set and a gain of ours make of full scale; [None]: silence *)
Definition sounds (s : vols) (g : gain) : option Z :=
  match g with
  | Full => Some (vol_db (main_written s))
  | Silent => None
  | Curve v at_ => Some (vol_db (main_written s) + (vol_db v - vol_db at_))
  | Even v at_ => Some (vol_db (main_written s) + (want_even v - vol_db at_))
  end.
(** What volume [v] is to sound like *)
Definition wanted (s : vols) (v : Z) : option Z :=
  if stream_owns_volume s then Some (vol_db v) else if v <=? 0 then None else Some (if vol_even s then want_even v else vol_db v).
Lemma mix_gain_sounds s v : absolute s = false -> main_written s = target s -> (stream_owns_volume s = true -> v = volume s) ->
  sounds s (gain_of v s) = wanted s v.
Proof.
  intros A M V. unfold mix_gain, wanted. destruct (stream_owns_volume s) eqn:W.
  - rewrite (V eq_refl). unfold sounds. by rewrite M, loudest_one.
  - destruct (v <=? 0); [done|]. rewrite A. destruct (vol_even s) eqn:E; cbn [andb negb]; unfold sounds; rewrite M.
    + f_equal. lia.
    + unfold mix_target. rewrite A, E. f_equal. lia.
Qed.
Lemma one_volume k s : stream_owns_volume s = true -> kind_now k s = volume s.
Proof. unfold stream_owns_volume, kind_now. intros [->%negb_true_iff _]%andb_true_iff. done. Qed.

(** C24. Each stream sounds as its own volume says: after any history, on the Echo's own speaker or one
    the mixer sets, what the mixer was last set to and what our own audio is turned down by come
    to the music's volume for the music and Home Assistant's media, and to their own or the
    music's moved by their offset for replies, sounds, timers and calls: the same
    number sounds the same on each, whatever the others are at. *)
Theorem each_at_its_own_volume s0 l :
  settled s0 -> Forall (fun x => op_ok (snd x)) l ->
  let s := fold_left do_step l s0 in
  absolute s = false ->
  sounds s (g_music s) = wanted s (volume s) /\
  sounds s (g_tts s) = wanted s (if tts_media s then volume s else kind_now VOL_ASSISTANT s) /\
  sounds s (g_sounds s) = wanted s (kind_now VOL_SOUNDS s) /\
  sounds s (g_timers s) = wanted s (kind_now VOL_TIMERS s) /\
  sounds s (g_call s) = wanted s (kind_now VOL_CALLS s).
Proof.
  intros S0 O s A. pose proof (run_settled l s0 O S0) as R. fold s in R. destruct R as (_ & _ & M & _ & -> & -> & -> & -> & ->).
  split_and!; apply mix_gain_sounds; try done; try (by apply one_volume). intros W. case_match; [done|by apply one_volume].
Qed.
End loudness.

(** ** The settings make nothing jump *)
Lemma volume_upd_kind k f s : volume (upd_kind k f s) = volume s.
Proof. done. Qed.
Lemma kind_of_upd k j f s : length (kinds s) = VOL_KINDS -> (k < VOL_KINDS)%nat ->
  kind_of j (upd_kind k f s) = (if (j =? k)%nat then f else id) (kind_of j s).
Proof.
  intros L K. unfold kind_of, upd_kind. change (kinds (s <| kinds := ?l |>)) with l. destruct (Nat.eqb_spec j k) as [->|N].
  - apply list_lookup_total_alter_eq. by rewrite L.
  - by apply list_lookup_total_alter_ne.
Qed.
Lemma mix_now_kinds s : kinds (in_mix s) = kinds s /\ vol_split (in_mix s) = vol_split s.
Proof. by destruct (mix_now_eq s) as (m & t & _ & _ & ->). Qed.
(** Following the music, and no longer, leaves each kind where it played *)
Lemma linked_no_jump e k j set s : settled s -> own_speaker s = true -> (k < VOL_KINDS)%nat ->
  kind_volume j (core_kind_linked point e k set s) = kind_volume j s.
Proof.
  intros (R & _) O K. unfold core_kind_linked. destruct (eqb set (linked (kind_of k s))) eqn:E; [done|]. rewrite O, (core_volume_known e s R).
  unfold own_volume. rewrite O. unfold mix_apply. rewrite core_volume_known.
  2: { apply upd_kind_ranges; [|done]. intros x [K1 K2]. destruct set; split; cbn; [exact K1|apply clamp_offset_ok|apply clamp100_pct|exact K2]. }
  unfold kind_volume, kind_of. rewrite (proj1 (mix_now_kinds _)), mix_now_volume. fold (kind_of j s). 
  pose proof (kind_of_upd k j) as U. unfold kind_of at 1 in U. rewrite U by (done || apply R). rewrite volume_upd_kind.
  destruct (Nat.eqb_spec j k) as [->|N]; [|done]. destruct (kind_of_ok k s R) as [K1 K2]. pose proof (proj1 R) as K3. unfold pct in *.
  destruct set, (linked (kind_of k s)) eqn:L; try done; cbn.
  unfold clamp_offset, clamp100, VOL_OFFSET_MAX in *. repeat case_match; bsimp; lia.
Qed.
(** Separate volumes start where the one volume was *)
Lemma separate_no_jump e k s : settled s -> own_speaker s = true -> vol_split s = false -> (k < VOL_KINDS)%nat -> offset (kind_of k s) = 0 ->
  kind_now k (core_separate_volumes point e true s) = kind_now k s.
Proof.
  intros (R & _) O V K Z0. unfold core_separate_volumes. rewrite V. cbn [eqb negb orb andb]. rewrite O, (core_volume_known e s R).
  set (s1 := s <| kinds := _ |> <| vol_split := true |>). change (own_speaker s1) with (own_speaker s). rewrite O.
  assert (R1 : ranges s1).
  { apply (kinds_ranges (map (fun k => mk_kind (own_volume s) (linked k) (offset k)))); [done|rewrite length_map; apply R|].
    apply Forall_fmap. eapply Forall_impl; [|apply R]. intros x [_ X]. split; [by apply own_pct|exact X]. }
  assert (X : volume (music_volume_keep s1) = volume s /\ vol_split (music_volume_keep s1) = true /\ kinds (music_volume_keep s1) = kinds s1)
    by (unfold music_volume_keep; by destruct (stream_owns_volume _)).
  unfold mix_apply. rewrite core_volume_known by (by apply keep_ranges). unfold kind_now, kind_volume, kind_of. rewrite V.
  rewrite (proj2 (mix_now_kinds _)), (proj1 (mix_now_kinds _)), mix_now_volume. destruct X as (-> & -> & ->).
  destruct (lookup_lt_is_Some_2 (kinds s) k) as [x X]; [by rewrite (proj1 (proj2 R))|].
  rewrite (list_lookup_total_correct (kinds s1) k (mk_kind (own_volume s) (linked x) (offset x))) by (subst s1; cbn; by rewrite list_lookup_fmap, X).
  unfold kind_of in Z0. rewrite (list_lookup_total_correct _ _ _ X) in Z0. cbn [linked level offset]. rewrite Z0. unfold own_volume. rewrite O.
  destruct (linked x); [|done]. rewrite Z.add_0_r. apply clamp100_id, R.
Qed.

(** ** On a Bluetooth speaker *)
Definition spk (s : vols) : speaker * Z := (speaker_mode s, echo_own_volume s).
Lemma spk_mix_apply e s : spk (mix_apply point e s) = spk s.
Proof.
  assert (M : forall t, spk (in_mix t) = spk t) by (intros t; by destruct (mix_now_eq t) as (m & u & _ & _ & ->)).
  unfold mix_apply. rewrite M. unfold core_volume. destruct (volume s <? 0); [|done]. unfold first_use. rewrite M.
  repeat case_match; done.
Qed.
Lemma spk_core_volume e s : spk (core_volume point e s) = spk s.
Proof.
  assert (M : forall t, spk (in_mix t) = spk t) by (intros t; by destruct (mix_now_eq t) as (m & u & _ & _ & ->)).
  unfold core_volume. destruct (volume s <? 0); [|done]. unfold first_use. rewrite M. repeat case_match; done.
Qed.
Lemma spk_keep s : spk (music_volume_keep s) = spk s.
Proof. unfold music_volume_keep. by case_match. Qed.
Lemma spk_emit x s : spk (emit x s) = spk s.
Proof. done. Qed.
Lemma spk_click s g : spk (s <| g_click := g |>) = spk s.
Proof. done. Qed.
Lemma spk_led e v b s : spk (volume_led volume_steps e v b s) = spk s.
Proof. unfold volume_led. by destruct (negb (bool_decide (vol_pat s = [])) && _). Qed.
Lemma spk_tell e s : spk (tell_volume e s) = spk s.
Proof. unfold tell_volume. by destruct (connected e), (sendspin e). Qed.
Lemma spk_set_volume e v s : spk (core_set_volume point volume_steps e v s) = spk s.
Proof. unfold core_set_volume. rewrite spk_tell, spk_led, spk_mix_apply. case_match; [by rewrite spk_keep|done]. Qed.
Lemma spk_step e o s : (forall m p, o <> Speaker_mode m p) -> spk (do_step s (e, o)) = spk s.
Proof.
  intros N. destruct o; cbn [vstep].
  - apply spk_core_volume.
  - unfold core_separate_volumes. destruct (eqb _ _); [done|]. rewrite spk_mix_apply.
    set (s1 := if set && own_speaker s then core_volume point e s else s).
    assert (E : spk s1 = spk s) by (subst s1; case_match; [apply spk_core_volume|done]).
    rewrite <- E. destruct (negb set || _); [rewrite spk_keep|]; by destruct set.
  - unfold core_even_volume. destruct (eqb _ _); [done|]. rewrite spk_mix_apply. case_match; [by rewrite spk_keep|done].
  - unfold core_kind_volume. destruct (v <? 0); [done|]. by rewrite spk_mix_apply.
  - unfold core_kind_linked. destruct (eqb _ _); [done|]. rewrite spk_mix_apply. transitivity (spk (if own_speaker s then core_volume point e s else s)); [done|].
    case_match; [apply spk_core_volume|done].
  - unfold core_set_kind_offset. by rewrite spk_mix_apply.
  - apply spk_set_volume.
  - unfold core_speaker_volume. rewrite spk_set_volume. case_match; [apply spk_core_volume|done].
  - by destruct (N m pct0).
  - unfold on_volume. destruct (negb (use_volume e)); [done|]. cbv zeta.
    assert (M : spk (core_set_volume point volume_steps e (tens (volume (core_volume point e s)) dir) (core_volume point e s)) = spk s)
      by (by rewrite spk_set_volume, spk_core_volume).
    assert (L : forall k, spk (level_step point volume_steps e k dir s) = spk s).
    { intros k. unfold level_step. cbv zeta. rewrite !spk_emit, spk_led, spk_mix_apply. done. }
    rewrite spk_emit, spk_click.
    rewrite spk_core_volume. destruct (key_kind e s) as [k|]; [destruct (linked (kind_of k s))|]; auto.
  - unfold tts_kind. by rewrite spk_mix_apply.
  - unfold call_live. by rewrite spk_mix_apply.
  - unfold write_take. by case_match.
  - unfold write_file. by case_match.
  - unfold write_look. repeat case_match; done.
  - unfold sync_look. transitivity (spk (core_volume point e s)); [done|apply spk_core_volume].
  - unfold sync_read. repeat case_match; done.
  - unfold sync_end. destruct (looked s) as [[]|]; [|done]. destruct (seen s) as [[]|]; [|done].
    set (s1 := s <| looked := None |> <| seen := None |>). assert (E : spk s1 = spk s) by done. rewrite <- E. clearbody s1.
    destruct (absolute s1); [case_match; [by rewrite spk_mix_apply|done]|]. destruct (_ && _); [|done].
    match goal with |- context [mix_apply point e (if _ then ?t else _)] => assert (T : spk t = spk s1) end.
    { repeat case_match; try done. rewrite spk_tell. done. }
    rewrite spk_mix_apply. match goal with |- spk (if ?b then _ else _) = _ => destruct b end; exact T.
  - unfold led_clear. by case_match.
  - done.
  - done.
Qed.

Lemma volume_mix_apply e s : ranges s -> volume (mix_apply point e s) = volume s.
Proof. intros R. unfold mix_apply. by rewrite mix_now_volume, core_volume_known. Qed.
Lemma spk_own_file s o : spk (s <| own_file := o |>) = spk s.
Proof. done. Qed.
Lemma volume_own_file s o : volume (s <| own_file := o |>) = volume s.
Proof. done. Qed.
Lemma core_speaker_changed e m p s : ranges s -> m <> speaker_mode s ->
  speaker_mode (core_speaker point e m p s) = m /\ echo_own_volume (core_speaker point e m p s) = echo_own_volume (set_aside s).
Proof.
  intros R N. unfold core_speaker. rewrite (core_volume_known e s R), bool_decide_eq_false_2 by done.
  change (if own_speaker s then _ else s) with (set_aside s). generalize (set_aside s). intros t. cbv zeta.
  assert (T : forall u (b : bool), spk u = (m, echo_own_volume t) -> speaker_mode (if b then u else tell_volume e u) = m /\
    echo_own_volume (if b then u else tell_volume e u) = echo_own_volume t).
  { intros u b U. assert (spk (if b then u else tell_volume e u) = (m, echo_own_volume t)) as [= -> ->] by (destruct b; [done|by rewrite spk_tell]). done. }
  apply T. clear T. destruct m.
  - rewrite spk_own_file, spk_mix_apply. unfold spk. cbn [speaker_mode]. f_equal. unfold music_volume_keep. repeat case_match; done.
  - by rewrite spk_mix_apply.
  - by rewrite spk_mix_apply.
Qed.
Lemma back_volume e p s : ranges s -> own_speaker s = false -> volume (core_speaker point e SPEAKER_NONE p s) = echo_own_volume s.
Proof.
  intros R N. unfold core_speaker. rewrite (core_volume_known e s R), N. unfold own_speaker in N. apply bool_decide_eq_false in N.
  rewrite bool_decide_eq_false_2 by auto. cbv zeta.
  assert (T : forall u (b : bool) v, volume u = v -> volume (if b then u else tell_volume e u) = v).
  { intros u b v <-. destruct b; [done|]. unfold tell_volume. by destruct (connected e), (sendspin e). }
  apply T. clear T. set (s2 := s <| volume := echo_own_volume s |>).
  assert (R2 : ranges s2) by (destruct R as (_ & R2 & R3 & E & R5); exact (conj E (conj R2 (conj R3 (conj E R5))))).
  set (s3 := if stream_owns_volume s2 then s2 else music_volume_keep s2).
  assert (R3 : ranges (s3 <| speaker_mode := SPEAKER_NONE |>)) by (subst s3; case_match; [exact R2|exact (keep_ranges s2 R2)]).
  rewrite volume_own_file, (volume_mix_apply e _ R3).
  subst s3. unfold music_volume_keep. repeat case_match; done.
Qed.

(** C26. The Echo's own volume comes back: whatever is done while it plays on a Bluetooth speaker,
    its buttons, the settings, Home Assistant, another kind of speaker, once it is back on its
    own speaker it is at the volume it had before, and that volume was in the file that outlives a crash
    all the while. *)
Theorem own_volume_comes_back e m p s l e' p' :
  settled s -> own_speaker s = true -> m <> SPEAKER_NONE ->
  Forall (fun x => op_ok (snd x) /\ forall p, snd x <> Speaker_mode SPEAKER_NONE p) l ->
  let s' := fold_left do_step l (core_speaker point e m p s) in
  saved (own_file s') = Some (volume s) /\ volume (core_speaker point e' SPEAKER_NONE p' s') = volume s.
Proof.
  intros S O M F. cbv zeta.
  assert (K : settled (core_speaker point e m p s) /\ own_speaker (core_speaker point e m p s) = false /\ echo_own_volume (core_speaker point e m p s) = volume s).
  { split; [by apply speaker_settled|]. destruct (core_speaker_changed e m p s (proj1 S)) as [A B].
    { unfold own_speaker in O. bsimp. congruence. }
    unfold own_speaker at 1. rewrite A, B. split; [by apply bool_decide_eq_false_2|]. unfold set_aside. by rewrite O. }
  revert K. generalize (core_speaker point e m p s). induction F as [|x l [X1 X2] F IH]; intros t (St & Ot & Et); cbn [fold_left].
  - split; [|rewrite back_volume; [done|apply St|done]]. destruct St as (_ & [A _] & _). unfold own_ok in A. rewrite Ot, Et in A. exact A.
  - apply IH. split; [by apply vstep_settled|]. destruct x as [e1 o]. cbn [snd] in X1, X2.
    assert (C : (exists m p, o = Speaker_mode m p) \/ forall m p, o <> Speaker_mode m p) by (destruct o; eauto; by right).
    destruct C as [(m1 & p1 & ->)|N].
    + cbn [vstep]. assert (M1 : m1 <> SPEAKER_NONE) by (intros ->; by eapply X2).
      destruct (decide (m1 = speaker_mode t)) as [E|E].
      * unfold core_speaker. rewrite (core_volume_known e1 t (proj1 St)), bool_decide_eq_true_2 by done. done.
      * destruct (core_speaker_changed e1 m1 p1 t (proj1 St) E) as [A B]. unfold own_speaker at 1. rewrite A, B.
        split; [by apply bool_decide_eq_false_2|]. unfold set_aside. by rewrite Ot.
    + pose proof (spk_step e1 o t N) as Q. 
      assert (Q1 : speaker_mode (do_step t (e1, o)) = speaker_mode t) by exact (f_equal fst Q).
      assert (Q2 : echo_own_volume (do_step t (e1, o)) = echo_own_volume t) by exact (f_equal snd Q).
      unfold own_speaker in *. rewrite Q1, Q2. by split.
Qed.
End safe.

(** * A day of an Echo's volumes *)
(** A curve measured every ten *)
Definition demo_point (v : Z) : Z := (v + 9) / 10 * 10.
Lemma demo_point_ok v : 0 <= v <= 100 -> 0 <= demo_point v <= 100.
Proof. unfold demo_point. pose proof (Z.div_mod (v + 9) 10). pose proof (Z.mod_pos_bound (v + 9) 10). lia. Qed.
Definition demo_venv (now : Z) : venv := mk_venv (Some (str "on")) (Some (str "on")) true true true true now true false.
Definition demo_vols : vols := first_use demo_point (demo_venv 0) (vols0 (Some 40) (Some 40) None None).
Lemma demo_vols_settled : settled demo_point demo_vols.
Proof. apply start_settled; [exact demo_point_ok|unfold opt_pct, pct; lia..|reflexivity]. Qed.
(** Separate volumes, louder timers, a key while a reply plays, a speaker with a volume of its own, its buttons *)
Definition demo_day : list (venv * vop) :=
  [(demo_venv 1, Separate true); (demo_venv 2, Kind_volume VOL_TIMERS 70); (demo_venv 3, Key 1); (demo_venv 4, Set_volume 45);
   (demo_venv 5, Kind_linked VOL_SOUNDS true); (demo_venv 6, Write_take); (demo_venv 6, Write_file); (demo_venv 6, Write_look);
   (demo_venv 7, Outside_tts 90); (demo_venv 8, Sync_look); (demo_venv 8, Sync_read); (demo_venv 8, Sync_end)].
Definition demo_speaker : list (venv * vop) :=
  [(demo_venv 9, Speaker_set 80); (demo_venv 10, Even_steps false); (demo_venv 11, Key (-1)); (demo_venv 12, Speaker_mode SPEAKER_MIXER 0)].
Lemma demo_day_ok l : l = demo_day \/ l = demo_speaker -> Forall (fun x => op_ok (snd x)) l.
Proof. intros [-> | ->]; repeat constructor; cbn; unfold pct; lia. Qed.

Example demo_day_ends :
  let s := fold_left (vstep demo_point 30) demo_day demo_vols in
  volume s = 45 /\ map level (kinds s) = [50; 40; 70; 40] /\ (main_written s, mx_tts s) = (70, Some 70) /\
  kind_volume VOL_SOUNDS s = 40 /\ g_music s = Even 45 70 /\ music_file s = Some (str "45" ++ [10]).
Proof. by vm_compute. Qed.

Lemma each_at_its_own_volume_witness :
  let s := fold_left (vstep demo_point 30) demo_day demo_vols in
  sounds (fun v => v * 60 - 6000) (fun v => v * 50 - 5000) s (g_timers s) = Some (70 * 50 - 5000) /\
  wanted (fun v => v * 60 - 6000) (fun v => v * 50 - 5000) s (kind_now VOL_TIMERS s) = Some (70 * 50 - 5000).
Proof.
  cbv zeta.
  destruct (each_at_its_own_volume demo_point 30 demo_point_ok (fun v => v * 60 - 6000) (fun v => v * 50 - 5000) demo_vols demo_day demo_vols_settled
    (demo_day_ok demo_day (or_introl eq_refl)) eq_refl) as (_ & _ & _ & H & _).
  split; [rewrite H|]; vm_compute; reflexivity.
Defined.


Lemma own_volume_comes_back_witness :
  let s := fold_left (vstep demo_point 30) demo_day demo_vols in
  let s' := fold_left (vstep demo_point 30) demo_speaker (core_speaker demo_point (demo_venv 9) SPEAKER_ABSOLUTE 60 s) in
  volume s' <> volume s /\ saved (own_file s') = Some (volume s) /\ volume (core_speaker demo_point (demo_venv 13) SPEAKER_NONE 0 s') = volume s.
Proof.
  cbv zeta. split; [vm_compute; discriminate|].
  apply (own_volume_comes_back demo_point 30 demo_point_ok (demo_venv 9) SPEAKER_ABSOLUTE 60 (fold_left (vstep demo_point 30) demo_day demo_vols) demo_speaker (demo_venv 13) 0);
    [|reflexivity|discriminate|].
  - exact (run_settled demo_point 30 demo_point_ok demo_day demo_vols (demo_day_ok demo_day (or_introl eq_refl)) demo_vols_settled).
  - repeat constructor; cbn; unfold pct; try lia; discriminate.
Defined.

(** Even steps switched on while a Bluetooth speaker plays: an Echo that dies there comes back at
    its own 65, from volume.speaker, which goes; volume.music, never written, is not now
    either, and the start after that takes the mixer's point of the curve for the volume. *)
Example aside_volume_not_kept :
  let e := mk_venv (Some (str "off")) (Some (str "off")) false false false false 0 false false in
  let e' := mk_venv (Some (str "off")) (Some (str "on")) false false false false 0 false false in
  let s := core_even_volume demo_point e false (first_use demo_point e (vols0 (Some 65) (Some 65) None None)) in
  let s := core_even_volume demo_point e' true (core_speaker demo_point e SPEAKER_MIXER 0 s) in
  let s1 := restart demo_point e' s in
  own_volume s = 65 /\ volume s1 = 65 /\ volume (restart demo_point e' s1) = 70.
Proof. by vm_compute. Qed.
