(* ===== verification/WakeWords.v ===== *)
(** * Wake words of the satellite: the list, the active ones, the pick kept on file (main.c)
    The engine's wake words with their ids, names and languages; up to two of them listen.
    What the folder of models holds, what microWakeWord lists and the file of the pick are
    arguments of the scan.  Then what is active, and that a pick outlives a restart. *)
From S2P Require Import Prelude Cbits.

Definition MAX_WAKE_WORDS : nat := 16.
Definition WAKE_SLOTS : nat := 2.
Definition WAKE_AMAZON : Z := 0.
Definition WAKE_MWW : Z := 1.
Definition WAKE_HA : Z := 2.

Record wake_word := mk_word { w_id : bytes; w_name : bytes; w_lang : bytes; manifest : bytes }.
#[export] Instance wake_word_inhabited : Inhabited wake_word := populate (mk_word [] [] [] []).

(** [wake_act] is the list of the active ones, [n_act] its length.  [wake_file] is the file of
    the pick of the engine in use: the other engine's is not written here. *)
Record wakes := mk_wakes {
  wake_words : list wake_word; wake_bare_len : list nat; wake_act : list nat; wake_engine : Z;
  wake_phrase : bytes; wake_switch : bool; wake_file : option bytes;
  wake_next : option Z }.

(** ** Naming *)
Definition toupper (c : Z) : Z := if islower c then c - 32 else c.
Definition cut_at (stop : Z -> bool) (s : bytes) : bytes := match find_index stop s with Some i => take i s | None => s end.
Definition after_dash (s : bytes) : option bytes := (fun i => drop (S i) s) <$> find_index (Z.eqb 45) s.

(** [c[-1]] is the character before as it was changed; [first]: there is none *)
Fixpoint title (first : bool) (before : Z) (s : bytes) : bytes :=
  match s with
  | [] => []
  | c :: s =>
      let c := if c =? 95 then 32 else c in
      let c := if first || (before =? 32) then toupper c else tolower c in
      c :: title false c s
  end.
Definition word_of (id man : bytes) : wake_word :=
  mk_word (strcap 64 id) (title true 0 (strcap 64 (cut_at (Z.eqb 45) id)))
          (cut_at (fun c => (c =? 45) || (c =? 95)) (strcap 16 (default (str "en") (after_dash id))))
          (strcap 256 man).

Definition wake_word_add (id man : bytes) (l : list wake_word) : option nat * list wake_word :=
  match find_index (fun w => bool_decide (manifest w = man)) l with
  | Some i => (Some i, l)
  | None =>
      if (length l =? MAX_WAKE_WORDS)%nat then (None, l)
      else (Some (length l), l ++ [word_of id man])
  end.

(** The index of an id, else of the only one it was renamed to *)
Definition renamed (id : bytes) (w : wake_word) : bool :=
  bool_decide (take (length id) (w_id w) = id) && bool_decide (w_id w !! length id = Some 45).
Fixpoint only_hit (i : nat) (hit : option nat) (id : bytes) (l : list wake_word) : option nat :=
  match l with
  | [] => hit
  | w :: l =>
      if renamed id w then match hit with Some _ => None | None => only_hit (S i) (Some i) id l end
      else only_hit (S i) hit id l
  end.
Definition wake_word_find (id : bytes) (l : list wake_word) : option nat :=
  match find_index (fun w => bool_decide (w_id w = id)) l with
  | Some i => Some i
  | None => only_hit 0 None id l
  end.

(** ** The scan *)
Record mww_info := mk_mww { i_id : bytes; i_name : bytes; langs : bytes; i_path : bytes }.
Record found := mk_found {
  mww_list : list mww_info;
  board_id : bytes; board_manifest : bytes;
  models : list (bytes * bytes * bool);                (* a folder, its manifest's path, readable *)
  m_arg : option (bytes * bytes * bool) }.             (* -m: the id its folder gives, its path, readable *)

Definition mww_word (i : mww_info) : wake_word :=
  mk_word (take 47 (i_id i)) (take 63 (i_name i))
          (strcap 16 (cut_at (Z.eqb 44) (if (0 <? length (langs i))%nat then langs i else str "en"))) (take 255 (i_path i)).
Definition mww_words_scan (f : found) : list wake_word := map mww_word (take MAX_WAKE_WORDS (mww_list f)).

Definition add_model (l : list wake_word) (m : bytes * bytes * bool) : list wake_word :=
  let '(n, path, readable) := m in
  if bool_decide (head n = Some 46) then l else if readable then snd (wake_word_add n path l) else l.

(** -m's place in the list, named after its folder *)
Definition add_m_arg (f : found) (l : list wake_word) : nat * list wake_word :=
  match m_arg f with
  | None => (0%nat, l)
  | Some (id, path, readable) =>
      let '(i, l) := if readable then wake_word_add id path l else (wake_word_find id l, l) in (default 0%nat i, l)
  end.

(** A name two sets share gets the set's language and region *)
Definition shared (l : list wake_word) (i : nat) (w : wake_word) : bool :=
  existsb (fun j => negb (j =? i)%nat && bool_decide (w_name (l !!! j) = w_name w)) (seq 0 (length l)).
Definition full_name (engine : Z) (l : list wake_word) (i : nat) (w : wake_word) : wake_word :=
  match after_dash (w_id w) with
  | Some d =>
      if (engine =? WAKE_AMAZON) && shared l i w
      then w <| w_name := w_name w ++ strcap (64 - length (w_name w)) (str " (" ++ take 20 d ++ str ")") |>
      else w
  | None => w
  end.

(** fscanf of "%63s" *)
Fixpoint skip_spaces (s : bytes) : bytes := match s with c :: s' => if isspace c then skip_spaces s' else s | [] => [] end.
Definition scan_word (s : bytes) : option (bytes * bytes) :=
  let s := skip_spaces s in
  let w := take 63 (cut_at isspace s) in
  if (length w =? 0)%nat then None else Some (w, drop (length w) s).

(** The words on file, one per slot: the first's place and the second's *)
Fixpoint read_picks (l : list wake_word) (k n : nat) (act : list nat) (s : bytes) : list nat :=
  match n with
  | O => act
  | S n =>
      match scan_word s with
      | None => act
      | Some (w, s) =>
          let act := match wake_word_find w l with
                     | None => act
                     | Some i => if (k =? 0)%nat then [i] else if bool_decide (head act = Some i) then act else act ++ [i]
                     end in
          read_picks l (S k) n act s
      end
  end.

Definition scan_list (f : found) (engine : Z) : Z * (nat * list wake_word) :=
  let mww := if engine =? WAKE_MWW then mww_words_scan f else [] in
  if (engine =? WAKE_MWW) && (0 <? length mww)%nat then (engine, (0%nat, mww))
  else
    let l := snd (wake_word_add (board_id f) (board_manifest f) []) in
    (WAKE_AMAZON, add_m_arg f (fold_left add_model (models f) l)).

(** [file]: the file of the pick, by engine *)
Definition wake_words_scan (f : found) (file : Z -> option bytes) (s : wakes) : wakes :=
  let '(engine, (def, l)) := scan_list f (wake_engine s) in
  let names := imap (full_name engine l) l in
  s <| wake_engine := engine |> <| wake_words := names |> <| wake_bare_len := map (fun w => length (w_name w)) l |>
    <| wake_act := match file engine with None => [def] | Some t => read_picks names 0 WAKE_SLOTS [def] t end |>
    <| wake_file := file engine |>.

(** ** The active ones *)
Definition wake_save (writable : bool) (s : wakes) : wakes :=
  if writable then s <| wake_file := Some (wake_act s ≫= fun i => w_id (wake_words s !!! i) ++ [10]) |> else s.

Fixpoint pick (n_words : nat) (a : list nat) (l : list Z) : list nat :=
  match l with
  | [] => a
  | i :: l =>
      if (length a <? WAKE_SLOTS)%nat then
        let dup := (i <? 0) || (Z.of_nat n_words <=? i) || bool_decide (Z.to_nat i ∈ a) in
        pick n_words (if dup then a else a ++ [Z.to_nat i]) l
      else a
  end.
(** The first stays first *)
Definition keep_first (first : nat) (a : list nat) : list nat :=
  match a with
  | [x; y] => if (y =? first)%nat then [y; x] else a
  | _ => a
  end.

Definition core_wake_set (writable : bool) (l : list Z) (s : wakes) : bool * wakes :=
  let a := pick (length (wake_words s)) [] l in
  if (length a =? 0)%nat then (false, s) else
  let a := keep_first (wake_act s !!! 0%nat) a in
  if bool_decide (a = wake_act s) then (true, s)
  else (true, (wake_save writable (s <| wake_act := a |> <| wake_phrase := [] |>)) <| wake_switch := true |>).

Definition core_wake_word (writable : bool) (set : Z) (s : wakes) : wakes :=
  if (0 <=? set) && (set <? Z.of_nat (length (wake_words s)))
     && (negb (set =? Z.of_nat (wake_act s !!! 0%nat)) || (1 <? length (wake_act s))%nat)
  then snd (core_wake_set writable [set] s) else s.

Definition core_wake_phrase (s : wakes) : bytes :=
  if (0 <? length (wake_phrase s))%nat then wake_phrase s
  else if (0 <? length (wake_words s))%nat then w_name (wake_words s !!! (wake_act s !!! 0%nat)) else [].

(** Without the language the name gets only where another set has it *)
Definition wake_phrase_bare (cap : nat) (s : wakes) : bytes :=
  let p := core_wake_phrase s in
  match find_index (fun w => bool_decide (w_name w = p)) (wake_words s) with
  | Some i => strcap cap (take (wake_bare_len s !!! i) p)
  | None => strcap cap p
  end.

(** What the slots' decoders hold *)
Definition wake_loaded_set (s : wakes) : list bytes :=
  map (fun k => match wake_act s !! k with Some i => strcap 64 (w_name (wake_words s !!! i)) | None => [] end) (seq 0 WAKE_SLOTS).

(** ** The engine
    Changing to or from Home Assistant's takes a restart, asked of root; until then the
    setting reads what was asked for. *)
Inductive engine_ev := SettingsSave | RestartAsk | EntitiesChanged.

Definition cur_engine (local_wake : bool) (s : wakes) : Z :=
  match wake_next s with Some e => e | None => if local_wake then wake_engine s else WAKE_HA end.
Definition wake_list_changed (s : wakes) : wakes := s <| wake_switch := true |>.

Definition core_wake_engine (local_wake cmdline_remote have_mww asked : bool) (f : found) (file : Z -> option bytes) (set : Z) (s : wakes)
    : list engine_ev * wakes :=
  if (set <? 0) || (set =? cur_engine local_wake s) then ([], s)
  else if cmdline_remote then ([], s)
  else if (set =? WAKE_MWW) && negb have_mww then ([], s)
  else if (set =? WAKE_HA) || negb local_wake || bool_decide (is_Some (wake_next s)) then
    if asked then ([SettingsSave; RestartAsk], s <| wake_next := Some set |>)
    else ([SettingsSave; SettingsSave], s <| wake_next := None |>)
  else
    ([EntitiesChanged],
     wake_list_changed (wake_words_scan f file (s <| wake_engine := if set =? WAKE_MWW then WAKE_MWW else WAKE_AMAZON |>))).

(** ** Wake words: what is active, and that a pick outlives a restart *)
(** One or two active words, each of the list, no word twice *)
Record act_ok (n : nat) (a : list nat) : Prop := mk_act {
  a_len : (1 <= length a <= WAKE_SLOTS)%nat; a_dup : NoDup a; a_in : Forall (fun i => (i < n)%nat) a }.

Lemma pick_ok n l a : (length a <= WAKE_SLOTS)%nat -> NoDup a -> Forall (fun i => (i < n)%nat) a ->
  (length (pick n a l) <= WAKE_SLOTS)%nat /\ NoDup (pick n a l) /\ Forall (fun i => (i < n)%nat) (pick n a l).
Proof.
  revert a. induction l as [|i l IH]; intros a Hl Hd Hn; [done|]. cbn [pick]. destruct (_ <? _)%nat eqn:E; [|done]. apply Nat.ltb_lt in E. cbv zeta.
  destruct (_ || _) eqn:Ed; [by apply IH|]. bsimp. apply IH.
  - rewrite length_app. cbn. lia.
  - apply list.NoDup_app. split_and!; [done| |apply list.NoDup_singleton]. intros x Hx. by intros ->%list_elem_of_singleton.
  - apply Forall_app. split; [done|]. constructor; [lia|constructor].
Qed.
Lemma keep_first_ok n f a : act_ok n a -> act_ok n (keep_first f a).
Proof.
  intros [L D I]. destruct a as [|x [|y [|]]]; try by split. cbn. case_match; [|by split].
  split; [done| |].
  - apply list.NoDup_cons in D as [D _]. apply list.NoDup_cons. split; [|apply list.NoDup_singleton]. rewrite list_elem_of_singleton in *. congruence.
  - apply Forall_cons_1 in I as [I1 I2]. apply Forall_inv in I2. repeat constructor; done.
Qed.

Lemma core_wake_set_ok writable l s b s' :
  act_ok (length (wake_words s)) (wake_act s) -> core_wake_set writable l s = (b, s') ->
  act_ok (length (wake_words s')) (wake_act s') /\ wake_words s' = wake_words s /\
  (b = false -> s' = s) /\ (wake_act s !!! 0%nat ∈ wake_act s' -> head (wake_act s') = Some (wake_act s !!! 0%nat)).
Proof.
  intros H. unfold core_wake_set. cbv zeta. set (p := pick _ [] l).
  assert (Hp : (length p <= WAKE_SLOTS)%nat /\ NoDup p /\ Forall (fun i => (i < length (wake_words s))%nat) p)
    by (apply pick_ok; [cbn; lia|apply base.NoDup_nil_2|constructor]).
  clearbody p. destruct (length p =? 0)%nat eqn:E.
  { intros [= <- <-]. split_and!; try done. intros _. destruct H as [L _ _]. by destruct (wake_act s) as [|x a]; [cbn in L; lia|]. }
  apply Nat.eqb_neq in E. assert (Hk : act_ok (length (wake_words s)) p) by (split; [lia|apply Hp..]).
  apply (keep_first_ok _ (wake_act s !!! 0%nat)) in Hk. destruct (bool_decide _) eqn:Eb.
  { intros [= <- <-]. split_and!; try done. intros _. destruct H as [L _ _]. by destruct (wake_act s) as [|x a]; [cbn in L; lia|]. }
  intros [= <- <-]. assert (Ea : wake_act (wake_save writable (s <| wake_act := keep_first (wake_act s !!! 0%nat) p |> <| wake_phrase := [] |>)) = keep_first (wake_act s !!! 0%nat) p) by (by destruct writable).
  assert (Ew : wake_words (wake_save writable (s <| wake_act := keep_first (wake_act s !!! 0%nat) p |> <| wake_phrase := [] |>)) = wake_words s) by (by destruct writable).
  cbn. rewrite Ea, Ew. split_and!; try done. intros Hin. destruct p as [|x [|y [|]]]; cbn in *; try done.
  - apply list_elem_of_singleton in Hin. by rewrite Hin.
  - destruct (y =? wake_act s !!! 0%nat)%nat eqn:Ey; [apply Nat.eqb_eq in Ey; by rewrite Ey|].
    apply Nat.eqb_neq in Ey. cbn in *. rewrite elem_of_cons, list_elem_of_singleton in Hin. destruct Hin as [->|Hin]; congruence.
  - exfalso. destruct Hp as [Hp _]. unfold WAKE_SLOTS in Hp. cbn in Hp. lia.
Qed.

(** C29. One or two wake words are active, whatever is picked: each of the list, none twice, and
    the one that was first stays first; a pick of none of the list is refused and changes
    nothing. *)
Theorem active_words_ok writable l s b s' :
  act_ok (length (wake_words s)) (wake_act s) -> core_wake_set writable l s = (b, s') ->
  act_ok (length (wake_words s')) (wake_act s') /\ wake_words s' = wake_words s /\
  (b = false -> s' = s) /\ (wake_act s !!! 0%nat ∈ wake_act s' -> head (wake_act s') = Some (wake_act s !!! 0%nat)).
Proof. apply core_wake_set_ok. Qed.

(** ** The file of the pick *)
(** An id that a line of the file holds *)
Definition plain_id (id : bytes) : Prop := id <> [] /\ Forall (fun b => isspace b = false) id /\ (length id <= 63)%nat.
Definition file_of (words : list wake_word) (a : list nat) : bytes := a ≫= fun i => w_id (words !!! i) ++ [10].

Lemma cut_at_line id rest : Forall (fun b => isspace b = false) id -> cut_at isspace (id ++ 10 :: rest) = id.
Proof.
  intros H. unfold cut_at. assert (E : find_index isspace (id ++ 10 :: rest) = Some (length id)); [|by rewrite E, take_app_length].
  induction id as [|b id IH]; [done|]. apply Forall_cons_1 in H as [Hb H]. cbn. by rewrite Hb, IH.
Qed.
Lemma scan_line id rest : plain_id id -> scan_word (id ++ 10 :: rest) = Some (id, 10 :: rest).
Proof.
  intros (Hn & Hs & Hl). unfold scan_word. assert (E : skip_spaces (id ++ 10 :: rest) = id ++ 10 :: rest).
  { destruct id as [|b id]; [done|]. apply Forall_inv in Hs. cbn. by rewrite Hs. }
  cbv zeta. rewrite E, cut_at_line, (firstn_all2 id) by done. destruct (length id =? 0)%nat eqn:E0; [apply Nat.eqb_eq, length_zero_iff_nil in E0; done|].
  by rewrite drop_app_length.
Qed.
Lemma scan_newline s : scan_word (10 :: s) = scan_word s.
Proof. done. Qed.

Lemma find_word words i : NoDup (map w_id words) -> (i < length words)%nat -> wake_word_find (w_id (words !!! i)) words = Some i.
Proof.
  intros Hd Hi. unfold wake_word_find.
  assert (E : find_index (fun w => bool_decide (w_id w = w_id (words !!! i))) words = Some i); [|by rewrite E].
  destruct (lookup_lt_is_Some_2 words i Hi) as [w Hw]. rewrite (list_lookup_total_correct _ _ _ Hw). clear Hi.
  revert i Hw Hd. induction words as [|x words IH]; intros i Hw Hd; [done|]. cbn [map] in Hd. apply list.NoDup_cons in Hd as [Hx Hd].
  destruct i as [|i]; cbn in Hw; [injection Hw as ->; cbn; by rewrite bool_decide_true|]. cbn [find_index].
  rewrite bool_decide_false; [by rewrite (IH i Hw Hd)|]. intros Ex. apply Hx. rewrite Ex. apply list_elem_of_fmap. exists w. split; [done|].
  by eapply list_elem_of_lookup_2.
Qed.

Lemma picks_on_file words a def : NoDup (map w_id words) -> Forall (fun w => plain_id (w_id w)) words -> act_ok (length words) a ->
  read_picks words 0 WAKE_SLOTS [def] (file_of words a) = a.
Proof.
  intros Hd Hp [L D I]. assert (Hi : forall i, (i < length words)%nat -> plain_id (w_id (words !!! i))).
  { intros i Hi. destruct (lookup_lt_is_Some_2 words i Hi) as [w Hw]. rewrite (list_lookup_total_correct _ _ _ Hw). exact (Forall_lookup_1 _ _ _ _ Hp Hw). }
  unfold WAKE_SLOTS in *. destruct a as [|x [|y [|]]]; cbn in L; try lia.
  - apply Forall_inv in I. unfold file_of. cbn [mbind list_bind]. rewrite app_nil_r. cbn [read_picks].
    rewrite scan_line, (find_word _ _ Hd I) by auto. cbn [Nat.eqb read_picks]. done.
  - apply Forall_cons_1 in I as [I1 I2]. apply Forall_inv in I2. apply list.NoDup_cons in D as [D _].
    unfold file_of. cbn [mbind list_bind]. rewrite app_nil_r, <- app_assoc. cbn [app read_picks].
    rewrite scan_line, (find_word _ _ Hd I1) by auto. cbn [Nat.eqb read_picks].
    rewrite scan_newline, scan_line, (find_word _ _ Hd I2) by auto. cbn [Nat.eqb head read_picks].
    rewrite bool_decide_false; [done|]. intros [= ->]. apply D. by left.
Qed.

(** A pick outlives a restart: what is picked and written to its file is active again after
    the list is read anew from the same models, as long as the ids are words of their own. *)
Theorem pick_survives_restart f file s0 l s s' :
  s = wake_words_scan f file s0 -> NoDup (map w_id (wake_words s)) -> Forall (fun w => plain_id (w_id w)) (wake_words s) ->
  act_ok (length (wake_words s)) (wake_act s) -> core_wake_set true l s = (true, s') -> wake_act s' <> wake_act s ->
  let again := wake_words_scan f (fun e => if e =? wake_engine s then wake_file s' else file e) s0 in
  wake_words again = wake_words s /\ wake_act again = wake_act s'.
Proof.
  intros Es Hd Hp Ha Hset Hne again. destruct (core_wake_set_ok true l s true s' Ha Hset) as (Ha' & Ew & _ & _).
  assert (Ef : wake_file s' = Some (file_of (wake_words s) (wake_act s'))).
  { unfold core_wake_set in Hset. cbv zeta in Hset. destruct (_ =? 0)%nat; [done|]. destruct (bool_decide _) eqn:Eb; [by injection Hset as <-|].
    injection Hset as <-. cbn. done. }
  unfold again. rewrite Ef. clear Ef Hset Hne again. generalize dependent (wake_act s'). intros a Ha'. rewrite Ew in Ha'. clear Ew s'.
  unfold wake_words_scan in *. destruct (scan_list f (wake_engine s0)) as [engine [def words]]. cbv zeta in *.
  assert (E1 : wake_words s = imap (full_name engine words) words) by (by rewrite Es).
  assert (E2 : wake_engine s = engine) by (by rewrite Es). clear Es. rewrite E1, E2 in *. cbn. rewrite Z.eqb_refl. split; [done|].
  by apply picks_on_file.
Qed.

(** ** A start, a pick, a restart *)
Definition demo_found : found :=
  mk_found [] (str "alexa-en_us") (str "/models/alexa-en_us/manifest")
           [(str "computer-en_us", str "/models/computer-en_us/manifest", true); (str "echo-de_de", str "/models/echo-de_de/manifest", true)] None.
Definition demo_wakes : wakes := mk_wakes [] [] [] WAKE_AMAZON [] false None None.
Definition demo_start : wakes := wake_words_scan demo_found (fun _ => None) demo_wakes.
Definition demo_pick : wakes := snd (core_wake_set true [2; 0] demo_start).

Lemma active_words_ok_witness : wake_act demo_start = [0]%nat /\ act_ok (length (wake_words demo_pick)) (wake_act demo_pick).
Proof.
  split; [reflexivity|]. refine (proj1 (active_words_ok true [2; 0] demo_start true demo_pick _ _)); [|vm_compute; reflexivity].
  split; [vm_compute; lia|vm_compute; apply list.NoDup_singleton|vm_compute; repeat constructor].
Defined.
Lemma pick_survives_restart_witness :
  wake_act (wake_words_scan demo_found (fun e => if e =? wake_engine demo_start then wake_file demo_pick else None) demo_wakes) = [0; 2]%nat.
Proof.
  assert (Hd : NoDup (map w_id (wake_words demo_start))) by (apply (bool_decide_unpack _); vm_compute; exact I).
  refine (eq_trans (proj2 (pick_survives_restart demo_found (fun _ => None) demo_wakes [2; 0] demo_start demo_pick _ Hd _ _ _ _)) _);
    try (vm_compute; reflexivity).
  - vm_compute. repeat constructor; try discriminate; lia.
  - split; [vm_compute; lia|vm_compute; apply list.NoDup_singleton|vm_compute; repeat constructor].
  - vm_compute. discriminate.
Defined.
