(* ===== verification/Sat.v ===== *)
(** * The satellite: state, what it tells of, runs, mute, Drop In (main.c)
    [sat] is what main.c keeps under core_lock, with the atomics its threads share.  A function
    called with the lock held is a function of [sat]; the calls of the protocol ([pcall]), of
    the light ring and of other parts are appended to [out].  The clocks, the mute latch and
    what other parts answer in a step are its [env]. *)
From S2P Require Import Prelude Cbits Timers WakeWords.

Inductive state := IDLE | LISTENING | THINKING | SPEAKING.
#[export] Instance state_eq_dec : EqDecision state.
Proof. solve_decision. Defined.
Definition eqst (x y : state) : bool :=
  match x, y with IDLE, IDLE | LISTENING, LISTENING | THINKING, THINKING | SPEAKING, SPEAKING => true | _, _ => false end.

(** The patterns of the light ring *)
Inductive pattern :=
  | active_start | active_thinking | active_talking | active_end | ready_timer_short | ready_timer
  | mics_off_on | mics_off_end | anim_start_error_short | setup_mode | factory_reset | do_not_disturb
  | call_outbound_ringing | call_incoming | call_connected | call_connected_end
  | zzz_rainbow | scone_setup | authenticated_setup_mode.
#[export] Instance pattern_eq_dec : EqDecision pattern.
Proof. solve_decision. Defined.

(** enum sound *)
Definition SND_WAKE : Z := 0.
Definition SND_TOUCH : Z := 1.
Definition SND_MICS_OFF : Z := 2.
Definition SND_MICS_ON : Z := 3.
Definition SND_VOLUME : Z := 4.
Definition SND_BT_ON : Z := 5.
Definition SND_BT_OFF : Z := 6.
Definition SND_IDENTIFY : Z := 7.
Definition SND_DROPIN : Z := 8.
Definition SND_CALL_ON : Z := 9.
Definition SND_CALL_OFF : Z := 10.
Definition SND_RING_IN : Z := 11.
Definition SND_RING_OUT : Z := 12.

(** A Drop In's state (DROPIN_IDLE to DROPIN_LIVE) *)
Inductive dropin_st := D_IDLE | D_CALLING | D_RINGING | D_LIVE.
#[export] Instance dropin_st_eq_dec : EqDecision dropin_st.
Proof. solve_decision. Defined.
Definition isd (x y : dropin_st) : bool :=
  match x, y with D_IDLE, D_IDLE | D_CALLING, D_CALLING | D_RINGING, D_RINGING | D_LIVE, D_LIVE => true | _, _ => false end.

(** core_wake_events *)
Inductive wake_event := detected | near_miss | answered_elsewhere | no_speech.
#[export] Instance wake_event_eq_dec : EqDecision wake_event.
Proof. solve_decision. Defined.

(** What goes out as microphone audio: silence, or samples of the capture clock *)
Inductive audio := Zeros (n : Z) | Heard (from to : Z).

(** The calls of struct proto *)
Inductive pcall :=
  | Start (phrase : bytes) | Audio (a : audio) | Stop | Cancel | End | Played | Reply_cut
  | Wake (w : wake_event) | Mute_changed (muted : bool) | Timers_changed
  | Dropin_changed (st : dropin_st) (peer : bytes) | Dropin_result (r : Z)
  | Bt_device (name : bytes) (on : bool) | Button (key : Z) (hold : bool).

Inductive ev :=
  | P (c : pcall)
  | Led (on : bool) (p : pattern)
  | WakeProperty (alarm music sound : bool)
  | AfeListening (on : bool) | AfeStreamStopped | WakeReset
  | MixApply | SendspinPause | A2dpPause | A2dpUnyield | MusicStop
  | DropinHangup | WriteState (file text : bytes).

(** What is set at the start: the protocol's functions that are not NULL, the options *)
Record cfg := mk_cfg {
  core_local_wake : bool; no_earcons : bool; core_sendspin_port : bool;
  has_stop : bool; has_cancel : bool; has_end : bool; has_reply_cut : bool; has_wake : bool; has_played : bool;
  has_mute_changed : bool; has_timers_changed : bool; has_dropin : bool; has_bt_device : bool; has_button : bool }.

(** What a step finds: mono_ms, time, the mute latch, whether a Drop In is on
    (dropin_running and not idle), whether music played and was stopped, whether a state file
    could be written *)
Record env := mk_env { now : Z; wall : Z; latch : bool; call_on : bool; music_paused : bool; file_ok : bool }.

(** The queue of the playback thread *)
Inductive item := Q_START (media : bool) (rate ch : Z) | Q_DATA (d : bytes) | Q_STOP.

Record sat := mk_sat {
  connected : bool; satellite_running : bool; link_paused : bool;
  st : state; state_since : Z; streaming : bool; flush_playback : bool; busy : bool; tts_on : bool; music_on : Z;
  soft_mute : bool; mute_last : bool; dnd : bool;
  barge_in : bool; barge_from : Z; replay_from : Z; replay_whole : bool; run_wake : bool;
  wake_in_request : bool; kw_begin : Z; kw_end : Z; mic_fresh : bool; mic_end_on : bool; talker_from : Z; end_mode : bool;
  wake_cut_ms : Z; last_wake_ms : Z; heard_ms : Z; stop_ms : Z; music_stopped_ms : Z;
  quiet_abort : bool; stop_cut : bool; stop_ends : bool;
  afe_asked : bool; listen_pipe : bool; listen_call : bool; listen_is : option bool;
  run_over : bool; wake_wait : bool; wake_cut : bool; wake_fails : Z;
  use_earcon : bool; sounds_off : Z; sounds_pending : Z; use_bt_announce : bool;
  oobe : bool; dropin_was : dropin_st; dropin_live : bool; dropin_ring : Z; dropin_ring_at : Z;
  tm : timers; ww : wakes; wake_loaded : list bytes; wake_keyword : list bytes; wake_slot_heard : nat;
  cap_n : Z;                                             (* the capture clock, and the ring's: samples so far *)
  queue : list item; play_open : bool; stopping : bool;  (* the playback thread: a stream is open; Q_STOP taken *)
  out : list ev }.

Lemma eqst_spec x y : eqst x y = true <-> x = y.
Proof. by destruct x, y. Qed.
Lemma eqst_refl x : eqst x x = true.
Proof. by apply eqst_spec. Qed.
Lemma isd_spec x y : isd x y = true <-> x = y.
Proof. by destruct x, y. Qed.

Definition emit (e : ev) (s : sat) : sat := s <| out := out s ++ [e] |>.

Section sat.
Context (c : cfg).

Definition if_linked (has : bool) (p : pcall) (s : sat) : sat := if connected s && has then emit (P p) s else s.

(** ** Sounds *)
Definition sound_queue (k : Z) (s : sat) : sat := s <| sounds_pending := Z.lor (sounds_pending s) (Z.shiftl 1 k) |>.
Definition sound_request (k : Z) (s : sat) : sat :=
  if negb (no_earcons c) && (if k =? SND_WAKE then use_earcon s else negb (Z.testbit (sounds_off s) k)) then sound_queue k s else s.
Definition sounds_drop_wake (s : sat) : sat :=
  s <| sounds_pending := Z.ldiff (sounds_pending s) (Z.lor (Z.shiftl 1 SND_WAKE) (Z.shiftl 1 SND_TOUCH)) |>.

(** ** The state *)
Definition state_pattern (x : state) : option pattern :=
  match x with IDLE => None | LISTENING => Some active_start | THINKING => Some active_thinking | SPEAKING => Some active_talking end.
Definition led (on : bool) (p : pattern) (s : sat) : sat := emit (Led on p) s.
Definition led_for (from to : state) (s : sat) : sat :=
  let s := match state_pattern from with Some p => led false p s | None => s end in
  match state_pattern to with
  | Some p => led true p s
  | None => if eqst IDLE from then s else led true active_end s
  end.
Definition core_set_state (e : env) (x : state) (s : sat) : sat :=
  if eqst x (st s) then s else
  let s := if eqst IDLE (st s) && alarm_on (tm s) then led true ready_timer_short s else s in
  (led_for (st s) x s) <| st := x |> <| state_since := wall e |> <| busy := negb (eqst IDLE x) |>.

Definition playback_hint (s : sat) : sat :=
  emit (WakeProperty (alarm_on (tm s)) (negb (music_on s =? 0)) (alarm_on (tm s) || negb (music_on s =? 0) || tts_on s)) s.

(** ** The timers (Timers.v), with the light and the news they cause *)
Definition timer_ev (s : sat) (x : Timers.ev) : sat :=
  match x with
  | Timers.Led on => led on ready_timer s
  | PlaybackHint => playback_hint s
  | TimersChanged => emit (P Timers_changed) s
  end.
Definition timers_do (f : bool -> timers -> timers) (s : sat) : sat :=
  let t := f (connected s && has_timers_changed c) ((tm s) <| Timers.out := [] |>) in
  fold_left timer_ev (Timers.out t) (s <| tm := t <| Timers.out := [] |> |>).
Definition alarm_stop (s : sat) : sat := timers_do core_alarm_stop s.

(** ** The front end *)
Definition afe_done (s : sat) : sat := if afe_asked s then emit AfeStreamStopped (s <| afe_asked := false |>) else s.
Definition listening_apply (s : sat) : sat :=
  let on := listen_pipe s || listen_call s in
  if bool_decide (listen_is s = Some on) then s else emit (AfeListening on) (s <| listen_is := Some on |>).
Definition listening (on : bool) (s : sat) : sat := listening_apply (s <| listen_pipe := on |>).

(** ** A run *)
Definition CAP_RATE : Z := 16000.
Definition LEAD_IN_MS : Z := 800.
Fixpoint lead_in_loop (fuel : nat) (left : Z) (s : sat) : sat :=
  match fuel with
  | O => s
  | S fuel => if 0 <? left then lead_in_loop fuel (left - 1024) (emit (P (Audio (Zeros (Z.min left 1024)))) s) else s
  end.
(** 12800 samples in 13 pieces *)
Definition lead_in (s : sat) : sat := lead_in_loop 13 (LEAD_IN_MS * CAP_RATE / 1000) s.

Definition core_muted (e : env) (s : sat) : bool := soft_mute s || latch e.

Definition pipeline_start (e : env) (from : Z) (s : sat) : sat :=
  let s := s <| run_over := false |> <| wake_wait := false |> <| quiet_abort := false |> <| mic_fresh := true |>
             <| replay_from := from |>
             <| replay_whole := wake_in_request s && negb (from =? 0) && (from =? kw_end s) && (kw_begin s <? kw_end s) |>
             <| talker_from := 0 |> <| mic_end_on := false |> <| run_wake := negb (from =? 0) |> in
  let s := (emit (P (Start (core_wake_phrase (ww s)))) s) <| streaming := true |> in
  let s := if core_local_wake c then lead_in s else s in
  let s := listening (core_local_wake c) s in
  if core_local_wake c then core_set_state e LISTENING s else s.

Definition wake_told (e : env) (w : wake_event) (s : sat) : sat :=
  if negb (core_muted e s) then if_linked (has_wake c) (Wake w) s else s.

(** Home Assistant heard the wake word in the stream *)
Definition core_remote_wake (e : env) (s : sat) : sat :=
  if core_local_wake c || negb (streaming s) then s else
  let s :=
    if eqst SPEAKING (st s) then
      let s := s <| wake_cut_ms := now e |> <| wake_cut := true |> <| wake_wait := false |> <| barge_in := false |> <| barge_from := 0 |>
                 <| flush_playback := true |> in
      if has_reply_cut c then emit (P Reply_cut) s else s
    else s in
  core_set_state e LISTENING (listening true (sound_request SND_WAKE (wake_told e detected (s <| run_wake := true |>)))).

Definition WAKE_FAILS_MAX : Z := 3.
Definition wake_listen (e : env) (s : sat) : sat :=
  if core_local_wake c || negb (run_over s) || negb (eqst SPEAKING (st s)) || streaming s || flush_playback s
     || (WAKE_FAILS_MAX <=? wake_fails s) || negb (connected s) || negb (satellite_running s) then s
  else (pipeline_start e 0 s) <| wake_wait := true |>.

(** The mic stream to the pipeline has stopped *)
Definition mic_stopped (s : sat) : sat := afe_done (listening false s).
Definition core_mic_off (s : sat) : sat := mic_stopped (s <| streaming := false |>).

Definition core_wake_run_ended (failed : bool) (s : sat) : bool * sat :=
  if negb (wake_wait s) || negb (eqst SPEAKING (st s)) then (false, s)
  else
    let s := (mic_stopped (s <| streaming := false |>)) <| wake_wait := false |> in
    (true, if failed then s <| wake_fails := wake_fails s + 1 |> else s).
Definition core_run_over (e : env) (s : sat) : sat := wake_listen e (s <| run_over := true |>).

Definition core_restart_after (s : sat) : sat := s <| barge_in := true |> <| barge_from := 0 |>.

Definition core_pipeline_finish (e : env) (s : sat) : sat :=
  let s := s <| wake_fails := 0 |> in
  let was := streaming s in
  let s := s <| streaming := false |> in
  let s := if was && connected s then
             if wake_wait s && has_cancel c then emit (P Cancel) s
             else if has_stop c then emit (P Stop) s else s
           else s in
  let s := core_set_state e IDLE (mic_stopped s) in
  let s := if 3000 <? now e - last_wake_ms s then emit WakeReset s else s in
  let s := if connected s then s else s <| barge_in := false |> in
  if (barge_in s || negb (core_local_wake c)) && satellite_running s && connected s then
    let s' := if barge_in s then sound_request SND_WAKE s else s in
    pipeline_start e (if barge_in s then barge_from s else 0) (s' <| barge_in := false |> <| barge_from := 0 |>)
  else s.

(** ** The link *)
Definition write_state (e : env) (file text : bytes) (s : sat) : sat := emit (WriteState file text) s.
Definition adopted (e : env) (s : sat) : sat :=
  if negb (oobe s) then s else
  let s := write_state e (str "adopted") (str "ha" ++ [10]) s in
  if file_ok e then led false setup_mode (s <| oobe := false |>) else s.
Definition core_link (e : env) (up ready : bool) (s : sat) : sat :=
  let was := satellite_running s in
  let s := s <| connected := up |> <| satellite_running := up && ready |> <| link_paused := false |> in
  let s := if satellite_running s then adopted e s else s in
  if negb (satellite_running s) then core_pipeline_finish e s
  else if negb was && negb (core_local_wake c) && eqst IDLE (st s) then pipeline_start e 0 s else s.
Definition core_link_pause (e : env) (s : sat) : sat := (core_link e true false s) <| link_paused := true |>.

Definition core_error (e : env) (s : sat) : sat :=
  if quiet_abort s then s <| quiet_abort := false |>
  else if eqst SPEAKING (st s) then s
  else core_pipeline_finish e (led true anim_start_error_short s).
Definition core_no_speech (e : env) (s : sat) : sat :=
  if quiet_abort s then s <| quiet_abort := false |>
  else
    let s := if run_wake s then wake_told e no_speech s else s in
    if eqst SPEAKING (st s) then s else core_pipeline_finish e s.

(** The talker finished: the end of the request heard here *)
Definition heard_end (e : env) (s : sat) : sat :=
  let s := core_mic_off (emit (P End) s) in
  if eqst LISTENING (st s) then core_set_state e THINKING s else s.

(** Ends the run without anything of it carried out *)
Definition quiet_cancel (e : env) (s : sat) : sat :=
  (core_pipeline_finish e (emit (P Cancel) (s <| barge_in := false |> <| streaming := false |>))) <| quiet_abort := true |>.

(** ** Mute *)
Definition mute_update (e : env) (was sound : bool) (s : sat) : sat :=
  let n := core_muted e s in
  if Bool.eqb n was then s else
  let s := if sound then sound_request (if n then SND_MICS_OFF else SND_MICS_ON) s else s in
  let s := if n then led true mics_off_on (if eqst LISTENING (st s) then core_pipeline_finish e s else s)
           else led true mics_off_end (led false mics_off_on s) in
  if_linked (has_mute_changed c) (Mute_changed n) s.
Definition core_soft_mute (e : env) (set : option bool) (s : sat) : sat :=
  match set with
  | Some b =>
      if Bool.eqb b (soft_mute s) then s else
      let was := core_muted e s in
      let s := mute_update e was (satellite_running s) (s <| soft_mute := b |>) in
      if negb b && latch e then if_linked (has_mute_changed c) (Mute_changed true) s else s
  | None => s
  end.
(** [last] and the reported latch *)
Definition mute_latch (e : env) (muted sound : bool) (s : sat) : sat :=
  let was := mute_last s || soft_mute s in
  let s := s <| mute_last := muted |> in
  mute_update e was sound (if negb muted && soft_mute s then s <| soft_mute := false |> else s).
End sat.
