(* ===== verification/SatTalk.v ===== *)
(** * The satellite: wake word, button, "stop", Drop In, replies, the capture thread (main.c) *)
From S2P Require Import Prelude Cbits Timers WakeWords Sat.

Section talk.
Context (c : cfg).

(** ** What starts and cuts a run *)

(** The wake word just heard has had its "stop" *)
Definition stop_heard (s : sat) : bool := negb (heard_ms s =? 0) && (heard_ms s <=? stop_ms s) && (stop_ms s - heard_ms s <? 4000).
Definition stopped_now (s : sat) : bool := stop_heard s && (stop_cut s || stop_ends s).
Definition error_shows (e : env) (s : sat) : bool :=
  negb (core_muted e s) && negb (link_paused s) && negb (oobe s) && eqst IDLE (st s)
  && negb (alarm_on (tm s)) && isd D_IDLE (dropin_was s).
Definition cut_reply (s : sat) : sat := s <| barge_in := false |> <| flush_playback := true |>.

(** [touch]: the action button rather than the wake word, which ended at [from] *)
Definition trigger (e : env) (touch : bool) (from : Z) (s : sat) : sat :=
  if touch && alarm_on (tm s) then (alarm_stop c s) <| wake_cut_ms := now e |>
  else if (eqst THINKING (st s) || (touch && eqst LISTENING (st s))) && connected s && has_cancel c then
    let s := quiet_cancel c e s in
    if negb touch && stopped_now s then s
    else if negb touch && eqst IDLE (st s) && satellite_running s && negb (core_muted e s) then
      pipeline_start c e from (sound_request c SND_WAKE (s <| wake_cut_ms := now e |>))
    else s
  else if negb (connected s) || negb (satellite_running s) || core_muted e s then
    if error_shows e s then led true anim_start_error_short s else s
  else if eqst IDLE (st s) && negb touch && stopped_now s then s
  else if eqst IDLE (st s) then
    let s := if alarm_on (tm s) || negb (isd D_IDLE (dropin_was s)) then s <| wake_cut_ms := now e |> else s in
    let s := if touch then s <| ww := (ww s) <| wake_phrase := [] |> |> else s in
    pipeline_start c e (if touch then 0 else from) (sound_request c (if touch then SND_TOUCH else SND_WAKE) s)
  else if eqst SPEAKING (st s) && negb touch && stopped_now s then cut_reply s
  else if eqst SPEAKING (st s) && negb (flush_playback s) then
    s <| wake_cut_ms := now e |> <| barge_in := true |> <| barge_from := from |> <| flush_playback := true |>
  else s.

Definition music_stop (e : env) (s : sat) : bool * sat :=
  let s := emit MusicStop s in
  if music_paused e then (true, s <| music_stopped_ms := now e |>) else (false, s).

(** The engine's "stop", under the lock *)
Definition stop_locked (e : env) (s : sat) : sat :=
  let s := s <| stop_ms := now e |> in
  let '(ended, s) := if alarm_on (tm s) then (true, alarm_stop c s) else (call_on e, s) in
  let s := s <| stop_cut := ended || eqst SPEAKING (st s) || eqst THINKING (st s) |> in
  if eqst SPEAKING (st s) then (sounds_drop_wake (s <| barge_in := false |>)) <| flush_playback := true |>
  else if eqst LISTENING (st s) && (now e - wake_cut_ms s <? 4000) then
    let s := sounds_drop_wake (s <| stop_cut := true |>) in
    if connected s && has_cancel c then quiet_cancel c e s
    else (core_pipeline_finish c e (s <| barge_in := false |>)) <| quiet_abort := true |>
  else
    let quiet := eqst LISTENING (st s) && stop_ends s && stop_heard s && connected s && has_cancel c in
    let s := if negb ended && negb (music_on s =? 0) then snd (music_stop e s) else s in
    if quiet then quiet_cancel c e (sounds_drop_wake s) else s.
(** The Drop In is hung up before the lock is taken *)
Definition stop_word (e : env) (s : sat) : sat := stop_locked e (if call_on e then emit DropinHangup s else s).

(** ** What was said *)
Definition stops : list bytes :=
  [str "stop"; str "stopp"; str "stoppen"; str "stoppa"; str "halt"; str "arrête"; str "arrete"; str "basta"; str "para"; str "pare"].
Definition hangups : list bytes :=
  [str "hangup"; str "endcall"; str "endthecall"; str "enddropin"; str "auflegen"; str "legauf"; str "beenden"; str "anrufbeenden";
   str "dropinbeenden"; str "gesprächbeenden"; str "raccroche"; str "raccrocher"; str "cuelga"; str "colgar";
   str "riattacca"; str "riaggancia"; str "ophangen"; str "hangop"; str "legop"].

(** Space, tab, stops, marks and quotes, as the bytes of the string strchr searches *)
Definition punctuation : bytes := [32; 9; 46; 44; 33; 63; 0xC2; 0xA1; 0xC2; 0xBF; 34; 39].
Definition plain_word (text : bytes) : bytes := map tolower (take 31 (filter (fun b => b ∉ punctuation) text)).
Definition is_one_of (w : bytes) (l : list bytes) : bool := bool_decide (w ∈ l).

(** The word without the wake word in front of it *)
Definition without_wake (k w : bytes) : bytes :=
  if (0 <? length k)%nat && (length k <? length w)%nat && bool_decide (take (length k) w = k) then drop (length k) w else w.

Definition cancel_run (e : env) (s : sat) : sat :=
  let s := if connected s && has_cancel c then
             (emit (P Cancel) (s <| barge_in := false |> <| streaming := false |>)) <| quiet_abort := true |>
           else s in
  core_pipeline_finish c e s.

(** true: the run is over, nothing more comes of the text *)
Definition core_transcript (e : env) (text : bytes) (s : sat) : bool * sat :=
  let said := plain_word text in
  let k := plain_word (wake_phrase_bare 64 (ww s)) in
  let w := without_wake k said in
  if replay_whole s && (0 <? length k)%nat && bool_decide (said = k) then
    let s := if run_wake s then wake_told c e no_speech s else s in
    (true, if connected s && has_cancel c then quiet_cancel c e s else core_pipeline_finish c e s)
  else if call_on e && (is_one_of w stops || is_one_of w hangups) then
    (true, cancel_run e (emit DropinHangup s))
  else
    let hit := is_one_of w stops in
    if alarm_on (tm s) then
      if negb hit && negb (timer_stop_any (tm s) && (0 <? length w)%nat) then (false, s)
      else (true, cancel_run e (alarm_stop c s))
    else
      let cut := hit && (now e - wake_cut_ms s <? 10000) in
      if negb hit then (false, s)
      else if cut then (true, cancel_run e s)
      else
        let '(paused, s) := music_stop e s in
        if paused || (negb (music_stopped_ms s =? 0) && (now e - music_stopped_ms s <? 10000)) then (true, cancel_run e s)
        else (false, s).

(** ** The wake word engine (on_wake, on_near_miss) *)

(** strcasecmp *)
Definition same_word (a b : bytes) : bool := bool_decide (map tolower a = map tolower b).
(** A keyword of slot [slot] is passed over: another word than the one picked, or the other
    side of a Drop In talks ([far]) *)
Definition not_ours (slot : nat) (keyword : bytes) (s : sat) : bool :=
  let k := wake_keyword s !!! slot in
  (0 <? length k)%nat && negb (same_word keyword k).
Definition wake_tell (e : env) (w : wake_event) (s : sat) : sat := wake_told c e w s.

(** The section under the lock of a wake word of slot [slot] over samples [b] to [e_] *)
Definition wake_noted (slot : nat) (b e_ : Z) (s : sat) : sat :=
  s <| heard_ms := last_wake_ms s |> <| kw_begin := b |> <| kw_end := e_ |>
    <| ww := (ww s) <| wake_phrase := wake_loaded s !!! slot |> |>.
(** [round]: arbitration runs; the detection is then left to the capture thread (true) *)
Definition on_wake (e : env) (round far : bool) (slot : nat) (keyword : bytes) (b e_ : Z) (s : sat) : bool * sat :=
  if negb (core_local_wake c) then (false, s)
  else if not_ours slot keyword s && negb (same_word keyword (str "STOP")) then (false, s)
  else if dropin_live s && far then (false, s)
  else if same_word keyword (str "STOP") then (false, if (slot =? wake_slot_heard s)%nat then stop_word e s else s)
  else
    let s := (wake_tell e detected s) <| last_wake_ms := now e |> <| wake_slot_heard := slot |> in
    let s := wake_noted slot b e_ s in
    if round then (true, s) else (false, trigger e false e_ s).
Definition on_near_miss (e : env) (far : bool) (slot : nat) (keyword : bytes) (s : sat) : sat :=
  if negb (core_local_wake c) || same_word keyword (str "STOP") || not_ours slot keyword s then s
  else if dropin_live s && far then s
  else wake_tell e near_miss s.

(** The round is over: the winner answers, the others tell *)
Definition answer (e : env) (from : Z) (s : sat) : sat :=
  let s := trigger e false from s in
  if streaming s then s else afe_done s.
Definition round_over (e : env) (won : bool) (from : Z) (s : sat) : sat :=
  if won then answer e from s else wake_tell e answered_elsewhere (afe_done s).

(** Whether this Echo takes part in a round (wake_heard), and with what priority *)
Definition can_answer (e : env) (s : sat) : bool := alarm_on (tm s) || (connected s && satellite_running s && negb (core_muted e s)).
Definition claim_prio (s : sat) : Z := if alarm_on (tm s) || negb (eqst IDLE (st s)) then 2 else 0.

(** ** Drop In *)
Definition dropin_led (d : dropin_st) : option pattern :=
  match d with D_IDLE => None | D_CALLING => Some call_outbound_ringing | D_RINGING => Some call_incoming | D_LIVE => Some call_connected end.
Definition core_dropin (e : env) (d : dropin_st) (peer : bytes) (outgoing : bool) (s : sat) : sat :=
  let was := dropin_was s in
  let s := s <| dropin_was := d |> in
  let s :=
    if isd d was then s else
    let s := match dropin_led was with Some p => led false p s | None => s end in
    let s := match dropin_led d with
             | Some p => led true p s
             | None => if isd D_LIVE was then led true call_connected_end s else s
             end in
    let s := s <| dropin_ring_at := now e + (if isd D_CALLING d then 1000 else 0) |>
               <| dropin_ring := match d with D_RINGING => SND_RING_IN | D_CALLING => SND_RING_OUT | _ => -1 end |> in
    let s := match d with
             | D_LIVE => sound_queue (if outgoing || isd D_RINGING was then SND_CALL_ON else SND_DROPIN) s
             | D_IDLE => sound_queue SND_CALL_OFF s
             | _ => s
             end in
    let s := emit MixApply (s <| dropin_live := isd D_LIVE d |>) in
    let s := if isd D_LIVE d then s else listening_apply (s <| listen_call := false |>) in
    if_linked (has_dropin c) (Dropin_changed d peer) s in
  let s := if isd D_LIVE d && negb (isd D_LIVE was) then
             emit A2dpPause (if core_sendspin_port c then emit SendspinPause s else s) else s in
  if isd D_IDLE d && isd D_LIVE was then emit A2dpUnyield s else s.
Definition core_dropin_result (r : Z) (here : bool) (s : sat) : sat :=
  if_linked (has_dropin c) (Dropin_result r) (if here then sound_queue SND_CALL_OFF s else s).
Definition core_dropin_listen (on : bool) (s : sat) : sat :=
  if negb (Bool.eqb on (listen_call s)) && (negb on || dropin_live s) then listening_apply (s <| listen_call := on |>) else s.
(** Why a call is refused: 1, the microphones are off; 2, do not disturb *)
Definition core_dropin_refusal (e : env) (incoming : bool) (s : sat) : option Z :=
  if latch e || soft_mute s then Some 1 else if incoming && dnd s then Some 2 else None.

(** ** Music: a source of it starts or stops *)
Definition MUSIC_SENDSPIN : Z := 1.
Definition MUSIC_BLUETOOTH : Z := 2.
Definition core_music (source : Z) (on : bool) (s : sat) : sat :=
  let was := music_on s in
  let s := s <| music_on := if on then Z.lor was source else Z.ldiff was source |> in
  let s := if on && (Z.land was source =? 0) then
             let s := if (source =? MUSIC_BLUETOOTH) && negb (Z.land was MUSIC_SENDSPIN =? 0) && core_sendspin_port c then emit SendspinPause s else s in
             if (source =? MUSIC_SENDSPIN) && negb (Z.land was MUSIC_BLUETOOTH =? 0) then emit A2dpPause s else s
           else s in
  let s := if negb on && (source =? MUSIC_SENDSPIN) && negb (Z.land was MUSIC_SENDSPIN =? 0) then emit A2dpUnyield s else s in
  if Bool.eqb (was =? 0) (music_on s =? 0) then s else playback_hint s.

(** ** Small calls *)
Definition core_bt_device (name : bytes) (on : bool) (s : sat) : sat :=
  if use_bt_announce s then
    if_linked (has_bt_device c) (Bt_device name on) (sound_request c (if on then SND_BT_ON else SND_BT_OFF) s)
  else s.
Definition core_bt_pairing (on : bool) (s : sat) : sat := led on scone_setup s.
Definition core_dnd (set : bool) (s : sat) : sat :=
  if Bool.eqb set (dnd s) then s else
  let s := s <| dnd := set |> in
  if set && satellite_running s then led true do_not_disturb s else s.
Definition core_reset (e : env) (why : bytes) (s : sat) : sat :=
  let s := write_state e (str "reset") (strcap 48 (why ++ [10])) s in
  if file_ok e then led true factory_reset s else s.
Definition core_reboot (e : env) (why : bytes) (s : sat) : sat := write_state e (str "reboot") (strcap 48 (why ++ [10])) s.
Definition on_hold (e : env) (stage : Z) (s : sat) : sat :=
  if stage =? 1 then led true factory_reset s else if stage =? 0 then led false factory_reset s
  else core_reset e (str "action button held 10 s") s.
Definition core_wake_sound (set : bool) (s : sat) : sat := s <| use_earcon := set |>.
Definition core_sound_on (k : Z) (set : bool) (s : sat) : sat :=
  s <| sounds_off := if set then Z.ldiff (sounds_off s) (Z.shiftl 1 k) else Z.lor (sounds_off s) (Z.shiftl 1 k) |>.
Definition core_wake_in_request (set : bool) (s : sat) : sat := s <| wake_in_request := set |>.
Definition core_stop_ends_listening (set : bool) (s : sat) : sat := s <| stop_ends := set |>.

(** The action button: what takes the press first, by what the other parts answer *)
Record taken := mk_taken { web_approve : bool; improv_authorize : bool; dropin_button : bool; music_button : bool }.
Definition on_action (t : taken) (s : sat) : bool * sat :=
  if web_approve t || improv_authorize t then (false, s) else
  let s := if_linked (has_button c) (Button 0 false) s in
  if dropin_button t then (false, s) else
  let busy := eqst LISTENING (st s) || eqst THINKING (st s) in
  if negb busy && music_button t then (false, s) else (true, s).
(** A press that nothing took, when the capture thread finds it (trigger_pending) *)
Definition action (e : env) (t : taken) (s : sat) : sat :=
  let '(talk, s) := on_action t s in if talk then trigger e true 0 s else s.

(** ** Replies: the queue and its thread *)
Definition q_push (i : item) (s : sat) : sat := s <| queue := queue s ++ [i] |>.
Definition core_tts_begin (e : env) (rate ch : Z) (media : bool) (s : sat) : sat :=
  let s := if wake_wait s then s else mic_stopped (s <| streaming := false |>) in
  wake_listen c e (q_push (Q_START media rate ch) (core_set_state e SPEAKING s)).
Definition core_tts_data (pcm : bytes) (s : sat) : sat := if flush_playback s then s else q_push (Q_DATA pcm) s.
Definition core_tts_end (s : sat) : sat := q_push Q_STOP s.
Definition core_tts_abandoned (s : sat) : sat := s <| wake_cut := false |>.
Definition core_tts_flush (s : sat) : sat := s <| flush_playback := true |>.
Definition item_bytes (i : item) : Z := match i with Q_DATA d => Z.of_nat (length d) | _ => 0 end.
Definition core_tts_queued (s : sat) : Z := foldr Z.add 0 (map item_bytes (queue s)).

(** What the speaker gets *)
Inductive play := Open (media : bool) (rate ch : Z) | Write (d : bytes) | Close (drain : bool).

(** One item; [opens], [writes]: whether the back end takes the stream, the samples.  Q_STOP
    waits for the stream to play out, then takes the lock ([playback_stopped]) *)
Definition playback_item (opens writes : bool) (s : sat) : list play * sat :=
  if stopping s then ([], s) else
  match queue s with
  | [] => ([], s)
  | i :: rest =>
      let s := s <| queue := rest |> in
      let closed drain := if play_open s then [Close drain] else [] in
      match i with
      | Q_STOP => (closed true, playback_hint (s <| play_open := false |> <| tts_on := false |>) <| stopping := true |>)
      | _ =>
          if flush_playback s then (closed false, s <| play_open := false |>) else
          match i with
          | Q_START media rate ch =>
              (closed true ++ [Open media rate ch],
               if opens then playback_hint (s <| play_open := true |> <| tts_on := true |>) else s <| play_open := false |>)
          | Q_DATA d =>
              if play_open s then (Write d :: (if writes then [] else [Close false]), if writes then s else s <| play_open := false |>)
              else ([], s)
          | Q_STOP => ([], s)
          end
      end
  end.
Definition playback_stopped (e : env) (s : sat) : sat :=
  if negb (stopping s) then s else
  let s := s <| stopping := false |> <| flush_playback := false |> in
  let s := if has_played c then emit (P Played) s else s in
  if wake_cut s then s <| wake_cut := false |> else core_pipeline_finish c e s.

(** ** The capture thread, a block of the microphone *)
Definition RING_SAMPLES : Z := 64000.

(** A block read: the clock goes on, and with the wake word here the ring holds it *)
Definition captured (n : Z) (s : sat) : sat := s <| cap_n := cap_n s + n |>.

Definition send_mic (from to : Z) (s : sat) : sat :=
  let s := if mic_fresh s then s <| mic_fresh := false |> <| mic_end_on := has_end c && end_mode s |> else s in
  emit (P (Audio (Heard from to))) s.
(** Samples [from] to [to], as far as the ring has them, in pieces cut at the ring's end *)
Definition stream_ring (from to : Z) (s : sat) : sat :=
  let from := if (RING_SAMPLES <? cap_n s) && (from <? cap_n s - RING_SAMPLES) then cap_n s - RING_SAMPLES else from in
  let to := if cap_n s <? to then cap_n s else to in
  let mid := from + (RING_SAMPLES - from mod RING_SAMPLES) in
  if from <? to then
    if mid <? to then send_mic mid to (send_mic from mid s) else send_mic from to s
  else s.

(** [tail]: where the wake word's tail ends, once that is known; [ended]: the end of the
    request was heard in this block *)
Definition stream_block (e : env) (n : Z) (tail : option Z) (ended : bool) (s : sat) : sat :=
  if negb (streaming s) then s
  else if negb (connected s) then s <| replay_from := 0 |>
  else
    let at_ := cap_n s - n in
    let s :=
      if replay_from s =? 0 then send_mic at_ (cap_n s) s
      else match tail with
           | None => s
           | Some from =>
               let s := s <| talker_from := from |> in
               let from := if replay_whole s then (if CAP_RATE / 10 <? kw_begin s then kw_begin s - CAP_RATE / 10 else 0) else from in
               (stream_ring from (cap_n s) s) <| replay_from := 0 |>
           end in
    if ended && mic_end_on s && streaming s then heard_end e s else s.

Definition PIPELINE_TIMEOUT : Z := 30.
Definition pipeline_timeout (e : env) (s : sat) : sat :=
  if core_local_wake c && (eqst LISTENING (st s) || eqst THINKING (st s)) && (PIPELINE_TIMEOUT <? wall e - state_since s)
  then core_pipeline_finish c e s else s.
End talk.
