(* ===== verification/SatHa.v ===== *)
(** * The satellite and Home Assistant: runs, replies, announcements (proto_esphome.c)
    [ha] is what proto_esphome.c keeps of a run and of the media it plays, with the threads that
    fetch them ([job]).  [world] joins it with [sat]: a call of the core takes effect on [sat],
    and the calls of struct proto it makes on [ha] ([on_core]); the core reads nothing of [ha],
    so taking them one after the other once it returns is the same.  What is sent to Home
    Assistant is appended to [sent].  How a URL is fetched is a thread's steps. *)
From S2P Require Import Prelude Cbits Timers WakeWords EspPb Sat SatTalk.

Definition EV_ERROR : Z := 0.
Definition EV_RUN_START : Z := 1.
Definition EV_RUN_END : Z := 2.
Definition EV_STT_START : Z := 3.
Definition EV_STT_END : Z := 4.
Definition EV_INTENT_END : Z := 6.
Definition EV_TTS_END : Z := 8.
Definition EV_WAKE_END : Z := 10.
Definition EV_VAD_END : Z := 12.
Definition EV_INTENT_PROGRESS : Z := 100.
Definition VA_REQUEST : Z := 90.
Definition VA_AUDIO : Z := 106.
Definition VA_ANNOUNCE_FINISHED : Z := 120.
Definition MP_CMD_STOP : Z := 2.

Inductive msg := Va (type : Z) (b : bytes) | Va_audio (a : audio) | Mp_state (playing : bool) | Wake_event (w : wake_event) | Bt_ask (m : bytes).

(** A thread of media_thread: before URL [i]; asking for it; fetched, its audio not begun;
    playing; then Q_STOP to come; over *)
Inductive phase := Next (i : nat) | Asked (i : nat) | Fetched (i : nat) | Playing (i : nat) | Ending | Gone.
Record job := mk_job {
  url : bytes * bytes; announce : bool; start_conversation : bool; media : bool;
  fd : bool; aborted : bool; ok : bool; began : bool; ph : phase }.
#[export] Instance job_inhabited : Inhabited job := populate (mk_job ([], []) false false false false false false false Gone).

Record ha := mk_ha {
  cancelled : Z; tts_expected : bool; tts_url : bytes; announcing : bool; media_playing : bool; media_busy : bool;
  media_cur : option nat; jobs : list job;
  bt_next : bytes; bt_next_ms : Z; bt_asked_ms : Z; bt_free_ms : Z;
  sent : list msg }.
Definition ha0 : ha := mk_ha 0 false [] false false false None [] [] 0 0 0 [].
Record world := mk_world { core : sat; hap : ha }.

Section ha.
Context (c : cfg).

Definition send (m : msg) (h : ha) : ha := h <| sent := sent h ++ [m] |>.
Definition announce_finished (e : env) (success : bool) (h : ha) : ha :=
  send (Va VA_ANNOUNCE_FINISHED (pb_p (pb_uint 1 (if success then 1 else 0) (PB 8)))) h.
Definition announce_done (e : env) (h : ha) : ha := h <| bt_asked_ms := 0 |> <| bt_free_ms := now e + 1000 |>.
Definition set_playing (b : bool) (h : ha) : ha := send (Mp_state b) (h <| media_playing := b |>).

(** ** Called by the core *)
Definition FLOAT_1 : Z := 0x3f800000.
Definition start (phrase : bytes) (h : ha) : ha :=
  let h := h <| tts_expected := false |> <| tts_url := [] |> <| cancelled := if cancelled h =? 0 then 0 else 2 |> in
  let b := pb_uint 3 (if core_local_wake c then 1 else 3) (pb_uint 1 1 (PB 96)) in
  let settings := pb_p (pb_float 3 FLOAT_1 (PB 8)) in
  let b := pb_raw settings (pb_varint (Z.of_nat (length settings)) (pb_varint (Z.lor (Z.shiftl 4 3) 2) b)) in
  let b := if core_local_wake c && (0 <? length phrase)%nat then pb_str 5 phrase b else b in
  send (Va VA_REQUEST (pb_p b)) h.
Definition end_audio (h : ha) : ha := send (Va VA_AUDIO (pb_p (pb_uint 2 1 (PB 8)))) h.
Definition stop (h : ha) : ha := send (Va VA_REQUEST []) (end_audio h).

Definition upd_job (i : nat) (f : job -> job) (h : ha) : ha := h <| jobs := alter f i (jobs h) |>.
(** A shut socket ends the fetch's reads; the fetch is the thread's, so only the marks matter *)
Definition cancel (h : ha) : ha :=
  let h := send (Va VA_REQUEST []) h <| cancelled := 1 |> in
  match media_cur h with
  | Some i =>
      if tts_expected h then
        (set_playing false (upd_job i (fun j => j <| aborted := true |>) h <| media_cur := None |>)) <| media_busy := false |>
      else h
  | None => h
  end.
Definition played (e : env) (h : ha) : ha :=
  let h := if announcing h then announce_done e ((announce_finished e true h) <| announcing := false |>) else h in
  let h := if media_playing h then set_playing false h else h in
  h <| media_busy := false |> <| tts_expected := false |>.

(** *** Connection messages of Bluetooth speakers: one request at a time, the latest wins.
    [listener]: a client takes actions *)
Definition bt_ask (e : env) (listener : bool) (m : bytes) (h : ha) : ha :=
  if listener then (send (Bt_ask m) h) <| bt_asked_ms := now e |> else h.
Definition bt_try (e : env) (listener : bool) (h : ha) : ha :=
  if (length (bt_next h) =? 0)%nat || announcing h || (now e <? bt_free_ms h)
     || (negb (bt_asked_ms h =? 0) && (now e - bt_asked_ms h <? 15000)) then h
  else (if now e - bt_next_ms h <? 30000 then bt_ask e listener (bt_next h) h else h) <| bt_next := [] |>.
Definition bt_device (e : env) (listener : bool) (m : bytes) (h : ha) : ha :=
  bt_try e listener (h <| bt_next := strcap 160 m |> <| bt_next_ms := now e |>).

(** [message]: the words of the language set, for a name and whether it came or went *)
Definition ha_ev (message : bytes -> bool -> bytes) (listener : bool) (e : env) (h : ha) (x : ev) : ha :=
  match x with
  | P (Start phrase) => start phrase h
  | P (Audio a) => send (Va_audio a) h
  | P Stop => stop h
  | P Cancel => cancel h
  | P End => end_audio h
  | P Played => played e h
  | P (Wake w) => send (Wake_event w) h
  | P (Bt_device name on) => bt_device e listener (message name on) h
  | _ => h
  end.
Context (message : bytes -> bool -> bytes) (listener : bool).
Definition on_core (e : env) (f : sat -> sat) (w : world) : world :=
  let s := f (core w) in
  mk_world s (fold_left (ha_ev message listener e) (drop (length (out (core w))) (out s)) (hap w)).
Definition on_ha (f : ha -> ha) (w : world) : world := mk_world (core w) (f (hap w)).

(** ** What Home Assistant reports of a run *)
Record va_event := mk_event { ty : Z; text : bytes; said : bytes; code : bytes; cont : bool; stream_now : bool; reply_url : option bytes }.

Definition c_str (s : bytes) : bytes := cut_at (Z.eqb 0) s.
Definition key_value (d : bytes) : bytes * bytes :=
  fold_left (fun kv g =>
    if (field g =? 1) && bool_decide (is_Some (data g)) then (c_str (pbf_str g 48), snd kv)
    else if (field g =? 2) && bool_decide (is_Some (data g)) then (fst kv, c_str (pbf_str g 1024)) else kv) (pb_fields d) ([], []).
Definition event_field (x : va_event) (f : pbf) : va_event :=
  if field f =? 1 then x <| ty := u32 (pbf_v f) |>
  else if (field f =? 2) && (wire f =? 2) then
    let '(k, v) := key_value (default [] (data f)) in
    let x := if is_one_of k [str "text"; str "message"; str "code"] then x <| text := take 511 (text x ++ v ++ [32]) |> else x in
    let x := if bool_decide (k = str "code") then x <| code := strcap 48 v |> else x in
    let x := if bool_decide (k = str "text") then x <| said := v |> else x in
    let x := if bool_decide (k = str "continue_conversation") && bool_decide (v = str "1") then x <| cont := true |> else x in
    let x := if bool_decide (k = str "tts_start_streaming") && bool_decide (v = str "1") then x <| stream_now := true |> else x in
    if bool_decide (k = str "url") then x <| reply_url := Some v |> else x
  else x.
Definition event_of (p : bytes) : va_event := fold_left event_field (pb_fields p) (mk_event 0 [] [] [] false false None).

(** One medium at a time; [is_reply]: the run goes on beside it *)
Definition media_start (e : env) (url0 url1 : bytes) (ann conv is_reply med : bool) (w : world) : world :=
  if media_busy (hap w) then
    if ann then on_ha (announce_finished e false) w else w
  else
    let w := on_ha (fun h => h <| media_busy := true |>) w in
    let w := if negb is_reply && (eqst LISTENING (st (core w)) || eqst THINKING (st (core w)))
             then on_core e (core_pipeline_finish c e) w else w in
    on_ha (fun h =>
      set_playing true
        (h <| jobs := jobs h ++ [mk_job (strcap 1024 url0, strcap 1024 url1) ann conv med false false false false (Next 0)] |>
           <| media_cur := Some (length (jobs h)) |> <| announcing := ann |>)) w.

(** The end of what is said: thinking from here *)
Definition think (e : env) (s : sat) : sat :=
  let s := core_mic_off s in if eqst LISTENING (st s) then core_set_state e THINKING s else s.

Definition tts_end (e : env) (w : world) : world :=
  if negb (tts_expected (hap w)) && (0 <? length (tts_url (hap w)))%nat then
    let w := on_core e core_mic_off (on_ha (fun h => h <| tts_expected := true |>) w) in
    media_start e [] (tts_url (hap w)) true false true false w
  else w.
Definition run_end (e : env) (w : world) : world :=
  if negb (tts_expected (hap w)) && negb (eqst SPEAKING (st (core w))) then on_core e (core_pipeline_finish c e) w
  else on_core e (core_run_over c e) (on_core e (fun s => snd (core_wake_run_ended true s)) w).
Definition duplicate : bytes := str "duplicate_wake_up_detected".
Definition run_error (e : env) (x : va_event) (w : world) : world :=
  let dup := bool_decide (code x = duplicate) in
  if fst (core_wake_run_ended (negb dup) (core w)) then
    let w := on_core e (fun s => snd (core_wake_run_ended (negb dup) s)) w in
    let w := if dup then on_ha (send (Wake_event answered_elsewhere)) w else w in
    on_core e (core_run_over c e) (on_ha (fun h => h <| cancelled := 1 |>) w)
  else
    let w := on_ha (fun h => h <| tts_expected := false |>) w in
    if dup then on_core e (core_pipeline_finish c e) (on_ha (send (Wake_event answered_elsewhere)) w)
    else if bool_decide (code x = str "stt-no-text-recognized") then on_core e (core_no_speech c e) w
    else on_core e (core_error c e) w.

Definition run_event (e : env) (x : va_event) (w : world) : world :=
  if ty x =? EV_WAKE_END then on_core e (core_remote_wake c e) w
  else if ty x =? EV_STT_START then on_core e (core_set_state e LISTENING) w
  else if ty x =? EV_VAD_END then on_core e (think e) w
  else if ty x =? EV_STT_END then
    let '(over, _) := core_transcript c e (text x) (core w) in
    let w := on_core e (fun s => snd (core_transcript c e (text x) s)) w in
    if over then w else on_core e (think e) w
  else if ty x =? EV_INTENT_END then if cont x then on_core e core_restart_after w else w
  else if (ty x =? EV_INTENT_PROGRESS) && stream_now x || (ty x =? EV_TTS_END) then tts_end e w
  else if ty x =? EV_RUN_END then run_end e w
  else if ty x =? EV_ERROR then run_error e x w
  else w.

(** What a cancelled run still reports is dropped; an error after a new start is the new run's *)
Definition dropped (x : va_event) (h : ha) : bool :=
  (cancelled h =? 1) || ((cancelled h =? 2) && negb (ty x =? EV_RUN_START) && negb (ty x =? EV_ERROR)).
Definition on_event (e : env) (p : bytes) (w : world) : world :=
  let x := event_of p in
  let w := match reply_url x with Some u => on_ha (fun h => h <| tts_url := strcap 1024 u |>) w | None => w end in
  if dropped x (hap w) then w
  else run_event e x (if (ty x =? EV_RUN_START) || (ty x =? EV_ERROR) then on_ha (fun h => h <| cancelled := 0 |>) w else w).

(** ** Announcements and the media player *)
Record announcement := mk_announcement { an_media : bytes; an_pre : bytes; an_conv : bool }.
Definition announce_field (x : announcement) (f : pbf) : announcement :=
  if (field f =? 1) && bool_decide (is_Some (data f)) then x <| an_media := c_str (pbf_str f 1024) |>
  else if (field f =? 3) && bool_decide (is_Some (data f)) then x <| an_pre := c_str (pbf_str f 1024) |>
  else if field f =? 4 then x <| an_conv := negb (pbf_v f =? 0) |> else x.
Definition announce_of (p : bytes) : announcement := fold_left announce_field (pb_fields p) (mk_announcement [] [] false).
Definition on_announce (e : env) (p : bytes) (w : world) : world :=
  let x := announce_of p in
  if dnd (core w) && (bt_asked_ms (hap w) =? 0) then on_ha (announce_finished e false) w
  else media_start e (an_pre x) (an_media x) true (an_conv x) false false w.
(** A command with or without a URL (the volume apart) *)
Record command := mk_command { has_cmd : bool; cmd : Z; has_url : bool; mp_url : bytes; announced : bool }.
Definition command_field (x : command) (f : pbf) : command :=
  if field f =? 2 then x <| has_cmd := negb (pbf_v f =? 0) |>
  else if field f =? 3 then x <| cmd := i32 (pbf_v f) |>
  else if field f =? 6 then x <| has_url := negb (pbf_v f =? 0) |>
  else if field f =? 7 then if bool_decide (is_Some (data f)) then x <| mp_url := c_str (pbf_str f 1024) |> else x
  else if field f =? 9 then x <| announced := negb (pbf_v f =? 0) |> else x.
Definition command_of (p : bytes) : command := fold_left command_field (pb_fields p) (mk_command false 0 false [] false).
Definition on_mp_command (e : env) (p : bytes) (w : world) : world :=
  let x := command_of p in
  let stop := has_cmd x && (cmd x =? MP_CMD_STOP) in
  let w := if stop && media_playing (hap w) then on_core e core_tts_flush w else w in
  let w := if stop then on_core e (alarm_stop c) w else w in
  let w := if has_url x && (0 <? length (mp_url x))%nat then media_start e [] (mp_url x) false false false (negb (announced x)) w else w in
  if has_cmd x && negb (has_url x) then on_ha (fun h => send (Mp_state (media_playing h)) h) w else w.
Record timer_msg := mk_timer_msg { tm_type : Z; tm_id : bytes; tm_name : bytes; tm_total : Z; tm_left : Z; tm_active : bool }.
Definition timer_field (x : timer_msg) (f : pbf) : timer_msg :=
  if field f =? 1 then x <| tm_type := u32 (pbf_v f) |>
  else if (field f =? 2) && bool_decide (is_Some (data f)) then x <| tm_id := c_str (pbf_str f 40) |>
  else if (field f =? 3) && bool_decide (is_Some (data f)) then x <| tm_name := c_str (pbf_str f 64) |>
  else if field f =? 4 then x <| tm_total := u32 (pbf_v f) |>
  else if field f =? 5 then x <| tm_left := u32 (pbf_v f) |>
  else if field f =? 6 then x <| tm_active := negb (pbf_v f =? 0) |> else x.
Definition timer_of (p : bytes) : timer_msg := fold_left timer_field (pb_fields p) (mk_timer_msg 0 [] [] 0 0 false).
Definition on_timer (e : env) (p : bytes) (w : world) : world :=
  let x := timer_of p in
  on_core e (fun s =>
    if tm_type x =? 3 then timers_do c (fun l => core_timer_finished (now e) l (tm_id x) (tm_name x) (tm_total x)) s
    else if tm_type x =? 2 then timers_do c (fun l => core_timer_cancelled l (tm_id x)) s
    else if tm_type x <? 2 then timers_do c (fun l => core_timer_running (now e) l (tm_id x) (tm_name x) (tm_total x) (tm_left x) (tm_active x)) s
    else s) w.

(** ** A thread that fetches and plays (media_thread, play_url) *)
Definition job_url (i : nat) (j : job) : bytes := if (i =? 0)%nat then fst (url j) else snd (url j).

(** The loop's turn for URL [i]: passed over, or asked for *)
Definition job_ask (k : nat) (w : world) : world :=
  match jobs (hap w) !! k with
  | Some j =>
      match ph j with
      | Next i =>
          if (2 <=? i)%nat then w
          else on_ha (upd_job k (fun x => x <| ph := if (length (job_url i j) =? 0)%nat || flush_playback (core w) then Next (S i) else Asked i |>)) w
      | _ => w
      end
  | None => w
  end.
(** [got]: a socket at its body.  Then the lock: a job let go of plays nothing *)
Definition job_take (k : nat) (got : bool) (w : world) : world :=
  match jobs (hap w) !! k with
  | Some j =>
      match ph j with
      | Asked i =>
          if negb got || aborted j
          then on_ha (upd_job k (fun j => j <| ph := Next (S i) |>)) w
          else on_ha (upd_job k (fun j => j <| ph := Fetched i |> <| fd := true |>)) w
      | _ => w
      end
  | None => w
  end.
(** tts_begin: the audio's head was read *)
Definition job_begin (e : env) (k : nat) (rate ch : Z) (w : world) : world :=
  match jobs (hap w) !! k with
  | Some j =>
      match ph j with
      | Fetched i =>
          if aborted j then on_ha (upd_job k (fun j => j <| ph := Next (S i) |> <| fd := false |>)) w
          else on_ha (upd_job k (fun j => j <| ph := Playing i |>)) (on_core e (core_tts_begin c e rate ch (media j)) w)
      | _ => w
      end
  | None => w
  end.
(** No audio came of it *)
Definition job_fail (k : nat) (w : world) : world :=
  match jobs (hap w) !! k with
  | Some j =>
      match ph j with
      | Fetched i => on_ha (upd_job k (fun j => j <| ph := Next (S i) |> <| fd := false |>)) w
      | _ => w
      end
  | None => w
  end.
Definition job_data (e : env) (k : nat) (d : bytes) (w : world) : world :=
  match jobs (hap w) !! k with
  | Some j => match ph j with Playing _ => on_core e (core_tts_data d) w | _ => w end
  | None => w
  end.
(** The stream ended, or its playback is cut *)
Definition job_ended (k : nat) (w : world) : world :=
  match jobs (hap w) !! k with
  | Some j =>
      match ph j with
      | Playing i => on_ha (upd_job k (fun j => j <| ph := Next (S i) |> <| fd := false |> <| began := true |> <| ok := ok j || (i =? 1)%nat |>)) w
      | _ => w
      end
  | None => w
  end.
(** After both URLs, under the lock; then Q_STOP, without it *)
Definition job_done (e : env) (k : nat) (w : world) : world :=
  match jobs (hap w) !! k with
  | Some j =>
      match ph j with
      | Next i =>
          if (i <? 2)%nat then w
          else if aborted j then
            on_ha (upd_job k (fun j => j <| ph := Gone |>)) (if began j then on_core e core_tts_abandoned w else w)
          else
            let w := on_ha (fun h => if bool_decide (media_cur h = Some k) then h <| media_cur := None |> else h) w in
            let w := if announce j && start_conversation j && ok j then on_core e core_restart_after w else w in
            let w := if announce j && negb (began j)
                     then on_ha (fun h => announce_done e ((announce_finished e false h) <| announcing := false |>)) w else w in
            let w := if began j then w
                     else on_ha (fun h => h <| media_busy := false |>) (on_core e (core_pipeline_finish c e) (on_ha (set_playing false) w)) in
            on_ha (upd_job k (fun x => x <| ph := if began j then Ending else Gone |>)) w
      | _ => w
      end
  | None => w
  end.
Definition job_stop (e : env) (k : nat) (w : world) : world :=
  match jobs (hap w) !! k with
  | Some j => match ph j with Ending => on_ha (upd_job k (fun j => j <| ph := Gone |>)) (on_core e core_tts_end w) | _ => w end
  | None => w
  end.

(** ** Steps
    Whatever happens, under the lock or in a thread, in any order *)
Inductive op :=
  | Link (up ready : bool) | LinkPause
  | Event_ (p : bytes) | Announce (p : bytes) | MediaPlayer (p : bytes) | TimerEvent (p : bytes)
  | PipelineRefused
  | SoftMute (set : bool) | Latched (muted : bool) | Dnd (set : bool)
  | WakeWord (round far : bool) (slot : nat) (keyword : bytes) (b e_ : Z) | RoundOver (won : bool) (from : Z)
  | NearMiss (far : bool) (slot : nat) (keyword : bytes)
  | Press (t : taken)
  | Hold (stage : Z)
  | DropIn (d : dropin_st) (peer : bytes) (outgoing : bool) | DropInListen (on : bool) | DropInResult (r : Z) (here : bool)
  | Music (source : Z) (on : bool)
  | BtDevice (name : bytes) (on : bool) | BtTick
  | AlarmStop | TimersPruned | RungOut
  | Block (n : Z) (tail : option Z) (ended : bool) | Timeout
  | Play (opens writes : bool) | PlayStopped
  | JAsk (k : nat) | JTake (k : nat) (got : bool) | JBegin (k : nat) (rate ch : Z) | JFail (k : nat) | JData (k : nat) (d : bytes)
  | JEnded (k : nat) | JDone (k : nat) | JStop (k : nat).

Definition step (e : env) (w : world) (o : op) : world :=
  match o with
  | Link up ready => on_core e (core_link c e up ready) w
  | LinkPause => on_core e (core_link_pause c e) w
  | Event_ p => on_event e p w
  | Announce p => on_announce e p w
  | MediaPlayer p => on_mp_command e p w
  | TimerEvent p => on_timer e p w
  | PipelineRefused => on_core e (core_error c e) w
  | SoftMute set => on_core e (core_soft_mute c e (Some set)) w
  | Latched muted => on_core e (mute_latch c e muted true) w
  | Dnd set => on_core e (core_dnd set) w
  | WakeWord round far slot kw b e_ => on_core e (fun s => snd (on_wake c e round far slot kw b e_ s)) w
  | RoundOver won from => on_core e (round_over c e won from) w
  | NearMiss far slot kw => on_core e (on_near_miss c e far slot kw) w
  | Press t => on_core e (action c e t) w
  | Hold stage => on_core e (on_hold e stage) w
  | DropIn d peer outgoing => on_core e (core_dropin c e d peer outgoing) w
  | DropInListen on => on_core e (core_dropin_listen on) w
  | DropInResult r here => on_core e (core_dropin_result c r here) w
  | Music source on => on_core e (core_music c source on) w
  | BtDevice name on => on_core e (core_bt_device c name on) w
  | BtTick => on_ha (bt_try e listener) w
  | AlarmStop => on_core e (alarm_stop c) w
  | TimersPruned => on_core e (timers_do c (earcon_prune (now e))) w
  | RungOut => on_core e (timers_do c (earcon_ring (now e))) w
  | Block n tail ended => on_core e (fun s => stream_block c e n tail ended (captured n s)) w
  | Timeout => on_core e (pipeline_timeout c e) w
  | Play opens writes => on_core e (fun s => snd (playback_item opens writes s)) w
  | PlayStopped => on_core e (playback_stopped c e) w
  | JAsk k => job_ask k w
  | JTake k got => job_take k got w
  | JBegin k rate ch => job_begin e k rate ch w
  | JFail k => job_fail k w
  | JData k d => job_data e k d w
  | JEnded k => job_ended k w
  | JDone k => job_done e k w
  | JStop k => job_stop e k w
  end.
Definition steps (l : list (env * op)) (w : world) : world := fold_left (fun w x => step (fst x) w (snd x)) l w.
End ha.
