(* ===== verification/SatSafe.v ===== *)
(** * The satellite: what holds in every run
    The microphone goes out only in a run, the light ring shows the state, the front end is
    told who talks.  [ok] is the invariant; every function of the core keeps it. *)
From S2P Require Import Prelude Cbits Timers WakeWords EspPb Sat SatTalk SatHa.

(** ** What the output so far amounts to *)

(** A run is open: started, and neither stopped, cancelled nor ended since *)
Definition mic (l : list ev) : bool :=
  fold_left (fun b e => match e with P (Start _) => true | P Stop | P Cancel | P End => false | _ => b end) l false.
(** The pattern is lit *)
Definition lit (p : pattern) (l : list ev) : bool :=
  fold_left (fun b e => match e with Led on q => if bool_decide (q = p) then on else b | _ => b end) l false.
(** What the front end was told last *)
Definition front_end (l : list ev) : option bool :=
  fold_left (fun b e => match e with AfeListening on => Some on | _ => b end) l None.
Definition heard_ok (l : list ev) : Prop := forall l1 a l2, l = l1 ++ P (Audio a) :: l2 -> mic l1 = true.

#[global] Arguments mic : simpl never.
#[global] Arguments lit : simpl never.
#[global] Arguments front_end : simpl never.

Lemma mic_snoc l e : mic (l ++ [e]) = match e with P (Start _) => true | P Stop | P Cancel | P End => false | _ => mic l end.
Proof. unfold mic. by rewrite fold_left_app. Qed.
Lemma shown_snoc p l e : lit p (l ++ [e]) = match e with Led on q => if bool_decide (q = p) then on else lit p l | _ => lit p l end.
Proof. unfold lit. by rewrite fold_left_app. Qed.
Lemma front_end_snoc l e : front_end (l ++ [e]) = match e with AfeListening on => Some on | _ => front_end l end.
Proof. unfold front_end. by rewrite fold_left_app. Qed.

Lemma snoc_split {A} (l l1 l2 : list A) x y :
  l ++ [x] = l1 ++ y :: l2 -> (l2 = [] /\ l = l1 /\ x = y) \/ exists l3, l2 = l3 ++ [x] /\ l = l1 ++ y :: l3.
Proof.
  destruct l2 as [|z l2 _] using rev_ind; intros H.
  - apply app_inj_tail in H as [-> ->]. by left.
  - right. rewrite app_comm_cons, app_assoc in H. apply app_inj_tail in H as [-> ->]. by exists l2.
Qed.
Lemma heard_ok_snoc l e : heard_ok l -> (match e with P (Audio _) => mic l = true | _ => True end) -> heard_ok (l ++ [e]).
Proof.
  intros Hl He l1 a l2 [(-> & -> & ->)|(l3 & -> & ->)]%snoc_split; [done|]. by eapply Hl.
Qed.
Create Rewrite HintDb trace.
Create HintDb sat discriminated.
#[export] Hint Rewrite mic_snoc shown_snoc front_end_snoc : trace.

(** ** The invariant *)

(** The parts of the state it is about *)
Record view := mk_view {
  v_connected : bool; v_running : bool; v_st : state; v_busy : bool; v_streaming : bool; v_alarm : bool;
  v_was : dropin_st; v_live : bool; v_pipe : bool; v_call : bool; v_is : option bool; v_out : list ev }.
Definition view_of (s : sat) : view :=
  mk_view (connected s) (satellite_running s) (st s) (busy s) (streaming s) (alarm_on (tm s))
          (dropin_was s) (dropin_live s) (listen_pipe s) (listen_call s) (listen_is s) (out s).

Record fine (v : view) : Prop := mk_fine {
  o_busy : v_busy v = negb (eqst IDLE (v_st v));
  o_linked : v_running v = true -> v_connected v = true;
  o_mic : v_streaming v = true -> mic (v_out v) = true;
  o_heard : heard_ok (v_out v);
  o_state : forall x p, state_pattern x = Some p -> lit p (v_out v) = eqst x (v_st v);
  o_alarm : lit ready_timer (v_out v) = v_alarm v;
  o_call : forall d p, dropin_led d = Some p -> lit p (v_out v) = isd d (v_was v);
  o_live : v_live v = isd D_LIVE (v_was v);
  o_talk : v_call v = true -> v_live v = true;
  o_fe : front_end (v_out v) = v_is v;
  o_is : default false (v_is v) = v_pipe v || v_call v }.
Definition ok (s : sat) : Prop := fine (view_of s).

Lemma ok_view s s' : view_of s = view_of s' -> ok s -> ok s'.
Proof. unfold ok. by intros ->. Qed.
Lemma ok_of v s : view_of s = v -> fine v -> ok s.
Proof. unfold ok. by intros ->. Qed.

(** ** Events beside the point *)
Definition plain (e : ev) : bool :=
  match e with Led _ _ | AfeListening _ | P (Start _) | P (Audio _) | P Stop | P Cancel | P End => false | _ => true end.
Definition aside (p : pattern) : bool :=
  match p with
  | active_start | active_thinking | active_talking | ready_timer | call_outbound_ringing | call_incoming | call_connected => false
  | _ => true
  end.

Lemma out_emit e s : out (emit e s) = out s ++ [e]. Proof. done. Qed.
Lemma state_aside x p : state_pattern x = Some p -> aside p = false.
Proof. destruct x; by intros [= <-]. Qed.
Lemma call_aside d p : dropin_led d = Some p -> aside p = false.
Proof. destruct d; by intros [= <-]. Qed.
Lemma lit_aside p q on l : aside p = false -> aside q = true -> lit p (l ++ [Led on q]) = lit p l.
Proof. intros Hp Hq. rewrite shown_snoc. case_bool_decide; [|done]. by subst; rewrite Hp in Hq. Qed.

Lemma plain_mic e l : plain e = true -> mic (l ++ [e]) = mic l.
Proof. intros He. rewrite mic_snoc. by destruct e as [[]| | | | | | | | | | | |]. Qed.
Lemma plain_lit e p l : plain e = true -> lit p (l ++ [e]) = lit p l.
Proof. intros He. rewrite shown_snoc. by destruct e. Qed.
Lemma plain_front_end e l : plain e = true -> front_end (l ++ [e]) = front_end l.
Proof. intros He. rewrite front_end_snoc. by destruct e. Qed.
Lemma plain_heard e l : plain e = true -> heard_ok l -> heard_ok (l ++ [e]).
Proof. intros He H. apply heard_ok_snoc; [done|]. by destruct e as [[]| | | | | | | | | | | |]. Qed.
Lemma fine_emit e v : plain e = true -> fine v -> fine (v <| v_out := v_out v ++ [e] |>).
Proof.
  intros He [B C M H S A D L T F I].
  split; cbn;
    [exact B|exact C| | | | | |exact L|exact T| |exact I].
  - intros Hs. rewrite plain_mic by done. by apply M.
  - by apply plain_heard.
  - intros x p Hp. rewrite plain_lit by done. by apply S.
  - by rewrite plain_lit.
  - intros d p Hp. rewrite plain_lit by done. by apply D.
  - by rewrite plain_front_end.
Qed.
Lemma ok_emit e s : plain e = true -> ok s -> ok (emit e s).
Proof. intros He H. eapply ok_of; [|exact (fine_emit e _ He H)]. done. Qed.
Lemma fine_led_aside on p v : aside p = true -> fine v -> fine (v <| v_out := v_out v ++ [Led on p] |>).
Proof.
  intros Hp [B C M H S A D L T F I]. split; cbn; [exact B|exact C| | | | | |exact L|exact T| |exact I].
  - intros Hs. rewrite mic_snoc. by apply M.
  - by apply heard_ok_snoc.
  - intros x q Hx. rewrite lit_aside by eauto using state_aside. by apply S.
  - by rewrite lit_aside.
  - intros x q Hx. rewrite lit_aside by eauto using call_aside. by apply D.
  - by rewrite front_end_snoc.
Qed.
Lemma ok_led_aside on p s : aside p = true -> ok s -> ok (led on p s).
Proof. intros Hp H. eapply ok_of; [|exact (fine_led_aside on p _ Hp H)]. done. Qed.

(** An update of other fields *)
Ltac ok_step :=
  lazymatch goal with
  | |- ok (set _ _ ?s) => cut (ok s); [generalize s; intros ? ?; eapply ok_view; [|eassumption]; reflexivity|]
  | |- ok (emit _ _) => apply ok_emit; [reflexivity|]
  | |- ok (led _ _ _) => apply ok_led_aside; [reflexivity|]
  end.

Section keep.
Context (c : cfg).

Lemma ok_if_linked has p s : plain (P p) = true -> ok s -> ok (if_linked has p s).
Proof. intros Hp H. unfold if_linked. case_match; [by apply ok_emit|done]. Qed.
Lemma ok_sound_queue k s : ok s -> ok (sound_queue k s).
Proof. intros. unfold sound_queue. by ok_step. Qed.
Lemma ok_sound_request k s : ok s -> ok (sound_request c k s).
Proof. intros. unfold sound_request. case_match; [by apply ok_sound_queue|done]. Qed.
Lemma ok_sounds_drop s : ok s -> ok (sounds_drop_wake s).
Proof. intros. unfold sounds_drop_wake. by ok_step. Qed.
Lemma ok_afe_done s : ok s -> ok (afe_done s).
Proof. intros. unfold afe_done. case_match; [|done]. by repeat ok_step. Qed.
Lemma ok_playback_hint s : ok s -> ok (playback_hint s).
Proof. intros. unfold playback_hint. by ok_step. Qed.

(** The light of the state follows it *)
Definition move (from to : state) : list ev :=
  match state_pattern from with Some p => [Led false p] | None => [] end ++
  match state_pattern to with Some p => [Led true p] | None => if eqst IDLE from then [] else [Led true active_end] end.
Definition is_led (e : ev) : bool := match e with Led _ _ => true | _ => false end.
Lemma leds_only ks l : forallb is_led ks = true ->
  mic (l ++ ks) = mic l /\ front_end (l ++ ks) = front_end l /\ (heard_ok l -> heard_ok (l ++ ks)).
Proof.
  revert l. induction ks as [|k ks IH]; intros l Hk; [by rewrite app_nil_r|]. cbn in Hk. bsimp.
  replace (l ++ k :: ks) with ((l ++ [k]) ++ ks) by (by rewrite <- app_assoc).
  destruct (IH (l ++ [k]) ltac:(done)) as (-> & -> & Hh). rewrite mic_snoc, front_end_snoc.
  destruct k; try done. split_and!; try done. intros Hl. apply Hh. by apply heard_ok_snoc.
Qed.
Definition lights (p : pattern) (ks : list ev) (b : bool) : bool :=
  fold_left (fun b e => match e with Led on q => if bool_decide (q = p) then on else b | _ => b end) ks b.
Lemma lit_app p l ks : lit p (l ++ ks) = lights p ks (lit p l).
Proof. unfold lit. by rewrite fold_left_app. Qed.
Lemma move_leds x y : forallb is_led (move x y) = true.
Proof. by destruct x, y. Qed.

Lemma move_state from to x p : from <> to -> state_pattern x = Some p -> lights p (move from to) (eqst x from) = eqst x to.
Proof. intros Hne Hp. destruct from, to, x; simplify_eq/=; done. Qed.
Lemma move_others from to p b : lights ready_timer (move from to) b = b /\ (forall d, dropin_led d = Some p -> lights p (move from to) b = b).
Proof. split; [by destruct from, to|]. intros d Hd. by destruct from, to, d; simplify_eq/=. Qed.

Lemma fine_move v x : fine v -> x <> v_st v ->
  fine (v <| v_st := x |> <| v_busy := negb (eqst IDLE x) |> <| v_out := v_out v ++ move (v_st v) x |>).
Proof.
  intros [B C M H S A D L T F I] Hx. destruct (leds_only (move (v_st v) x) (v_out v) (move_leds _ _)) as (Em & Ef & Eh).
  split; cbn; rewrite ?Em, ?Ef; try done; [by apply Eh| | |].
  - intros y p Hp. rewrite lit_app, (S y p Hp). by apply move_state.
  - rewrite lit_app, A. by apply (move_others (v_st v) x active_end).
  - intros d p Hp. rewrite lit_app, (D d p Hp). by eapply (proj2 (move_others (v_st v) x p _)).
Qed.
Lemma ok_led_for e x s : ok s -> x <> st s ->
  ok ((led_for (st s) x s) <| st := x |> <| state_since := wall e |> <| busy := negb (eqst IDLE x) |>).
Proof.
  intros H Hx. eapply ok_of; [|exact (fine_move _ x H Hx)].
  change (v_st (view_of s)) with (st s). change (v_out (view_of s)) with (out s).
  unfold view_of at 1. unfold led_for, move. destruct (st s), x; try done; cbn; by rewrite ?app_nil_r, <- ?app_assoc.
Qed.
Lemma ok_set_state e x s : ok s -> ok (core_set_state e x s).
Proof.
  intros H. unfold core_set_state. destruct (eqst x (st s)) eqn:Hx; [done|].
  assert (x <> st s) by (intros ->; by rewrite eqst_refl in Hx).
  replace (led_for (st s) x) with (led_for (st (if eqst IDLE (st s) && alarm_on (tm s) then led true ready_timer_short s else s)) x)
    by (by case_match).
  apply ok_led_for; case_match; try done. by ok_step.
Qed.

(** ** A run opens, is heard, is closed *)
Lemma lit_p p l q : lit p (l ++ [P q]) = lit p l.
Proof. by rewrite shown_snoc. Qed.
Lemma front_end_p l q : front_end (l ++ [P q]) = front_end l.
Proof. by rewrite front_end_snoc. Qed.
Lemma fine_call v q b : fine v -> (b = true -> mic (v_out v ++ [P q]) = true) ->
  (forall a, q = Audio a -> mic (v_out v) = true) ->
  fine (v <| v_streaming := b |> <| v_out := v_out v ++ [P q] |>).
Proof.
  intros [B C M H S A D L T F I] Hb Hq. split; cbn; rewrite ?front_end_p, ?lit_p; try done.
  - apply heard_ok_snoc; [done|]. destruct q; try done. by eapply Hq.
  - intros. rewrite lit_p. by apply S.
  - intros. rewrite lit_p. by apply D.
Qed.
Lemma accepts_start ph s : ok s -> ok ((emit (P (Start ph)) s) <| streaming := true |>).
Proof. intros H. eapply ok_of; [|apply (fine_call _ (Start ph) true H)]; [done| |done]. intros _. by rewrite mic_snoc. Qed.
Lemma ok_audio a s : ok s -> mic (out s) = true -> ok (emit (P (Audio a)) s).
Proof. intros H Hm. eapply ok_of; [|apply (fine_call _ (Audio a) (streaming s) H)]; [done| |done]. intros _. by rewrite mic_snoc. Qed.
Lemma accepts_close q s : match q with Stop | Cancel | End => True | _ => False end -> ok s -> streaming s = false -> ok (emit (P q) s).
Proof.
  intros Hq H Hs. eapply ok_of; [|apply (fine_call _ q false H)]; [unfold view_of; cbn; by rewrite Hs|done|by intros a ->].
Qed.
Lemma ok_streaming_off s : ok s -> ok (s <| streaming := false |>).
Proof. intros [B C M H S A D L T F I]. by split. Qed.

Lemma ok_listening_apply s :
  fine ((view_of s) <| v_pipe := default false (listen_is s) |> <| v_call := false |>) ->
  (listen_call s = true -> dropin_live s = true) -> ok (listening_apply s).
Proof.
  intros [B C M H S A D L T F I] HT. cbn in *. unfold listening_apply. rewrite orb_false_r in I.
  destruct (bool_decide (listen_is s = Some (listen_pipe s || listen_call s))) eqn:E; bsimp.
  - split; cbn; try done. by rewrite E.
  - split; cbn; try done; intros; autorewrite with trace; eauto. by apply heard_ok_snoc.
Qed.
Lemma fine_listen v p k : fine v -> p || k = default false (v_is v) -> (k = true -> v_live v = true) -> fine (v <| v_pipe := p |> <| v_call := k |>).
Proof. intros [B C M H S A D L T F I] E K. by split. Qed.
Lemma ok_listening on s : ok s -> ok (listening on s).
Proof.
  intros H. apply ok_listening_apply; [|exact (o_talk _ H)].
  refine (fine_listen (view_of s) (default false (listen_is s)) false H _ _); [by rewrite orb_false_r|done].
Qed.

Lemma lead_in_out fuel left s : exists l, out (lead_in_loop fuel left s) = out s ++ l /\ Forall (fun e => exists n, e = P (Audio (Zeros n))) l.
Proof.
  revert left s. induction fuel as [|fuel IH]; intros left s; cbn [lead_in_loop]; [exists []; by rewrite app_nil_r|].
  case_match; [|exists []; by rewrite app_nil_r].
  destruct (IH (left - 1024) (emit (P (Audio (Zeros (left `min` 1024)))) s)) as (l & E & Hl).
  exists (P (Audio (Zeros (left `min` 1024))) :: l). split; [by rewrite E, out_emit, <- app_assoc|]. constructor; eauto.
Qed.
Lemma ok_lead_in_loop fuel left s : ok s -> mic (out s) = true -> ok (lead_in_loop fuel left s).
Proof.
  revert left s. induction fuel as [|fuel IH]; intros left s H Hm; cbn [lead_in_loop]; [done|]. case_match; [|done].
  apply IH; [by apply ok_audio|]. by rewrite out_emit, mic_snoc.
Qed.

Lemma ok_pipeline_start e from s : ok s -> ok (pipeline_start c e from s).
Proof.
  intros H. unfold pipeline_start. set (s0 := s <| run_over := _ |> <| wake_wait := _ |> <| quiet_abort := _ |> <| mic_fresh := _ |> <| replay_from := _ |> <| replay_whole := _ |> <| talker_from := _ |> <| mic_end_on := _ |> <| run_wake := _ |>).
  assert (H0 : ok s0) by (by apply (ok_view s)). clearbody s0.
  pose proof (accepts_start (core_wake_phrase (ww s0)) s0 H0) as H1. set (s1 := _ <| streaming := true |>) in *.
  assert (Hm : mic (out s1) = true) by (by apply (o_mic _ H1)). clearbody s1.
  assert (H2 : ok (if core_local_wake c then lead_in s1 else s1)) by (case_match; [by apply ok_lead_in_loop|done]).
  pose proof (ok_listening (core_local_wake c) _ H2) as H3. case_match; [|exact H3]. by apply ok_set_state.
Qed.
Lemma ok_mic_stopped s : ok s -> ok (mic_stopped s).
Proof. intros H. by apply ok_afe_done, ok_listening. Qed.
Lemma ok_mic_off s : ok s -> ok (core_mic_off s).
Proof. intros H. by apply ok_mic_stopped, ok_streaming_off. Qed.

(** ** The timers: the lamp follows the alarm *)
Definition lamp (b : bool) (l : list Timers.ev) : bool := fold_left (fun b e => match e with Timers.Led on => on | _ => b end) l b.
Definition aligned (b : bool) (t : timers) : Prop := lamp b (Timers.out t) = alarm_on t.
Definition tracks (f : bool -> timers -> timers) : Prop := forall k t, Timers.out t = [] -> aligned (alarm_on t) (f k t).

Lemma aligned_emit b x t : match x with Timers.Led _ => false | _ => true end = true -> aligned b t -> aligned b (Timers.emit x t).
Proof. unfold aligned, lamp. intros Hx H. cbn. rewrite fold_left_app. cbn. by destruct x. Qed.
Lemma aligned_changed b k t : aligned b t -> aligned b (changed k t).
Proof. intros H. unfold changed. case_match; [by apply aligned_emit|done]. Qed.
Lemma aligned_alarm_set b on t : aligned b t -> aligned b (alarm_set on t).
Proof.
  intros H. unfold alarm_set. case_match; [done|]. unfold aligned, lamp. cbn. by rewrite !fold_left_app.
Qed.
Lemma aligned_frame b t t' : Timers.out t = Timers.out t' -> alarm_on t = alarm_on t' -> aligned b t -> aligned b t'.
Proof. unfold aligned. by intros -> ->. Qed.
Ltac aligned_tac :=
  repeat first [ assumption | apply aligned_changed | apply aligned_alarm_set | case_match
               | lazymatch goal with |- aligned _ (set _ _ ?t) => apply (aligned_frame _ t); [reflexivity|reflexivity|] end ].
Lemma tracks_alarm_stop : tracks core_alarm_stop.
Proof. intros k t E. unfold core_alarm_stop, aligned, lamp. case_match; [by rewrite E|]. fold (lamp (alarm_on t)). apply aligned_changed, aligned_alarm_set. unfold aligned. cbn. by rewrite E. Qed.
Lemma start_aligned t : Timers.out t = [] -> aligned (alarm_on t) t.
Proof. unfold aligned. by intros ->. Qed.
Lemma tracks_running now i n tot lft act : tracks (fun k => core_timer_running now k i n tot lft act).
Proof.
  intros k t E%start_aligned. unfold core_timer_running, running_slot. destruct (running_find i t); cbn zeta; unfold running_stale_at, running_drop; aligned_tac.
Qed.
Lemma tracks_finished now i n tot : tracks (fun k => core_timer_finished now k i n tot).
Proof. intros k t E%start_aligned. unfold core_timer_finished, running_stale_at, running_drop. cbv zeta. aligned_tac. Qed.
Lemma tracks_cancelled i : tracks (fun k => core_timer_cancelled k i).
Proof. intros k t E%start_aligned. unfold core_timer_cancelled, running_stale_at, running_drop. cbv zeta. aligned_tac. Qed.
Lemma tracks_prune now : tracks (earcon_prune now).
Proof.
  intros k t E%start_aligned. unfold earcon_prune, timers_prune. case_match; [|done]. destruct (prune now (runs t)). unfold running_stale_at. aligned_tac.
Qed.
Lemma tracks_ring now : tracks (earcon_ring now).
Proof. intros k t E. unfold earcon_ring. case_match; [by apply tracks_alarm_stop|by apply start_aligned]. Qed.

Definition tev (s : sat) (x : Timers.ev) : ev :=
  match x with
  | Timers.Led on => Led on ready_timer
  | PlaybackHint => WakeProperty (alarm_on (tm s)) (negb (music_on s =? 0)) (alarm_on (tm s) || negb (music_on s =? 0) || tts_on s)
  | TimersChanged => P Timers_changed
  end.
Lemma timer_evs_view l s :
  view_of (fold_left timer_ev l s) = (view_of s) <| v_out := out s ++ map (tev s) l |> /\
  (forall t, tev (fold_left timer_ev l s) t = tev s t).
Proof.
  revert s. induction l as [|x l IH]; intros s; [cbn; by rewrite app_nil_r|]. cbn [fold_left map].
  assert (E : view_of (timer_ev s x) = (view_of s) <| v_out := out s ++ [tev s x] |> /\ forall t, tev (timer_ev s x) t = tev s t) by (by destruct x).
  destruct E as [E1 E2]. destruct (IH (timer_ev s x)) as [F1 F2]. split; [|intros t; by rewrite F2, E2].
  rewrite F1, E1. assert (Eo : out (timer_ev s x) = out s ++ [tev s x]) by (by apply (f_equal v_out) in E1). rewrite Eo.
  rewrite <- app_assoc, (map_ext _ _ E2). done.
Qed.
Lemma tev_aside s l o : mic (o ++ map (tev s) l) = mic o /\ front_end (o ++ map (tev s) l) = front_end o /\
  (heard_ok o -> heard_ok (o ++ map (tev s) l)) /\ lit ready_timer (o ++ map (tev s) l) = lamp (lit ready_timer o) l /\
  (forall p, p <> ready_timer -> lit p (o ++ map (tev s) l) = lit p o).
Proof.
  revert o. induction l as [|x l IH]; intros o; [cbn; by rewrite app_nil_r|]. cbn [map].
  replace (o ++ tev s x :: map (tev s) l) with ((o ++ [tev s x]) ++ map (tev s) l) by (by rewrite <- app_assoc).
  destruct (IH (o ++ [tev s x])) as (-> & -> & Hh & -> & Hp). autorewrite with trace. cbn [lamp fold_left].
  split_and!; [by destruct x|by destruct x| | |].
  - intros Ho. apply Hh, heard_ok_snoc; [done|]. by destruct x.
  - by destruct x.
  - intros p Hne. rewrite Hp by done. rewrite shown_snoc. destruct x; cbn; try done. rewrite bool_decide_false by congruence. done.
Qed.
Lemma ok_timers_do f s : tracks f -> ok s -> ok (timers_do c f s).
Proof.
  intros Hf [B C M H S A D L T F I]. unfold timers_do. cbv zeta.
  set (k := connected s && has_timers_changed c). set (t := f k _).
  pose proof (Hf k ((tm s) <| Timers.out := [] |>) eq_refl) as Ha. fold t in Ha. unfold aligned in Ha. cbn in Ha, A.
  set (s1 := s <| tm := _ |>). destruct (timer_evs_view (Timers.out t) s1) as [E _].
  destruct (tev_aside s1 (Timers.out t) (out s1)) as (Em & Ef & Eh & Er & Ep). change (out s1) with (out s) in *.
  eapply ok_of; [exact E|]. split; cbn; rewrite ?Em, ?Ef; try done; try (by apply Eh).
  - intros x p Hx. rewrite Ep by (by destruct x; simplify_eq/=). by apply S.
  - by rewrite Er, A, Ha.
  - intros d p Hd. rewrite Ep by (by destruct d; simplify_eq/=). by apply D.
Qed.
Lemma ok_alarm_stop s : ok s -> ok (alarm_stop c s).
Proof. apply ok_timers_do, tracks_alarm_stop. Qed.

(** ** The functions of the core *)
Lemma connected_false s : ok s -> connected s = false -> satellite_running s = false.
Proof. intros H E. destruct (satellite_running s) eqn:R; [|done]. pose proof (o_linked _ H R) as X. cbn in X. congruence. Qed.

Lemma ok_pipeline_finish e s : ok s -> ok (core_pipeline_finish c e s).
Proof.
  intros H. unfold core_pipeline_finish. cbv zeta.
  set (s1 := s <| wake_fails := 0 |> <| streaming := false |>).
  assert (H1 : ok s1) by (apply (ok_streaming_off (s <| wake_fails := 0 |>)); by apply (ok_view s)).
  change (streaming (s <| wake_fails := 0 |>)) with (streaming s).
  match goal with |- context [mic_stopped ?x] => set (s2 := x) end.
  assert (H2 : ok s2).
  { unfold s2. repeat case_match; try done; by apply accepts_close. }
  clearbody s2. pose proof (ok_set_state e IDLE _ (ok_mic_stopped _ H2)) as H3. set (s3 := core_set_state e IDLE _) in *. clearbody s3.
  match goal with |- context [connected ?x] => set (s4 := x) end.
  assert (H4 : ok s4) by (unfold s4; case_match; [by ok_step|done]). clearbody s4.
  match goal with |- context [barge_in ?x || _] => set (s5 := x) end.
  assert (H5 : ok s5) by (unfold s5; case_match; [done|by ok_step]). clearbody s5.
  case_match; [|done]. apply ok_pipeline_start. case_match; repeat ok_step; [by apply ok_sound_request|done].
Qed.

Lemma ok_wake_told e w s : ok s -> ok (wake_told c e w s).
Proof. intros H. unfold wake_told. case_match; [by apply ok_if_linked|done]. Qed.

Lemma ok_write_state e file tx s : ok s -> ok (write_state e file tx s).
Proof. intros H. unfold write_state. by ok_step. Qed.
End keep.

#[export] Hint Resolve ok_if_linked ok_sound_queue ok_sound_request ok_sounds_drop ok_afe_done ok_playback_hint ok_set_state
  ok_streaming_off ok_listening ok_pipeline_start ok_mic_stopped ok_mic_off ok_alarm_stop ok_pipeline_finish ok_wake_told ok_write_state : sat.

#[export] Hint Extern 1 (ok (set _ _ _)) => ok_step : sat.
#[export] Hint Extern 1 (ok (emit _ _)) => ok_step : sat.
#[export] Hint Extern 1 (ok (led _ _ _)) => ok_step : sat.
#[export] Hint Extern 1 (ok (match _ with _ => _ end)) => case_match : sat.

(** A function of the core: its cases and layers *)
Ltac ok_tac := cbv zeta; eauto 20 with sat.

Section core.
Context (c : cfg).

Lemma ok_remote_wake e s : ok s -> ok (core_remote_wake c e s).
Proof. intros H. unfold core_remote_wake. ok_tac. Qed.
Lemma ok_wake_listen e s : ok s -> ok (wake_listen c e s).
Proof. intros H. unfold wake_listen. ok_tac. Qed.
Lemma ok_wake_run_ended failed s : ok s -> ok (snd (core_wake_run_ended failed s)).
Proof.
  intros H. unfold core_wake_run_ended. case_match; [exact H|]. cbn [snd].
  assert (H1 : ok (mic_stopped (s <| streaming := false |>))) by eauto with sat.
  generalize dependent (mic_stopped (s <| streaming := false |>)). intros s1 H1. ok_tac.
Qed.
Lemma ok_adopted e s : ok s -> ok (adopted e s).
Proof. intros H. unfold adopted. ok_tac. Qed.
Lemma ok_error e s : ok s -> ok (core_error c e s).
Proof. intros H. unfold core_error. ok_tac. Qed.
Lemma ok_no_speech e s : ok s -> ok (core_no_speech c e s).
Proof. intros H. unfold core_no_speech. ok_tac. Qed.

Lemma ok_link e up ready s : ok s -> ok (core_link c e up ready s).
Proof.
  intros H. unfold core_link. cbv zeta. set (s1 := s <| connected := up |> <| satellite_running := up && ready |> <| link_paused := false |>).
  assert (H1 : ok s1).
  { destruct H as [B C M H S A D L T F I]. split; try done. cbn. intros. by bsimp. }
  change (satellite_running s) with (satellite_running s). clearbody s1.
  assert (H2 : ok (if satellite_running s1 then adopted e s1 else s1)) by (case_match; [by apply ok_adopted|done]).
  generalize dependent (if satellite_running s1 then adopted e s1 else s1). intros s2 H2. ok_tac.
Qed.
Lemma ok_heard_end e s : ok s -> ok (heard_end e s).
Proof.
  intros H. unfold heard_end. cbv zeta. assert (H1 : ok (core_mic_off (emit (P End) s))).
  { unfold core_mic_off. apply ok_mic_stopped. apply (ok_view (emit (P End) (s <| streaming := false |>))); [done|].
    apply accepts_close; [done|by apply ok_streaming_off|done]. }
  generalize dependent (core_mic_off (emit (P End) s)). intros s1 H1. ok_tac.
Qed.
Lemma ok_quiet_cancel e s : ok s -> ok (quiet_cancel c e s).
Proof.
  intros H. unfold quiet_cancel. ok_step. apply ok_pipeline_finish, accepts_close; [done| |done]. apply ok_streaming_off. by ok_step.
Qed.
Lemma ok_mute_update e was sound s : ok s -> ok (mute_update c e was sound s).
Proof. intros H. unfold mute_update. ok_tac. Qed.
End core.
#[export] Hint Resolve ok_remote_wake ok_wake_listen ok_wake_run_ended ok_adopted ok_error ok_no_speech ok_link ok_heard_end ok_quiet_cancel ok_mute_update : sat.

Section talk.
Context (c : cfg).

Lemma ok_link_pause e s : ok s -> ok (core_link_pause c e s).
Proof. intros H. unfold core_link_pause. ok_step. by apply ok_link. Qed.
Lemma ok_soft_mute e set s : ok s -> ok (core_soft_mute c e set s).
Proof.
  intros H. unfold core_soft_mute. destruct set as [b|]; [|done]. case_match; [done|]. cbv zeta.
  assert (H1 : ok (mute_update c e (core_muted e s) (satellite_running s) (s <| soft_mute := b |>))) by ok_tac.
  generalize dependent (mute_update c e (core_muted e s) (satellite_running s) (s <| soft_mute := b |>)). intros s1 H1. ok_tac.
Qed.
Lemma ok_mute_latch e muted sound s : ok s -> ok (mute_latch c e muted sound s).
Proof. intros H. unfold mute_latch. cbv zeta. apply ok_mute_update. ok_tac. Qed.

Lemma ok_trigger e touch from s : ok s -> ok (trigger c e touch from s).
Proof.
  intros H. unfold trigger, cut_reply. cbv zeta.
  assert (H1 : ok (quiet_cancel c e s)) by eauto with sat. assert (H2 : ok (alarm_stop c s)) by eauto with sat.
  generalize dependent (quiet_cancel c e s). intros s1 H1. generalize dependent (alarm_stop c s). intros s2 H2. ok_tac.
Qed.
Lemma ok_music_stop e s : ok s -> ok (snd (music_stop e s)).
Proof. intros H. unfold music_stop. case_match; cbn [snd]; ok_tac. Qed.
Lemma ok_stop_word e s : ok s -> ok (stop_word c e s).
Proof.
  intros H. unfold stop_word, stop_locked. cbv zeta. set (s1 := (if call_on e then _ else s) <| stop_ms := _ |>).
  assert (H1 : ok s1) by (unfold s1; ok_step; ok_tac). clearbody s1.
  assert (H2 : exists b s2, (if alarm_on (tm s1) then (true, alarm_stop c s1) else (call_on e, s1)) = (b, s2) /\ ok s2)
    by (case_match; eexists _, _; (split; [done|]); ok_tac).
  destruct H2 as (b & s2 & -> & H2). set (s3 := s2 <| stop_cut := _ |>). assert (H3 : ok s3) by (unfold s3; ok_tac). clearbody s3.
  assert (H4 : ok (if negb b && negb (music_on s3 =? 0) then snd (music_stop e s3) else s3)) by (case_match; [by apply ok_music_stop|done]).
  generalize dependent (if negb b && negb (music_on s3 =? 0) then snd (music_stop e s3) else s3). intros s4 H4.
  destruct (eqst SPEAKING (st s3)); [ok_step; apply ok_sounds_drop; by ok_step|].
  destruct (eqst LISTENING (st s3) && (now e - wake_cut_ms s3 <? 4000)).
  - set (s5 := sounds_drop_wake _). assert (H5 : ok s5) by (unfold s5; apply ok_sounds_drop; by ok_step). clearbody s5.
    case_match; [by apply ok_quiet_cancel|]. ok_step. apply ok_pipeline_finish. by ok_step.
  - case_match; [|done]. by apply ok_quiet_cancel, ok_sounds_drop.
Qed.
Lemma ok_cancel_run e s : ok s -> ok (cancel_run c e s).
Proof.
  intros H. unfold cancel_run. cbv zeta. apply ok_pipeline_finish. case_match; [|done]. ok_step.
  apply accepts_close; [done| |done]. apply ok_streaming_off. ok_tac.
Qed.
Lemma ok_if {b : bool} s s' : ok s -> ok s' -> ok (if b then s else s').
Proof. by destruct b. Qed.
Lemma ok_snd_if {A} {b : bool} (x y : A * sat) : ok (snd x) -> ok (snd y) -> ok (snd (if b then x else y)).
Proof. by destruct b. Qed.
Lemma ok_transcript e tx s : ok s -> ok (snd (core_transcript c e tx s)).
Proof.
  intros H. unfold core_transcript. cbv zeta.
  assert (Hw : ok (if run_wake s then wake_told c e no_speech s else s)) by (apply ok_if; [by apply ok_wake_told|done]).
  generalize dependent (if run_wake s then wake_told c e no_speech s else s). intros sw Hw.
  apply ok_snd_if; [cbn [snd]; apply ok_if; [by apply ok_quiet_cancel|by apply ok_pipeline_finish]|].
  apply ok_snd_if; [apply ok_cancel_run, ok_emit; done|].
  apply ok_snd_if; [apply ok_snd_if; [done|by apply ok_cancel_run, ok_alarm_stop]|].
  apply ok_snd_if; [done|]. apply ok_snd_if; [by apply ok_cancel_run|].
  pose proof (ok_music_stop e s H) as Hm. destruct (music_stop e s) as [paused s1]. cbn [snd] in Hm.
  apply ok_snd_if; [by apply ok_cancel_run|done].
Qed.
Lemma ok_on_wake e round far slot kw b e_ s : ok s -> ok (snd (on_wake c e round far slot kw b e_ s)).
Proof.
  intros H. unfold on_wake, wake_noted, wake_tell. repeat (case_match; cbn [snd]; [by eauto using ok_stop_word with sat|]). cbv zeta.
  set (s1 := _ <| ww := _ |>). assert (Hs : ok s1) by (unfold s1; repeat ok_step; by apply ok_wake_told).
  clearbody s1. case_match; cbn [snd]; [done|by apply ok_trigger].
Qed.
Lemma ok_on_near_miss e far slot kw s : ok s -> ok (on_near_miss c e far slot kw s).
Proof. intros H. unfold on_near_miss, wake_tell. ok_tac. Qed.
Lemma ok_round_over e won from s : ok s -> ok (round_over c e won from s).
Proof.
  intros H. unfold round_over, answer, wake_tell. cbv zeta. pose proof (ok_trigger e false from s H).
  generalize dependent (trigger c e false from s). intros s1 H1. ok_tac.
Qed.
Lemma ok_action e t s : ok s -> ok (action c e t s).
Proof.
  intros H. unfold action, on_action. repeat (case_match; simplify_eq/=); eauto using ok_trigger with sat; apply ok_trigger; eauto with sat.
Qed.
Lemma ok_dnd b s : ok s -> ok (core_dnd b s).
Proof. intros H. unfold core_dnd. ok_tac. Qed.
Lemma ok_on_hold e stage s : ok s -> ok (on_hold e stage s).
Proof. intros H. unfold on_hold, core_reset. ok_tac. Qed.
Lemma ok_dropin_result r here s : ok s -> ok (core_dropin_result c r here s).
Proof. intros H. unfold core_dropin_result. ok_tac. Qed.
Lemma ok_music source on s : ok s -> ok (core_music c source on s).
Proof.
  intros H. unfold core_music. cbv zeta. set (s1 := s <| music_on := _ |>). assert (H1 : ok s1) by (by apply (ok_view s)). clearbody s1.
  apply ok_if; [|apply ok_playback_hint]; repeat (apply ok_if; repeat ok_step; try exact H1).
Qed.
Lemma ok_bt_device name on s : ok s -> ok (core_bt_device c name on s).
Proof. intros H. unfold core_bt_device. ok_tac. Qed.

(** A call's light, sound and microphone change together *)
Lemma call_move was d p o : was <> d ->
  let ks := match dropin_led was with Some q => [Led false q] | None => [] end ++
            match dropin_led d with Some q => [Led true q] | None => if isd D_LIVE was then [Led true call_connected_end] else [] end in
  forallb is_led ks = true /\
  (forall x, dropin_led x = Some p -> lit p o = isd x was -> lit p (o ++ ks) = isd x d) /\
  ((p = ready_timer \/ exists x, state_pattern x = Some p) -> lit p (o ++ ks) = lit p o).
Proof.
  intros Hne. cbv zeta. rewrite lit_app.
  split; [by destruct was, d|]. split.
  - intros x Hx ->. by destruct was, d, x; simplify_eq/=.
  - intros [->|[x Hx]]; [by destruct was, d|]. by destruct was, d, x; simplify_eq/=.
Qed.

Definition call_lights (was d : dropin_st) : list ev :=
  match dropin_led was with Some q => [Led false q] | None => [] end ++
  match dropin_led d with Some q => [Led true q] | None => if isd D_LIVE was then [Led true call_connected_end] else [] end.
Lemma fine_call_move v d p k : fine v -> v_was v <> d -> p || k = default false (v_is v) -> (k = true -> d = D_LIVE) ->
  fine (v <| v_was := d |> <| v_live := isd D_LIVE d |> <| v_pipe := p |> <| v_call := k |> <| v_out := v_out v ++ call_lights (v_was v) d |>).
Proof.
  intros [B C M H S A D L T F I] Hne Hk Hd. destruct (leds_only (call_lights (v_was v) d) (v_out v)) as (Em & Ef & Eh);
    [by apply (call_move _ _ active_end [] Hne)|].
  split; cbn; rewrite ?Em, ?Ef; try done; [by apply Eh| | | |].
  - intros x q Hx. destruct (call_move (v_was v) d q (v_out v) Hne) as (_ & _ & E). unfold call_lights. rewrite E by eauto. by apply S.
  - destruct (call_move (v_was v) d ready_timer (v_out v) Hne) as (_ & _ & E). unfold call_lights. by rewrite E by eauto.
  - intros x q Hx. destruct (call_move (v_was v) d q (v_out v) Hne) as (_ & E & _). eapply E; [done|]. by apply D.
  - intros E. by rewrite (Hd E).
Qed.
Lemma ok_dropin e d peer outgoing s : ok s -> ok (core_dropin c e d peer outgoing s).
Proof.
  intros H. unfold core_dropin. cbv zeta.
  match goal with |- ok (if isd D_IDLE d && _ then emit A2dpUnyield ?x else _) => cut (ok x); [intros; apply ok_if; [by ok_step|done]|] end.
  match goal with |- ok (if isd D_LIVE d && _ then _ else ?x) => cut (ok x); [intros; apply ok_if; [ok_step; apply ok_if; [by ok_step|done]|done]|] end.
  destruct (isd d (dropin_was s)) eqn:Ed; [apply isd_spec in Ed as ->; by apply (ok_view s)|].
  assert (Hne : dropin_was s <> d) by (intros <-; by destruct (dropin_was s)).
  apply ok_if_linked; [done|]. destruct (isd D_LIVE d) eqn:El.
  - apply isd_spec in El as <-. eapply ok_of; [|exact (fine_emit MixApply _ eq_refl (fine_call_move _ D_LIVE (listen_pipe s) (listen_call s) H Hne (eq_sym (o_is _ H)) (fun _ => eq_refl)))].
    unfold view_of. destruct outgoing, (dropin_was s); try done; cbn; by rewrite <- ?app_assoc.
  - apply ok_listening_apply; [|done].
    match goal with |- fine ?v => replace v with ((view_of s) <| v_was := d |> <| v_live := isd D_LIVE d |> <| v_pipe := default false (listen_is s) |> <| v_call := false |>
      <| v_out := (out s ++ call_lights (dropin_was s) d) ++ [MixApply] |>); [|] end.
    + exact (fine_emit MixApply _ eq_refl (fine_call_move _ d (default false (listen_is s)) false H Hne (orb_false_r _) (fun E => False_ind _ (diff_false_true E)))).
    + unfold view_of. destruct outgoing, (dropin_was s), d; try done; cbn; by rewrite <- ?app_assoc.
Qed.
Lemma ok_dropin_listen on s : ok s -> ok (core_dropin_listen on s).
Proof.
  intros H. unfold core_dropin_listen. case_match; [|done]. bsimp. apply ok_listening_apply.
  - refine (fine_listen (view_of s) (default false (listen_is s)) false H _ _); [by rewrite orb_false_r|done].
  - cbn. intros ->. by destruct (dropin_live s).
Qed.

(** ** Replies and the microphone *)
Lemma ok_tts_begin e rate ch media s : ok s -> ok (core_tts_begin c e rate ch media s).
Proof.
  intros H. unfold core_tts_begin, q_push. cbv zeta. apply ok_wake_listen. ok_step. apply ok_set_state, ok_if; [done|].
  by apply ok_mic_stopped, ok_streaming_off.
Qed.
Lemma ok_tts_data d s : ok s -> ok (core_tts_data d s).
Proof. intros H. unfold core_tts_data, q_push. apply ok_if; [done|by ok_step]. Qed.
Lemma ok_playback_item opens writes s : ok s -> ok (snd (playback_item opens writes s)).
Proof.
  intros H. unfold playback_item. cbv zeta. destruct (stopping s); [done|]. destruct (queue s) as [|i rest]; [done|].
  set (s1 := s <| queue := rest |>). assert (H1 : ok s1) by (by apply (ok_view s)). clearbody s1.
  destruct i; cbn [snd]; repeat first [apply ok_snd_if; cbn [snd] | apply ok_if | ok_step | apply ok_playback_hint]; done.
Qed.
Lemma ok_playback_stopped e s : ok s -> ok (playback_stopped c e s).
Proof.
  intros H. unfold playback_stopped. cbv zeta. apply ok_if; [done|].
  set (s1 := if has_played c then _ else _). assert (H1 : ok s1) by (unfold s1; apply ok_if; repeat ok_step; done). clearbody s1.
  apply ok_if; [by ok_step|by apply ok_pipeline_finish].
Qed.
Lemma ok_send_mic from to s : ok s -> streaming s = true -> ok (send_mic c from to s) /\ streaming (send_mic c from to s) = true.
Proof.
  intros H Hs. unfold send_mic. cbv zeta. set (s1 := if mic_fresh s then _ else s).
  assert (H1 : ok s1 /\ streaming s1 = true) by (unfold s1; case_match; [split; [repeat ok_step; done|done]|done]). clearbody s1.
  destruct H1 as [H1 Hs1]. split; [|done]. apply ok_audio; [done|]. by apply (o_mic _ H1).
Qed.
Lemma ok_stream_ring from to s : ok s -> streaming s = true -> ok (stream_ring c from to s).
Proof.
  intros H Hs. unfold stream_ring. cbv zeta. apply ok_if; [|done].
  set (a := if (RING_SAMPLES <? cap_n s) && _ then _ else from). set (z := if cap_n s <? to then _ else to). apply ok_if; [|by apply ok_send_mic].
  by apply ok_send_mic; apply (ok_send_mic a (a + (RING_SAMPLES - a mod RING_SAMPLES)) s).
Qed.
Lemma ok_block e n tail ended s : ok s -> ok (stream_block c e n tail ended (captured n s)).
Proof.
  intros H. unfold stream_block. cbv zeta. unfold captured. set (s0 := s <| cap_n := _ |>). assert (H0 : ok s0) by (by apply (ok_view s)).
  clearbody s0. destruct (streaming s0) eqn:Hs; [|done]. cbn [negb]. apply ok_if; [by ok_step|].
  match goal with |- ok (if ended && mic_end_on ?x && _ then _ else _) => assert (H1 : ok x) end.
  { apply ok_if; [by apply ok_send_mic|]. destruct tail; [|done]. ok_step. apply ok_stream_ring; [by ok_step|done]. }
  apply ok_if; [|done]. by apply ok_heard_end.
Qed.
Lemma ok_timeout e s : ok s -> ok (pipeline_timeout c e s).
Proof. intros H. unfold pipeline_timeout. apply ok_if; [by apply ok_pipeline_finish|done]. Qed.
End talk.
