(* ===== verification/SatSteps.v ===== *)
(** * The satellite: what a step is made of
    A step is a sequence of calls of the core, each with what it asks of the protocol, and of
    changes of the protocol's own; what holds in every history is checked on those. *)
From S2P Require Import Prelude Cbits Timers WakeWords EspPb Sat SatTalk SatHa SatSafe.

(** A thread just started *)
Definition fresh (j : job) : Prop := ph j = Next 0 /\ began j = false /\ aborted j = false /\ SatHa.ok j = false.
(** The threads stay as they are; new ones may come *)
Definition grows (h h' : ha) : Prop := exists new, jobs h' = jobs h ++ new /\ Forall fresh new.
Lemma grows_same h h' : jobs h' = jobs h -> grows h h'.
Proof. intros E. exists []. by rewrite app_nil_r. Qed.

Section steps.
Context (c : cfg) (message : bytes -> bool -> bytes) (listener : bool).

(** The first mark: somebody asks for a run, now or once this one is over; the second: of the
    queue, the playback thread or the capture thread *)
Inductive call (e : env) (s : sat) : bool -> bool -> sat -> Prop :=
  | k_link up ready b q : call e s b q (core_link c e up ready s)
  | k_link_pause b q : call e s b q (core_link_pause c e s)
  | k_error b q : call e s b q (core_error c e s)
  | k_no_speech b q : call e s b q (core_no_speech c e s)
  | k_soft_mute on b q : call e s b q (core_soft_mute c e (Some on) s)
  | k_latch m b q : call e s b q (mute_latch c e m true s)
  | k_dnd on b q : call e s b q (core_dnd on s)
  | k_wake round far slot kw b e_ q : call e s true q (snd (on_wake c e round far slot kw b e_ s))
  | k_round won from q : call e s true q (round_over c e won from s)
  | k_near far slot kw b q : call e s b q (on_near_miss c e far slot kw s)
  | k_action t q : call e s true q (action c e t s)
  | k_hold stage b q : call e s b q (on_hold e stage s)
  | k_dropin d peer outgoing b q : call e s b q (core_dropin c e d peer outgoing s)
  | k_dropin_listen on b q : call e s b q (core_dropin_listen on s)
  | k_dropin_result r here b q : call e s b q (core_dropin_result c r here s)
  | k_music source on b q : call e s b q (core_music c source on s)
  | k_bt name on b q : call e s b q (core_bt_device c name on s)
  | k_timers f b q : tracks f -> call e s b q (timers_do c f s)
  | k_block n tail ended b : call e s b true (stream_block c e n tail ended (captured n s))
  | k_timeout b q : call e s b q (pipeline_timeout c e s)
  | k_play opens writes b : call e s b true (snd (playback_item opens writes s))
  | k_stopped b : call e s b true (playback_stopped c e s)
  | k_begin rate ch media b : call e s b true (core_tts_begin c e rate ch media s)
  | k_data d b q : call e s b q (core_tts_data d s)
  | k_end b : call e s b true (core_tts_end s)
  | k_abandoned b q : call e s b q (core_tts_abandoned s)
  | k_flush b q : call e s b q (core_tts_flush s)
  | k_restart q : call e s true q (core_restart_after s)
  | k_finish b q : call e s b q (core_pipeline_finish c e s)
  | k_listening b q : call e s b q (core_set_state e LISTENING s)
  | k_think b q : call e s b q (think e s)
  | k_mic_off b q : call e s b q (core_mic_off s)
  | k_remote_wake b q : call e s b q (core_remote_wake c e s)
  | k_transcript tx b q : call e s b q (snd (core_transcript c e tx s))
  | k_run_ended failed b q : call e s b q (snd (core_wake_run_ended failed s))
  | k_run_over b q : call e s b q (core_run_over c e s).

(** A turn of a step: a call, a change of [ha] beside the threads, one of thread [k] *)
Inductive turn (e : env) (b q : bool) (k : option nat) (w : world) : world -> Prop :=
  | t_core f : call e (core w) b q (f (core w)) -> turn e b q k w (on_core c message listener e f w)
  | t_ha f : grows (hap w) (f (hap w)) -> turn e b q k w (on_ha f w)
  | t_job i f : k = Some i -> turn e b q k w (on_ha (upd_job i f) w).

Definition asks (o : op) : bool :=
  match o with
  | WakeWord _ _ _ _ _ _ | RoundOver _ _ | Press _ | JDone _ => true
  | Event_ p => let x := event_of p in (ty x =? EV_INTENT_END) && cont x
  | _ => false
  end.
Definition own (o : op) : bool :=
  match o with Block _ _ _ | Play _ _ | PlayStopped | JBegin _ _ _ | JStop _ => true | _ => false end.
Definition thread (o : op) : option nat :=
  match o with JAsk k | JTake k _ | JBegin k _ _ | JFail k | JEnded k | JDone k | JStop k => Some k | _ => None end.

Section turns.
Context (e : env) (b q : bool) (k : option nat) (w0 : world).
Abbreviation turns := (rtc (turn e b q k) w0).
Lemma turns_core f w : turns w -> call e (core w) b q (f (core w)) -> turns (on_core c message listener e f w).
Proof. intros H K. eapply rtc_r; [exact H|by constructor]. Qed.
Lemma turns_ha f w : turns w -> grows (hap w) (f (hap w)) -> turns (on_ha f w).
Proof. intros H K. eapply rtc_r; [exact H|by constructor]. Qed.
Lemma turns_job i f w : turns w -> k = Some i -> turns (on_ha (upd_job i f) w).
Proof. intros H K. eapply rtc_r; [exact H|by constructor]. Qed.
Lemma turns_if (x : bool) w w' : turns w -> turns w' -> turns (if x then w else w').
Proof. by destruct x. Qed.
End turns.
Ltac turns_tac := repeat first [ assumption | reflexivity
  | lazymatch goal with
    | |- rtc _ _ (if _ then _ else _) => apply turns_if
    | |- rtc _ _ (on_core _ _ _ _ _ _) => apply turns_core; [|solve [constructor; done]]
    | |- rtc _ _ (on_ha (upd_job _ _) _) => apply turns_job; [|reflexivity]
    | |- rtc _ _ (on_ha _ _) => apply turns_ha; [|apply grows_same; solve [reflexivity | case_match; reflexivity]]
    end ].

Lemma turns_media_start e b q k u0 u1 ann conv rep med w0 w :
  rtc (turn e b q k) w0 w -> rtc (turn e b q k) w0 (media_start c message listener e u0 u1 ann conv rep med w).
Proof.
  intros H. unfold media_start. cbv zeta. apply turns_if; [turns_tac|]. apply turns_ha; [turns_tac|]. eexists. split; [reflexivity|].
  by constructor.
Qed.
Lemma turns_event e p w : rtc (turn e (asks (Event_ p)) false None) w (on_event c message listener e p w).
Proof.
  unfold on_event. cbv zeta. cbn [asks]. set (x := event_of p). set (b := _ && _).
  assert (H1 : rtc (turn e b false None) w (match reply_url x with Some u => on_ha (fun h => h <| tts_url := strcap 1024 u |>) w | None => w end))
    by (destruct (reply_url x); turns_tac).
  generalize dependent (match reply_url x with Some u => on_ha (fun h => h <| tts_url := strcap 1024 u |>) w | None => w end). intros w1 H1.
  apply turns_if; [done|].
  set (w2 := if (ty x =? EV_RUN_START) || _ then _ else w1). assert (H2 : rtc (turn e b false None) w w2) by (unfold w2; turns_tac). clearbody w2.
  unfold run_event, tts_end, run_end, run_error. cbv zeta.
  assert (Hr : rtc (turn e b false None) w (if ty x =? EV_INTENT_END then if cont x then on_core c message listener e core_restart_after w2 else w2 else w2)).
  { unfold b. destruct (ty x =? EV_INTENT_END), (cont x); turns_tac. }
  destruct (ty x =? EV_INTENT_END); destruct (core_transcript c e (text x) (core w2)); turns_tac; apply turns_media_start; turns_tac.
Qed.
Lemma jobs_bt_try e h : jobs (bt_try e listener h) = jobs h.
Proof. unfold bt_try, bt_ask. by repeat case_match. Qed.
Lemma on_core_id e w : on_core c message listener e (fun s => s) w = w.
Proof. unfold on_core. cbv zeta. rewrite drop_all. by destruct w. Qed.
Lemma step_turns e w o : rtc (turn e (asks o) (own o) (thread o)) w (step c message listener e w o).
Proof.
  destruct o; cbn [step]; try (by apply turns_core; [|constructor]).
  - apply turns_event.
  - unfold on_announce. cbv zeta. apply turns_if; [turns_tac|by apply turns_media_start].
  - unfold on_mp_command. cbv zeta. generalize (command_of p). intros x. set (w1 := if _ && media_playing _ then _ else w).
    assert (H1 : rtc (turn e false false None) w w1) by (unfold w1; turns_tac). clearbody w1.
    set (w2 := if has_cmd x && (cmd x =? _) then _ else w1). assert (H2 : rtc (turn e false false None) w w2).
    { unfold w2. apply turns_if; [|done]. apply turns_core; [done|]. unfold alarm_stop. constructor. apply tracks_alarm_stop. }
    clearbody w2. set (w3 := if has_url x && _ then _ else w2).
    assert (H3 : rtc (turn e false false None) w w3) by (unfold w3; apply turns_if; [by apply turns_media_start|done]). clearbody w3.
    turns_tac.
  - unfold on_timer. cbv zeta. generalize (timer_of p). intros x. destruct (tm_type x =? 3); [|destruct (tm_type x =? 2); [|destruct (tm_type x <? 2); [|by rewrite on_core_id]]]; (apply turns_core; [done|]);
      [apply (k_timers e _ _ _ _ (tracks_finished _ _ _ _))|apply (k_timers e _ _ _ _ (tracks_cancelled _))|apply (k_timers e _ _ _ _ (tracks_running _ _ _ _ _ _))].
  - apply turns_ha; [done|]. apply grows_same, jobs_bt_try.
  - apply turns_core; [done|]. unfold alarm_stop. constructor. apply tracks_alarm_stop.
  - apply turns_core; [done|]. constructor. apply tracks_prune.
  - apply turns_core; [done|]. constructor. apply tracks_ring.
  - unfold job_ask. repeat case_match; turns_tac.
  - unfold job_take. repeat case_match; turns_tac.
  - unfold job_begin. repeat case_match; turns_tac.
  - unfold job_fail. repeat case_match; turns_tac.
  - unfold job_data. repeat case_match; turns_tac.
  - unfold job_ended. repeat case_match; turns_tac.
  - unfold job_done. cbv zeta. destruct (jobs (hap w) !! k) as [j|]; [|done]. destruct (ph j); turns_tac.
  - unfold job_stop. repeat case_match; turns_tac.
Qed.

(** What it does to the core is a sequence of calls *)
Lemma step_calls e w o : rtc (fun s => call e s (asks o) (own o)) (core w) (core (step c message listener e w o)).
Proof.
  induction (step_turns e w o) as [|w w1 w2 T _ IH]; [done|]. destruct T as [f K|f|i f]; [by eapply rtc_l; [exact K|]|exact IH..].
Qed.

Lemma ok_call e s b q s' : call e s b q s' -> ok s -> ok s'.
Proof.
  intros K H; destruct K; eauto using ok_link, ok_link_pause, ok_error, ok_no_speech, ok_soft_mute, ok_mute_latch, ok_dnd, ok_on_wake, ok_round_over,
    ok_on_near_miss, ok_action, ok_on_hold, ok_dropin, ok_dropin_listen, ok_dropin_result, ok_music, ok_bt_device, ok_timers_do.
  all: eauto using ok_block, ok_timeout, ok_playback_item, ok_playback_stopped, ok_tts_begin, ok_tts_data, ok_pipeline_finish, ok_set_state,
    ok_mic_off, ok_remote_wake, ok_transcript, ok_wake_run_ended.
  - unfold think. cbv zeta. pose proof (ok_mic_off s H). apply ok_if; [by apply ok_set_state|done].
  - unfold core_run_over. apply ok_wake_listen. by ok_step.
Qed.
Lemma ok_calls e b q s s' : rtc (fun s => call e s b q) s s' -> ok s -> ok s'.
Proof. induction 1; eauto using ok_call. Qed.
Lemma ok_step_ e w o : ok (core w) -> ok (core (step c message listener e w o)).
Proof. apply ok_calls with e (asks o) (own o), step_calls. Qed.
Lemma ok_steps l w : ok (core w) -> ok (core (steps c message listener l w)).
Proof. revert w. induction l as [|[e o] l IH]; intros w H; [done|]. apply IH, ok_step_, H. Qed.
End steps.
