(* ===== verification/SatRuns.v ===== *)
(** * The satellite: the start, what holds in every run, what starts a run *)
From S2P Require Import Prelude Cbits Timers WakeWords EspPb Sat SatTalk SatHa SatSafe SatSteps.

(** ** The start
    main() before its threads: nothing runs, nobody is linked.  [setup]: not set up yet, with
    the setup light *)
Definition sat0 (words : wakes) (setup : bool) : sat :=
  mk_sat false false false IDLE 0 false false false false 0 false false false
    false 0 0 false false false 0 0 false false 0 false 0 0 0 0 0 false false false false false false None
    false false false 0 true 0 0 true setup D_IDLE false (-1) 0 timers0 words [[]; []] [[]; []] 0 0 [] false false [].
Definition world0 (words : wakes) (setup : bool) : world := mk_world (sat0 words setup) ha0.

Lemma ok_sat0 words setup : ok (sat0 words setup).
Proof.
  split; try done.
  - intros l1 a l2 H. by destruct l1.
  - by intros [] p; intros [= <-].
  - by intros [] p; intros [= <-].
Qed.

Section runs.
Context (c : cfg) (message : bytes -> bool -> bytes) (listener : bool) (words : wakes) (setup : bool).
Definition run (l : list (env * op)) : world := steps c message listener l (world0 words setup).

Lemma ok_run l : ok (core (run l)).
Proof. apply ok_steps, ok_sat0. Qed.

(** C2. The microphone goes out only in a run: whatever happens, in whatever order, each block of
    audio is sent after the Echo asked for a run that it has neither ended, stopped nor
    cancelled since. *)
Theorem mic_only_in_a_run l l1 a l2 :
  out (core (run l)) = l1 ++ P (Audio a) :: l2 -> mic l1 = true.
Proof. intros H. by apply (o_heard _ (ok_run l)) in H. Qed.

(** C4. The light ring shows the state: of the patterns of listening, thinking and talking the
    one of the state is lit and no other, a timer's as long as one rings, a call's by its state;
    and the front end was last told whether a command or a call is spoken. *)
Theorem ring_shows_the_state l :
  let s := core (run l) in
  (forall x p, state_pattern x = Some p -> lit p (out s) = eqst x (st s)) /\
  lit ready_timer (out s) = alarm_on (tm s) /\
  (forall d p, dropin_led d = Some p -> lit p (out s) = isd d (dropin_was s)) /\
  default false (front_end (out s)) = listen_pipe s || listen_call s /\
  (listen_call s = true -> dropin_was s = D_LIVE).
Proof.
  destruct (ok_run l) as [B C M H S A D L T F I]. cbn in *. split_and!; try done.
  - by rewrite F.
  - intros E. specialize (T E). rewrite L in T. by destruct (dropin_was (core (run l))).
Qed.
End runs.

(** ** What starts a run *)
Definition is_start (e : ev) : bool := match e with P (Start _) => true | _ => false end.
Definition starts (l : list ev) : nat := length (filter (fun e => is_start e = true) l).
#[global] Arguments starts : simpl never.
Lemma starts_snoc l e : starts (l ++ [e]) = (starts l + if is_start e then 1 else 0)%nat.
Proof. unfold starts. rewrite list.filter_app, length_app. f_equal. rewrite list.filter_cons. by destruct (is_start e). Qed.

(** How many runs started, whether one follows the one that runs, and what lets one start *)
Definition vb (s : sat) := (starts (out s), barge_in s, (satellite_running s, connected s, soft_mute s)).
Lemma vb_emit e s : is_start e = false -> vb (emit e s) = vb s.
Proof. intros H. unfold vb. by rewrite out_emit, starts_snoc, H, Nat.add_0_r. Qed.

Ltac vb_step :=
  lazymatch goal with
  | |- vb (set _ _ ?s) = _ => transitivity (vb s); [generalize s; intros; reflexivity|]
  | |- vb (emit _ _) = _ => rewrite vb_emit by done
  | |- vb (led _ _ _) = _ => unfold led; rewrite vb_emit by done
  | |- vb (if ?b then _ else _) = _ => destruct b
  end.

Section starts.
Context (c : cfg) (Hl : core_local_wake c = true).

Lemma vb_if_linked has p s : is_start (P p) = false -> vb (if_linked has p s) = vb s.
Proof. intros H. unfold if_linked. case_match; [by apply vb_emit|done]. Qed.
Lemma vb_sound_request k s : vb (sound_request c k s) = vb s.
Proof. unfold sound_request, sound_queue. by repeat vb_step. Qed.
Lemma vb_led_for x y s : vb (led_for x y s) = vb s.
Proof. destruct x, y; unfold led_for; cbn [state_pattern eqst]; by repeat vb_step. Qed.
Lemma vb_set_state e x s : vb (core_set_state e x s) = vb s.
Proof. unfold core_set_state. vb_step; [done|]. cbv zeta. do 3 vb_step. rewrite vb_led_for. by repeat vb_step. Qed.
Lemma vb_afe_done s : vb (afe_done s) = vb s.
Proof. unfold afe_done. by repeat vb_step. Qed.
Lemma vb_listening_apply s : vb (listening_apply s) = vb s.
Proof. unfold listening_apply. cbv zeta. by repeat vb_step. Qed.
Lemma vb_mic_stopped s : vb (mic_stopped s) = vb s.
Proof. unfold mic_stopped, listening. rewrite vb_afe_done, vb_listening_apply. by vb_step. Qed.
Lemma vb_timer_evs l s : vb (fold_left timer_ev l s) = vb s.
Proof.
  revert s. induction l as [|x l IH]; intros s; [done|]. cbn [fold_left]. rewrite IH.
  destruct x; cbn [timer_ev]; unfold playback_hint; by repeat vb_step.
Qed.
Lemma vb_timers_do f s : vb (timers_do c f s) = vb s.
Proof. unfold timers_do. cbv zeta. by rewrite vb_timer_evs. Qed.
Lemma vb_wake_told e w s : vb (wake_told c e w s) = vb s.
Proof. unfold wake_told. vb_step; [by apply vb_if_linked|done]. Qed.

Lemma vb_finish e s : barge_in s = false -> vb (core_pipeline_finish c e s) = vb s.
Proof.
  intros Hb. unfold core_pipeline_finish. cbv zeta. rewrite Hl. cbn [negb].
  match goal with |- context [mic_stopped ?x] => assert (E : vb (core_set_state e IDLE (mic_stopped x)) = vb s) end.
  { rewrite vb_set_state, vb_mic_stopped. by repeat vb_step. }
  match type of E with vb ?x = _ => generalize dependent x end. intros s1 E1.
  assert (E2 : vb (if 3000 <? now e - last_wake_ms s1 then emit WakeReset s1 else s1) = vb s) by (by repeat vb_step).
  match type of E2 with vb ?x = _ => generalize dependent x end. intros s2 E2.
  assert (Hb2 : barge_in s2 = false) by (unfold vb in E2; congruence).
  assert (E3 : vb (if connected s2 then s2 else s2 <| barge_in := false |>) = vb s)
    by (case_match; [done|]; rewrite <- E2; unfold vb; cbn; by rewrite Hb2).
  match type of E3 with vb ?x = _ => generalize dependent x end. intros s3 E3.
  assert (Hb3 : barge_in s3 = false) by (unfold vb in E3; congruence).
  rewrite Hb3. done.
Qed.

Lemma vb_quiet_cancel e s : vb (quiet_cancel c e s) = vb (s <| barge_in := false |>).
Proof. unfold quiet_cancel. vb_step. rewrite vb_finish by done. rewrite vb_emit by done. done. Qed.
Lemma starts_vb s s' : vb s' = vb s -> starts (out s') = starts (out s).
Proof. unfold vb. congruence. Qed.
Lemma starts_finish_cut e s : starts (out (core_pipeline_finish c e (s <| barge_in := false |>))) = starts (out s).
Proof. by rewrite (starts_vb (s <| barge_in := false |>)) by (by apply vb_finish). Qed.
Lemma starts_quiet_cancel e s : starts (out (quiet_cancel c e s)) = starts (out s).
Proof. by rewrite (starts_vb (s <| barge_in := false |>)) by apply vb_quiet_cancel. Qed.

(** A wake word or a press starts a run only in a linked Echo that is not muted *)
Lemma trigger_starts e touch from s :
  starts (out (trigger c e touch from s)) = starts (out s) \/
  satellite_running s = true /\ connected s = true /\ core_muted e s = false.
Proof.
  unfold trigger. cbv zeta. destruct (touch && alarm_on (tm s)).
  { left. apply starts_vb. vb_step. apply vb_timers_do. }
  destruct (_ && connected s && has_cancel c) eqn:E1.
  { bsimp. pose proof (vb_quiet_cancel e s) as Ev. pose proof (starts_quiet_cancel e s) as Es.
    assert (Er : satellite_running (quiet_cancel c e s) = satellite_running s) by (unfold vb in Ev; by injection Ev).
    assert (Em : core_muted e (quiet_cancel c e s) = core_muted e s) by (unfold core_muted; f_equal; unfold vb in Ev; by injection Ev).
    destruct (negb touch && stopped_now _); [by left|].
    destruct (negb touch && eqst IDLE _ && _ && _) eqn:E2; [|by left]. bsimp. right. by rewrite <- Er, <- Em. }
  destruct (negb (connected s) || negb (satellite_running s) || core_muted e s) eqn:E2.
  { left. apply starts_vb. by repeat vb_step. }
  apply orb_false_iff in E2 as [[E2 E3]%orb_false_iff E4]. bsimp. by right.
Qed.
Lemma vb_music_stop e s : vb (snd (music_stop e s)) = vb s.
Proof. unfold music_stop. case_match; cbn [snd]; by repeat vb_step. Qed.

(** "Stop" starts nothing, not even what was to follow *)
Lemma stop_word_starts e s : starts (out (stop_word c e s)) = starts (out s).
Proof.
  unfold stop_word, stop_locked. cbv zeta. set (s1 := (if call_on e then _ else s) <| stop_ms := _ |>).
  assert (E1 : vb s1 = vb s) by (unfold s1; by repeat vb_step). clearbody s1.
  assert (H2 : exists b s2, (if alarm_on (tm s1) then (true, alarm_stop c s1) else (call_on e, s1)) = (b, s2) /\ vb s2 = vb s)
    by (case_match; eexists _, _; (split; [done|]); [by rewrite <- E1; apply vb_timers_do|done]).
  destruct H2 as (b & s2 & -> & E2). set (s3 := s2 <| stop_cut := _ |>). assert (E3 : vb s3 = vb s) by (unfold s3; by vb_step). clearbody s3.
  assert (E4 : vb (if negb b && negb (music_on s3 =? 0) then snd (music_stop e s3) else s3) = vb s) by (case_match; [by rewrite vb_music_stop|done]).
  generalize dependent (if negb b && negb (music_on s3 =? 0) then snd (music_stop e s3) else s3). intros s4 E4.
  destruct (eqst SPEAKING (st s3)); [by apply (starts_vb s3 _) in E3 as <- || (rewrite <- (starts_vb _ _ E3); done)|].
  destruct (_ && (now e - wake_cut_ms s3 <? 4000)).
  - case_match; [rewrite starts_quiet_cancel; by rewrite <- (starts_vb _ _ E3)|].
    change (starts (out (core_pipeline_finish c e ((sounds_drop_wake (s3 <| stop_cut := true |>)) <| barge_in := false |>))) = starts (out s)).
    rewrite starts_finish_cut. by rewrite <- (starts_vb _ _ E3).
  - case_match; [rewrite starts_quiet_cancel; by rewrite <- (starts_vb _ _ E4)|]. by apply starts_vb.
Qed.

(** ** Every other call, with nothing to follow *)
Lemma vb_sound_queue k s : vb (sound_queue k s) = vb s.
Proof. unfold sound_queue. by vb_step. Qed.
Lemma vb_snd_if {A} {b : bool} (x y : A * sat) v : vb (snd x) = v -> vb (snd y) = v -> vb (snd (if b then x else y)) = v.
Proof. by destruct b. Qed.
Ltac vb_tac := cbv zeta; repeat first [ done | vb_step | rewrite vb_finish by done | rewrite vb_set_state | rewrite vb_mic_stopped
  | rewrite vb_listening_apply | rewrite vb_sound_request | rewrite vb_sound_queue | rewrite vb_wake_told | rewrite vb_if_linked by done
  | rewrite vb_timers_do | rewrite vb_afe_done
  | lazymatch goal with |- vb (match ?x with _ => _ end) = _ => destruct x end ].

Lemma vb_adopted e s : vb (adopted e s) = vb s.
Proof. unfold adopted, write_state. vb_tac. Qed.
Lemma vb_dropin e d peer outgoing s : vb (core_dropin c e d peer outgoing s) = vb s.
Proof.
  unfold core_dropin. cbv zeta. set (s1 := s <| dropin_was := d |>). assert (E1 : vb s1 = vb s) by (unfold s1; by vb_step). clearbody s1.
  match goal with |- context [isd D_LIVE d && negb _] => idtac end.
  match goal with |- context [if isd d (dropin_was s) then s1 else ?y] => set (s2 := y); assert (E2 : vb s2 = vb s) end.
  { unfold s2. rewrite vb_if_linked by done. rewrite <- E1. destruct (isd D_LIVE d); [|rewrite vb_listening_apply]; vb_tac. }
  clearbody s2. vb_tac.
Qed.
Lemma vb_near_miss e far slot kw s : vb (on_near_miss c e far slot kw s) = vb s.
Proof. unfold on_near_miss, wake_tell. vb_tac. Qed.
Lemma vb_on_hold e stage s : vb (on_hold e stage s) = vb s.
Proof. unfold on_hold, core_reset, write_state. vb_tac. Qed.
Lemma vb_dnd b s : vb (core_dnd b s) = vb s.
Proof. unfold core_dnd. vb_tac. Qed.
Lemma vb_dropin_listen on s : vb (core_dropin_listen on s) = vb s.
Proof. unfold core_dropin_listen. vb_tac. Qed.
Lemma vb_dropin_result r here s : vb (core_dropin_result c r here s) = vb s.
Proof. unfold core_dropin_result. vb_tac. Qed.
Lemma vb_music source on s : vb (core_music c source on s) = vb s.
Proof. unfold core_music, playback_hint. vb_tac. Qed.
Lemma vb_bt_device name on s : vb (core_bt_device c name on s) = vb s.
Proof. unfold core_bt_device. vb_tac. Qed.
Lemma vb_wake_listen e s : vb (wake_listen c e s) = vb s.
Proof. unfold wake_listen. by rewrite Hl. Qed.
Lemma vb_tts_begin e rate ch media s : vb (core_tts_begin c e rate ch media s) = vb s.
Proof. unfold core_tts_begin, q_push. cbv zeta. rewrite vb_wake_listen. vb_tac. Qed.
Lemma vb_tts_data d s : vb (core_tts_data d s) = vb s.
Proof. unfold core_tts_data, q_push. vb_tac. Qed.
Lemma vb_playback_item opens writes s : vb (snd (playback_item opens writes s)) = vb s.
Proof.
  unfold playback_item, playback_hint. cbv zeta. case_match; [done|]. destruct (queue s) as [|[] rest]; cbn [snd]; [done| | |vb_tac];
    repeat (apply vb_snd_if; cbn [snd]); vb_tac.
Qed.
Lemma vb_mic_off s : vb (core_mic_off s) = vb s.
Proof. unfold core_mic_off. vb_tac. Qed.
Lemma vb_think e s : vb (think e s) = vb s.
Proof. unfold think. cbv zeta. vb_step; rewrite ?vb_set_state; apply vb_mic_off. Qed.
Lemma vb_run_ended failed s : vb (snd (core_wake_run_ended failed s)) = vb s.
Proof.
  unfold core_wake_run_ended. case_match; [done|]. cbn [snd].
  assert (E : vb (mic_stopped (s <| streaming := false |>)) = vb s) by (rewrite vb_mic_stopped; by vb_step).
  generalize dependent (mic_stopped (s <| streaming := false |>)). intros s1 E. vb_tac.
Qed.
Lemma vb_send_mic from to s : vb (send_mic c from to s) = vb s.
Proof. unfold send_mic. vb_tac. Qed.
Lemma vb_stream_ring from to s : vb (stream_ring c from to s) = vb s.
Proof. unfold stream_ring. cbv zeta. vb_step; [|done]. vb_step; by rewrite ?vb_send_mic. Qed.
Lemma vb_heard_end e s : vb (heard_end e s) = vb s.
Proof. unfold heard_end. cbv zeta. vb_step; rewrite ?vb_set_state, vb_mic_off; vb_tac. Qed.
Lemma vb_ring_sent from to a s : vb ((stream_ring c from to (s <| talker_from := a |>)) <| replay_from := 0 |>) = vb s.
Proof. transitivity (vb (stream_ring c from to (s <| talker_from := a |>))); [|by rewrite vb_stream_ring]. generalize (stream_ring c from to (s <| talker_from := a |>)). by intros. Qed.
Lemma vb_stream_block e n tail ended s : vb (stream_block c e n tail ended s) = vb s.
Proof.
  unfold stream_block. case_match; [done|]. case_match; [by vb_step|]. cbv zeta.
  match goal with |- vb (if ended && mic_end_on ?x && _ then _ else _) = _ => assert (E : vb x = vb s) end.
  { case_match; [by rewrite vb_send_mic|]. destruct tail; [apply vb_ring_sent|done]. }
  vb_step; [by rewrite vb_heard_end|done].
Qed.
Lemma vb_block e n tail ended s : vb (stream_block c e n tail ended (captured n s)) = vb s.
Proof. rewrite vb_stream_block. unfold captured. by vb_step. Qed.

(** *** No run to follow, and none starts *)
Definition quiet (n : nat) (s : sat) : Prop := starts (out s) = n /\ barge_in s = false.
Lemma quiet_vb n s s' : vb s' = vb s -> quiet n s -> quiet n s'.
Proof. unfold quiet, vb. intros E [H1 H2]. split; congruence. Qed.
Lemma quiet_if n (b : bool) s s' : quiet n s -> quiet n s' -> quiet n (if b then s else s').
Proof. by destruct b. Qed.
Lemma quiet_finish n e s : quiet n s -> quiet n (core_pipeline_finish c e s).
Proof. intros H. eapply quiet_vb; [apply vb_finish, H|done]. Qed.
Lemma quiet_quiet_cancel n e s : starts (out s) = n -> quiet n (quiet_cancel c e s).
Proof. intros H. eapply quiet_vb; [apply vb_quiet_cancel|done]. Qed.
Lemma quiet_link n e up ready s : quiet n s -> quiet n (core_link c e up ready s).
Proof.
  intros H. unfold core_link. cbv zeta. rewrite Hl, andb_false_r. cbn [andb].
  set (s1 := s <| connected := up |> <| satellite_running := up && ready |> <| link_paused := false |>).
  assert (H1 : quiet n s1) by done. clearbody s1.
  assert (H2 : quiet n (if satellite_running s1 then adopted e s1 else s1)) by (apply quiet_if; [by eapply quiet_vb; [apply vb_adopted|]|done]).
  generalize dependent (if satellite_running s1 then adopted e s1 else s1). intros s2 H2. case_match; [by apply quiet_finish|done].
Qed.
Lemma quiet_mute_update n e was sound s : quiet n s -> quiet n (mute_update c e was sound s).
Proof.
  intros H. unfold mute_update. cbv zeta. apply quiet_if; [done|]. eapply quiet_vb; [by apply vb_if_linked|].
  set (s1 := if sound then _ else s). assert (H1 : quiet n s1) by (unfold s1; apply quiet_if; [by eapply quiet_vb; [apply vb_sound_request|]|done]). clearbody s1.
  apply quiet_if; [|by repeat (eapply quiet_vb; [by apply vb_emit|])].
  eapply quiet_vb; [by apply vb_emit|]. apply quiet_if; [by apply quiet_finish|done].
Qed.
Lemma quiet_soft_mute n e b s : quiet n s -> quiet n (core_soft_mute c e (Some b) s).
Proof.
  intros H. unfold core_soft_mute. apply quiet_if; [done|]. cbv zeta.
  assert (H1 : quiet n (mute_update c e (core_muted e s) (satellite_running s) (s <| soft_mute := b |>))) by (by apply quiet_mute_update).
  generalize dependent (mute_update c e (core_muted e s) (satellite_running s) (s <| soft_mute := b |>)). intros s1 H1.
  apply quiet_if; [|done]. eapply quiet_vb; [by apply vb_if_linked|done].
Qed.
Lemma quiet_latch n e m s : quiet n s -> quiet n (mute_latch c e m true s).
Proof. intros H. unfold mute_latch. cbv zeta. apply quiet_mute_update, quiet_if; exact (conj (proj1 H) (proj2 H)). Qed.
Lemma quiet_error n e s : quiet n s -> quiet n (core_error c e s).
Proof. intros H. unfold core_error. apply quiet_if; [exact (conj (proj1 H) (proj2 H))|]. apply quiet_if; [done|]. apply quiet_finish. eapply quiet_vb; [by apply vb_emit|done]. Qed.
Lemma quiet_wake_told n e w s : quiet n s -> quiet n (wake_told c e w s).
Proof. apply quiet_vb, vb_wake_told. Qed.
Lemma quiet_no_speech n e s : quiet n s -> quiet n (core_no_speech c e s).
Proof.
  intros H. unfold core_no_speech. cbv zeta. apply quiet_if; [done|].
  assert (H1 : quiet n (if run_wake s then wake_told c e no_speech s else s)) by (apply quiet_if; [by apply quiet_wake_told|done]).
  generalize dependent (if run_wake s then wake_told c e no_speech s else s). intros s1 H1. apply quiet_if; [done|by apply quiet_finish].
Qed.
Lemma quiet_stopped n e s : quiet n s -> quiet n (playback_stopped c e s).
Proof.
  intros H. unfold playback_stopped. cbv zeta. apply quiet_if; [done|].
  set (s1 := if has_played c then _ else _). assert (H1 : quiet n s1) by (unfold s1; apply quiet_if; [by eapply quiet_vb; [by apply vb_emit|]|done]).
  clearbody s1. apply quiet_if; [done|by apply quiet_finish].
Qed.
Lemma quiet_cancel_run n e s : quiet n s -> quiet n (cancel_run c e s).
Proof.
  intros H. unfold cancel_run. cbv zeta. apply quiet_finish, quiet_if; [|done].
  split; [|done]. change (starts (out s ++ [P Cancel]) = n). rewrite starts_snoc. cbn [is_start]. destruct H. lia.
Qed.
Lemma quiet_transcript n e tx s : quiet n s -> quiet n (snd (core_transcript c e tx s)).
Proof.
  intros H. unfold core_transcript. cbv zeta.
  assert (Hw : quiet n (if run_wake s then wake_told c e no_speech s else s)) by (apply quiet_if; [by apply quiet_wake_told|done]).
  generalize dependent (if run_wake s then wake_told c e no_speech s else s). intros sw Hw.
  assert (Hs : forall (b : bool) (x y : bool * sat), quiet n (snd x) -> quiet n (snd y) -> quiet n (snd (if b then x else y))) by (by intros []).
  apply Hs; [apply quiet_if; [by apply quiet_quiet_cancel, Hw|by apply quiet_finish]|].
  apply Hs; [apply quiet_cancel_run; eapply quiet_vb; [by apply vb_emit|done]|].
  apply Hs; [apply Hs; [done|apply quiet_cancel_run; eapply quiet_vb; [apply vb_timers_do|done]]|].
  apply Hs; [done|]. apply Hs; [by apply quiet_cancel_run|].
  pose proof (vb_music_stop e s) as Hm. destruct (music_stop e s) as [paused s1]. cbn [snd] in Hm.
  apply Hs; [apply quiet_cancel_run|]; by eapply quiet_vb.
Qed.

Lemma vb_run_over e s : vb (core_run_over c e s) = vb s.
Proof. unfold core_run_over. rewrite vb_wake_listen. by vb_step. Qed.
Lemma vb_tts_end s : vb (core_tts_end s) = vb s.
Proof. unfold core_tts_end, q_push. by vb_step. Qed.
Lemma vb_abandoned s : vb (core_tts_abandoned s) = vb s.
Proof. unfold core_tts_abandoned. by vb_step. Qed.
Lemma vb_flush s : vb (core_tts_flush s) = vb s.
Proof. unfold core_tts_flush. by vb_step. Qed.
Lemma vb_remote_wake e s : vb (core_remote_wake c e s) = vb s.
Proof. unfold core_remote_wake. by rewrite Hl. Qed.
Lemma vb_link_paused b s : vb (s <| link_paused := b |>) = vb s.
Proof. by vb_step. Qed.
Lemma quiet_link_pause n e s : quiet n s -> quiet n (core_link_pause c e s).
Proof. intros H. exact (quiet_vb n _ _ (vb_link_paused true _) (quiet_link n e true false s H)). Qed.
Lemma quiet_timeout n e s : quiet n s -> quiet n (pipeline_timeout c e s).
Proof. intros H. unfold pipeline_timeout. apply quiet_if; [by apply quiet_finish|done]. Qed.

Lemma quiet_call n e q s s' : call c e s false q s' -> quiet n s -> quiet n s'.
Proof.
  remember false as b eqn:Eb. intros K H. destruct K; try discriminate Eb; clear Eb;
    lazymatch goal with
    | |- quiet n (core_link _ _ _ _ _) => by apply quiet_link
    | |- quiet n (core_link_pause _ _ _) => by apply quiet_link_pause
    | |- quiet n (core_error _ _ _) => by apply quiet_error
    | |- quiet n (core_no_speech _ _ _) => by apply quiet_no_speech
    | |- quiet n (core_soft_mute _ _ _ _) => by apply quiet_soft_mute
    | |- quiet n (mute_latch _ _ _ _ _) => by apply quiet_latch
    | |- quiet n (playback_stopped _ _ _) => by apply quiet_stopped
    | |- quiet n (core_pipeline_finish _ _ _) => by apply quiet_finish
    | |- quiet n (snd (core_transcript _ _ _ _)) => by apply quiet_transcript
    | |- quiet n (pipeline_timeout _ _ _) => by apply quiet_timeout
    | _ => eapply quiet_vb; [|exact H]
    end;
    first [ apply vb_near_miss | apply vb_on_hold | apply vb_dnd | apply vb_dropin | apply vb_dropin_listen
    | apply vb_dropin_result | apply vb_music | apply vb_bt_device | apply vb_timers_do | apply vb_block | apply vb_playback_item
    | apply vb_tts_begin | apply vb_tts_data | apply vb_set_state | apply vb_think | apply vb_mic_off | apply vb_run_ended
    | apply vb_run_over | apply vb_tts_end | apply vb_abandoned | apply vb_flush | apply vb_remote_wake ].
Qed.

(** *** A wake word, a round, a press *)
Lemma vb_wake_tell e w s : vb (wake_tell c e w s) = vb s.
Proof. apply vb_wake_told. Qed.
Definition may (e : env) (s : sat) : Prop := satellite_running s = true /\ connected s = true /\ core_muted e s = false.
Definition asked (e : env) (s s' : sat) : Prop := starts (out s') = starts (out s) \/ may e s.
Lemma asked_vb e s0 s s' : vb s0 = vb s -> asked e s0 s' -> asked e s s'.
Proof.
  unfold asked, may, core_muted, vb. intros E [->|H]; [left; congruence|right].
  assert (soft_mute s0 = soft_mute s /\ satellite_running s0 = satellite_running s /\ connected s0 = connected s) as (<- & <- & <-) by (by injection E).
  done.
Qed.
Lemma vb_wake_noted slot b e_ s : vb (wake_noted slot b e_ s) = vb s.
Proof. unfold wake_noted. by repeat vb_step. Qed.
Lemma asked_on_wake e round far slot kw b e_ s : asked e s (snd (on_wake c e round far slot kw b e_ s)).
Proof.
  unfold on_wake. cbv zeta.
  assert (Hs : forall (x : bool) (p q : bool * sat), asked e s (snd p) -> asked e s (snd q) -> asked e s (snd (if x then p else q))) by (by intros []).
  apply Hs; [by left|]. apply Hs; [by left|]. apply Hs; [by left|]. apply Hs; [|].
  - cbn [snd]. case_match; [|by left]. left. apply stop_word_starts.
  - assert (E : vb (wake_noted slot b e_ ((wake_tell c e detected s) <| last_wake_ms := now e |> <| wake_slot_heard := slot |>)) = vb s).
    { rewrite vb_wake_noted. repeat vb_step. apply vb_wake_tell. }
    generalize dependent (wake_noted slot b e_ ((wake_tell c e detected s) <| last_wake_ms := now e |> <| wake_slot_heard := slot |>)).
    intros s1 E. destruct round; cbn [snd]; [left; by apply starts_vb|]. eapply asked_vb; [exact E|]. apply trigger_starts.
Qed.
Lemma asked_round_over e won from s : asked e s (round_over c e won from s).
Proof.
  unfold round_over. destruct won; [|left; apply starts_vb; by rewrite vb_wake_tell, vb_afe_done].
  unfold answer. cbv zeta. destruct (trigger_starts e false from s) as [E|]; [left|by right].
  rewrite <- E. apply starts_vb. vb_step; [done|apply vb_afe_done].
Qed.
Lemma asked_action e t s : asked e s (action c e t s).
Proof.
  unfold action. assert (Hv : vb (snd (on_action c t s)) = vb s).
  { unfold on_action. cbv zeta. apply vb_snd_if; [done|]. apply vb_snd_if; [cbn [snd]; by apply vb_if_linked|].
    apply vb_snd_if; cbn [snd]; by apply vb_if_linked. }
  destruct (on_action c t s) as [talk s1]. cbn [snd] in Hv. destruct talk; [|left; by apply starts_vb].
  eapply asked_vb; [exact Hv|]. apply trigger_starts.
Qed.

(** *** A step *)
Context (message : bytes -> bool -> bytes) (listener : bool).
Lemma quiet_calls n e q s s' : rtc (fun s => call c e s false q) s s' -> quiet n s -> quiet n s'.
Proof. induction 1; eauto using quiet_call. Qed.
Lemma quiet_step n e w o : asks o = false -> quiet n (core w) -> quiet n (core (step c message listener e w o)).
Proof. intros Ho. apply quiet_calls with e (own o). rewrite <- Ho. apply step_calls. Qed.
End starts.

(** ** The threads that fetch and play
    A property of every one of them, kept by an abort and had by a new one, is kept by all but
    the threads' own steps. *)
Section jobs.
Context (c : cfg) (message : bytes -> bool -> bytes) (listener : bool).
Context (Q : job -> Prop) (Qabort : forall j, Q j -> Q (j <| aborted := true |>))
        (Qnew : forall j, fresh j -> Q j).
Definition all_jobs (h : ha) : Prop := Forall Q (jobs h).

Lemma all_jobs_upd k f h : (forall j, jobs h !! k = Some j -> Q j -> Q (f j)) -> all_jobs h -> all_jobs (upd_job k f h).
Proof.
  unfold all_jobs, upd_job. cbn. rewrite !Forall_lookup. intros Hf H i x. destruct (decide (i = k)) as [->|Hne].
  - rewrite list_lookup_alter, decide_True by done. intros (j & E & ->)%fmap_Some. apply Hf; [done|by eapply H].
  - rewrite list_lookup_alter, decide_False by done. apply H.
Qed.
Lemma all_jobs_same h h' : jobs h' = jobs h -> all_jobs h -> all_jobs h'.
Proof. unfold all_jobs. by intros ->. Qed.
Lemma jobs_played e h : jobs (played e h) = jobs h.
Proof. unfold played. cbv zeta. destruct (announcing h); case_match; reflexivity. Qed.
Lemma all_jobs_ev e h x : all_jobs h -> all_jobs (ha_ev c message listener e h x).
Proof.
  intros H. destruct x as [[]| | | | | | | | | | | |]; try done; cbn [ha_ev].
  - unfold cancel. cbv zeta. repeat case_match; try done. apply all_jobs_upd; [by auto|done].
  - by apply (all_jobs_same h); [apply jobs_played|].
  - by apply (all_jobs_same h); [unfold bt_device; by rewrite jobs_bt_try|].
Qed.
Lemma all_jobs_core e f w : all_jobs (hap w) -> all_jobs (hap (on_core c message listener e f w)).
Proof.
  unfold on_core. cbv zeta. cbn [hap]. generalize (drop (length (out (core w))) (out (f (core w)))) as l, (hap w) as h.
  induction l as [|x l IH]; intros h H; [done|]. cbn [fold_left]. apply IH, all_jobs_ev, H.
Qed.
Lemma all_jobs_if (b : bool) w w' : all_jobs (hap w) -> all_jobs (hap w') -> all_jobs (hap (if b then w else w')).
Proof. by destruct b. Qed.
Lemma all_jobs_step e w o : thread o = None -> all_jobs (hap w) -> all_jobs (hap (step c message listener e w o)).
Proof.
  intros Ho. pose proof (step_turns c message listener e w o) as T. rewrite Ho in T.
  induction T as [|w w1 w2 T _ IH]; [done|]. intros H. apply IH. destruct T as [f _|f (new & E & Hn)|i f [=]]; [by apply all_jobs_core|].
  unfold all_jobs. cbn [on_ha hap]. rewrite E. apply Forall_app. split; [exact H|]. eapply Forall_impl; [|exact Hn]. apply Qnew.
Qed.
End jobs.

(** ** Who asks *)
Section asked.
Context (c : cfg) (message : bytes -> bool -> bytes) (listener : bool) (words : wakes) (setup : bool).
Abbreviation run := (run c message listener words setup).

(** Audio of the second URL played only if something played *)
Definition ok_began (j : job) : Prop := SatHa.ok j = true -> began j = true.
Lemma ok_began_step e w o : all_jobs ok_began (hap w) -> all_jobs ok_began (hap (step c message listener e w o)).
Proof.
  intros H. destruct (thread o) eqn:Ho; [|apply all_jobs_step; [done|by intros ? (?&?&?&Hk) ?; rewrite Hk in *|done|done]].
  destruct o as [| | | | | | | | | | | | | | | | | | | | | | | | | | | |k|k got|k rate ch|k| |k|k|k]; try discriminate Ho; cbn [step].
  - unfold job_ask. repeat case_match; try done; apply all_jobs_upd; auto.
  - unfold job_take. repeat case_match; try done; apply all_jobs_upd; auto.
  - unfold job_begin. repeat case_match; try done; apply all_jobs_upd; auto. by apply all_jobs_core.
  - unfold job_fail. repeat case_match; try done; apply all_jobs_upd; auto.
  - unfold job_ended. repeat case_match; try done; by apply all_jobs_upd.
  - unfold job_done. destruct (jobs (hap w) !! k) as [j|]; [|done]. destruct (ph j); try done. apply all_jobs_if; [done|]. apply all_jobs_if.
    + apply all_jobs_upd; [auto|]. apply all_jobs_if; [by apply all_jobs_core|done].
    + cbv zeta. apply all_jobs_upd; [auto|].
      set (w1 := on_ha _ w). assert (H1 : all_jobs ok_began (hap w1)) by (unfold w1; by cbn; case_match). clearbody w1.
      set (w2 := if announce j && _ && _ then _ else w1). assert (H2 : all_jobs ok_began (hap w2)) by (unfold w2; apply all_jobs_if; [by apply all_jobs_core|done]).
      clearbody w2. set (w3 := if announce j && negb _ then _ else w2). assert (H3 : all_jobs ok_began (hap w3)) by (unfold w3; by apply all_jobs_if).
      clearbody w3. apply all_jobs_if; [done|]. by apply all_jobs_core.
  - unfold job_stop. repeat case_match; try done; apply all_jobs_upd; auto. by apply all_jobs_core.
Qed.
Lemma ok_began_run l : all_jobs ok_began (hap (run l)).
Proof.
  unfold SatRuns.run, steps. induction l as [|x l IH] using rev_ind; [constructor|]. rewrite fold_left_app. by apply ok_began_step.
Qed.

(** Somebody at the Echo asks *)
Definition here (o : op) : bool := match o with WakeWord _ _ _ _ _ _ | RoundOver _ _ | Press _ => true | _ => false end.
Lemma follow_up_asked e p w : asks (Event_ p) = true ->
  core (on_event c message listener e p w) = core w \/ core (on_event c message listener e p w) = core_restart_after (core w).
Proof.
  cbn [asks]. unfold on_event. cbv zeta. set (x := event_of p). intros [Ht Hc]%andb_true_iff. apply Z.eqb_eq in Ht.
  unfold run_event. rewrite Ht, Hc. cbn [Z.eqb EV_INTENT_END EV_WAKE_END EV_STT_START EV_VAD_END EV_STT_END EV_RUN_START EV_ERROR orb Pos.eqb].
  destruct (reply_url x); case_match; auto.
Qed.
Lemma done_asks n e k w : core_local_wake c = true -> all_jobs ok_began (hap w) -> quiet n (core w) ->
  starts (out (core (job_done c message listener e k w))) = n.
Proof.
  intros Hl Hj H. unfold job_done. destruct (jobs (hap w) !! k) as [j|] eqn:Ej; [|apply H].
  assert (Hb : SatHa.ok j = true -> began j = true) by (by eapply (proj1 (Forall_lookup _ _) Hj)).
  destruct (ph j); try apply H. destruct (_ <? 2)%nat; [apply H|]. destruct (aborted j); [cbn; case_match; apply H|].
  cbv zeta. set (w1 := on_ha _ w). assert (H1 : quiet n (core w1)) by done. clearbody w1.
  cbn [on_ha core]. destruct (began j) eqn:Eb.
  - rewrite andb_false_r. case_match; apply H1.
  - destruct (SatHa.ok j); [by specialize (Hb eq_refl)|]. rewrite andb_false_r. cbn [negb]. rewrite andb_true_r.
    set (w2 := if announce j then _ else w1). assert (H2 : quiet n (core w2)) by (unfold w2; by case_match). clearbody w2.
    cbn [on_ha core]. unfold on_core. cbv zeta. cbn [core]. by apply quiet_finish.
Qed.

(** C3. A run starts when somebody here asks: with the wake word found here, and no run to
    follow, a step starts one only if it is a wake word, a round's answer or a press, in an
    Echo that is linked and not muted; and only those, a conversation to go on and an
    announcement that starts one have a run follow. *)
Theorem runs_start_when_asked l e o :
  core_local_wake c = true ->
  let s := core (run l) in let s' := core (step c message listener e (run l) o) in
  barge_in s = false ->
  (starts (out s') = starts (out s) \/ here o = true /\ may e s) /\ (barge_in s' = true -> asks o = true).
Proof.
  intros Hl s s' Hb. assert (Hq : quiet (starts (out s)) s) by done. destruct (asks o) eqn:Ho.
  - split; [|done]. unfold s'. destruct o; try discriminate Ho; cbn [step here].
    + left. destruct (follow_up_asked e p (run l) Ho) as [->| ->]; done.
    + destruct (asked_on_wake c Hl e round far slot keyword b e_ s); auto.
    + destruct (asked_round_over c Hl e won from s); auto.
    + destruct (asked_action c Hl e t s); auto.
    + left. apply done_asks; [done|apply ok_began_run|done].
  - destruct (quiet_step c Hl message listener _ e (run l) o Ho Hq) as [H1 H2]. fold s' in H1, H2. split; [by left|congruence].
Qed.
End asked.
