(* ===== verification/SatActs.v ===== *)
(** * The satellite: what a call of the core amounts to
    With the wake word found here, every call of the core except the queue's, the playback
    thread's and the capture thread's own is a sequence of a few moves of the part of the state
    that a run, a reply and the microphone depend on ([key]).  What must hold in every history
    is then checked on the moves. *)
From S2P Require Import Prelude Cbits Timers WakeWords EspPb Sat SatTalk SatHa SatSafe SatSteps SatRuns.

Record key := mk_key {
  k_conn : bool; k_st : state; k_streaming : bool; k_flush : bool; k_fresh : bool; k_replay : Z; k_cap : Z;
  k_queue : list item; k_stopping : bool; k_cut : bool; k_out : list ev }.
Definition key_of (s : sat) : key :=
  mk_key (connected s) (st s) (streaming s) (flush_playback s) (mic_fresh s) (replay_from s) (cap_n s) (queue s) (stopping s) (wake_cut s) (out s).

(** Neither a run's start nor its cancel nor the microphone *)
Definition dull (e : ev) : bool :=
  match e with P (Start _) | P Cancel | P (Audio (Heard _ _)) => false | _ => true end.
Definition ended (k : key) : key := k <| k_st := IDLE |> <| k_streaming := false |>.
Definition say (e : ev) (k : key) : key := k <| k_out := k_out k ++ [e] |>.

(** [cap]: the capture thread takes part, whose clock and audio are not followed here *)
Inductive move (cap : bool) : key -> key -> Prop :=
  | m_say e k : dull e = true -> move cap k (say e k)
  | m_flush k : move cap k (k <| k_flush := true |>)
  | m_mic_off k : move cap k (k <| k_streaming := false |>)
  | m_end k : move cap k (ended k)
  | m_cancel k : move cap k (ended (say (P Cancel) k))
  | m_down k : move cap k (ended (k <| k_conn := false |>))
  | m_up k : move cap k (k <| k_conn := true |>)
  | m_start ph from k : k_conn k = true ->
      move cap k ((say (P (Start ph)) k) <| k_st := LISTENING |> <| k_streaming := true |> <| k_fresh := true |> <| k_replay := from |>)
  | m_state x k : x <> SPEAKING -> move cap k (k <| k_st := x |>)
  | m_data d k : k_flush k = false -> move cap k (k <| k_queue := k_queue k ++ [Q_DATA d] |>)
  | m_uncut k : move cap k (k <| k_cut := false |>)
  | m_clock n r f k : cap = true -> move cap k (k <| k_cap := n |> <| k_replay := r |> <| k_fresh := f |>)
  | m_heard a b f k : cap = true -> move cap k ((say (P (Audio (Heard a b))) k) <| k_fresh := f |>).

#[global] Arguments m_say {cap}.
#[global] Arguments m_start {cap}.
#[global] Arguments m_state {cap}.
#[global] Arguments m_data {cap}.

(** [t]: what the key is taken as, itself or as that of a run that ends *)
Section acts.
Context (cap : bool) (k0 : key) (t : key -> key) (Ht : forall e k, t (say e k) = say e (t k)).
Definition acts_as (s : sat) : Prop := rtc (move cap) k0 (t (key_of s)).

Lemma acts_key s s' : key_of s = key_of s' -> acts_as s -> acts_as s'.
Proof. unfold acts_as. by intros ->. Qed.
Lemma acts_emit e s : dull e = true -> acts_as s -> acts_as (emit e s).
Proof. intros He H. eapply rtc_r; [exact H|]. change (key_of (emit e s)) with (say e (key_of s)). rewrite Ht. by apply m_say. Qed.
Lemma acts_if (b : bool) s s' : acts_as s -> acts_as s' -> acts_as (if b then s else s').
Proof. by destruct b. Qed.
Lemma acts_snd_if {A} (b : bool) (x y : A * sat) : acts_as (snd x) -> acts_as (snd y) -> acts_as (snd (if b then x else y)).
Proof. by destruct b. Qed.
End acts.
Lemma say_id e k : (fun k => k) (say e k) = say e ((fun k => k) k).
Proof. done. Qed.
Lemma say_ended e k : ended (say e k) = say e (ended k).
Proof. done. Qed.

(** Other fields; an event beside the point *)
Ltac acts_step :=
  lazymatch goal with
  | |- acts_as ?p ?k ?t (set _ _ ?s) => cut (acts_as p k t s); [generalize s; intros ? ?; eapply acts_key; [|eassumption]; reflexivity|]
  | |- acts_as _ _ _ (emit _ _) => apply acts_emit; [solve [assumption | exact say_id | exact say_ended]|reflexivity|]
  | |- acts_as _ _ _ (led _ _ _) => apply acts_emit; [solve [assumption | exact say_id | exact say_ended]|reflexivity|]
  | |- acts_as _ _ _ (if _ then _ else _) => apply acts_if
  | |- acts_as _ _ _ (match ?x with _ => _ end) => destruct x
  end.
Section asides.
Context (cap : bool) (k0 : key) (t : key -> key) (Ht : forall e k, t (say e k) = say e (t k)).
Abbreviation acts := (acts_as cap k0 t).
Context (c : cfg).

Lemma acts_if_linked has p s : dull (P p) = true -> acts s -> acts (if_linked has p s).
Proof. intros Hp H. unfold if_linked. by acts_step; [apply acts_emit|]. Qed.
Lemma acts_sound_queue k s : acts s -> acts (sound_queue k s).
Proof. intros H. unfold sound_queue. by acts_step. Qed.
Lemma acts_sound_request k s : acts s -> acts (sound_request c k s).
Proof. intros H. unfold sound_request. by acts_step; [apply acts_sound_queue|]. Qed.
Lemma acts_sounds_drop s : acts s -> acts (sounds_drop_wake s).
Proof. intros H. unfold sounds_drop_wake. by acts_step. Qed.
Lemma acts_afe_done s : acts s -> acts (afe_done s).
Proof. intros H. unfold afe_done. by repeat acts_step. Qed.
Lemma acts_listening_apply s : acts s -> acts (listening_apply s).
Proof. intros H. unfold listening_apply. cbv zeta. by repeat acts_step. Qed.
Lemma acts_listening on s : acts s -> acts (listening on s).
Proof. intros H. unfold listening. apply acts_listening_apply. by acts_step. Qed.
Lemma acts_mic_stopped s : acts s -> acts (mic_stopped s).
Proof. intros H. by apply acts_afe_done, acts_listening. Qed.
Lemma acts_playback_hint s : acts s -> acts (playback_hint s).
Proof. intros H. unfold playback_hint. by acts_step. Qed.
Lemma acts_timer_evs l s : acts s -> acts (fold_left timer_ev l s).
Proof.
  revert s. induction l as [|x l IH]; intros s H; [done|]. cbn [fold_left]. apply IH.
  destruct x; cbn [timer_ev]; unfold playback_hint; by acts_step.
Qed.
Lemma acts_timers_do f s : acts s -> acts (timers_do c f s).
Proof. intros H. unfold timers_do. cbv zeta. apply acts_timer_evs. by apply (acts_key cap k0 t s). Qed.
Lemma acts_wake_told e w s : acts s -> acts (wake_told c e w s).
Proof. intros H. unfold wake_told. by acts_step; [apply acts_if_linked|]. Qed.
Lemma acts_write_state e f x s : acts s -> acts (write_state e f x s).
Proof. intros H. unfold write_state. by acts_step. Qed.
Lemma acts_led_for x y s : acts s -> acts (led_for x y s).
Proof. intros H. destruct x, y; unfold led_for; cbn [state_pattern eqst]; by repeat acts_step. Qed.
Lemma acts_zeros fuel left s : acts s -> acts (lead_in_loop fuel left s).
Proof.
  revert left s. induction fuel as [|fuel IH]; intros left s H; cbn [lead_in_loop]; [done|]. acts_step; [|done]. apply IH. by acts_step.
Qed.
End asides.
Create HintDb acts discriminated.
#[export] Hint Resolve say_id say_ended acts_if_linked acts_sound_queue acts_sound_request acts_sounds_drop acts_afe_done acts_listening_apply
  acts_listening acts_mic_stopped acts_playback_hint acts_timers_do acts_wake_told acts_write_state acts_led_for acts_zeros : acts.

Section core.
Context (cap : bool) (k0 : key) (c : cfg) (Hl : core_local_wake c = true).
Abbreviation acts := (acts_as cap k0 (fun k => k)).
Abbreviation closes := (acts_as cap k0 ended).
Ltac frame := eauto with acts.

Lemma acts_flush s : acts s -> acts (s <| flush_playback := true |>).
Proof. intros H. eapply rtc_r; [exact H|]. apply m_flush. Qed.
Lemma acts_streaming_off s : acts s -> acts (s <| streaming := false |>).
Proof. intros H. eapply rtc_r; [exact H|]. apply m_mic_off. Qed.
Lemma acts_mic_off s : acts s -> acts (core_mic_off s).
Proof. intros H. unfold core_mic_off. apply acts_mic_stopped; [done|]. by apply acts_streaming_off. Qed.
Lemma acts_st x s : x <> SPEAKING -> acts s -> acts (s <| st := x |>).
Proof. intros Hx H. eapply rtc_r; [exact H|]. by apply (m_state x). Qed.
Lemma acts_set_state e x s : x <> SPEAKING -> acts s -> acts (core_set_state e x s).
Proof.
  intros Hx H. unfold core_set_state. acts_step; [done|]. cbv zeta. do 2 acts_step. apply acts_st; [done|].
  apply acts_led_for; [done|]. by repeat acts_step.
Qed.

Lemma streaming_led_for x y s : streaming (led_for x y s) = streaming s.
Proof. by destruct x, y. Qed.
Lemma streaming_listening_apply s : streaming (listening_apply s) = streaming s.
Proof. unfold listening_apply. cbv zeta. by case_match. Qed.
Lemma streaming_afe_done s : streaming (afe_done s) = streaming s.
Proof. unfold afe_done. by case_match. Qed.
Lemma streaming_mic_stopped s : streaming (mic_stopped s) = streaming s.
Proof. unfold mic_stopped, listening. by rewrite streaming_afe_done, streaming_listening_apply. Qed.

(** On the way to a state *)
Definition heading (x : state) (k : key) : key := k <| k_st := x |>.
Lemma say_heading x e k : heading x (say e k) = say e (heading x k).
Proof. done. Qed.
Lemma arrive_as u e x s : (forall e k, u (say e k) = say e (u k)) ->
  acts_as cap k0 (fun k => u (heading x k)) s -> acts_as cap k0 u (core_set_state e x s).
Proof.
  intros Hu H. unfold core_set_state. destruct (eqst x (st s)) eqn:E.
  { apply eqst_spec in E as ->. exact H. }
  assert (Hux : forall e k, u (heading x (say e k)) = say e (u (heading x k))) by (intros; by rewrite say_heading, Hu).
  cbv zeta. do 2 acts_step. set (s1 := if eqst IDLE (st s) && _ then _ else s).
  assert (H1 : acts_as cap k0 (fun k => u (heading x k)) s1) by (unfold s1; apply acts_if; [by apply acts_emit|done]).
  clearbody s1. by apply (acts_led_for cap k0 (fun k => u (heading x k)) Hux (st s1) x) in H1.
Qed.
Lemma acts_arrive e x s : acts_as cap k0 (heading x) s -> acts (core_set_state e x s).
Proof. intros H. by apply (arrive_as (fun k => k)). Qed.

(** The end of a run: whatever state it comes to, the state and the stream are over *)
Lemma closes_acts s : acts s -> closes s.
Proof. intros H. eapply rtc_r; [exact H|]. apply m_end. Qed.
Lemma acts_idle e s : closes s -> streaming s = false -> acts (core_set_state e IDLE s).
Proof.
  intros H Hs. apply acts_arrive. unfold acts_as in *. replace (heading IDLE (key_of s)) with (ended (key_of s)); [done|].
  unfold ended, heading, key_of. cbn. by rewrite <- Hs.
Qed.
Lemma closes_say e s : dull e = true \/ e = P Cancel -> closes s -> closes (emit e s).
Proof. intros [He| ->] H; [by apply acts_emit|]. eapply rtc_r; [exact H|]. apply m_cancel. Qed.

Lemma acts_start e from s : connected s = true -> acts s -> acts (pipeline_start c e from s).
Proof.
  intros Hc H. unfold pipeline_start. rewrite Hl. cbv zeta. apply acts_arrive, acts_listening; [apply say_heading|].
  unfold lead_in. apply acts_zeros; [apply say_heading|]. eapply rtc_r; [exact H|].
  exact (m_start (core_wake_phrase (ww s)) from (key_of s) Hc).
Qed.
Lemma acts_finish e s : closes s -> acts (core_pipeline_finish c e s).
Proof.
  intros H. unfold core_pipeline_finish. cbv zeta.
  set (s1 := s <| wake_fails := 0 |> <| streaming := false |>). assert (H1 : closes s1 /\ streaming s1 = false) by done.
  set (s2 := if _ && _ then _ else s1).
  assert (H2 : closes s2 /\ streaming s2 = false).
  { unfold s2. destruct H1. repeat case_match; split; try done; apply closes_say; auto. }
  clearbody s2. destruct H2 as [H2 Hs2].
  assert (H3 : acts (core_set_state e IDLE (mic_stopped s2))).
  { apply acts_idle; [by apply acts_mic_stopped|by rewrite streaming_mic_stopped]. }
  generalize dependent (core_set_state e IDLE (mic_stopped s2)). intros s3 H3.
  match goal with |- context [connected ?x] => set (s4 := x) end.
  assert (H4 : acts s4) by (unfold s4; by repeat acts_step). clearbody s4.
  match goal with |- context [barge_in ?x || _] => set (s5 := x) end.
  assert (H5 : acts s5) by (unfold s5; by repeat acts_step). clearbody s5.
  destruct (_ && connected s5) eqn:E; [|done]. bsimp. apply acts_start; [destruct (barge_in s5); [|done]; cbn; unfold sound_request; by case_match|]. acts_step. acts_step.
  acts_step; [|done]. by apply acts_sound_request.
Qed.

(** ** The calls *)
Ltac acts_tac := cbv zeta; repeat first [ assumption | acts_step
  | lazymatch goal with
    | |- acts_as _ _ _ (if_linked _ _ _) => apply acts_if_linked; [exact say_id|reflexivity|]
    | |- acts_as _ _ _ (sound_request _ _ _) => apply acts_sound_request
    | |- acts_as _ _ _ (sound_queue _ _) => apply acts_sound_queue
    | |- acts_as _ _ _ (sounds_drop_wake _) => apply acts_sounds_drop
    | |- acts_as _ _ _ (wake_told _ _ _ _) => apply acts_wake_told; [exact say_id|]
    | |- acts_as _ _ _ (listening_apply _) => apply acts_listening_apply; [exact say_id|]
    | |- acts_as _ _ _ (playback_hint _) => apply acts_playback_hint; [exact say_id|]
    | |- acts_as _ _ _ (write_state _ _ _ _) => apply acts_write_state; [exact say_id|]
    | |- acts_as _ _ _ (timers_do _ _ _) => apply acts_timers_do; [exact say_id|]
    | |- acts_as _ _ _ (afe_done _) => apply acts_afe_done; [exact say_id|]
    end ].
Lemma acts_fin e s : acts s -> acts (core_pipeline_finish c e s).
Proof. intros H. by apply acts_finish, closes_acts. Qed.
Lemma acts_adopted e s : acts s -> acts (adopted e s).
Proof. intros H. unfold adopted. acts_tac. Qed.
Lemma acts_link e up ready s : acts s -> acts (core_link c e up ready s).
Proof.
  intros H. unfold core_link. rewrite Hl, andb_false_r. cbn [andb]. cbv zeta.
  set (s1 := s <| connected := up |> <| satellite_running := up && ready |> <| link_paused := false |>). destruct up; cbn [andb].
  - assert (H1 : acts s1) by (eapply rtc_r; [exact H|apply m_up]). clearbody s1.
    assert (H2 : acts (if satellite_running s1 then adopted e s1 else s1)) by (acts_step; [by apply acts_adopted|done]).
    generalize dependent (if satellite_running s1 then adopted e s1 else s1). intros s2 H2. acts_step; [by apply acts_fin|done].
  - assert (H1 : closes s1) by (eapply rtc_r; [exact H|apply m_down]). assert (Hr : satellite_running s1 = false) by done. clearbody s1.
    rewrite Hr, Hr. by apply acts_finish.
Qed.
Lemma acts_link_pause e s : acts s -> acts (core_link_pause c e s).
Proof. intros H. unfold core_link_pause. acts_step. by apply acts_link. Qed.
Lemma acts_error e s : acts s -> acts (core_error c e s).
Proof. intros H. unfold core_error. acts_step; [by acts_step|]. acts_step; [done|]. apply acts_fin. by acts_step. Qed.
Lemma acts_no_speech e s : acts s -> acts (core_no_speech c e s).
Proof.
  intros H. unfold core_no_speech. cbv zeta. acts_step; [by acts_step|].
  assert (H1 : acts (if run_wake s then wake_told c e no_speech s else s)) by acts_tac.
  generalize dependent (if run_wake s then wake_told c e no_speech s else s). intros s1 H1. acts_step; [done|by apply acts_fin].
Qed.
Lemma acts_quiet_cancel e s : acts s -> acts (quiet_cancel c e s).
Proof.
  intros H. unfold quiet_cancel. acts_step. apply acts_finish. apply closes_say; [by right|].
  exact (closes_acts s H).
Qed.
Lemma acts_mute_update e was sound s : acts s -> acts (mute_update c e was sound s).
Proof.
  intros H. unfold mute_update. cbv zeta. acts_step; [done|]. apply acts_if_linked; [exact say_id|done|].
  set (s1 := if sound then _ else s). assert (H1 : acts s1) by (unfold s1; acts_tac). clearbody s1.
  acts_step; [|acts_tac]. acts_step. acts_step; [by apply acts_fin|done].
Qed.
Lemma acts_soft_mute e b s : acts s -> acts (core_soft_mute c e (Some b) s).
Proof.
  intros H. unfold core_soft_mute. cbv zeta. acts_step; [done|].
  assert (H1 : acts (mute_update c e (core_muted e s) (satellite_running s) (s <| soft_mute := b |>))) by (apply acts_mute_update; by acts_step).
  generalize dependent (mute_update c e (core_muted e s) (satellite_running s) (s <| soft_mute := b |>)). intros s1 H1. acts_tac.
Qed.
Lemma acts_latch e m s : acts s -> acts (mute_latch c e m true s).
Proof. intros H. unfold mute_latch. cbv zeta. apply acts_mute_update. acts_tac. Qed.
Lemma connected_quiet_cancel e s : connected (quiet_cancel c e s) = connected s.
Proof. pose proof (vb_quiet_cancel c Hl e s) as E. unfold vb in E. by injection E. Qed.
Lemma acts_trigger e touch from s : acts s -> acts (trigger c e touch from s).
Proof.
  intros H. unfold trigger, cut_reply. cbv zeta.
  assert (H1 : acts (quiet_cancel c e s)) by (by apply acts_quiet_cancel).
  pose proof (connected_quiet_cancel e s) as E1. generalize dependent (quiet_cancel c e s). intros s1 H1 E1.
  acts_step; [unfold alarm_stop; acts_tac|]. destruct (_ && connected s && has_cancel c) eqn:Ec.
  { bsimp. acts_step; [done|]. acts_step; [|done]. apply acts_start.
    { assert (Es : forall k s, connected (sound_request c k s) = connected s) by (intros; unfold sound_request; by case_match).
      rewrite Es. cbn. congruence. }
    acts_tac. }
  destruct (negb (connected s) || _ || _) eqn:Em; [by repeat acts_step|]. bsimp.
  acts_step; [done|]. acts_step.
  { set (s2 := if alarm_on (tm s) || _ then _ else s). assert (A2 : acts s2 /\ connected s2 = connected s) by (unfold s2; case_match; [split; [acts_tac|done]|done]).
    clearbody s2. destruct A2 as [A2 E2]. set (s3 := if touch then _ else s2).
    assert (A3 : acts s3 /\ connected s3 = connected s) by (unfold s3; case_match; [split; [acts_tac|done]|done]).
    clearbody s3. destruct A3 as [A3 E3]. apply acts_start; [|acts_tac].
    unfold sound_request. destruct (negb _ && _); cbn; congruence. }
  acts_step; [apply acts_flush; acts_tac|]. acts_step; [apply acts_flush; acts_tac|done].
Qed.
Lemma acts_music_stop e s : acts s -> acts (snd (music_stop e s)).
Proof. intros H. unfold music_stop. case_match; cbn [snd]; acts_tac. Qed.
Lemma acts_stop_locked e s : acts s -> acts (stop_locked c e s).
Proof.
  intros H. unfold stop_locked. cbv zeta. set (s1 := s <| stop_ms := _ |>).
  assert (H1 : acts s1) by (unfold s1; acts_tac). clearbody s1.
  assert (H2 : exists b s2, (if alarm_on (tm s1) then (true, alarm_stop c s1) else (call_on e, s1)) = (b, s2) /\ acts s2)
    by (case_match; eexists _, _; (split; [done|]); [by apply acts_timers_do|done]).
  destruct H2 as (b & s2 & -> & H2). set (s3 := s2 <| stop_cut := _ |>). assert (H3 : acts s3) by (unfold s3; acts_tac). clearbody s3.
  assert (H4 : acts (if negb b && negb (music_on s3 =? 0) then snd (music_stop e s3) else s3)) by (acts_step; [by apply acts_music_stop|done]).
  generalize dependent (if negb b && negb (music_on s3 =? 0) then snd (music_stop e s3) else s3). intros s4 H4.
  acts_step; [apply acts_flush; acts_tac|]. acts_step.
  - set (s5 := sounds_drop_wake _). assert (H5 : acts s5) by (unfold s5; acts_tac). clearbody s5.
    acts_step; [by apply acts_quiet_cancel|]. acts_step. apply acts_fin. by acts_step.
  - acts_step; [|done]. apply acts_quiet_cancel. acts_tac.
Qed.
Lemma acts_stop_word e s : acts s -> acts (stop_word c e s).
Proof. intros H. unfold stop_word. apply acts_stop_locked. by repeat acts_step. Qed.
Lemma acts_cancel_run e s : acts s -> acts (cancel_run c e s).
Proof.
  intros H. unfold cancel_run. cbv zeta. apply acts_finish. acts_step; [|by apply closes_acts]. acts_step.
  apply closes_say; [by right|]. exact (closes_acts s H).
Qed.
Lemma acts_transcript e tx s : acts s -> acts (snd (core_transcript c e tx s)).
Proof.
  intros H. unfold core_transcript. cbv zeta.
  assert (Hw : acts (if run_wake s then wake_told c e no_speech s else s)) by acts_tac.
  generalize dependent (if run_wake s then wake_told c e no_speech s else s). intros sw Hw.
  apply acts_snd_if; [cbn [snd]; acts_step; [by apply acts_quiet_cancel|by apply acts_fin]|].
  apply acts_snd_if; [cbn [snd]; apply acts_cancel_run; acts_tac|].
  apply acts_snd_if; [apply acts_snd_if; [done|cbn [snd]; apply acts_cancel_run; by apply acts_timers_do]|].
  apply acts_snd_if; [done|]. apply acts_snd_if; [by apply acts_cancel_run|].
  pose proof (acts_music_stop e s H) as Hm. destruct (music_stop e s) as [paused s1]. cbn [snd] in Hm.
  apply acts_snd_if; [by apply acts_cancel_run|done].
Qed.
Lemma acts_on_wake e round far slot kw b e_ s : acts s -> acts (snd (on_wake c e round far slot kw b e_ s)).
Proof.
  intros H. unfold on_wake, wake_noted, wake_tell. apply acts_snd_if; [done|]. apply acts_snd_if; [done|]. apply acts_snd_if; [done|].
  apply acts_snd_if; cbn [snd].
  - acts_step; [by apply acts_stop_word|done].
  - cbv zeta. set (s1 := _ <| ww := _ |>). assert (Hs : acts s1) by (unfold s1; acts_tac).
    clearbody s1. destruct round; cbn [snd]; [done|by apply acts_trigger].
Qed.
Lemma acts_round_over e won from s : acts s -> acts (round_over c e won from s).
Proof.
  intros H. unfold round_over, answer, wake_tell. cbv zeta. pose proof (acts_trigger e false from s H) as H1.
  generalize dependent (trigger c e false from s). intros s1 H1. acts_tac.
Qed.
Lemma acts_action e t s : acts s -> acts (action c e t s).
Proof.
  intros H. unfold action. assert (Hv : acts (snd (on_action c t s))).
  { unfold on_action. cbv zeta. apply acts_snd_if; [done|]. apply acts_snd_if; [cbn [snd]; acts_tac|]. apply acts_snd_if; cbn [snd]; acts_tac. }
  destruct (on_action c t s) as [talk s1]. cbn [snd] in Hv. acts_step; [by apply acts_trigger|done].
Qed.
Lemma acts_dropin e d peer outgoing s : acts s -> acts (core_dropin c e d peer outgoing s).
Proof.
  intros H. unfold core_dropin. cbv zeta. set (s1 := s <| dropin_was := d |>). assert (H1 : acts s1) by (unfold s1; acts_tac). clearbody s1.
  match goal with |- context [if isd d (dropin_was s) then s1 else ?y] => set (s2 := y); assert (H2 : acts s2) end.
  { unfold s2. apply acts_if_linked; [exact say_id|done|]. destruct (isd D_LIVE d); acts_tac. }
  clearbody s2. acts_tac.
Qed.
Lemma acts_music source on s : acts s -> acts (core_music c source on s).
Proof. intros H. unfold core_music. acts_tac. Qed.
Lemma acts_hold e stage s : acts s -> acts (on_hold e stage s).
Proof. intros H. unfold on_hold, core_reset. acts_tac. Qed.
Lemma acts_think e s : acts s -> acts (think e s).
Proof. intros H. unfold think. cbv zeta. pose proof (acts_mic_off s H). acts_step; [by apply acts_set_state|done]. Qed.
Lemma acts_wake_listen e s : acts s -> acts (wake_listen c e s).
Proof. intros H. unfold wake_listen. by rewrite Hl. Qed.
Lemma acts_run_ended failed s : acts s -> acts (snd (core_wake_run_ended failed s)).
Proof.
  intros H. unfold core_wake_run_ended. apply acts_snd_if; [done|]. cbv zeta. cbn [snd].
  pose proof (acts_mic_off s H) as H1. unfold core_mic_off in H1. generalize dependent (mic_stopped (s <| streaming := false |>)). intros s1 H1. acts_tac.
Qed.

(** What a call amounts to, the queue's and the capture's apart *)
Lemma acts_call e b s s' : call c e s b false s' -> acts s -> acts s'.
Proof.
  remember false as q eqn:Eq. intros K H. destruct K; try discriminate Eq; clear Eq.
  - by apply acts_link.
  - by apply acts_link_pause.
  - by apply acts_error.
  - by apply acts_no_speech.
  - by apply acts_soft_mute.
  - by apply acts_latch.
  - unfold core_dnd. acts_tac.
  - by apply acts_on_wake.
  - by apply acts_round_over.
  - unfold on_near_miss, wake_tell. acts_tac.
  - by apply acts_action.
  - by apply acts_hold.
  - by apply acts_dropin.
  - unfold core_dropin_listen. acts_tac.
  - unfold core_dropin_result. acts_tac.
  - by apply acts_music.
  - unfold core_bt_device. acts_tac.
  - by apply acts_timers_do.
  - unfold pipeline_timeout. acts_step; [by apply acts_fin|done].
  - unfold core_tts_data, q_push. destruct (flush_playback s) eqn:Ef; [done|]. eapply rtc_r; [exact H|]. by apply m_data.
  - unfold core_tts_abandoned. eapply rtc_r; [exact H|]. apply m_uncut.
  - by apply acts_flush.
  - unfold core_restart_after. acts_tac.
  - by apply acts_fin.
  - by apply acts_set_state.
  - by apply acts_think.
  - by apply acts_mic_off.
  - unfold core_remote_wake. by rewrite Hl.
  - by apply acts_transcript.
  - by apply acts_run_ended.
  - unfold core_run_over. apply acts_wake_listen. acts_tac.
Qed.
End core.

Lemma moves_out cap k k' : rtc (move cap) k k' -> exists l, k_out k' = k_out k ++ l.
Proof.
  induction 1 as [k|k1 k2 k3 M _ [l E]]; [exists []; by rewrite app_nil_r|]. rewrite E.
  destruct M; cbn; try (by exists l); by rewrite <- app_assoc; eexists.
Qed.
Lemma call_moves cap c e b s s' : core_local_wake c = true -> call c e s b false s' -> rtc (move cap) (key_of s) (key_of s').
Proof. intros Hl K. apply (acts_call cap (key_of s) c Hl e b s s' K). apply rtc_refl. Qed.
(** Playback's stop, a reply's start, the capture thread's block *)
Lemma stopped_moves cap c e s : core_local_wake c = true -> stopping s = true -> wake_cut s = false ->
  rtc (move cap) ((key_of s) <| k_stopping := false |> <| k_flush := false |> <| k_st := IDLE |> <| k_streaming := false |>) (key_of (playback_stopped c e s)).
Proof.
  intros Hl Hs Hc. unfold playback_stopped. rewrite Hs. cbn [negb]. cbv zeta.
  set (s1 := s <| stopping := false |> <| flush_playback := false |>).
  assert (H : acts_as cap ((key_of s) <| k_stopping := false |> <| k_flush := false |> <| k_st := IDLE |> <| k_streaming := false |>) ended s1) by (exact (rtc_refl _ _)).
  assert (E : wake_cut s1 = false) by done. clearbody s1. set (s2 := if has_played c then _ else s1).
  assert (H2 : acts_as cap ((key_of s) <| k_stopping := false |> <| k_flush := false |> <| k_st := IDLE |> <| k_streaming := false |>) ended s2 /\ wake_cut s2 = false).
  { unfold s2. case_match; [|done]. split; [by apply acts_emit|done]. }
  clearbody s2. destruct H2 as [H2 E2]. rewrite E2. by apply (acts_finish cap _ c Hl).
Qed.
Lemma begin_moves cap c e rate ch media s : core_local_wake c = true ->
  rtc (move cap) ((key_of s) <| k_st := SPEAKING |> <| k_queue := queue s ++ [Q_START media rate ch] |>)
      (key_of (core_tts_begin c e rate ch media s)).
Proof.
  intros Hl. set (k0 := (key_of s) <| k_st := SPEAKING |> <| k_queue := queue s ++ [Q_START media rate ch] |>).
  unfold core_tts_begin, wake_listen. rewrite Hl. cbn [orb]. cbv zeta.
  set (u := fun k => k <| k_queue := k_queue k ++ [Q_START media rate ch] |>).
  set (s1 := if wake_wait s then s else _).
  assert (H1 : acts_as cap k0 (fun k => u (heading SPEAKING k)) s1).
  { unfold s1. apply acts_if; [exact (rtc_refl _ _)|]. apply acts_mic_stopped; [done|]. apply rtc_once, m_mic_off. }
  clearbody s1. by apply (arrive_as cap k0 u e SPEAKING s1) in H1.
Qed.
Lemma send_key c from to s : key_of (send_mic c from to s) = (say (P (Audio (Heard from to))) (key_of s)) <| k_fresh := false |>.
Proof. unfold send_mic, key_of. cbv zeta. destruct (mic_fresh s) eqn:E; cbn; by rewrite ?E. Qed.
Lemma heard_end_moves cap e s : rtc (move cap) (key_of s) (key_of (heard_end e s)).
Proof.
  assert (H : acts_as cap (key_of s) (fun k => k) (heard_end e s)); [|exact H].
  unfold heard_end. cbv zeta. assert (H1 : acts_as cap (key_of s) (fun k => k) (core_mic_off (emit (P End) s))).
  { apply acts_mic_off, acts_emit; [done|done|]. exact (rtc_refl _ _). }
  generalize dependent (core_mic_off (emit (P End) s)). intros s1 H1. acts_step; [by apply acts_set_state|done].
Qed.
Lemma ring_moves c from to s : rtc (move true) (key_of s) (key_of (stream_ring c from to s)).
Proof.
  unfold stream_ring. cbv zeta. generalize (if (RING_SAMPLES <? cap_n s) && (from <? cap_n s - RING_SAMPLES) then cap_n s - RING_SAMPLES else from) as a.
  generalize (if cap_n s <? to then cap_n s else to) as z. intros z a.
  assert (H : forall a z s, rtc (move true) (key_of s) (key_of (send_mic c a z s)))
    by (intros; apply rtc_once; rewrite send_key; by apply (m_heard true _ _ false)).
  case_match; [|done]. case_match; [etrans; apply H|apply H].
Qed.
Lemma block_moves c e n tail ended s : rtc (move true) (key_of s) (key_of (stream_block c e n tail ended (captured n s))).
Proof.
  etrans; [apply rtc_once, (m_clock true (cap_n s + n) (replay_from s) (mic_fresh s)); done|].
  change (rtc (move true) (key_of (captured n s)) (key_of (stream_block c e n tail ended (captured n s)))). generalize (captured n s). clear s. intros s.
  unfold stream_block. case_match; [done|]. case_match; [apply rtc_once; by apply (m_clock true (cap_n s) 0 (mic_fresh s))|]. cbv zeta.
  match goal with |- rtc _ _ (key_of (if ended && mic_end_on ?x && _ then _ else _)) => assert (E : rtc (move true) (key_of s) (key_of x)); [|generalize dependent x; intros s1 E] end.
  { case_match; [apply rtc_once; rewrite send_key; by apply (m_heard true _ _ false)|]. destruct tail as [from|]; [|done].
    match goal with |- context [stream_ring c ?a ?b ?x] => etrans; [exact (ring_moves c a b x)|generalize (stream_ring c a b x)] end.
    intros s1. apply rtc_once. by apply (m_clock true (cap_n s1) 0 (mic_fresh s1)). }
  case_match; [|done]. etrans; [exact E|apply heard_end_moves].
Qed.

(** The item the playback thread takes *)
Definition is_stop (i : item) : bool := match i with Q_STOP => true | _ => false end.
Lemma item_moves cap opens writes s : let s' := snd (playback_item opens writes s) in
  s' = s \/ exists i rest, queue s = i :: rest /\ stopping s = false /\
    rtc (move cap) ((key_of s) <| k_queue := rest |> <| k_stopping := is_stop i |>) (key_of s').
Proof.
  cbv zeta. unfold playback_item. destruct (stopping s) eqn:Es; [by left|]. destruct (queue s) as [|i rest] eqn:Eq; [by left|]. right.
  exists i, rest. split; [done|]. split; [done|]. cbv zeta. set (k0 := (key_of s) <| k_queue := rest |> <| k_stopping := is_stop i |>).
  set (s1 := s <| queue := rest |>). destruct i; cbn [snd is_stop] in *.
  - assert (H1 : acts_as cap k0 (fun k => k) s1) by (unfold acts_as, k0, key_of; cbn; rewrite Es; apply rtc_refl). clearbody s1.
    change (acts_as cap k0 (fun k => k) (snd (if flush_playback s1
      then (if play_open s1 then [Close false] else [], s1 <| play_open := false |>)
      else ((if play_open s1 then [Close true] else []) ++ [Open media rate ch],
            if opens then playback_hint (s1 <| play_open := true |> <| tts_on := true |>) else s1 <| play_open := false |>)))).
    apply acts_snd_if; cbn [snd]; [by acts_step|]. acts_step; [|by acts_step]. apply acts_playback_hint; [done|]. by do 2 acts_step.
  - assert (H1 : acts_as cap k0 (fun k => k) s1) by (unfold acts_as, k0, key_of; cbn; rewrite Es; apply rtc_refl). clearbody s1.
    change (acts_as cap k0 (fun k => k) (snd (if flush_playback s1
      then (if play_open s1 then [Close false] else [], s1 <| play_open := false |>)
      else if play_open s1 then (Write d :: (if writes then [] else [Close false]), if writes then s1 else s1 <| play_open := false |>)
      else ([], s1)))).
    apply acts_snd_if; cbn [snd]; [by acts_step|]. apply acts_snd_if; cbn [snd]; [|done]. acts_step; [done|by acts_step].
  - assert (H : acts_as cap k0 (fun k => k <| k_stopping := true |>) (playback_hint (s1 <| play_open := false |> <| tts_on := false |>)));
      [|exact H]. apply acts_playback_hint; [done|]. exact (rtc_refl _ _).
Qed.
Section steps.
Context (cap : bool) (c : cfg) (Hl : core_local_wake c = true) (message : bytes -> bool -> bytes) (listener : bool).
Lemma step_moves e w o : own o = false -> rtc (move cap) (key_of (core w)) (key_of (core (step c message listener e w o))).
Proof.
  intros Ho. pose proof (step_calls c message listener e w o) as H. rewrite Ho in H.
  induction H as [|s s1 s2 H1 _ IH]; [done|]. etrans; [by eapply call_moves|exact IH].
Qed.
End steps.
