(* ===== verification/SatStream.v ===== *)
(** * The satellite: the microphone's stream has no gap
    With the wake word found here: the blocks of one run follow on from one another, from the
    wake word's tail in the ring to the latest. *)
From S2P Require Import Prelude Cbits Timers WakeWords EspPb Sat SatTalk SatHa SatSafe SatSteps SatRuns SatActs.

(** Where the last audio of the run in progress ended *)
Definition last_heard (l : list ev) : option Z :=
  fold_left (fun b e => match e with P (Start _) => None | P (Audio (Heard _ z)) => Some z | _ => b end) l None.
#[global] Arguments last_heard : simpl never.
Lemma last_heard_snoc l e :
  last_heard (l ++ [e]) = match e with P (Start _) => None | P (Audio (Heard _ z)) => Some z | _ => last_heard l end.
Proof. unfold last_heard. by rewrite fold_left_app. Qed.
Lemma last_heard_dull l e : dull e = true -> last_heard (l ++ [e]) = last_heard l.
Proof. intros He. rewrite last_heard_snoc. by destruct e as [[| [] | | | | | | | | | | | |]| | | | | | | | | | | |]. Qed.

(** Audio goes on where the audio before it ended *)
Definition gapless (l : list ev) : Prop :=
  forall l1 a b l2, l = l1 ++ P (Audio (Heard a b)) :: l2 -> match last_heard l1 with Some z => a = z | None => True end.
Lemma gapless_snoc l e : gapless l -> match e with P (Audio (Heard a _)) => match last_heard l with Some z => a = z | None => True end | _ => True end ->
  gapless (l ++ [e]).
Proof. intros Hl He l1 a b l2 [(-> & -> & ->)|(l3 & -> & ->)]%snoc_split; [done|]. by eapply Hl. Qed.

Record even (k : key) : Prop := mk_even {
  e_gap : gapless (k_out k);
  e_link : k_streaming k = true -> k_conn k = true;
  e_on : k_streaming k = true ->
    k_fresh k = true /\ last_heard (k_out k) = None \/ k_replay k = 0 /\ last_heard (k_out k) = Some (k_cap k);
  e_cut : k_cut k = false }.

Lemma even_move k k' : move false k k' -> even k -> even k'.
Proof.
  intros M [G L O C]. destruct M; try discriminate; split; cbn in *; try done; try (by intros []); auto.
  - apply gapless_snoc; [done|]. by destruct e as [[| [] | | | | | | | | | | | |]| | | | | | | | | | | |].
  - intros Hs. rewrite last_heard_dull by done. by apply O.
  - by apply gapless_snoc.
  - by apply gapless_snoc.
  - intros _. left. by rewrite last_heard_snoc.
Qed.
Lemma even_moves k k' : rtc (move false) k k' -> even k -> even k'.
Proof. induction 1; eauto using even_move. Qed.

Section stream.
Context (c : cfg) (Hl : core_local_wake c = true) (message : bytes -> bool -> bytes) (listener : bool).

(** A piece sent on from where the last ended, or the first of the run *)
Definition on_from (from : Z) (l : list ev) : Prop := match last_heard l with Some z => from = z | None => True end.
Lemma sent from to s : gapless (out s) -> on_from from (out s) ->
  gapless (out (send_mic c from to s)) /\ last_heard (out (send_mic c from to s)) = Some to.
Proof.
  intros G Hf. assert (E : out (send_mic c from to s) = out s ++ [P (Audio (Heard from to))]).
  { change (out (send_mic c from to s)) with (k_out (key_of (send_mic c from to s))). by rewrite send_key. }
  rewrite E, last_heard_snoc. split; [by apply gapless_snoc|done].
Qed.
Lemma kept from to s : connected (send_mic c from to s) = connected s /\ streaming (send_mic c from to s) = streaming s
  /\ cap_n (send_mic c from to s) = cap_n s /\ wake_cut (send_mic c from to s) = wake_cut s /\ replay_from (send_mic c from to s) = replay_from s.
Proof. unfold send_mic. cbv zeta. by case_match. Qed.
(** The ring's part: nothing, or up to the clock *)
Lemma ring_sent from s : gapless (out s) -> last_heard (out s) = None ->
  let s' := stream_ring c from (cap_n s) s in
  s' = s \/ gapless (out s') /\ last_heard (out s') = Some (cap_n s) /\
  connected s' = connected s /\ streaming s' = streaming s /\ cap_n s' = cap_n s /\ wake_cut s' = wake_cut s.
Proof.
  intros G Hn. cbv zeta. unfold stream_ring. cbv zeta. rewrite Z.ltb_irrefl.
  generalize (if (RING_SAMPLES <? cap_n s) && (from <? cap_n s - RING_SAMPLES) then cap_n s - RING_SAMPLES else from). intros a.
  case_match; [right|by left]. assert (Ha : forall x, on_from x (out s)) by (intros x; unfold on_from; by rewrite Hn).
  generalize (a + (RING_SAMPLES - a `mod` RING_SAMPLES)). intros m. case_match.
  - destruct (sent a m s G (Ha _)) as [G1 E1]. destruct (kept a m s) as (A1 & A2 & A3 & A4 & _).
    generalize dependent (send_mic c a m s). intros s1 G1 E1 A1 A2 A3 A4.
    destruct (sent m (cap_n s) s1 G1) as [G2 E2]; [unfold on_from; by rewrite E1|]. destruct (kept m (cap_n s) s1) as (B1 & B2 & B3 & B4 & _).
    split_and!; first [done|congruence].
  - destruct (sent a (cap_n s) s G (Ha _)) as [G1 E1]. by destruct (kept a (cap_n s) s) as (A1 & A2 & A3 & A4 & _).
Qed.

Lemma even_block e n tail end_ s : even (key_of s) -> even (key_of (stream_block c e n tail end_ (captured n s))).
Proof.
  intros [G L O C]. cbn in G, L, O, C. set (s0 := captured n s).
  assert (E0 : gapless (out s0) /\ connected s0 = connected s /\ streaming s0 = streaming s /\ wake_cut s0 = false /\
               replay_from s0 = replay_from s /\ mic_fresh s0 = mic_fresh s /\ out s0 = out s /\ cap_n s0 - n = cap_n s) by (split_and!; try done; cbn; lia).
  clearbody s0. destruct E0 as (G0 & Ec & Es & C0 & Er & Ef & Eo & Ea). rewrite <- Ec, <- Es in L. rewrite <- Es, <- Ef, <- Er, <- Eo, <- Ea in O.
  unfold stream_block. destruct (streaming s0) eqn:Hs; cbn [negb]; [|split; cbn; rewrite ?Hs; done].
  rewrite (L eq_refl). cbn [negb]. cbv zeta.
  match goal with |- even (key_of (if end_ && mic_end_on ?x && _ then _ else _)) => assert (E : even (key_of x)); [|generalize dependent x; intros s1 E] end.
  { destruct (replay_from s0 =? 0) eqn:Hr; bsimp.
    - destruct (sent (cap_n s0 - n) (cap_n s0) s0 G0) as [G1 E1]; [unfold on_from; destruct (O eq_refl) as [[_ ->]|[_ ->]]; done|].
      destruct (kept (cap_n s0 - n) (cap_n s0) s0) as (A1 & A2 & A3 & A4 & A5). generalize dependent (send_mic c (cap_n s0 - n) (cap_n s0) s0).
      intros s1 G1 E1 A1 A2 A3 A4 A5. split; cbn; [done|intros _; by rewrite A1, L|intros _; right; split; congruence|congruence].
    - destruct (O eq_refl) as [[Hf Hn]|[]]; [|done]. destruct tail as [from|].
      + match goal with |- context [stream_ring c ?a (cap_n ?y) ?y] => generalize a; intros a0; set (s2 := y) end.
        assert (F2 : gapless (out s2) /\ last_heard (out s2) = None /\ connected s2 = true /\ streaming s2 = true /\ wake_cut s2 = false /\ mic_fresh s2 = true)
          by (split_and!; try done; cbn; auto). clearbody s2. destruct F2 as (G2 & N2 & C2 & S2 & W2 & M2).
        destruct (ring_sent a0 s2 G2 N2) as [->|(G3 & N3 & C3 & S3 & T3 & W3)].
        * split; cbn; try done. by left.
        * generalize dependent (stream_ring c a0 (cap_n s2) s2). intros s3 G3 N3 C3 S3 T3 W3. split; cbn; [done|congruence|intros _; right; split; congruence|congruence].
      + split; cbn; [done|auto|by left|done]. }
  case_match; [|done]. eapply even_moves; [apply heard_end_moves|done].
Qed.

Lemma even_begin e rate ch med s : even (key_of s) -> even (key_of (core_tts_begin c e rate ch med s)).
Proof. intros [G L O C]. eapply even_moves; [by apply begin_moves|]. by split. Qed.
Lemma even_stopped e s : even (key_of s) -> even (key_of (playback_stopped c e s)).
Proof.
  intros [G L O C]. destruct (stopping s) eqn:Es; [|unfold playback_stopped; by rewrite Es].
  eapply even_moves; [by apply stopped_moves|]. by split.
Qed.
Lemma even_item opens writes s : even (key_of s) -> even (key_of (snd (playback_item opens writes s))).
Proof.
  intros [G L O C]. destruct (item_moves false opens writes s) as [->|(i & rest & _ & _ & M)]; [by split|].
  eapply even_moves; [exact M|]. by split.
Qed.
Lemma even_step e w o : even (key_of (core w)) -> even (key_of (core (step c message listener e w o))).
Proof.
  intros H. destruct (own o) eqn:Ho; [|eapply even_moves; [by apply (step_moves false c Hl)|done]].
  destruct o; try discriminate Ho; cbn [step].
  - by apply even_block.
  - by apply even_item.
  - by apply even_stopped.
  - unfold job_begin. repeat case_match; try done. by apply even_begin.
  - unfold job_stop. repeat case_match; try done. by destruct H.
Qed.
Lemma even_run words setup l : even (key_of (core (run c message listener words setup l))).
Proof.
  unfold run, steps. induction l as [|x l IH] using rev_ind; [|rewrite fold_left_app; by apply even_step].
  split; try done. intros l1 a b l2 H. by destruct l1.
Qed.

(** C7. The microphone's stream has no gap: with the wake word found here, of two pieces of audio
    sent one after the other in a run, the second begins with the sample after the first, whatever
    happened between them. *)
Theorem stream_has_no_gap words setup l l1 a b l2 a' b' l3 :
  out (core (run c message listener words setup l)) = l1 ++ P (Audio (Heard a b)) :: l2 ++ P (Audio (Heard a' b')) :: l3 ->
  Forall (fun e => dull e = true \/ e = P Cancel) l2 -> a' = b.
Proof.
  intros H Hd. pose proof (e_gap _ (even_run words setup l)) as G. cbn [k_out key_of] in G.
  specialize (G (l1 ++ P (Audio (Heard a b)) :: l2) a' b' l3). rewrite <- app_assoc in G. specialize (G H).
  assert (E : last_heard (l1 ++ P (Audio (Heard a b)) :: l2) = Some b); [|by rewrite E in G].
  clear H G. induction l2 as [|e l2 IH] using rev_ind; [by rewrite last_heard_snoc|]. apply Forall_app in Hd as [Hd He]. apply Forall_inv in He.
  rewrite app_comm_cons, app_assoc. destruct He as [He| ->]; [by rewrite last_heard_dull; auto|]. rewrite last_heard_snoc. auto.
Qed.
End stream.
