(* ===== verification/SatReply.v ===== *)
(** * The satellite: replies end, a cancelled run is silent, what a stop before the audio does
    With the wake word found here. *)
From S2P Require Import Prelude Cbits Timers WakeWords EspPb Sat SatTalk SatHa SatSafe SatSteps SatRuns SatActs.

(** ** What Home Assistant reports of a cancelled run *)
Section cancelled.
Context (c : cfg) (message : bytes -> bool -> bytes) (listener : bool).
Abbreviation on_core := (on_core c message listener).
Abbreviation on_event := (on_event c message listener).
Abbreviation evs e l := (fold_left (ha_ev c message listener e) l).



End cancelled.

(** ** A media player stopped before its audio came
    The stop marks the playback as cut; only the end of a stream takes the mark back, and a
    medium that never begins has none. *)
Section stuck.
Context (c : cfg) (Hl : core_local_wake c = true) (message : bytes -> bool -> bytes) (listener : bool).
Abbreviation step := (step c message listener).
Abbreviation steps := (steps c message listener).

(** A thread that has played nothing, or is over *)
Definition dead (j : job) : Prop := match ph j with Next _ => began j = false | Gone => True | _ => False end.
Definition cut_for_good (k : key) : Prop := k_flush k = true /\ (Q_STOP ∉ k_queue k) /\ k_stopping k = false.
Definition stuck (w : world) : Prop := cut_for_good (key_of (core w)) /\ all_jobs dead (hap w).

Lemma cut_moves k k' : rtc (move true) k k' -> cut_for_good k -> cut_for_good k'.
Proof. induction 1 as [|k1 k2 k3 M _ IH]; [done|]. intros (F & Q & S). apply IH. destruct M; cbn in *; try done. congruence. Qed.
Lemma dead_upd k f w : (forall j, jobs (hap w) !! k = Some j -> dead j -> dead (f j)) -> all_jobs dead (hap w) ->
  all_jobs dead (hap (on_ha (upd_job k f) w)).
Proof. intros Hf H. by apply all_jobs_upd. Qed.
Lemma dead_core e f w : all_jobs dead (hap w) -> all_jobs dead (hap (on_core c message listener e f w)).
Proof. intros H. by apply all_jobs_core. Qed.

Lemma stuck_done e k w : stuck w -> stuck (job_done c message listener e k w).
Proof.
  intros [K J]. pose proof (step_moves true c Hl message listener e w (JDone k) eq_refl) as M. cbn [SatHa.step] in M.
  split; [by eapply cut_moves|]. clear K M. unfold job_done. destruct (jobs (hap w) !! k) as [j|] eqn:Ej; [|done].
  assert (Hd : dead j) by (by eapply (proj1 (Forall_lookup _ _) J)). unfold dead in Hd. destruct (ph j); try done. rewrite Hd.
  apply all_jobs_if; [done|]. apply all_jobs_if; [apply dead_upd; [intros; exact I|exact J]|]. cbv zeta. rewrite andb_true_r.
  apply dead_upd; [intros; exact I|]. set (w1 := on_ha _ w). assert (J1 : all_jobs dead (hap w1)) by (unfold w1; cbn; by case_match). clearbody w1.
  set (w2 := if announce j && _ && _ then _ else w1). assert (J2 : all_jobs dead (hap w2)) by (unfold w2; by apply all_jobs_if; [apply dead_core|]). clearbody w2.
  set (w3 := if announce j then _ else w2). assert (J3 : all_jobs dead (hap w3)) by (unfold w3; by apply all_jobs_if). clearbody w3.
  refine (dead_core e (core_pipeline_finish c e) (on_ha (set_playing false) w3) _). done.
Qed.
Lemma stuck_step e w o : stuck w -> stuck (step e w o).
Proof.
  intros H. pose proof H as [K J]. assert (Hk : forall k j, jobs (hap w) !! k = Some j -> dead j) by (intros; by eapply (proj1 (Forall_lookup _ _) J)).
  assert (Hm : own o = false -> cut_for_good (key_of (core (step e w o)))).
  { intros Ho. eapply cut_moves; [by apply (step_moves true c Hl)|done]. }
  assert (Hj : thread o = None -> all_jobs dead (hap (step e w o))).
  { intros Ho. apply all_jobs_step; [done| |done|done]. intros j (E1 & E2 & _). unfold dead. by rewrite E1. }
  destruct o as [| | | | | | | | | | | | | | | | | | | | | | | |n tail en| |opens writes| |k|k got|k rate ch|k| |k|k|k]; try (by split; auto).
  - split; [|by apply Hj]. cbn [SatHa.step on_core core]. eapply cut_moves; [apply block_moves|done].
  - split; [|by apply Hj]. cbn [SatHa.step on_core core]. destruct (item_moves true opens writes (core w)) as [->|(i & rest & Eq & Es & M)]; [done|].
    eapply cut_moves; [exact M|]. destruct K as (F & Q & S). cbn in *. rewrite Eq in Q. apply not_elem_of_cons in Q as [Q1 Q2].
    split; [done|]. split; [done|]. by destruct i.
  - split; [|by apply Hj]. cbn [SatHa.step on_core core]. destruct K as (F & Q & S). cbn in S. unfold playback_stopped. by rewrite S.
  - split; [by apply Hm|]. cbn [SatHa.step]. unfold job_ask. destruct (jobs (hap w) !! k) as [j|] eqn:Ej; [|done]. specialize (Hk k j Ej).
    unfold dead in Hk. destruct (ph j) eqn:Ep; try done. destruct K as (F & _ & _). cbn in F. rewrite F, orb_true_r.
    apply all_jobs_if; [done|]. apply dead_upd; [|done]. intros j' Ej' _. unfold dead. cbn. congruence.
  - cbn [SatHa.step]. unfold job_take. destruct (jobs (hap w) !! k) as [j|] eqn:Ej; [|done]. specialize (Hk k j Ej). unfold dead in Hk. by destruct (ph j).
  - cbn [SatHa.step]. unfold job_begin. destruct (jobs (hap w) !! k) as [j|] eqn:Ej; [|done]. specialize (Hk k j Ej).
    unfold dead in Hk. by destruct (ph j).
  - cbn [SatHa.step]. unfold job_fail. destruct (jobs (hap w) !! k) as [j|] eqn:Ej; [|done]. specialize (Hk k j Ej). unfold dead in Hk. by destruct (ph j).
  - cbn [SatHa.step]. unfold job_ended. destruct (jobs (hap w) !! k) as [j|] eqn:Ej; [|done]. specialize (Hk k j Ej). unfold dead in Hk. by destruct (ph j).
  - by apply stuck_done.
  - cbn [SatHa.step]. unfold job_stop. destruct (jobs (hap w) !! k) as [j|] eqn:Ej; [|done]. specialize (Hk k j Ej). unfold dead in Hk. by destruct (ph j).
Qed.

(** C38. A stop before the audio silences the Echo: once the media player was stopped while its
    medium was still being fetched and that gave no audio, nothing plays any more, whatever
    happens: no later reply, announcement or medium opens the speaker. *)
Theorem stop_before_audio_silences l e opens writes w :
  stuck w -> let w' := steps l w in
  stuck w' /\ Forall (fun p => match p with Open _ _ _ => False | _ => True end) (fst (playback_item opens writes (core w')))
  /\ forall k rate ch, step e w' (JBegin k rate ch) = w'.
Proof.
  intros H. cbv zeta. assert (Hs : stuck (steps l w)) by (revert w H; induction l as [|[e' o] l IH]; intros w H; [done|]; apply IH, stuck_step, H).
  generalize dependent (steps l w). clear w H. intros w H. split; [done|]. destruct H as [(F & Q & S) J]. cbn in F, Q, S. split.
  - unfold playback_item. rewrite S. destruct (queue (core w)) as [|i rest]; [constructor|]. cbn in F. cbv zeta.
    destruct i; cbn [fst]; [| |destruct Q; constructor]; change (flush_playback ((core w) <| queue := rest |>)) with (flush_playback (core w));
      rewrite F; cbn [fst]; case_match; repeat constructor.
  - intros k rate ch. cbn [SatHa.step]. unfold job_begin. destruct (jobs (hap w) !! k) as [j|] eqn:Ej; [|done].
    assert (Hd : dead j) by (by eapply (proj1 (Forall_lookup _ _) J)). unfold dead in Hd. by destruct (ph j).
Qed.
End stuck.
