(* ===== verification/SatEnds.v ===== *)
(** * The satellite: a reply ends
    While the Echo speaks, the end of the reply is on its way: a thread that plays it, or the end
    of its stream in the queue or taken from it.  From there the threads alone lead out of
    speaking.  With the wake word found here. *)
From S2P Require Import Prelude Cbits Timers WakeWords EspPb Sat SatTalk SatHa SatSafe SatSteps SatRuns SatActs.

(** ** Speaking goes on only without a cancel *)
Definition uncancelled (l : list ev) : Prop := Forall (fun x => x <> P Cancel) l.
Lemma moves_cut cap k k' : rtc (move cap) k k' -> k_cut k = false -> k_cut k' = false.
Proof. induction 1 as [k|k1 k2 k3 M _ IH]; [done|]. intros H. apply IH. by destruct M. Qed.
Lemma speaking_moves cap k k' : rtc (move cap) k k' -> k_st k' = SPEAKING ->
  k_st k = SPEAKING /\ k_stopping k' = k_stopping k /\ (exists q, k_queue k' = k_queue k ++ q) /\
  forall l, k_out k' = k_out k ++ l -> uncancelled l.
Proof.
  induction 1 as [k|k1 k2 k3 M R IH]; intros Hs.
  { split_and!; try done; [exists []; by rewrite app_nil_r|]. intros l E. destruct l; [constructor|].
    apply (f_equal length) in E. rewrite length_app in E. cbn in E. lia. }
  destruct (IH Hs) as (S & T & [q Q] & L). destruct (moves_out cap k2 k3 R) as [l E]. pose proof (L l E) as U.
  assert (K : forall x, k_st k1 = SPEAKING -> k_stopping k2 = k_stopping k1 -> k_queue k2 = k_queue k1 ->
    k_out k2 = k_out k1 ++ x -> uncancelled x ->
    k_st k1 = SPEAKING /\ k_stopping k3 = k_stopping k1 /\ (exists q, k_queue k3 = k_queue k1 ++ q) /\ forall l, k_out k3 = k_out k1 ++ l -> uncancelled l).
  { intros x S1 T1 Q1 E1 U1. split_and!; [done|congruence|exists q; congruence|]. intros l' E'. rewrite E, E1, <- app_assoc in E'.
    apply app_inv_head in E' as <-. by apply Forall_app. }
  destruct M; cbn in S; try discriminate S; try congruence; try (by apply (K []); [| | |rewrite app_nil_r|constructor]).
  - apply (K [e]); try done. constructor; [|constructor]. by intros ->.
  - split_and!; [done|done|rewrite Q; cbn; rewrite <- app_assoc; by eexists|]. exact L.
  - apply (K [P (Audio (Heard a b))]); try done. by constructor.
Qed.

Section ends.
Context (c : cfg) (Hl : core_local_wake c = true) (message : bytes -> bool -> bytes) (listener : bool).
Abbreviation step := (step c message listener).

(** The threads of what the core calls, without a cancel *)
Lemma jobs_ev e l h : uncancelled l -> jobs (fold_left (ha_ev c message listener e) l h) = jobs h.
Proof.
  revert h. induction l as [|x l IH]; intros h H; [done|]. apply Forall_cons_1 in H as [H1 H]. cbn [fold_left]. rewrite IH by done.
  destruct x as [[]| | | | | | | | | | | |]; try done; cbn [ha_ev]; [apply jobs_played|unfold bt_device; by rewrite jobs_bt_try].
Qed.
Lemma jobs_core e f w l : out (f (core w)) = out (core w) ++ l -> uncancelled l ->
  jobs (hap (on_core c message listener e f w)) = jobs (hap w).
Proof. intros E U. unfold on_core. cbv zeta. cbn [hap]. rewrite E, drop_app_length. by apply jobs_ev. Qed.

(** The other threads stay as they are *)
Definition keeps (k : option nat) (w w' : world) : Prop := exists l, out (core w') = out (core w) ++ l /\
  (uncancelled l -> forall i j, k <> Some i -> jobs (hap w) !! i = Some j -> jobs (hap w') !! i = Some j).
Lemma keeps_turns e b k w w' : rtc (turn c message listener e b false k) w w' -> keeps k w w'.
Proof.
  induction 1 as [w|w w1 w2 T _ (l & E & H)]; [exists []; by rewrite app_nil_r|]. destruct T as [f K|f (new & En & _)|i f ->].
  - destruct (moves_out true _ _ (call_moves true c e b _ _ Hl K)) as [l1 E1]. cbn in E1. exists (l1 ++ l).
    rewrite E. cbn [on_core core]. rewrite E1, <- app_assoc. split; [done|]. intros [U1 U]%Forall_app i j Hk Hj. apply H; [done|done|].
    by rewrite (jobs_core e f w l1).
  - exists l. split; [done|]. intros U i j Hk Hj. apply H; [done|done|]. cbn [on_ha hap]. rewrite En. by apply lookup_app_l_Some.
  - exists l. split; [done|]. intros U i' j Hk Hj. apply H; [done|done|]. unfold on_ha, upd_job. cbn [hap]. cbn.
    rewrite list_lookup_alter, decide_False; [done|]. intros ->. done.
Qed.

(** ** The end on its way *)
Definition live (j : job) : Prop := aborted j = false /\ match ph j with Next _ | Asked _ | Fetched _ => began j = true | Playing _ | Ending => True | Gone => False end.
Definition pending (w : world) : Prop :=
  (exists k j, jobs (hap w) !! k = Some j /\ live j) \/ Q_STOP ∈ queue (core w) \/ stopping (core w) = true.
Definition reply_ok (w : world) : Prop := wake_cut (core w) = false /\ (st (core w) = SPEAKING -> pending w).

Lemma lookup_upd k f w : jobs (hap (on_ha (upd_job k f) w)) !! k = f <$> jobs (hap w) !! k.
Proof. unfold on_ha, upd_job. cbn [hap]. cbn. by rewrite list_lookup_alter, decide_True. Qed.
Lemma jobs_quiet_core e f w : out (f (core w)) = out (core w) -> jobs (hap (on_core c message listener e f w)) = jobs (hap w).
Proof. intros E. apply (jobs_core e f w []); [by rewrite app_nil_r|constructor]. Qed.
(** A thread's own step keeps the end on its way *)
Lemma live_take e w k got j : jobs (hap w) !! k = Some j -> live j ->
  exists j', jobs (hap (step e w (JTake k got))) !! k = Some j' /\ live j'.
Proof.
  intros Ej [Ha Hj]. cbn [SatHa.step]. unfold job_take. rewrite Ej. destruct (ph j) eqn:Ep; try (by exists j; split; [|split; [|rewrite Ep]]).
  case_match; rewrite lookup_upd, Ej; eexists; (split; [reflexivity|]); by split.
Qed.
Lemma live_ask e w k j : jobs (hap w) !! k = Some j -> live j -> exists j', jobs (hap (step e w (JAsk k))) !! k = Some j' /\ live j'.
Proof.
  intros Ej [Ha Hj]. cbn [SatHa.step]. unfold job_ask. rewrite Ej. destruct (ph j) eqn:Ep; try (by exists j; split; [|split; [|rewrite Ep]]).
  destruct (2 <=? i)%nat; [by exists j; split; [|split; [|rewrite Ep]]|].
  rewrite lookup_upd, Ej. eexists; (split; [reflexivity|]); split; [done|]. cbn [ph]. by destruct (_ || _).
Qed.
Lemma live_fail e w k j : jobs (hap w) !! k = Some j -> live j -> exists j', jobs (hap (step e w (JFail k))) !! k = Some j' /\ live j'.
Proof.
  intros Ej [Ha Hj]. cbn [SatHa.step]. unfold job_fail. rewrite Ej. destruct (ph j) eqn:Ep; try (by exists j; split; [|split; [|rewrite Ep]]).
  rewrite lookup_upd, Ej. eexists; (split; [reflexivity|]); by split.
Qed.
Lemma live_ended e w k j : jobs (hap w) !! k = Some j -> live j -> exists j', jobs (hap (step e w (JEnded k))) !! k = Some j' /\ live j'.
Proof.
  intros Ej [Ha Hj]. cbn [SatHa.step]. unfold job_ended. rewrite Ej. destruct (ph j) eqn:Ep; try (by exists j; split; [|split; [|rewrite Ep]]).
  rewrite lookup_upd, Ej. eexists; (split; [reflexivity|]); by split.
Qed.
(** Both URLs are through and something played: the end of the stream is next *)
Lemma done_ends e w k j i : jobs (hap w) !! k = Some j -> aborted j = false -> ph j = Next i -> (2 <= i)%nat -> began j = true ->
  let w' := step e w (JDone k) in jobs (hap w') !! k = Some (j <| ph := Ending |>) /\ st (core w') = st (core w).
Proof.
  intros Ej Ha Ep Hi Hb. cbn [SatHa.step]. unfold job_done. rewrite Ej, Ep. destruct (i <? 2)%nat eqn:E; [apply Nat.ltb_lt in E; lia|].
  rewrite Ha, Hb. cbv zeta. cbn [negb]. rewrite andb_false_r. set (w1 := on_ha _ w).
  assert (H1 : jobs (hap w1) !! k = Some j /\ core w1 = core w) by (split; [unfold w1; cbn; by case_match|done]). clearbody w1. destruct H1 as [E1 C1].
  rewrite lookup_upd. cbn [on_ha core]. case_match; [rewrite jobs_quiet_core by done|]; rewrite E1; (split; [done|]); [by rewrite <- C1|by rewrite C1].
Qed.
Lemma live_done e w k j : jobs (hap w) !! k = Some j -> live j -> exists j', jobs (hap (step e w (JDone k))) !! k = Some j' /\ live j'.
Proof.
  intros Ej [Ha Hj]. destruct (ph j) eqn:Ep; try (by cbn [SatHa.step]; unfold job_done; rewrite Ej, Ep; exists j; split; [|split; [|rewrite Ep]]).
  destruct (decide (2 <= i)%nat) as [Hi|Hi].
  - destruct (done_ends e w k j i Ej Ha Ep Hi Hj) as [E _]. eexists. split; [exact E|]. by split.
  - cbn [SatHa.step]. unfold job_done. rewrite Ej, Ep. rewrite (proj2 (Nat.ltb_lt i 2)) by lia. exists j. split; [done|]. by split; [|rewrite Ep].
Qed.
Lemma live_thread e w o k j : own o = false -> thread o = Some k -> jobs (hap w) !! k = Some j -> live j ->
  exists j', jobs (hap (step e w o)) !! k = Some j' /\ live j'.
Proof. destruct o; try done; intros _ [= ->]; eauto using live_ask, live_take, live_fail, live_ended, live_done. Qed.

Lemma reply_ok_turns e w o : own o = false -> reply_ok w -> reply_ok (step e w o).
Proof.
  intros Ho [Hc Hp]. pose proof (step_moves true c Hl message listener e w o Ho) as M. split; [exact (moves_cut true _ _ M Hc)|].
  intros Hs. destruct (speaking_moves true _ _ M Hs) as (S & T & [q Q] & U). cbn in S, T, Q, U.
  pose proof (step_turns c message listener e w o) as W. rewrite Ho in W. destruct (keeps_turns e _ _ _ _ W) as (l & El & K).
  destruct (Hp S) as [(k & j & Ej & Lj)|[Hq|Ht]].
  - left. destruct (decide (thread o = Some k)) as [Ek|Ek]; [exists k; by eapply live_thread|]. exists k, j. split; [|done]. by apply K; [apply U| |].
  - right. left. rewrite Q. apply elem_of_app. by left.
  - right. right. congruence.
Qed.

(** The queue's, the playback thread's and the capture thread's own steps *)
Lemma pending_core e f w k0 : rtc (move true) k0 (key_of (f (core w))) -> k_out k0 = out (core w) ->
  st (f (core w)) = SPEAKING ->
  k_st k0 = SPEAKING /\ stopping (f (core w)) = k_stopping k0 /\ (exists q, queue (f (core w)) = k_queue k0 ++ q) /\
  jobs (hap (on_core c message listener e f w)) = jobs (hap w).
Proof.
  intros M E Hs. destruct (speaking_moves true _ _ M Hs) as (S & T & Q & U). destruct (moves_out true _ _ M) as [l El].
  split_and!; try done. apply (jobs_core e f w l); [cbn in El; congruence|by apply U].
Qed.
Lemma reply_ok_step e w o : reply_ok w -> reply_ok (step e w o).
Proof.
  intros H. destruct (own o) eqn:Ho; [|by apply reply_ok_turns]. destruct H as [Hc Hp].
  assert (Hcore : forall f k0, rtc (move true) k0 (key_of (f (core w))) -> k_out k0 = out (core w) -> k_cut k0 = false ->
    (k_st k0 = SPEAKING -> st (core w) = SPEAKING) -> (stopping (core w) = true -> k_stopping k0 = true) ->
    (Q_STOP ∈ queue (core w) -> Q_STOP ∈ k_queue k0 \/ k_stopping k0 = true) ->
    reply_ok (on_core c message listener e f w)).
  { intros f k0 M E C S T Q. split; [exact (moves_cut true _ _ M C)|]. intros Hs. destruct (pending_core e f w k0 M E Hs) as (S1 & T1 & [q Q1] & J).
    unfold pending. rewrite J. change (core (on_core c message listener e f w)) with (f (core w)). rewrite T1, Q1, elem_of_app.
    destruct (Hp (S S1)) as [K|[K|K]]; [by left|destruct (Q K); auto|auto]. }
  destruct o as [| | | | | | | | | | | | | | | | | | | | | | | |n tail en| |opens writes| |k|k got|k rate ch|k| |k|k|k]; try discriminate Ho; cbn [SatHa.step].
  - eapply Hcore; [apply block_moves|done..|]. by left.
  - destruct (item_moves true opens writes (core w)) as [E|(i & rest & Eq & Es & M)].
    + eapply Hcore; [rewrite E; apply rtc_refl|done..|]. by left.
    + eapply Hcore; [exact M|done|done|done|by rewrite Es|]. rewrite Eq. cbn. intros [<-|Q]%elem_of_cons; [by right|by left].
  - destruct (stopping (core w)) eqn:Es.
    + split; [exact (moves_cut true _ _ (stopped_moves true c e (core w) Hl Es Hc) Hc)|].
      intros Hs. by destruct (speaking_moves true _ _ (stopped_moves true c e (core w) Hl Es Hc) Hs) as (S & _).
    + eapply Hcore; [unfold playback_stopped; rewrite Es; apply rtc_refl|done..|]. by left.
  - unfold job_begin. destruct (jobs (hap w) !! k) as [j|] eqn:Ej; [|done]. destruct (ph j) eqn:Ep; try done. destruct (aborted j) eqn:Ea.
    + split; [done|]. intros Hs. destruct (Hp Hs) as [(k' & j' & E' & L)|?]; [|by right]. left. destruct (decide (k' = k)) as [->|Hne].
      { rewrite Ej in E'. injection E' as <-. by destruct L as [L _]; rewrite Ea in L. }
      exists k', j'. split; [|done]. unfold on_ha, upd_job. cbn [hap]. cbn. by rewrite list_lookup_alter, decide_False.
    + pose proof (begin_moves true c e rate ch (media j) (core w) Hl) as M. split; [exact (moves_cut true _ _ M Hc)|].
      intros Hs. destruct (pending_core e (core_tts_begin c e rate ch (media j)) w _ M eq_refl Hs) as (_ & _ & _ & J).
      left. exists k, (j <| ph := Playing i |>). split; [|by split]. by rewrite lookup_upd, J, Ej.
  - unfold job_stop. destruct (jobs (hap w) !! k) as [j|] eqn:Ej; [|done]. destruct (ph j) eqn:Ep; try done. split; [done|].
    intros _. right. left. cbn. apply elem_of_app. right. by left.
Qed.

(** ** The way out *)
Definition by_threads (o : op) : bool :=
  match o with JAsk _ | JTake _ _ | JFail _ | JEnded _ | JDone _ | JStop _ | Play _ _ | PlayStopped => true | _ => false end.
Definition outs (e : env) (w : world) : Prop :=
  exists os, Forall (fun o => by_threads o = true) os /\ st (core (steps c message listener (map (pair e) os) w)) <> SPEAKING.
Lemma outs_step e w o : by_threads o = true -> outs e (step e w o) -> outs e w.
Proof. intros Ho (os & H & E). exists (o :: os). split; [by constructor|exact E]. Qed.

Lemma stop_taken e w : reply_ok w -> stopping (core w) = true -> outs e w.
Proof.
  intros [Hc _] Hs. exists [PlayStopped]. split; [by constructor|]. cbn [map SatHa.steps fold_left SatHa.step fst snd on_core core]. intros E.
  by destruct (speaking_moves true _ _ (stopped_moves true c e (core w) Hl Hs Hc) E) as (S & _).
Qed.
Lemma item_queue i rest s : queue s = i :: rest -> stopping s = false ->
  queue (snd (playback_item false false s)) = rest /\ stopping (snd (playback_item false false s)) = is_stop i.
Proof.
  intros Eq Es. unfold playback_item. rewrite Es, Eq. destruct i; cbn; repeat case_match; cbn; by rewrite ?Es.
Qed.
Lemma stop_queued e w : reply_ok w -> Q_STOP ∈ queue (core w) -> outs e w.
Proof.
  remember (queue (core w)) as q eqn:Eq. revert w Eq. induction q as [|i rest IH]; intros w Eq H Hq; [by apply not_elem_of_nil in Hq|].
  destruct (stopping (core w)) eqn:Es; [by apply stop_taken|]. apply (outs_step e w (Play false false)); [done|].
  pose proof (reply_ok_step e w (Play false false) H) as H'. destruct (item_queue i rest (core w) (eq_sym Eq) Es) as [Q1 S1].
  destruct (is_stop i) eqn:Ei; [by apply stop_taken|]. apply IH; [by symmetry|done|]. apply elem_of_cons in Hq as [<-|Hq]; [done|done].
Qed.
Lemma ending_ends e w k j : reply_ok w -> jobs (hap w) !! k = Some j -> ph j = Ending -> outs e w.
Proof.
  intros H Ej Ep. apply (outs_step e w (JStop k)); [done|]. pose proof (reply_ok_step e w (JStop k) H) as H'. apply stop_queued; [done|].
  cbn [SatHa.step]. unfold job_stop. rewrite Ej, Ep. cbn. apply elem_of_app. right. by left.
Qed.
Lemma next_ends e n : forall w k j i, (2 - i <= n)%nat -> reply_ok w -> jobs (hap w) !! k = Some j -> aborted j = false -> ph j = Next i -> began j = true -> outs e w.
Proof.
  induction n as [|n IH]; intros w k j i Hn H Ej Ha Ep Hb.
  - pose proof (reply_ok_step e w (JDone k) H) as H'. apply (outs_step e w (JDone k)); [done|].
    destruct (done_ends e w k j i Ej Ha Ep ltac:(lia) Hb) as [E _]. by eapply ending_ends.
  - destruct (decide (2 <= i)%nat) as [Hi|Hi]; [apply (IH w k j i); [lia|done..]|].
    pose proof (reply_ok_step e w (JAsk k) H) as H'. apply (outs_step e w (JAsk k)); [done|].
    set (pass := (length (job_url i j) =? 0)%nat || flush_playback (core w)).
    assert (E : jobs (hap (step e w (JAsk k))) !! k = Some (j <| ph := if pass then Next (S i) else Asked i |>)).
    { cbn [SatHa.step]. unfold job_ask. rewrite Ej, Ep. rewrite (proj2 (Nat.leb_gt 2 i)) by lia. by rewrite lookup_upd, Ej. }
    destruct pass; [by apply (IH _ k (j <| ph := Next (S i) |>) (S i)); [lia|..]|].
    generalize dependent (step e w (JAsk k)). intros w1 H1 E1. pose proof (reply_ok_step e w1 (JTake k false) H1) as H2. apply (outs_step e w1 (JTake k false)); [done|].
    apply (IH _ k (j <| ph := Next (S i) |>) (S i)); [lia|done| |done..]. cbn [SatHa.step]. unfold job_take. rewrite E1. change (ph (j <| ph := Asked i |>)) with (Asked i). cbn [negb orb]. by rewrite lookup_upd, E1.
Qed.
Lemma pending_ends e w : reply_ok w -> pending w -> outs e w.
Proof.
  intros H [(k & j & Ej & Ha & Hj)|[Hq|Hs]]; [|by apply stop_queued|by apply stop_taken].
  destruct (ph j) eqn:Ep; [by eapply next_ends| | | |by eapply ending_ends|done].
  - pose proof (reply_ok_step e w (JTake k false) H) as H'. apply (outs_step e w (JTake k false)); [done|].
    apply (next_ends e 2 _ k (j <| ph := Next (S i) |>) (S i)); [lia|done| |done..].
    cbn [SatHa.step]. unfold job_take. rewrite Ej, Ep. cbn [negb orb]. by rewrite lookup_upd, Ej.
  - pose proof (reply_ok_step e w (JFail k) H) as H'. apply (outs_step e w (JFail k)); [done|].
    apply (next_ends e 2 _ k (j <| ph := Next (S i) |> <| fd := false |>) (S i)); [lia|done| |done..].
    cbn [SatHa.step]. unfold job_fail. by rewrite Ej, Ep, lookup_upd, Ej.
  - pose proof (reply_ok_step e w (JEnded k) H) as H'. apply (outs_step e w (JEnded k)); [done|].
    assert (E : jobs (hap (step e w (JEnded k))) !! k = Some (j <| ph := Next (S i) |> <| fd := false |> <| began := true |> <| SatHa.ok := SatHa.ok j || (i =? 1)%nat |>))
      by (cbn [SatHa.step]; unfold job_ended; by rewrite Ej, Ep, lookup_upd, Ej).
    by eapply (next_ends e 2 _ k _ (S i)); [lia| |exact E|..].
Qed.

(** C5. A reply ends: in every history, while the Echo speaks the end of what it says is on its
    way, and from there the threads that play it, and nothing else, lead out of speaking. *)
Theorem reply_ends words setup l e :
  let w := run c message listener words setup l in
  st (core w) = SPEAKING -> pending w /\ outs e w.
Proof.
  cbv zeta. assert (H : reply_ok (run c message listener words setup l)).
  { unfold run, SatHa.steps. induction l as [|x l IH] using rev_ind; [by split|]. rewrite fold_left_app. by apply reply_ok_step. }
  intros Hs. pose proof (proj2 H Hs) as Hp. split; [done|]. by apply pending_ends.
Qed.
End ends.
