(* ===== verification/SatRules.v ===== *)
(** * The satellite: "stop", the time a run may take, the run that follows a reply
    What some of the functions do, on every branch.  With the wake word found here. *)
From S2P Require Import Prelude Cbits Timers WakeWords EspPb Sat SatTalk SatHa SatSafe SatSteps SatRuns SatActs.

Section rules.
Context (c : cfg) (Hl : core_local_wake c = true).

Lemma st_set_state e x s : st (core_set_state e x s) = x.
Proof.
  unfold core_set_state. destruct (eqst x (st s)) eqn:E; [by apply eqst_spec in E|].
  cbv zeta. set (s1 := led_for _ _ _). clearbody s1. done.
Qed.
Lemma streaming_set_state e x s : streaming (core_set_state e x s) = streaming s.
Proof.
  unfold core_set_state. destruct (eqst x (st s)); [done|]. cbv zeta.
  set (s1 := if eqst IDLE (st s) && _ then _ else s). assert (E : streaming s1 = streaming s) by (unfold s1; by case_match). clearbody s1.
  pose proof (streaming_led_for (st s1) x s1) as E2. generalize dependent (led_for (st s1) x s1). intros s2 E2. cbn. congruence.
Qed.
Lemma streaming_zeros fuel left s : streaming (lead_in_loop fuel left s) = streaming s.
Proof. revert left s. induction fuel as [|fuel IH]; intros left s; cbn [lead_in_loop]; [done|]. case_match; [by rewrite IH|done]. Qed.
Lemma vb_zeros fuel left s : vb (lead_in_loop fuel left s) = vb s.
Proof. revert left s. induction fuel as [|fuel IH]; intros left s; cbn [lead_in_loop]; [done|]. case_match; [|done]. rewrite IH. by apply vb_emit. Qed.

Lemma streaming_listening on s : streaming (listening on s) = streaming s.
Proof. unfold listening. rewrite streaming_listening_apply. done. Qed.
Lemma vb_listening on s : vb (listening on s) = vb s.
Proof. unfold listening. rewrite vb_listening_apply. by vb_step. Qed.
Lemma vb_inv s n b r k m : vb s = (n, b, (r, k, m)) ->
  starts (out s) = n /\ barge_in s = b /\ satellite_running s = r /\ connected s = k /\ soft_mute s = m.
Proof. unfold vb. by intros [= <- <- <- <- <-]. Qed.

(** A start: one more run, which listens *)
Lemma start_listens e from s : let s' := pipeline_start c e from s in
  starts (out s') = S (starts (out s)) /\ st s' = LISTENING /\ streaming s' = true /\ soft_mute s' = soft_mute s.
Proof.
  cbv zeta. unfold pipeline_start. rewrite Hl. cbv zeta. rewrite st_set_state, streaming_set_state.
  set (s1 := (emit (P (Start _)) _) <| streaming := true |>).
  assert (E1 : streaming s1 = true /\ vb s1 = (S (starts (out s)), barge_in s, (satellite_running s, connected s, soft_mute s))).
  { split; [done|]. unfold vb, s1. change (out (_ <| streaming := true |>)) with (out s ++ [P (Start (core_wake_phrase (ww s)))]).
    rewrite starts_snoc. cbn [is_start]. by rewrite Nat.add_1_r. }
  clearbody s1. destruct E1 as [S1 V1].
  assert (V2 : vb (core_set_state e LISTENING (listening true (lead_in s1))) = vb s1) by (rewrite vb_set_state, vb_listening; apply vb_zeros).
  rewrite V1 in V2. apply vb_inv in V2 as (-> & _ & _ & _ & ->). split; [done|]. split; [done|]. split; [|done].
  rewrite streaming_listening. unfold lead_in. by rewrite streaming_zeros.
Qed.

(** C39. What follows a reply asks for no leave: with a run to follow (a conversation that goes on,
    or a wake word in the reply), the end of the reply starts it and the microphone goes out, also
    when the microphones were switched off meanwhile from Home Assistant. *)
Theorem follow_up_listens_while_muted e s :
  soft_mute s = true -> barge_in s = true -> satellite_running s = true -> connected s = true ->
  let s' := core_pipeline_finish c e s in
  core_muted e s' = true /\ st s' = LISTENING /\ streaming s' = true /\ starts (out s') = S (starts (out s)).
Proof.
  intros Hm Hb Hr Hc. cbv zeta. unfold core_pipeline_finish. cbv zeta. rewrite Hl. cbn [negb].
  match goal with |- context [mic_stopped ?x] => assert (E : vb (core_set_state e IDLE (mic_stopped x)) = vb s) end.
  { rewrite vb_set_state, vb_mic_stopped. by repeat vb_step. }
  match type of E with vb ?x = _ => generalize dependent x end. intros s1 E1.
  assert (E2 : vb (if 3000 <? now e - last_wake_ms s1 then emit WakeReset s1 else s1) = vb s) by (by repeat vb_step).
  match type of E2 with vb ?x = _ => generalize dependent x end. intros s2 E2.
  destruct (vb_inv _ _ _ _ _ _ E2) as (S2 & B2 & R2 & C2 & M2). rewrite C2, Hc, B2, Hb, R2, Hr, C2, Hc. cbn [orb andb].
  match goal with |- context [pipeline_start c e ?from ?x] => set (s3 := x); destruct (start_listens e from s3) as (A1 & A2 & A3 & A4) end.
  assert (E3 : soft_mute s3 = true /\ starts (out s3) = starts (out s)).
  { unfold s3. destruct (vb_inv _ _ _ _ _ _ (vb_sound_request c SND_WAKE s2)) as (V1 & _ & _ & _ & V2). cbn. rewrite V1, V2. by rewrite S2, M2. }
  destruct E3 as [M3 S3]. unfold core_muted. rewrite A4, M3, A1, S3. done.
Qed.

(** The end of a run with none to follow *)
Lemma finish_idles e s : barge_in s = false -> let s' := core_pipeline_finish c e s in st s' = IDLE /\ streaming s' = false.
Proof.
  intros Hb. cbv zeta. unfold core_pipeline_finish. cbv zeta. rewrite Hl. cbn [negb].
  match goal with |- context [mic_stopped ?x] => assert (E : vb (core_set_state e IDLE (mic_stopped x)) = vb s /\ st (core_set_state e IDLE (mic_stopped x)) = IDLE /\ streaming (core_set_state e IDLE (mic_stopped x)) = false) end.
  { split; [rewrite vb_set_state, vb_mic_stopped; by repeat vb_step|]. rewrite st_set_state, streaming_set_state, streaming_mic_stopped.
    split; [done|]. by repeat case_match. }
  match type of E with vb ?x = _ /\ _ => generalize dependent x end. intros s1 (E1 & T1 & U1).
  assert (E2 : vb (if 3000 <? now e - last_wake_ms s1 then emit WakeReset s1 else s1) = vb s /\ st (if 3000 <? now e - last_wake_ms s1 then emit WakeReset s1 else s1) = IDLE
     /\ streaming (if 3000 <? now e - last_wake_ms s1 then emit WakeReset s1 else s1) = false) by (case_match; [rewrite vb_emit by done|]; done).
  match type of E2 with vb ?x = _ /\ _ => generalize dependent x end. intros s2 (E2 & T2 & U2).
  assert (B2 : barge_in s2 = false) by (unfold vb in E2; congruence).
  assert (E3 : barge_in (if connected s2 then s2 else s2 <| barge_in := false |>) = false) by (by case_match).
  rewrite E3. cbn. by case_match.
Qed.

(** No run waits for ever: thirty seconds of listening or of thinking end it, and nothing goes
    out of the microphone any more; before that, and in any other state, the look at the clock
    changes nothing. *)
Theorem a_wait_is_ended e s : barge_in s = false ->
  let s' := pipeline_timeout c e s in
  ((st s = LISTENING \/ st s = THINKING) -> state_since s + PIPELINE_TIMEOUT < wall e -> st s' = IDLE /\ streaming s' = false) /\
  (wall e <= state_since s + PIPELINE_TIMEOUT \/ st s = IDLE \/ st s = SPEAKING -> s' = s).
Proof.
  intros Hb. cbv zeta. unfold pipeline_timeout. rewrite Hl. cbn [andb]. split.
  - intros Hs Ht. rewrite (proj2 (Z.ltb_lt _ _)) by lia.
    replace (eqst LISTENING (st s) || eqst THINKING (st s)) with true by (by destruct Hs as [->| ->]). by apply finish_idles.
  - intros [Ht|Hs]; [rewrite (proj2 (Z.ltb_ge _ _)) by lia; by rewrite andb_false_r|].
    by replace (eqst LISTENING (st s) || eqst THINKING (st s)) with false by (by destruct Hs as [->| ->]).
Qed.

(** ** Stop
    The timers stay as they are when a run ends *)
Ltac tm_step :=
  lazymatch goal with
  | |- tm (set _ _ ?s) = _ => transitivity (tm s); [generalize s; intros; reflexivity|]
  | |- tm (emit _ ?s) = _ => transitivity (tm s); [reflexivity|]
  | |- tm (led _ _ ?s) = _ => transitivity (tm s); [reflexivity|]
  | |- tm (if ?b then _ else _) = _ => destruct b
  end.
Lemma tm_led_for x y s : tm (led_for x y s) = tm s.
Proof. by destruct x, y. Qed.
Lemma tm_set_state e x s : tm (core_set_state e x s) = tm s.
Proof. unfold core_set_state. tm_step; [done|]. cbv zeta. do 3 tm_step. rewrite tm_led_for. by repeat tm_step. Qed.
Lemma tm_listening_apply s : tm (listening_apply s) = tm s.
Proof. unfold listening_apply. cbv zeta. by repeat tm_step. Qed.
Lemma tm_listening on s : tm (listening on s) = tm s.
Proof. unfold listening. rewrite tm_listening_apply. by tm_step. Qed.
Lemma tm_mic_stopped s : tm (mic_stopped s) = tm s.
Proof. unfold mic_stopped, afe_done. repeat tm_step; apply tm_listening. Qed.
Lemma tm_zeros fuel left s : tm (lead_in_loop fuel left s) = tm s.
Proof. revert left s. induction fuel as [|fuel IH]; intros left s; cbn [lead_in_loop]; [done|]. tm_step; [|done]. rewrite IH. by tm_step. Qed.
Lemma tm_start e from s : tm (pipeline_start c e from s) = tm s.
Proof.
  unfold pipeline_start. rewrite Hl. cbv zeta. set (s1 := (emit (P (Start _)) _) <| streaming := true |>).
  assert (E : tm s1 = tm s) by reflexivity. clearbody s1. rewrite tm_set_state, tm_listening. unfold lead_in. by rewrite tm_zeros.
Qed.
Lemma tm_sound k s : tm (sound_request c k s) = tm s.
Proof. unfold sound_request, sound_queue. by repeat tm_step. Qed.
Lemma tm_finish e s : tm (core_pipeline_finish c e s) = tm s.
Proof.
  unfold core_pipeline_finish. cbv zeta.
  match goal with |- context [mic_stopped ?x] => assert (E : tm (core_set_state e IDLE (mic_stopped x)) = tm s) end.
  { rewrite tm_set_state, tm_mic_stopped. by repeat tm_step. }
  match type of E with tm ?x = _ => generalize dependent x end. intros s1 E1.
  assert (E2 : tm (if 3000 <? now e - last_wake_ms s1 then emit WakeReset s1 else s1) = tm s) by (by repeat tm_step).
  match type of E2 with tm ?x = _ => generalize dependent x end. intros s2 E2.
  assert (E3 : tm (if connected s2 then s2 else s2 <| barge_in := false |>) = tm s) by (by repeat tm_step).
  match type of E3 with tm ?x = _ => generalize dependent x end. intros s3 E3.
  tm_step; [|done]. rewrite tm_start. do 2 tm_step. tm_step; [by rewrite tm_sound|done].
Qed.
Lemma tm_quiet_cancel e s : tm (quiet_cancel c e s) = tm s.
Proof. unfold quiet_cancel. tm_step. rewrite tm_finish. by repeat tm_step. Qed.
Lemma alarm_stopped s : alarm_on (tm (alarm_stop c s)) = false.
Proof.
  assert (E : forall l s, tm (fold_left timer_ev l s) = tm s).
  { intros l. induction l as [|x l IH]; intros s0; [done|]. cbn [fold_left]. rewrite IH. by destruct x. }
  unfold alarm_stop, timers_do. cbv zeta. rewrite E. cbn. unfold core_alarm_stop, alarm_set, changed. cbn.
  destruct (alarm_on (tm s)) eqn:Ea; cbn; [|done]. by destruct (connected s && has_timers_changed c).
Qed.

Lemma kept_alarm_stop s : st (alarm_stop c s) = st s /\ wake_cut_ms (alarm_stop c s) = wake_cut_ms s.
Proof.
  assert (E : forall l s, st (fold_left timer_ev l s) = st s /\ wake_cut_ms (fold_left timer_ev l s) = wake_cut_ms s).
  { intros l. induction l as [|x l IH]; intros s0; [done|]. cbn [fold_left]. destruct (IH (timer_ev s0 x)) as [-> ->]. by destruct x. }
  unfold alarm_stop, timers_do. cbv zeta. match goal with |- st (fold_left _ ?l ?x) = _ /\ _ => destruct (E l x) as [-> ->] end. done.
Qed.
Lemma quiet_idles e s : st (quiet_cancel c e s) = IDLE /\ streaming (quiet_cancel c e s) = false /\ quiet_abort (quiet_cancel c e s) = true.
Proof.
  unfold quiet_cancel. set (s1 := emit _ _). destruct (finish_idles e s1 eq_refl) as [A B].
  generalize dependent (core_pipeline_finish c e s1). intros s2 A B. done.
Qed.

(** C8. Stop ends it: the word stop silences a timer, hangs up a call, cuts a reply and lets
    nothing follow it, ends the run that a wake word in a reply began less than four seconds ago,
    and starts nothing, in every state. *)
Theorem stop_ends_it e s :
  let s' := stop_word c e s in
  starts (out s') = starts (out s) /\ alarm_on (tm s') = false /\
  (call_on e = true -> exists l, out s' = out s ++ DropinHangup :: l) /\
  (st s = SPEAKING -> st s' = SPEAKING /\ flush_playback s' = true /\ barge_in s' = false) /\
  (st s = LISTENING -> now e - wake_cut_ms s < 4000 -> st s' = IDLE /\ streaming s' = false /\ quiet_abort s' = true).
Proof.
  cbv zeta. split; [by apply stop_word_starts|]. unfold stop_word. set (s0 := if call_on e then emit DropinHangup s else s).
  assert (E0 : st s0 = st s /\ wake_cut_ms s0 = wake_cut_ms s) by (unfold s0; by case_match). destruct E0 as [T0 W0].
  assert (Ho : call_on e = true -> exists l, out (stop_locked c e s0) = out s ++ DropinHangup :: l).
  { intros Hc. destruct (moves_out false _ _ (acts_stop_locked false (key_of s0) c Hl e s0 (rtc_refl _ _))) as [l E]. exists l.
    change (out (stop_locked c e s0)) with (k_out (key_of (stop_locked c e s0))). rewrite E. unfold s0. rewrite Hc. cbn. by rewrite <- app_assoc. }
  clearbody s0. rewrite <- T0, <- W0. clear T0 W0. enough (H : alarm_on (tm (stop_locked c e s0)) = false /\
    (st s0 = SPEAKING -> st (stop_locked c e s0) = SPEAKING /\ flush_playback (stop_locked c e s0) = true /\ barge_in (stop_locked c e s0) = false) /\
    (st s0 = LISTENING -> now e - wake_cut_ms s0 < 4000 -> st (stop_locked c e s0) = IDLE /\ streaming (stop_locked c e s0) = false /\ quiet_abort (stop_locked c e s0) = true)) by (split_and!; try apply H; auto).
  clear Ho s. unfold stop_locked. cbv zeta. set (s1 := s0 <| stop_ms := now e |>).
  assert (H2 : exists b s2, (if alarm_on (tm s1) then (true, alarm_stop c s1) else (call_on e, s1)) = (b, s2) /\
    alarm_on (tm s2) = false /\ st s2 = st s0 /\ wake_cut_ms s2 = wake_cut_ms s0).
  { destruct (alarm_on (tm s1)) eqn:Ea; eexists _, _; (split; [done|]); [|done]. split; [apply alarm_stopped|exact (kept_alarm_stop s1)]. }
  destruct H2 as (b & s2 & -> & A2 & T2 & W2). set (s3 := s2 <| stop_cut := _ |>).
  assert (H3 : alarm_on (tm s3) = false /\ st s3 = st s0 /\ wake_cut_ms s3 = wake_cut_ms s0) by done. clearbody s3. destruct H3 as (A3 & T3 & W3).
  rewrite <- T3, <- W3. clear T2 W2 A2 s2 T3 W3.
  assert (A4 : alarm_on (tm (if negb b && negb (music_on s3 =? 0) then snd (music_stop e s3) else s3)) = false)
    by (unfold music_stop; repeat case_match; done).
  generalize dependent (if negb b && negb (music_on s3 =? 0) then snd (music_stop e s3) else s3). intros s4 A4.
  destruct (st s3) eqn:T3; cbn [eqst andb].
  - done.
  - destruct (now e - wake_cut_ms s3 <? 4000) eqn:Et; bsimp.
    + set (s5 := sounds_drop_wake _). assert (A5 : alarm_on (tm s5) = false) by done. clearbody s5. split; [|split; [done|]].
      * case_match; [by rewrite tm_quiet_cancel|]. change (alarm_on (tm (core_pipeline_finish c e (s5 <| barge_in := false |>))) = false). by rewrite tm_finish.
      * intros _ _. case_match; [apply quiet_idles|]. assert (Hb : barge_in (s5 <| barge_in := false |>) = false) by done. destruct (finish_idles e _ Hb) as [F1 F2].
        generalize dependent (core_pipeline_finish c e (s5 <| barge_in := false |>)). intros s6 F1 F2. done.
    + split; [|split; [done|lia]]. case_match; [by rewrite tm_quiet_cancel|done].
  - done.
  - split; [done|]. by split.
Qed.
End rules.
