(* ===== verification/SatDemo.v ===== *)
(** * The satellite: histories of a satellite at work, with what they come to *)
From S2P Require Import Prelude Cbits Timers WakeWords EspPb Sat SatTalk SatHa SatSafe SatSteps SatRuns SatActs SatStream SatReply SatEnds SatRules.

Definition demo_cfg : cfg := mk_cfg true false false true true true true true true true true true true true.
Definition demo_words (phrase_on : bool) (name : bytes) (on : bool) : bytes := name ++ (if on then str " connected" else str " disconnected").
Definition at_ms (t : Z) : env := mk_env t (t / 1000) false false false true.
Abbreviation demo := (run demo_cfg (fun name on => demo_words true name on) true demo_start false).

(** An event as Home Assistant sends it *)
Definition kv (k v : bytes) : bytes := [18; Z.of_nat (4 + length k + length v)] ++ [10; Z.of_nat (length k)] ++ k ++ [18; Z.of_nat (length v)] ++ v.
Definition event (type : Z) (data : list (bytes * bytes)) : bytes := [8; type] ++ (data ≫= fun x => kv (fst x) (snd x)).

(** The wake word, a request, its reply *)
Definition asked_for : list (env * op) :=
  [(at_ms 1000, Link true true);
   (at_ms 20000, WakeWord false false 0 (str "ALEXA") 31000 32000);
   (at_ms 20050, Block 33024 (Some 31800) false);
   (at_ms 20100, Event_ (event EV_RUN_START []));
   (at_ms 20114, Block 256 None false);
   (at_ms 20130, Block 256 None true)].
Definition understood : list (env * op) :=
  [(at_ms 21000, Event_ (event EV_STT_END [(str "text", str "Turn on the light")]));
   (at_ms 21100, Event_ (event EV_INTENT_END []));
   (at_ms 21200, Event_ (event EV_TTS_END [(str "url", str "http://ha:8123/reply.wav")]));
   (at_ms 21210, Event_ (event EV_RUN_END []))].
Definition replied : list (env * op) :=
  [(at_ms 21220, JAsk 0); (at_ms 21230, JAsk 0); (at_ms 21300, JTake 0 true); (at_ms 21310, JBegin 0 16000 1); (at_ms 21320, JData 0 [1; 2; 3; 4]);
   (at_ms 21330, Play true true); (at_ms 21340, Play true true)].
Definition said_all : list (env * op) :=
  [(at_ms 22000, JEnded 0); (at_ms 22010, JDone 0); (at_ms 22020, JStop 0); (at_ms 22030, Play true true); (at_ms 22500, PlayStopped)].

Example a_conversation :
  map (fun l => st (core (demo l))) [[]; asked_for; asked_for ++ understood; asked_for ++ understood ++ replied; asked_for ++ understood ++ replied ++ said_all]
    = [IDLE; LISTENING; THINKING; SPEAKING; IDLE] /\
  omap (fun e => match e with P (Audio (Heard a b)) => Some (a, b) | _ => None end) (out (core (demo (asked_for ++ understood ++ replied ++ said_all))))
    = [(31800, 33024); (33024, 33280); (33280, 33536)] /\
  media_busy (hap (demo (asked_for ++ understood ++ replied ++ said_all))) = false.
Proof. vm_compute. done. Qed.

(** ** The properties at work *)
Definition demo_out := out (core (demo asked_for)).
Lemma mic_only_in_a_run_witness : mic (take 17 demo_out) = true.
Proof.
  refine (mic_only_in_a_run demo_cfg (fun name on => demo_words true name on) true demo_start false asked_for (take 17 demo_out) (Heard 31800 33024) (drop 18 demo_out) _).
  vm_compute. reflexivity.
Defined.
Lemma ring_shows_the_state_witness : lit active_thinking (out (core (demo (asked_for ++ understood)))) = true.
Proof.
  refine (eq_trans (proj1 (ring_shows_the_state demo_cfg (fun name on => demo_words true name on) true demo_start false (asked_for ++ understood)) THINKING active_thinking eq_refl) _).
  vm_compute. reflexivity.
Defined.
Definition linked : list (env * op) := [(at_ms 1000, Link true true)].
Definition alexa : op := WakeWord false false 0 (str "ALEXA") 31000 32000.
Lemma runs_start_when_asked_witness : here alexa = true /\ may (at_ms 20000) (core (demo linked)).
Proof.
  destruct (runs_start_when_asked demo_cfg (fun name on => demo_words true name on) true demo_start false linked (at_ms 20000) alexa eq_refl eq_refl) as [[E|H] _];
    [vm_compute in E; discriminate E|exact H].
Defined.
Definition heard_at (i : nat) : option audio := nth_error demo_out i ≫= fun e => match e with P (Audio a) => Some a | _ => None end.
Lemma stream_has_no_gap_witness : heard_at 18 = Some (Heard 33024 33280) /\ heard_at 19 = Some (Heard 33280 33536) /\ 33280 = 33280.
Proof.
  split; [vm_compute; reflexivity|]. split; [vm_compute; reflexivity|].
  refine (stream_has_no_gap demo_cfg eq_refl (fun name on => demo_words true name on) true demo_start false asked_for (take 18 demo_out) 33024 33280 [] 33280 33536 [] _ _);
    [vm_compute; reflexivity|constructor].
Defined.
(** The media player stopped before the audio came, and a whole conversation after it *)
Definition stopped_early : list (env * op) :=
  [(at_ms 1000, Link true true);
   (at_ms 5000, MediaPlayer ([48; 1; 58; 23] ++ str "http://ha:8123/song.mp3")); (at_ms 5010, JAsk 0); (at_ms 5020, JAsk 0); (at_ms 5500, JTake 0 true);
   (at_ms 6000, MediaPlayer [16; 1; 24; MP_CMD_STOP]);
   (at_ms 6100, JFail 0); (at_ms 6110, JDone 0)].
Lemma stopped_early_stuck : stuck (demo stopped_early).
Proof. split; [split; [|split]|]; [vm_compute; reflexivity|vm_compute; intros Q; inversion Q|vm_compute; reflexivity|vm_compute; repeat constructor]. Qed.
Lemma stop_before_audio_silences_witness :
  stuck (steps demo_cfg (fun name on => demo_words true name on) true (drop 1 asked_for ++ understood ++ replied) (demo stopped_early)).
Proof.
  exact (proj1 (stop_before_audio_silences demo_cfg eq_refl (fun name on => demo_words true name on) true (drop 1 asked_for ++ understood ++ replied) (at_ms 0) true true (demo stopped_early) stopped_early_stuck)).
Defined.
Lemma reply_ends_witness :
  st (core (demo (asked_for ++ understood ++ replied))) = SPEAKING /\
  outs demo_cfg (fun name on => demo_words true name on) true (at_ms 22000) (demo (asked_for ++ understood ++ replied)).
Proof.
  assert (H : st (core (demo (asked_for ++ understood ++ replied))) = SPEAKING) by (vm_compute; reflexivity).
  split; [exact H|]. exact (proj2 (reply_ends demo_cfg eq_refl (fun name on => demo_words true name on) true demo_start false _ (at_ms 22000) H)).
Defined.
(** Home Assistant asks on (continue_conversation), and switches the microphones off while the
    question is spoken *)
Definition question : list (env * op) :=
  asked_for ++ firstn 1 understood ++ [(at_ms 21100, Event_ (event EV_INTENT_END [(str "continue_conversation", str "1")]))] ++ skipn 2 understood ++ replied ++
  [(at_ms 21500, SoftMute true)] ++ firstn 4 said_all.
Lemma follow_up_listens_while_muted_witness :
  soft_mute (core (demo question)) = true /\ streaming (core_pipeline_finish demo_cfg (at_ms 22500) (core (demo question))) = true.
Proof.
  assert (H : soft_mute (core (demo question)) = true) by (vm_compute; reflexivity). split; [exact H|].
  refine (proj1 (proj2 (proj2 (follow_up_listens_while_muted demo_cfg eq_refl (at_ms 22500) (core (demo question)) H _ _ _)))); vm_compute; reflexivity.
Defined.
Example muted_and_heard :
  let w := demo (question ++ [(at_ms 22500, PlayStopped); (at_ms 22600, Block 256 None false)]) in
  core_muted (at_ms 22600) (core w) = true /\ head (reverse (out (core w))) = Some (P (Audio (Heard 33536 33792))).
Proof. vm_compute. done. Qed.
Lemma a_wait_is_ended_witness : st (pipeline_timeout demo_cfg (at_ms 60000) (core (demo asked_for))) = IDLE.
Proof.
  refine (proj1 (proj1 (a_wait_is_ended demo_cfg eq_refl (at_ms 60000) (core (demo asked_for)) eq_refl) _ _)); [left|]; vm_compute; reflexivity.
Defined.
Lemma stop_ends_it_witness :
  st (core (demo (asked_for ++ understood ++ replied))) = SPEAKING /\ flush_playback (stop_word demo_cfg (at_ms 21600) (core (demo (asked_for ++ understood ++ replied)))) = true.
Proof.
  assert (H : st (core (demo (asked_for ++ understood ++ replied))) = SPEAKING) by (vm_compute; reflexivity). split; [exact H|].
  exact (proj1 (proj2 (proj1 (proj2 (proj2 (proj2 (stop_ends_it demo_cfg eq_refl (at_ms 21600) (core (demo (asked_for ++ understood ++ replied)))))) ) H))).
Defined.
