(* ===== verification/Ble.v ===== *)
(** * Bluetooth LE: a connection, the GATT client and its discovery (ble.c)
    [conn] is struct conn, one connection; what a function sends, and what it tells the
    handler ([struct ble_handler]), is appended to [outs].  Nothing a handler of packets does
    after a send changes what the send needs (the link's handle and state), so handing the
    packets to L2CAP ([BleLink]) once the handler returns is the same.  Allocations succeed. *)
From S2P Require Import Prelude Cbits BleCrypto.

Definition ATT_MTU : nat := 517.
Definition VAL_SIZE : nat := 512.
Definition CID_ATT : Z := 4.
Definition CID_SIG : Z := 5.
Definition CID_SMP : Z := 6.
Definition ATT_ERROR : Z := 0x01.
Definition ATT_MTU_REQ : Z := 0x02.
Definition ATT_MTU_RSP : Z := 0x03.
Definition ATT_FIND_INFO_REQ : Z := 0x04.
Definition ATT_FIND_INFO_RSP : Z := 0x05.
Definition ATT_FIND_TYPE_REQ : Z := 0x06.
Definition ATT_FIND_TYPE_RSP : Z := 0x07.
Definition ATT_READ_TYPE_REQ : Z := 0x08.
Definition ATT_READ_TYPE_RSP : Z := 0x09.
Definition ATT_READ_REQ : Z := 0x0a.
Definition ATT_READ_RSP : Z := 0x0b.
Definition ATT_READ_BLOB_REQ : Z := 0x0c.
Definition ATT_READ_BLOB_RSP : Z := 0x0d.
Definition ATT_READ_GROUP_REQ : Z := 0x10.
Definition ATT_READ_GROUP_RSP : Z := 0x11.
Definition ATT_WRITE_REQ : Z := 0x12.
Definition ATT_WRITE_RSP : Z := 0x13.
Definition ATT_PREP_WRITE_REQ : Z := 0x16.
Definition ATT_PREP_WRITE_RSP : Z := 0x17.
Definition ATT_EXEC_WRITE_REQ : Z := 0x18.
Definition ATT_EXEC_WRITE_RSP : Z := 0x19.
Definition ATT_NOTIFY : Z := 0x1b.
Definition ATT_INDICATE : Z := 0x1d.
Definition ATT_CONFIRM : Z := 0x1e.
Definition ATT_WRITE_CMD : Z := 0x52.
Definition ATT_E_INVALID_HANDLE : Z := 0x01.
Definition ATT_E_READ_NOT_PERMITTED : Z := 0x02.
Definition ATT_E_WRITE_NOT_PERMITTED : Z := 0x03.
Definition ATT_E_INVALID_PDU : Z := 0x04.
Definition ATT_E_NOT_SUPPORTED : Z := 0x06.
Definition ATT_E_INVALID_OFFSET : Z := 0x07.
Definition ATT_E_PREP_QUEUE_FULL : Z := 0x09.
Definition ATT_E_NOT_FOUND : Z := 0x0a.
Definition ATT_E_NOT_LONG : Z := 0x0b.
Definition ATT_E_UNSUPPORTED_GROUP : Z := 0x10.
Definition GATT_E_FAILED : Z := 0x85.

(** u16(p + i), put16 *)
Definition get16 (p : bytes) (i : nat) : Z := at_ p i + 256 * at_ p (S i).
Definition put16 (v : Z) : bytes := le_bytes 2 v.

(** ** The device's GATT database *)
Record gsvc := mk_gsvc { s_uuid : Z * Z; s_start : Z; s_end : Z; s_first : nat; s_n : nat }.
Record gchr := mk_gchr { c_uuid : Z * Z; c_decl : Z; c_handle : Z; c_props : Z; c_svc : nat; c_first : nat; c_n : nat }.
Record gdsc := mk_gdsc { d_uuid : Z * Z; d_handle : Z }.
Record gdb := mk_gdb { svcs : list gsvc; chrs : list gchr; dscs : list gdsc }.
#[export] Instance gsvc_inhabited : Inhabited gsvc := populate (mk_gsvc (0, 0) 0 0 0 0).
#[export] Instance gchr_inhabited : Inhabited gchr := populate (mk_gchr (0, 0) 0 0 0 0 0 0).
Definition MAX_SVC : nat := 48.
Definition MAX_CHR : nat := 192.
Definition MAX_DSC : nat := 256.

(** ** A connection *)
Inductive op_kind := K_DISCOVER | K_READ | K_WRITE.
Record op := mk_op { kind : op_kind; o_handle : Z; response : bool; o_data : bytes }.
Inductive cstate := C_FREE | C_WAIT | C_CONNECTING | C_MTU | C_UP | C_CLOSING.
Inductive sstate := S_IDLE | S_RSP | S_CONFIRM | S_RANDOM | S_PK | S_CB | S_NB | S_DHKEY | S_EB | S_ENC | S_KEYS.
#[export] Instance cstate_eq_dec : EqDecision cstate.
Proof. solve_decision. Defined.
#[export] Instance sstate_eq_dec : EqDecision sstate.
Proof. solve_decision. Defined.

(** A pairing under way *)
Record smp := mk_smp {
  s_state : sstate; sc : bool; asked : bool; keysize : Z; want : Z; got : Z; s_t : Z;
  preq : bytes; pres : bytes; rnd : bytes; conf : bytes; peer_rnd : bytes;
  pkb : bytes; mackey : bytes;
  s_ltk : bytes; s_rand : bytes; s_irk : bytes; s_id : bytes; s_ediv : Z }.
Definition zeros (n : nat) : bytes := replicate n 0.
Definition smp0 : smp :=
  mk_smp S_IDLE false false 0 0 0 0 (zeros 7) (zeros 7) (zeros 16) (zeros 16) (zeros 16) (zeros 64) (zeros 16) (zeros 16) (zeros 8) (zeros 16) (zeros 7) 0.

(** L2CAP packets sent, calls of the handler, the file of bonds written, commands to the controller *)
Inductive out :=
  | Send (cid : Z) (pdu : bytes)
  | Connection (up : bool) (mtu : nat) (err : Z) | Services (d : gdb) | Read (h : Z) (v : bytes) | Written (h : Z)
  | Notified (h : Z) (v : bytes) | Error (h : Z) (err : Z) | Paired (ok : bool) (err : Z) | Unpaired (ok : bool) (err : Z) | BondsSaved
  | Cmd (op : Z) (par : bytes).

Record conn := mk_conn {
  addr : Z; addr_type : Z; state : cstate; handle : Z; cancel : Z; close_now : bool; ltk_neg : bool; upd : option bytes;
  mtu : nat; peer_mtu : bool; mtu_retry : bool; heard : bool;
  enc : bool; enc_pending : bool; need_enc : bool; need_dhkey : bool;
  enc_ltk : bytes; enc_rand : bytes; enc_ediv : Z; pairing : smp;
  t : Z; ops : list op; cur : option op; val : bytes; off : nat;
  phase : nat; idx : nat; next : Z; db : option gdb;
  rx : bytes; rxwant : nat; unacked : Z; srv : bool;
  outs : list out }.
Definition conn0 : conn :=
  mk_conn 0 0 C_FREE 0 0 false false None 0 false false false false false false false (zeros 16) (zeros 8) 0 smp0
    0 [] None [] 0 0 0 0 None [] 0 0 false [].
#[export] Instance conn_inhabited : Inhabited conn := populate conn0.

Definition emit (x : out) (c : conn) : conn := c <| outs := outs c ++ [x] |>.
Definition att_send (pdu : bytes) (c : conn) : conn := emit (Send CID_ATT pdu) c.
Definition smp_send (pdu : bytes) (c : conn) : conn := emit (Send CID_SMP pdu) c.

(** The 128-bit UUID, high and low half *)
Definition uuid_from (p : bytes) : Z * Z :=
  if (length p =? 2)%nat then (Z.lor (Z.shiftl (get16 p 0) 32) 0x1000, 0x800000805f9b34fb)
  else if (length p =? 16)%nat then (le_value (drop 8 p), le_value (take 8 p))
  else (0, 0).

(** The MTU an exchange agrees on *)
Definition mtu_of (m : Z) : nat := if m <? 23 then 23 else if m <? Z.of_nat ATT_MTU then Z.to_nat m else ATT_MTU.

(** [for (i = 2; i + w <= n; i += w)] over what follows: the pieces of [w] bytes *)
Fixpoint chunks (fuel w : nat) (l : bytes) : list bytes :=
  match fuel with
  | O => []
  | S fuel => if (w <=? length l)%nat then take w l :: chunks fuel w (drop w l) else []
  end.

Section client.
(** the clock *)
Context (now : Z).

Definition send_read (h : Z) (c : conn) : conn :=
  if (length (val c) =? 0)%nat then att_send (ATT_READ_REQ :: put16 h) c
  else att_send (ATT_READ_BLOB_REQ :: put16 h ++ put16 (Z.of_nat (length (val c)))) c.
Definition send_prep (o : op) (c : conn) : conn :=
  let k := Nat.min (length (o_data o) - off c) (mtu c - 5) in
  att_send (ATT_PREP_WRITE_REQ :: put16 (o_handle o) ++ put16 (Z.of_nat (off c)) ++ take k (drop (off c) (o_data o))) c.

(** ** The request on the air *)
Definition send_group (c : conn) : conn :=
  att_send (ATT_READ_GROUP_REQ :: put16 (next c) ++ put16 0xffff ++ put16 0x2800) c.
(** A turn of start_op's loop with [o] taken from the queue; [cur] empty again: another turn *)
Definition begin_op (o : op) (c : conn) : conn :=
  let c := c <| cur := Some o |> <| t := now |> <| val := [] |> <| off := 0%nat |> in
  match kind o with
  | K_READ => send_read (o_handle o) c
  | K_WRITE =>
      if negb (response o) then
        (att_send (ATT_WRITE_CMD :: put16 (o_handle o) ++ take (mtu c - 3) (o_data o)) c) <| cur := None |>
      else if (length (o_data o) <=? mtu c - 3)%nat then att_send (ATT_WRITE_REQ :: put16 (o_handle o) ++ o_data o) c
      else send_prep o c
  | K_DISCOVER =>
      match db c with
      | Some d => (emit (Services d) c) <| cur := None |>
      | None => send_group (c <| db := Some (mk_gdb [] [] []) |> <| phase := 0%nat |> <| idx := 0%nat |> <| next := 1 |>)
      end
  end.
Definition can_start (c : conn) : bool :=
  match cur c with Some _ => false | None => bool_decide (state c = C_UP) && negb (close_now c) && negb (enc_pending c) end.
Fixpoint start_loop (l : list op) (c : conn) : conn :=
  match l with
  | [] => c
  | o :: l => if can_start c then start_loop l (begin_op o (c <| ops := l |>)) else c
  end.
Definition start_op (c : conn) : conn := start_loop (ops c) c.
Definition op_done (c : conn) : conn := start_op (c <| cur := None |>).
Definition op_fail (h err : Z) (c : conn) : conn := op_done (emit (Error h err) c).

(** ** Discovery: services, then the characteristics of each, then the descriptors of each of those *)
Definition u32sub (a b : Z) : Z := u32 (a - b).
Definition chr_end (d : gdb) (i : nat) : Z :=
  let ch := chrs d !!! i in
  if (S i <? length (chrs d))%nat && (c_svc (chrs d !!! S i) =? c_svc ch)%nat
  then u32sub (c_decl (chrs d !!! S i)) 1 else s_end (svcs d !!! c_svc ch).

Definition next_item (c : conn) : conn := c <| idx := S (idx c) |> <| next := 0 |>.
Fixpoint disc_next (fuel : nat) (c : conn) : conn :=
  match fuel, db c with
  | S fuel, Some d =>
      if (phase c =? 0)%nat then send_group c
      else if (phase c =? 1)%nat then
        if (length (svcs d) <=? idx c)%nat then disc_next fuel (c <| phase := 2%nat |> <| idx := 0%nat |> <| next := 0 |>)
        else
          let sv := svcs d !!! idx c in
          let c := if next c =? 0
                   then c <| next := s_start sv |> <| db := Some (d <| svcs := alter (fun s => s <| s_first := length (chrs d) |>) (idx c) (svcs d) |>) |>
                   else c in
          if s_end sv <? next c then disc_next fuel (next_item c)
          else att_send (ATT_READ_TYPE_REQ :: put16 (next c) ++ put16 (s_end sv) ++ put16 0x2803) c
      else if (length (chrs d) <=? idx c)%nat then op_done (emit (Services d) c)
      else
        let ch := chrs d !!! idx c in
        let c := if next c =? 0
                 then c <| next := c_handle ch + 1 |> <| db := Some (d <| chrs := alter (fun s => s <| c_first := length (dscs d) |>) (idx c) (chrs d) |>) |>
                 else c in
        if chr_end d (idx c) <? next c then disc_next fuel (next_item c)
        else att_send (ATT_FIND_INFO_REQ :: put16 (next c) ++ put16 (chr_end d (idx c))) c
  | _, _ => c
  end.
(** A turn passes over a service or a characteristic, or goes on to the next phase *)
Definition disc_fuel (c : conn) : nat :=
  match db c with Some d => (length (svcs d) + length (chrs d) + 3)%nat | None => 1 end.
Definition disc_go (c : conn) : conn := disc_next (disc_fuel c) c.

Definition add_svc (l : list gsvc) (b : bytes) : list gsvc :=
  if (length l =? MAX_SVC)%nat then l else l ++ [mk_gsvc (uuid_from (drop 4 b)) (get16 b 0) (get16 b 2) 0 0].
Definition add_chr (i : nat) (d : gdb) (b : bytes) : gdb :=
  if (length (chrs d) =? MAX_CHR)%nat then d else
  d <| chrs := chrs d ++ [mk_gchr (uuid_from (drop 5 b)) (get16 b 0) (get16 b 3) (at_ b 2) i 0 0] |>
    <| svcs := alter (fun s => s <| s_n := S (s_n s) |>) i (svcs d) |>.
Definition add_dsc (i : nat) (d : gdb) (b : bytes) : gdb :=
  if (length (dscs d) =? MAX_DSC)%nat then d else
  d <| dscs := dscs d ++ [mk_gdsc (uuid_from (drop 2 b)) (get16 b 0)] |>
    <| chrs := alter (fun s => s <| c_n := S (c_n s) |>) i (chrs d) |>.
(** [last]: the last handle of the last piece, 0 without any *)
Definition last_of (f : bytes -> Z) (l : list bytes) : Z := default 0 (f <$> list.last l).
Definition onward (last : Z) (c : conn) : conn := if last <? next c then next_item c else c <| next := last + 1 |>.

Definition disc_rx (p : bytes) (c : conn) : conn :=
  match db c with
  | None => c
  | Some d =>
      let n := length p in
      let code := at_ p 0 in
      if code =? ATT_ERROR then
        if (n <? 5)%nat || negb (at_ p 4 =? ATT_E_NOT_FOUND) then op_fail 0 (if (5 <=? n)%nat then at_ p 4 else GATT_E_FAILED) c
        else disc_go (if (phase c =? 0)%nat then c <| phase := 1%nat |> <| idx := 0%nat |> <| next := 0 |> else next_item c)
      else
        let w := Z.to_nat (at_ p 1) in
        if (phase c =? 0)%nat && (code =? ATT_READ_GROUP_RSP) && (2 <=? n)%nat && (6 <=? w)%nat then
          let l := chunks n w (drop 2 p) in
          let last := last_of (fun b => get16 b 2) l in
          let c := c <| db := Some (d <| svcs := fold_left add_svc l (svcs d) |>) |> in
          disc_go (if (0xffff <=? last) || (last <? next c) then c <| phase := 1%nat |> <| idx := 0%nat |> <| next := 0 |> else c <| next := last + 1 |>)
        else if (phase c =? 1)%nat && (code =? ATT_READ_TYPE_RSP) && (2 <=? n)%nat && (7 <=? w)%nat then
          let l := chunks n w (drop 2 p) in
          disc_go (onward (last_of (fun b => get16 b 0) l) (c <| db := Some (fold_left (add_chr (idx c)) l d) |>))
        else if (phase c =? 2)%nat && (code =? ATT_FIND_INFO_RSP) && (2 <=? n)%nat then
          let l := chunks n (if at_ p 1 =? 1 then 4 else 18) (drop 2 p) in
          disc_go (onward (last_of (fun b => get16 b 0) l) (c <| db := Some (fold_left (add_dsc (idx c)) l d) |>))
        else op_fail 0 GATT_E_FAILED c
  end.

(** ** What the device sends (att_rx) *)
Definition mtu_agreed (p : bytes) (c : conn) : conn :=
  let c := if (at_ p 0 =? ATT_MTU_RSP) && (3 <=? length p)%nat then c <| mtu := mtu_of (get16 p 1) |>
           else if peer_mtu c then c else c <| mtu := 23%nat |> in
  let c := c <| state := C_UP |> in
  start_op (emit (Connection true (mtu c) 0) c).
Definition read_rx (o : op) (p : bytes) (c : conn) : conn :=
  if negb (at_ p 0 =? ATT_READ_RSP) && negb (at_ p 0 =? ATT_READ_BLOB_RSP) then c else
  let c := c <| val := val c ++ take (VAL_SIZE - length (val c)) (drop 1 p) |> in
  if (length p - 1 =? mtu c - 1)%nat && (length (val c) <? VAL_SIZE)%nat then (send_read (o_handle o) c) <| t := now |>
  else op_done (emit (Read (o_handle o) (val c)) c).
Definition write_rx (o : op) (p : bytes) (c : conn) : conn :=
  if at_ p 0 =? ATT_PREP_WRITE_RSP then
    let c := c <| off := (off c + Nat.min (length (o_data o) - off c) (mtu c - 5))%nat |> <| t := now |> in
    if (off c <? length (o_data o))%nat then send_prep o c else att_send [ATT_EXEC_WRITE_REQ; 1] c
  else if negb (at_ p 0 =? ATT_WRITE_RSP) && negb (at_ p 0 =? ATT_EXEC_WRITE_RSP) then c
  else op_done (emit (Written (o_handle o)) c).
Definition answer_rx (p : bytes) (c : conn) : conn :=
  match cur c with
  | None => c
  | Some o =>
      match kind o with
      | K_DISCOVER => disc_rx p c
      | _ =>
          if at_ p 0 =? ATT_ERROR then
            let err := if (5 <=? length p)%nat then at_ p 4 else GATT_E_FAILED in
            match kind o with
            | K_READ =>
                if (0 <? length (val c))%nat && (err =? ATT_E_NOT_LONG) then op_done (emit (Read (o_handle o) (val c)) c)
                else op_fail (o_handle o) err c
            | _ => op_fail (o_handle o) err c
            end
          else match kind o with K_READ => read_rx o p c | _ => write_rx o p c end
      end
  end.
Definition not_found (code : Z) : bool :=
  (code =? ATT_FIND_INFO_REQ) || (code =? ATT_READ_TYPE_REQ) || (code =? ATT_READ_GROUP_REQ) || (code =? 0x06).
Definition att_rx (p : bytes) (c : conn) : conn :=
  if (length p =? 0)%nat then c else
  let n := length p in
  let code := at_ p 0 in
  let refused := (code =? ATT_ERROR) && (2 <=? n)%nat && (at_ p 1 =? ATT_MTU_REQ) in
  if (code =? ATT_NOTIFY) || (code =? ATT_INDICATE) then
    let c := if code =? ATT_INDICATE then att_send [ATT_CONFIRM] c else c in
    if (3 <=? n)%nat then emit (Notified (get16 p 1) (drop 3 p)) c else c
  else if code =? ATT_MTU_REQ then
    att_send (ATT_MTU_RSP :: put16 (Z.of_nat ATT_MTU)) (if (3 <=? n)%nat then c <| mtu := mtu_of (get16 p 1) |> <| peer_mtu := true |> else c)
  else if (Z.land code 1 =? 0) && negb (code =? ATT_CONFIRM) then
    if negb (Z.land code 0x40 =? 0) then c else
    att_send ([ATT_ERROR; code] ++ put16 (if (3 <=? n)%nat then get16 p 1 else 0) ++ [if not_found code then ATT_E_NOT_FOUND else ATT_E_NOT_SUPPORTED]) c
  else if bool_decide (state c = C_MTU) && refused && enc_pending c then c <| mtu_retry := true |>
  else if bool_decide (state c = C_MTU) && ((code =? ATT_MTU_RSP) || refused) then mtu_agreed p c
  else answer_rx p c.

(** ** L2CAP signalling *)
Definition sig_rx (p : bytes) (c : conn) : conn :=
  let n := length p in
  if (n <? 4)%nat then c else
  let ans code := emit (Send CID_SIG ([code; at_ p 1] ++ put16 2 ++ put16 0)) in
  if (at_ p 0 =? 0x12) && (12 <=? n)%nat then ans 0x13 (c <| upd := Some (take 8 (drop 4 p)) |>)
  else if negb (at_ p 0 =? 0x01) && negb (at_ p 0 =? 0x13) && negb (at_ p 0 =? 0x15) && negb (at_ p 0 =? 0x07) then ans 0x01 c
  else c.
End client.
