(* ===== verification/BleGatt.v ===== *)
(** * Bluetooth LE: the GATT server a phone talks to (ble.c)
    The attribute table ble_serve() builds, and what each request gets.  [T] is the state of
    the part that serves ([struct ble_server]: improv.c), [read] and [write] its functions.
    Packets sent are appended to [sent]; on the one link there is, [mtu] is the connection's. *)
From S2P Require Import Prelude Cbits BleCrypto Ble.

Definition BLE_SRV_CHR : nat := 8.
Definition BLE_PROP_READ : Z := 0x02.
Definition BLE_PROP_WRITE_NR : Z := 0x04.
Definition BLE_PROP_WRITE : Z := 0x08.
Definition BLE_PROP_NOTIFY : Z := 0x10.
Definition GAP_NAME : Z := -1.
Definition GAP_LOOK : Z := -2.
Definition GAP_SVC : Z := -3.

Inductive akind := A_SVC | A_CHR | A_VAL | A_CCCD.
#[export] Instance akind_eq_dec : EqDecision akind.
Proof. solve_decision. Defined.
Record attr := mk_attr { a_kind : akind; a_chr : Z }.
#[export] Instance attr_inhabited : Inhabited attr := populate (mk_attr A_SVC 0).

Record gatts (T : Type) := mk_gatts {
  g_mtu : nat; cccd_on : Z; notify_due : Z;
  prep_b : bytes; prep_n : nat; prep_handle : Z;
  app : T; sent : list bytes }.
Arguments mk_gatts {T}. Arguments g_mtu {T}. Arguments cccd_on {T}. Arguments notify_due {T}.
Arguments prep_b {T}. Arguments prep_n {T}. Arguments prep_handle {T}. Arguments app {T}. Arguments sent {T}.

Section server.
Context {T : Type} (uuid : bytes) (chars : list (bytes * Z)).
(** S->read: characteristic (or GAP_NAME), room; S->write: a whole value *)
Context (read : Z -> nat -> T -> bytes) (write : Z -> bytes -> T -> T).

(** ** The attribute table *)
Definition chr_attrs (i : nat) (ch : bytes * Z) : list attr :=
  [mk_attr A_CHR (Z.of_nat i); mk_attr A_VAL (Z.of_nat i)] ++
  (if Z.land (snd ch) BLE_PROP_NOTIFY =? 0 then [] else [mk_attr A_CCCD (Z.of_nat i)]).
Definition gap_attrs : list attr :=
  [mk_attr A_SVC GAP_SVC; mk_attr A_CHR GAP_NAME; mk_attr A_VAL GAP_NAME; mk_attr A_CHR GAP_LOOK; mk_attr A_VAL GAP_LOOK].
Definition attrs : list attr := gap_attrs ++ mk_attr A_SVC 0 :: concat (imap chr_attrs chars).
Definition nattr : Z := Z.of_nat (length attrs).
Definition svc_start : Z := 6.
(** The attribute of handle [h] *)
Definition attr_at (h : Z) : attr := attrs !!! Z.to_nat (h - 1).

Definition chr_uuid (i : Z) : bytes := fst (nth (Z.to_nat i) chars ([], 0)).
Definition attr_type (h : Z) : bytes :=
  let a := attr_at h in
  match a_kind a with
  | A_SVC => put16 0x2800
  | A_CHR => put16 0x2803
  | A_CCCD => put16 0x2902
  | A_VAL => if a_chr a =? GAP_NAME then put16 0x2a00 else if a_chr a =? GAP_LOOK then put16 0x2a01 else chr_uuid (a_chr a)
  end.
Definition attr_props (a : attr) : Z := if a_chr a <? 0 then BLE_PROP_READ else snd (nth (Z.to_nat (a_chr a)) chars ([], 0)).
Definition attr_value (h : Z) (cap : nat) (g : gatts T) : bytes :=
  let a := attr_at h in
  match a_kind a with
  | A_SVC => take cap (if a_chr a =? GAP_SVC then put16 0x1800 else uuid)
  | A_CHR => take cap (u8 (attr_props (attr_at (h + 1))) :: put16 (h + 1) ++ attr_type (h + 1))
  | A_CCCD => take cap (put16 (Z.land (Z.shiftr (cccd_on g) (a_chr a)) 1))
  | A_VAL => if a_chr a =? GAP_LOOK then take cap (put16 0x0840) else read (if a_chr a =? GAP_NAME then -1 else a_chr a) cap (app g)
  end.
(** [h]: a service's declaration *)
Definition svc_end (h : Z) : Z := if h <? svc_start then svc_start - 1 else nattr.

(** ** Answers *)
Definition g_send (p : bytes) (g : gatts T) : gatts T := g <| sent := sent g ++ [p] |>.
Definition att_err (code h e : Z) (g : gatts T) : gatts T := g_send ([ATT_ERROR; code] ++ put16 h ++ [e]) g.

(** The handle range of a request, or the error it gets *)
Definition range (p : bytes) (min : nat) : Z * Z + Z * Z :=
  if (length p <? min)%nat then inr (0, ATT_E_INVALID_PDU) else
  let s := get16 p 1 in
  let e := get16 p 3 in
  if (s =? 0) || (e <? s) then inr (s, ATT_E_INVALID_HANDLE)
  else if nattr <? s then inr (s, ATT_E_NOT_FOUND)
  else inl (s, Z.min e nattr).
Definition with_range (p : bytes) (min : nat) (f : Z -> Z -> gatts T -> gatts T) (g : gatts T) : gatts T :=
  match range p min with inl (s, e) => f s e g | inr (h, err) => att_err (at_ p 0) h err g end.

Definition bit (i : Z) : Z := Z.shiftl 1 i.
Definition write_value (a : attr) (v : bytes) (g : gatts T) : gatts T :=
  match a_kind a with
  | A_CCCD =>
      if (1 <=? length v)%nat && negb (Z.land (at_ v 0) 1 =? 0) then g <| cccd_on := Z.lor (cccd_on g) (bit (a_chr a)) |>
      else g <| cccd_on := Z.ldiff (cccd_on g) (bit (a_chr a)) |>
  | _ => g <| app := write (a_chr a) v (app g) |>
  end.
(** 0, or the error of a write; [cmd]: without response *)
Definition writable (h : Z) (cmd : bool) : Z :=
  if (h =? 0) || (nattr <? h) then ATT_E_INVALID_HANDLE else
  let a := attr_at h in
  match a_kind a with
  | A_CCCD => 0
  | A_VAL =>
      if a_chr a <? 0 then ATT_E_WRITE_NOT_PERMITTED
      else if Z.land (attr_props a) (if cmd then Z.lor BLE_PROP_WRITE_NR BLE_PROP_WRITE else BLE_PROP_WRITE) =? 0
      then ATT_E_WRITE_NOT_PERMITTED else 0
  | _ => ATT_E_WRITE_NOT_PERMITTED
  end.
Definition unreadable (h : Z) : bool :=
  match a_kind (attr_at h) with A_VAL => Z.land (attr_props (attr_at h)) BLE_PROP_READ =? 0 | _ => false end.

(** *** Handles and types: one type length an answer *)
Fixpoint find_info (k : nat) (h : Z) (mx w : nat) (r : bytes) : bytes * nat :=
  match k with
  | O => (r, w)
  | S k =>
      let ty := attr_type h in
      let tl := length ty in
      if ((2 <? length r)%nat && negb (tl =? w)%nat) || (mx <? length r + 2 + tl)%nat then (r, w)
      else find_info k (h + 1) mx tl (r ++ put16 h ++ ty)
  end.
Definition on_find_info (s e : Z) (g : gatts T) : gatts T :=
  let '(r, w) := find_info (Z.to_nat (e - s + 1)) s (g_mtu g) 0 [ATT_FIND_INFO_RSP; 0] in
  g_send (<[1%nat := if (w =? 2)%nat then 1 else 2]> r) g.

(** *** Services by UUID *)
Fixpoint find_type (k : nat) (h : Z) (v : bytes) (r : bytes) (g : gatts T) : bytes :=
  match k with
  | O => r
  | S k =>
      if (g_mtu g <? length r + 4)%nat then r else
      let r := match a_kind (attr_at h) with
               | A_SVC => if bool_decide (attr_value h VAL_SIZE g = v) then r ++ put16 h ++ put16 (svc_end h) else r
               | _ => r
               end in
      find_type k (h + 1) v r g
  end.
Definition on_find_type (p : bytes) (s e : Z) (g : gatts T) : gatts T :=
  let r := if get16 p 5 =? 0x2800 then find_type (Z.to_nat (e - s + 1)) s (drop 7 p) [ATT_FIND_TYPE_RSP] g else [ATT_FIND_TYPE_RSP] in
  if (length r =? 1)%nat then att_err (at_ p 0) s ATT_E_NOT_FOUND g else g_send r g.

(** *** Declarations, values by type, services: [inr]: refused at a handle *)
Fixpoint read_type (k : nat) (h e : Z) (group : bool) (ty : bytes) (w : nat) (r : bytes) (g : gatts T) : bytes + Z :=
  match k with
  | O => inl r
  | S k =>
      if e <? h then inl r
      else if negb (bool_decide (attr_type h = ty)) then read_type k (h + 1) e group ty w r g
      else if unreadable h then if (length r =? 2)%nat then inr h else inl r
      else
        let hd := if group then 4%nat else 2%nat in
        let v := take (253 - hd) (attr_value h VAL_SIZE g) in
        let first := (length r =? 2)%nat in
        let v := if first then take (g_mtu g - length r - hd) v else v in
        let w := if first then (hd + length v)%nat else w in
        if negb first && (negb (hd + length v =? w)%nat || (g_mtu g <? length r + w)%nat) then inl r
        else
          let r := if first then <[1%nat := u8 (Z.of_nat w)]> r else r in
          let r := r ++ put16 h ++ (if group then put16 (svc_end h) else []) ++ v in
          read_type k (if (h <? e) && group then svc_end h + 1 else h + 1) e group ty w r g
  end.
Definition on_read_type (p : bytes) (s e : Z) (g : gatts T) : gatts T :=
  let n := length p in
  let group := at_ p 0 =? ATT_READ_GROUP_REQ in
  if negb (n =? 7)%nat && negb (n =? 21)%nat then att_err (at_ p 0) s ATT_E_INVALID_PDU g
  else if group && (negb (n =? 7)%nat || negb (get16 p 5 =? 0x2800)) then att_err (at_ p 0) s ATT_E_UNSUPPORTED_GROUP g
  else
    match read_type (Z.to_nat (e - s + 1)) s e group (drop 5 p) 0 [at_ p 0 + 1; 0] g with
    | inr h => att_err (at_ p 0) h ATT_E_READ_NOT_PERMITTED g
    | inl r => if (length r =? 2)%nat then att_err (at_ p 0) s ATT_E_NOT_FOUND g else g_send r g
    end.

(** *** A value, from the start or from an offset *)
Definition on_read (p : bytes) (g : gatts T) : gatts T :=
  let n := length p in
  let blob := at_ p 0 =? ATT_READ_BLOB_REQ in
  if (n <? (if blob then 5 else 3))%nat then att_err (at_ p 0) 0 ATT_E_INVALID_PDU g else
  let off := if blob then Z.to_nat (get16 p 3) else 0%nat in
  let h := get16 p 1 in
  if (h =? 0) || (nattr <? h) then att_err (at_ p 0) h ATT_E_INVALID_HANDLE g
  else if unreadable h then att_err (at_ p 0) h ATT_E_READ_NOT_PERMITTED g
  else
    let v := attr_value h VAL_SIZE g in
    if (length v <? off)%nat then att_err (at_ p 0) h ATT_E_INVALID_OFFSET g
    else g_send (at_ p 0 + 1 :: take (g_mtu g - 1) (drop off v)) g.

(** *** Writes *)
Definition on_write (p : bytes) (g : gatts T) : gatts T :=
  let req := at_ p 0 =? ATT_WRITE_REQ in
  if (length p <? 3)%nat then if req then att_err (at_ p 0) 0 ATT_E_INVALID_PDU g else g else
  let h := get16 p 1 in
  let err := writable h (negb req) in
  if negb (err =? 0) then if req then att_err (at_ p 0) h err g else g else
  write_value (attr_at h) (drop 3 p) (if req then g_send [ATT_WRITE_RSP] g else g).
(** memcpy into the buffer of prepared writes *)
Definition copy_at (i : nat) (d b : bytes) : bytes := take i b ++ d ++ drop (i + length d) b.
Definition on_prep (p : bytes) (g : gatts T) : gatts T :=
  if (length p <? 5)%nat then att_err (at_ p 0) 0 ATT_E_INVALID_PDU g else
  let h := get16 p 1 in
  let off := Z.to_nat (get16 p 3) in
  let d := drop 5 p in
  let err := writable h false in
  if negb (err =? 0) then att_err (at_ p 0) h err g
  else if (negb (prep_n g =? 0)%nat && negb (prep_handle g =? h)) || (VAL_SIZE <? off + length d)%nat
  then att_err (at_ p 0) h ATT_E_PREP_QUEUE_FULL g
  else
    g_send (ATT_PREP_WRITE_RSP :: drop 1 p)
      (g <| prep_handle := h |> <| prep_b := copy_at off d (prep_b g) |> <| prep_n := Nat.max (prep_n g) (off + length d) |>).
Definition on_exec (p : bytes) (g : gatts T) : gatts T :=
  let g := g_send [ATT_EXEC_WRITE_RSP] g in
  let g := if (2 <=? length p)%nat && (at_ p 1 =? 1) && negb (prep_handle g =? 0)
           then write_value (attr_at (prep_handle g)) (take (prep_n g) (prep_b g)) g else g in
  g <| prep_n := 0%nat |> <| prep_handle := 0 |>.

Definition gatts_rx (p : bytes) (g : gatts T) : gatts T :=
  if (length p =? 0)%nat then g else
  let code := at_ p 0 in
  if code =? ATT_MTU_REQ then
    g_send (ATT_MTU_RSP :: put16 (Z.of_nat ATT_MTU)) (if (3 <=? length p)%nat then g <| g_mtu := mtu_of (get16 p 1) |> else g)
  else if code =? ATT_FIND_INFO_REQ then with_range p 5 on_find_info g
  else if code =? ATT_FIND_TYPE_REQ then with_range p 7 (on_find_type p) g
  else if (code =? ATT_READ_TYPE_REQ) || (code =? ATT_READ_GROUP_REQ) then with_range p 7 (on_read_type p) g
  else if (code =? ATT_READ_REQ) || (code =? ATT_READ_BLOB_REQ) then on_read p g
  else if (code =? ATT_WRITE_REQ) || (code =? ATT_WRITE_CMD) then on_write p g
  else if code =? ATT_PREP_WRITE_REQ then on_prep p g
  else if code =? ATT_EXEC_WRITE_REQ then on_exec p g
  else if (Z.land code 1 =? 0) && negb (code =? ATT_CONFIRM) && (Z.land code 0x40 =? 0)
  then att_err code (if (3 <=? length p)%nat then get16 p 1 else 0) ATT_E_NOT_SUPPORTED g
  else g.

(** ** Notifications of what changed, from the upkeep *)
Definition notify_one (h : Z) (st : Z * gatts T) : Z * gatts T :=
  let '(due, g) := st in
  let a := attr_at h in
  match a_kind a with
  | A_VAL =>
      if (a_chr a <? 0) || (Z.land due (bit (a_chr a)) =? 0) then (due, g)
      else (Z.ldiff due (bit (a_chr a)), g_send (ATT_NOTIFY :: put16 h ++ read (a_chr a) (g_mtu g - 3) (app g)) g)
  | _ => (due, g)
  end.
Definition gatts_notify (g : gatts T) : gatts T :=
  let due := Z.land (notify_due g) (cccd_on g) in
  snd (fold_left (fun st h => notify_one h st) (seqZ 1 nattr) (due, g <| notify_due := 0 |>)).
Definition ble_server_notify (chr : Z) (g : gatts T) : gatts T :=
  if (0 <=? chr) && (chr <? Z.of_nat BLE_SRV_CHR) then g <| notify_due := Z.lor (notify_due g) (bit chr) |> else g.

(** The link, when a phone connects (conn_complete), when it is gone (srv_gone) *)
Definition srv_up (g : gatts T) : gatts T := g <| g_mtu := 23%nat |>.
Definition srv_gone (g : gatts T) : gatts T := g <| cccd_on := 0 |> <| prep_n := 0%nat |> <| prep_handle := 0 |> <| notify_due := 0 |>.
End server.
