(* ===== verification/BleTrip.v ===== *)
(** * Bluetooth LE: values cross the GATT link whole
    The client of Ble and the server of BleGatt, one at each end: a long read and a long
    write of any value an attribute holds, in the pieces the MTU allows. *)
From S2P Require Import Prelude Cbits BleCrypto Ble BleGatt.

(** ** Numbers in packets *)
Lemma put16_length v : length (put16 v) = 2%nat.
Proof. apply le_bytes_length. Qed.
Lemma get16_put16 x v l : get16 (x :: put16 v ++ l) 1 = v mod 2 ^ 16.
Proof.
  unfold put16. change (2 ^ 16) with (2 ^ (8 * Z.of_nat 2)). rewrite <- (le_value_bytes 2 v). cbn [le_bytes]. unfold get16, at_. cbn. ring.
Qed.
Lemma get16_put16_2 x u v l : get16 (x :: put16 u ++ put16 v ++ l) 3 = v mod 2 ^ 16.
Proof.
  unfold put16. change (2 ^ 16) with (2 ^ (8 * Z.of_nat 2)). rewrite <- (le_value_bytes 2 v). cbn [le_bytes]. unfold get16, at_. cbn. ring.
Qed.

(** ** The two ends *)
Definition att_sent (l : list out) : list bytes :=
  omap (fun x => match x with Send cid p => if cid =? CID_ATT then Some p else None | _ => None end) l.

Section trip.
Context {T : Type} (uuid : bytes) (chars : list (bytes * Z)).
Context (read : Z -> nat -> T -> bytes) (write : Z -> bytes -> T -> T) (now : Z).
Abbreviation gatts_rx := (gatts_rx uuid chars read write).

(** The client's request [p] and the server's answer, and so on until the client asks no more *)
Fixpoint converse (fuel : nat) (p : bytes) (c : conn) (g : gatts T) : conn * gatts T :=
  match fuel with
  | O => (c, g)
  | S fuel =>
      let g' := gatts_rx p g in
      let c' := fold_left (fun c a => att_rx now a c) (drop (length (sent g)) (sent g')) c in
      match att_sent (drop (length (outs c)) (outs c')) with
      | p' :: _ => converse fuel p' c' g'
      | [] => (c', g')
      end
  end.
Lemma converse_step fuel p c g a c' :
  sent (gatts_rx p g) = sent g ++ [a] -> att_rx now a c = c' ->
  converse (S fuel) p c g =
    match att_sent (drop (length (outs c)) (outs c')) with
    | p' :: _ => converse fuel p' c' (gatts_rx p g)
    | [] => (c', gatts_rx p g)
    end.
Proof.
  intros Eg Ec. cbn [converse]. set (g' := gatts_rx p g) in *.
  assert (E : drop (length (sent g)) (sent g') = [a]) by (rewrite Eg; unfold g_send; cbn; apply drop_app_length).
  rewrite E. cbn [fold_left]. by rewrite Ec.
Qed.

(** An answer to what is on the air *)
Lemma answered a c : state c = C_UP -> a <> [] -> at_ a 0 <> ATT_ERROR -> at_ a 0 <> ATT_NOTIFY -> at_ a 0 <> ATT_INDICATE ->
  at_ a 0 <> ATT_MTU_REQ -> Z.odd (at_ a 0) = true -> att_rx now a c = answer_rx now a c.
Proof.
  intros Hs Ha H1 H2 H3 H4 H5. unfold att_rx. rewrite (proj2 (Nat.eqb_neq _ _)) by (by destruct a). cbv zeta.
  rewrite (proj2 (Z.eqb_neq _ _) H2), (proj2 (Z.eqb_neq _ _) H3), (proj2 (Z.eqb_neq _ _) H4). cbn [orb].
  assert (E : Z.land (at_ a 0) 1 = 1) by (change 1 with (Z.ones 1) at 1; rewrite land_mask by lia; change (2 ^ 1) with 2; by rewrite Zmod_odd, H5).
  rewrite E, (proj2 (Z.eqb_neq _ _) H1).
  cbn [Z.eqb andb Pos.eqb]. rewrite Hs. by rewrite bool_decide_false.
Qed.
(** ** A long read *)
Definition read_pdu (h : Z) (got : bytes) : bytes :=
  if (length got =? 0)%nat then ATT_READ_REQ :: put16 h else ATT_READ_BLOB_REQ :: put16 h ++ put16 (Z.of_nat (length got)).

Lemma on_read_sent h k v g :
  0 < h <= nattr chars -> nattr chars < 2 ^ 16 -> unreadable chars h = false -> attr_value uuid chars read h VAL_SIZE g = v ->
  (length v <= VAL_SIZE)%nat -> (k <= length v)%nat ->
  let p := read_pdu h (take k v) in
  gatts_rx p g = g_send (at_ p 0 + 1 :: take (g_mtu g - 1) (drop k v)) g.
Proof.
  intros Hh Hn Hu Hv Hl Hk. cbv zeta. unfold read_pdu. rewrite length_take, Nat.min_l by done.
  assert (E : forall p off, (p = ATT_READ_REQ :: put16 h /\ off = 0%nat) \/ (p = ATT_READ_BLOB_REQ :: put16 h ++ put16 (Z.of_nat off)) ->
    (off <= length v)%nat -> gatts_rx p g = g_send (at_ p 0 + 1 :: take (g_mtu g - 1) (drop off v)) g).
  { intros p off Hp Ho.
    assert (Hc : gatts_rx p g = on_read uuid chars read p g) by (destruct Hp as [[-> _]| ->]; reflexivity). rewrite Hc. unfold on_read.
    assert (Hg : get16 p 1 = h).
    { destruct Hp as [[-> _]| ->]; [rewrite <- (app_nil_r (put16 h))|]; rewrite get16_put16, Z.mod_small; lia. }
    assert (Hf : ((length p <? (if (at_ p 0 =? ATT_READ_BLOB_REQ)%Z then 5 else 3))%nat = false) /\
      (if at_ p 0 =? ATT_READ_BLOB_REQ then Z.to_nat (get16 p 3) else 0%nat) = off).
    { destruct Hp as [[-> ->]| ->]; [done|]. split; [done|]. cbn [at_ nth Z.eqb Pos.eqb ATT_READ_BLOB_REQ].
      rewrite <- (app_nil_r (put16 (Z.of_nat off))), get16_put16_2, Z.mod_small by (unfold VAL_SIZE in Hl; lia). lia. }
    destruct Hf as [-> ->]. rewrite Hg, (proj2 (Z.eqb_neq h 0)), (proj2 (Z.ltb_ge (nattr chars) h)) by lia. cbn [orb].
    rewrite Hu, Hv. cbv zeta. by rewrite (proj2 (Nat.ltb_ge (length v) off)). }
  destruct k as [|k]; [apply (E _ 0%nat); [by left|lia]|]. cbn [Nat.eqb]. apply (E _ (S k)); [by right|lia].
Qed.

(** Any value of up to 512 bytes, whatever the MTU: the client has it whole, as it is *)
Lemma long_read_from h m v o : forall fuel k c g,
  0 < h <= nattr chars -> nattr chars < 2 ^ 16 -> unreadable chars h = false -> (2 <= m)%nat ->
  (length v <= VAL_SIZE)%nat -> (k <= length v)%nat -> (k = 0 \/ k < VAL_SIZE)%nat -> (length v - k < fuel)%nat ->
  attr_value uuid chars read h VAL_SIZE g = v -> g_mtu g = m ->
  state c = C_UP -> cur c = Some o -> kind o = K_READ -> o_handle o = h -> val c = take k v -> mtu c = m -> ops c = [] ->
  exists c' g', converse fuel (read_pdu h (take k v)) c g = (c', g') /\ app g' = app g /\
    list.last (outs c') = Some (Read h v) /\ cur c' = None.
Proof.
  induction fuel as [|fuel IH]; intros k c g Hh Hn Hu Hm Hl Hk Hk' Hf Hv Eg Hs Hc Ho Eh Ev Em Hq; [lia|].
  set (p := read_pdu h (take k v)). pose proof (on_read_sent h k v g Hh Hn Hu Hv Hl Hk) as E. cbv zeta in E. fold p in E.
  set (a := at_ p 0 + 1 :: take (g_mtu g - 1) (drop k v)) in *.
  assert (Ha : at_ a 0 = ATT_READ_RSP \/ at_ a 0 = ATT_READ_BLOB_RSP) by (unfold a, p, read_pdu; destruct (length (take k v) =? 0)%nat; [left|right]; reflexivity).
  assert (Hr : att_rx now a c = read_rx now o a c).
  { rewrite answered; [|done|done|by destruct Ha as [-> | ->]..]. unfold answer_rx. rewrite Hc, Ho.
    by rewrite (proj2 (Z.eqb_neq (at_ a 0) ATT_ERROR)) by (by destruct Ha as [-> | ->]). }
  rewrite (converse_step fuel p c g a _ ltac:(by rewrite E) Hr). rewrite E. unfold read_rx.
  replace (negb (at_ a 0 =? ATT_READ_RSP) && negb (at_ a 0 =? ATT_READ_BLOB_RSP)) with false by (by destruct Ha as [-> | ->]). cbv zeta.
  assert (Ea : drop 1 a = take (m - 1) (drop k v)) by (unfold a; by rewrite Eg).
  assert (La : (length a - 1)%nat = Nat.min (m - 1) (length v - k)) by (unfold a; cbn [length]; rewrite length_take, length_drop, Eg; lia).
  clearbody a. set (c1 := c <| val := _ |>). assert (V1 : val c1 = take (k + (m - 1)) v).
  { unfold c1. cbn. rewrite Ev, length_take, Ea, Nat.min_l by done.
    rewrite take_take. unfold VAL_SIZE in *.
    destruct (Nat.le_gt_cases (m - 1) (512 - k)) as [L|L]; [rewrite Nat.min_r by done; apply take_take_drop|].
    rewrite Nat.min_l by lia. rewrite take_take_drop, !take_ge by lia. done. }
  assert (C1 : state c1 = C_UP /\ cur c1 = Some o /\ mtu c1 = m /\ ops c1 = [] /\ outs c1 = outs c) by done.
  clearbody c1. destruct C1 as (S1 & O1 & M1 & Q1 & U1). rewrite La, M1, V1, length_take.
  destruct ((Nat.min (m - 1) (length v - k) =? m - 1)%nat && (Nat.min (k + (m - 1)) (length v) <? VAL_SIZE)%nat) eqn:D.
  - apply andb_true_iff in D as [D1%Nat.eqb_eq D2%Nat.ltb_lt]. assert (L : (k + (m - 1) <= length v)%nat) by lia. rewrite Nat.min_l in D2 by done.
    assert (Es : send_read (o_handle o) c1 = att_send (read_pdu h (take (k + (m - 1)) v)) c1).
    { unfold send_read, read_pdu. rewrite V1, Eh. by case_match. }
    rewrite Es. match goal with |- context [drop _ (outs ?x)] => change (outs x) with (outs c1 ++ [Send CID_ATT (read_pdu h (take (k + (m - 1)) v))]) end.
    rewrite U1, drop_app_length. cbn [att_sent omap list_omap CID_ATT Z.eqb Pos.eqb].
    match goal with |- context [converse fuel _ ?x ?y] => destruct (IH (k + (m - 1))%nat x y) as (c' & g' & R & A & B & C); try done; try lia end.
    exists c', g'. split; [exact R|]. by split.
  - rewrite Eh. replace (take (k + (m - 1)) v) with v.
    2:{ symmetry. apply take_ge. apply andb_false_iff in D as [D%Nat.eqb_neq|D%Nat.ltb_ge]; lia. }
    assert (Eo : op_done now (emit (Read h v) c1) = emit (Read h v) c1 <| cur := None |>) by (unfold op_done, start_op; cbn; by rewrite Q1).
    rewrite Eo. match goal with |- context [drop _ (outs ?x)] => change (outs x) with (outs c1 ++ [Read h v]) end.
    rewrite U1, drop_app_length. cbn. eexists _, _. split; [reflexivity|]. split; [done|]. split; [|done]. apply last_snoc.
Qed.
(** ** A long write *)
Definition prep_pdu (h : Z) (k m : nat) (d : bytes) : bytes :=
  ATT_PREP_WRITE_REQ :: put16 h ++ put16 (Z.of_nat k) ++ take (Nat.min (length d - k) (m - 5)) (drop k d).
Lemma send_prep_pdu o c : send_prep o c = att_send (prep_pdu (o_handle o) (off c) (mtu c) (o_data o)) c.
Proof. reflexivity. Qed.

Definition prepared (h : Z) (k : nat) (d : bytes) (g : gatts T) : Prop :=
  length (prep_b g) = VAL_SIZE /\ prep_n g = k /\ (k = 0%nat \/ prep_handle g = h) /\ take k (prep_b g) = take k d.
Lemma copy_at_length i d b : (i + length d <= length b)%nat -> length (copy_at i d b) = length b.
Proof. intros H. unfold copy_at. rewrite !length_app, length_take, length_drop. lia. Qed.
Lemma copy_at_take i d b : (i <= length b)%nat -> take (i + length d) (copy_at i d b) = take i b ++ d.
Proof. intros H. unfold copy_at. rewrite app_assoc, take_app_le, take_ge; [done| |]; rewrite length_app, length_take; lia. Qed.

(** A piece is taken and echoed *)
Lemma on_prep_sent h k m d g : 0 <= h < 2 ^ 16 -> writable chars h false = 0 -> (length d <= VAL_SIZE)%nat -> (k < length d)%nat ->
  prepared h k d g ->
  let p := prep_pdu h k m d in
  sent (gatts_rx p g) = sent g ++ [ATT_PREP_WRITE_RSP :: drop 1 p] /\ app (gatts_rx p g) = app g /\
  prepared h (k + Nat.min (length d - k) (m - 5)) d (gatts_rx p g) /\ prep_handle (gatts_rx p g) = h.
Proof.
  intros Hh Hw Hl Hk (Lb & Pn & Ph & Pt). cbv zeta. set (p := prep_pdu h k m d). change (gatts_rx p g) with (on_prep chars p g).
  set (l := take (Nat.min (length d - k) (m - 5)) (drop k d)).
  assert (Ll : length l = Nat.min (length d - k) (m - 5)) by (unfold l; rewrite length_take, length_drop; lia).
  assert (G1 : get16 p 1 = h) by (unfold p, prep_pdu; rewrite get16_put16, Z.mod_small; lia).
  assert (G3 : Z.to_nat (get16 p 3) = k) by (unfold p, prep_pdu; rewrite get16_put16_2, Z.mod_small; unfold VAL_SIZE in *; lia).
  assert (D5 : drop 5 p = l) by reflexivity. assert (L5 : (length p <? 5)%nat = false) by (apply Nat.ltb_ge; unfold p, prep_pdu; cbn; lia).
  assert (E : on_prep chars p g = g_send (ATT_PREP_WRITE_RSP :: drop 1 p)
    (g <| prep_handle := h |> <| prep_b := copy_at k l (prep_b g) |> <| prep_n := Nat.max (prep_n g) (k + length l) |>)).
  { unfold on_prep. rewrite L5, G1, G3, D5, Hw. cbn [Z.eqb negb].
    replace (negb (prep_n g =? 0)%nat && negb (prep_handle g =? h)) with false.
    2:{ destruct Ph as [P|P]; [rewrite Pn, P; done|rewrite P, Z.eqb_refl; by rewrite andb_false_r]. }
    by rewrite (proj2 (Nat.ltb_ge VAL_SIZE _)) by lia. }
  rewrite E. split; [done|]. split; [done|]. split; [|done].
  rewrite <- Ll. set (g1 := g_send _ _). assert (E1 : prep_b g1 = copy_at k l (prep_b g) /\ prep_n g1 = Nat.max (prep_n g) (k + length l) /\ prep_handle g1 = h) by done.
  clearbody g1. destruct E1 as (B1 & N1 & H1). split_and!.
  - rewrite B1, copy_at_length; lia.
  - lia.
  - by right.
  - rewrite B1, copy_at_take by lia. rewrite Pt, Ll. apply take_take_drop.
Qed.
Lemma exec_sent h d g a : prep_handle g = h -> h <> 0 -> a_kind (attr_at chars h) = A_VAL -> a_chr (attr_at chars h) = a ->
  take (prep_n g) (prep_b g) = d ->
  let g' := gatts_rx [ATT_EXEC_WRITE_REQ; 1] g in
  sent g' = sent g ++ [[ATT_EXEC_WRITE_RSP]] /\ app g' = write a d (app g) /\ prep_n g' = 0%nat.
Proof.
  intros Eh H0 Hk Ha Hd. cbv zeta. change (gatts_rx [ATT_EXEC_WRITE_REQ; 1] g) with (on_exec chars write [ATT_EXEC_WRITE_REQ; 1] g).
  unfold on_exec. cbn [length Nat.leb at_ nth Z.eqb Pos.eqb andb]. change (prep_handle (g_send [ATT_EXEC_WRITE_RSP] g)) with (prep_handle g).
  rewrite Eh, (proj2 (Z.eqb_neq _ _) H0). cbn [negb]. unfold write_value. rewrite Hk, Ha. cbn. by rewrite Hd.
Qed.

Lemma long_write_from h d m a o : forall fuel k c g,
  0 < h < 2 ^ 16 -> a_kind (attr_at chars h) = A_VAL -> a_chr (attr_at chars h) = a -> writable chars h false = 0 -> (6 <= m)%nat ->
  (length d <= VAL_SIZE)%nat -> (k < length d)%nat -> (length d - k < fuel)%nat -> prepared h k d g ->
  state c = C_UP -> cur c = Some o -> kind o = K_WRITE -> o_handle o = h -> o_data o = d -> off c = k -> mtu c = m -> ops c = [] ->
  exists c' g', converse (S fuel) (prep_pdu h k m d) c g = (c', g') /\ app g' = write a d (app g) /\ prep_n g' = 0%nat /\
    list.last (outs c') = Some (Written h) /\ cur c' = None.
Proof.
  induction fuel as [|fuel IH]; intros k c g Hh Hk Ha Hw Hm Hl Hkd Hf Hp Hs Hc Ho Eh Ed Ek Em Hq; [lia|].
  set (p := prep_pdu h k m d). destruct (on_prep_sent h k m d g ltac:(lia) Hw Hl Hkd Hp) as (E & Ap & P & PH). fold p in E, Ap, P, PH.
  set (k' := (k + Nat.min (length d - k) (m - 5))%nat) in *.
  set (a1 := ATT_PREP_WRITE_RSP :: drop 1 p) in *.
  assert (Hr : att_rx now a1 c = write_rx now o a1 c) by (rewrite answered by done; unfold answer_rx; by rewrite Hc, Ho).
  rewrite (converse_step (S fuel) p c g a1 _ E Hr).
  unfold write_rx. change (at_ a1 0 =? ATT_PREP_WRITE_RSP) with true. cbv iota zeta. rewrite Ek, Em, Ed. fold k'.
  set (c1 := c <| off := k' |> <| t := now |>).
  assert (C1 : state c1 = C_UP /\ cur c1 = Some o /\ mtu c1 = m /\ ops c1 = [] /\ outs c1 = outs c /\ off c1 = k') by done.
  clearbody c1. destruct C1 as (S1 & O1 & M1 & Q1 & U1 & F1). generalize dependent (gatts_rx p g). intros g1 E Ap P PH. rewrite F1.
  destruct (k' <? length d)%nat eqn:D.
  - apply Nat.ltb_lt in D. rewrite send_prep_pdu, Eh, Ed, F1, M1.
    match goal with |- context [drop _ (outs ?x)] => change (outs x) with (outs c1 ++ [Send CID_ATT (prep_pdu h k' m d)]) end.
    rewrite U1, drop_app_length. cbn [att_sent omap list_omap CID_ATT Z.eqb Pos.eqb].
    match goal with |- context [converse _ _ ?x ?y] => destruct (IH k' x y) as (c' & g' & R & A & B & C & Z); try done; try lia end.
    exists c', g'. split; [exact R|]. rewrite <- Ap. by split.
  - apply Nat.ltb_ge in D. assert (Ek' : k' = length d) by lia.
    match goal with |- context [drop _ (outs ?x)] => change (outs x) with (outs c1 ++ [Send CID_ATT [ATT_EXEC_WRITE_REQ; 1]]); set (c2 := x) end.
    assert (C2 : state c2 = C_UP /\ cur c2 = Some o /\ ops c2 = []) by done. clearbody c2. destruct C2 as (S2 & O2 & Q2).
    rewrite U1, drop_app_length. cbn [att_sent omap list_omap CID_ATT Z.eqb Pos.eqb].
    destruct P as (LB & PN & _ & PT). rewrite Ek' in PN, PT.
    destruct (exec_sent h d g1 a PH ltac:(lia) Hk Ha) as (X1 & X2 & X3); [by rewrite PN, PT, take_ge|].
    assert (Hx : att_rx now [ATT_EXEC_WRITE_RSP] c2 = emit (Written h) c2 <| cur := None |>).
    { rewrite answered by done. unfold answer_rx. rewrite O2, Ho. change (write_rx now o [ATT_EXEC_WRITE_RSP] c2) with (op_done now (emit (Written (o_handle o)) c2)).
      unfold op_done, start_op. cbn. by rewrite Q2, Eh. }
    rewrite (converse_step fuel _ c2 g1 _ _ X1 Hx).
    match goal with |- context [drop _ (outs ?x)] => change (outs x) with (outs c2 ++ [Written h]) end.
    rewrite drop_app_length. cbn [att_sent omap list_omap]. eexists _, _. split; [reflexivity|]. rewrite X2, X3, Ap. split_and!; [done|done|apply last_snoc|done].
Qed.

Lemma short_write h d a o n c g :
  0 < h < 2 ^ 16 -> a_kind (attr_at chars h) = A_VAL -> a_chr (attr_at chars h) = a -> writable chars h false = 0 ->
  state c = C_UP -> cur c = Some o -> kind o = K_WRITE -> o_handle o = h -> ops c = [] ->
  exists c' g', converse (S n) (ATT_WRITE_REQ :: put16 h ++ d) c g = (c', g') /\ app g' = write a d (app g) /\ prep_n g' = prep_n g /\
    list.last (outs c') = Some (Written h) /\ cur c' = None.
Proof.
  intros Hh Hk Ha Hw Hs Hc Ho Eh Hq. set (p := ATT_WRITE_REQ :: put16 h ++ d).
  assert (G1 : get16 p 1 = h) by (unfold p; rewrite get16_put16, Z.mod_small; lia).
  assert (E : gatts_rx p g = g_send [ATT_WRITE_RSP] g <| app := write a d (app g) |>).
  { change (gatts_rx p g) with (on_write chars write p g). unfold on_write. rewrite (proj2 (Nat.ltb_ge (length p) 3)) by (unfold p; cbn; lia).
    rewrite G1. change (at_ p 0 =? ATT_WRITE_REQ) with true. cbn [negb]. rewrite Hw. cbn [Z.eqb negb]. unfold write_value. by rewrite Hk, Ha. }
  assert (Hx : att_rx now [ATT_WRITE_RSP] c = emit (Written h) c <| cur := None |>).
  { rewrite answered by done. unfold answer_rx. rewrite Hc, Ho. change (write_rx now o [ATT_WRITE_RSP] c) with (op_done now (emit (Written (o_handle o)) c)).
    unfold op_done, start_op. cbn. by rewrite Hq, Eh. }
  rewrite (converse_step n p c g [ATT_WRITE_RSP] _ ltac:(by rewrite E) Hx).
  match goal with |- context [drop _ (outs ?x)] => change (outs x) with (outs c ++ [Written h]) end.
  rewrite drop_app_length. cbn [att_sent omap list_omap]. rewrite E. eexists _, _. split; [reflexivity|]. split_and!; try done. apply last_snoc.
Qed.
(** C19. A value crosses the GATT link whole: whatever the MTU, a read of up to 512 bytes gives the
    client the value the server has, and a write of up to 512 bytes gives the server's part
    the bytes the client was asked to write, in one piece and once. *)
Theorem values_cross_whole o c g m :
  let h := o_handle o in
  0 < h <= nattr chars -> nattr chars < 2 ^ 16 -> (23 <= m)%nat -> mtu c = m -> g_mtu g = m ->
  state c = C_UP -> ops c = [] -> prep_n g = 0%nat -> length (prep_b g) = VAL_SIZE ->
  let c1 := begin_op now o c in
  (kind o = K_READ -> unreadable chars h = false -> (length (attr_value uuid chars read h VAL_SIZE g) <= VAL_SIZE)%nat ->
   exists p c' g', att_sent (drop (length (outs c)) (outs c1)) = [p] /\ converse 514 p c1 g = (c', g') /\
     list.last (outs c') = Some (Read h (attr_value uuid chars read h VAL_SIZE g)) /\ app g' = app g /\ cur c' = None) /\
  (kind o = K_WRITE -> response o = true -> a_kind (attr_at chars h) = A_VAL -> writable chars h false = 0 -> (length (o_data o) <= VAL_SIZE)%nat ->
   exists p c' g', att_sent (drop (length (outs c)) (outs c1)) = [p] /\ converse 514 p c1 g = (c', g') /\
     list.last (outs c') = Some (Written h) /\ app g' = write (a_chr (attr_at chars h)) (o_data o) (app g) /\ cur c' = None).
Proof.
  intros h Hh Hn Hm Em Eg Hs Hq Pn Pb c1. unfold c1, begin_op. cbv zeta.
  set (c0 := c <| cur := _ |> <| t := _ |> <| val := _ |> <| off := _ |>).
  assert (C0 : state c0 = C_UP /\ cur c0 = Some o /\ mtu c0 = m /\ ops c0 = [] /\ outs c0 = outs c /\ val c0 = [] /\ off c0 = 0%nat) by done.
  clearbody c0. destruct C0 as (S0 & O0 & M0 & Q0 & U0 & V0 & F0). split.
  - intros Hk Hu Hl. rewrite Hk. change (send_read (o_handle o) c0) with (send_read h c0). unfold send_read. rewrite V0. cbn [length Nat.eqb].
    match goal with |- context [drop _ (outs ?x)] => change (outs x) with (outs c0 ++ [Send CID_ATT (read_pdu h [])]); set (c2 := x) end.
    rewrite U0, drop_app_length. destruct (long_read_from h m (attr_value uuid chars read h VAL_SIZE g) o 514 0 c2 g) as (c' & g' & R & A & B & C);
      try done; try lia; [unfold VAL_SIZE in *; lia|]. exists (read_pdu h []), c', g'. by split_and!.
  - intros Hk Hr Ha Hw Hl. rewrite Hk, Hr. cbn [negb]. rewrite M0. destruct (Nat.leb_spec (length (o_data o)) (m - 3)) as [L|L].
    + match goal with |- context [drop _ (outs ?x)] => change (outs x) with (outs c0 ++ [Send CID_ATT (ATT_WRITE_REQ :: put16 h ++ o_data o)]); set (c2 := x) end.
      rewrite U0, drop_app_length. destruct (short_write h (o_data o) _ o 513 c2 g ltac:(lia) Ha eq_refl Hw) as (c' & g' & R & A & B & C & Z); try done.
      exists (ATT_WRITE_REQ :: put16 h ++ o_data o), c', g'. by split_and!.
    + rewrite send_prep_pdu, F0, M0. match goal with |- context [drop _ (outs ?x)] => change (outs x) with (outs c0 ++ [Send CID_ATT (prep_pdu h 0 m (o_data o))]); set (c2 := x) end.
      rewrite U0, drop_app_length. destruct (long_write_from h (o_data o) m (a_chr (attr_at chars h)) o 513 0 c2 g) as (c' & g' & R & A & B & C & Z);
        try done; try lia; [unfold VAL_SIZE in *; lia|split_and!; try done; by left|]. exists (prep_pdu h 0 m (o_data o)), c', g'. by split_and!.
Qed.
End trip.
