(* ===== verification/BleSafe.v ===== *)
(** * Bluetooth LE: what the GATT server sends and writes, whatever it gets
    Any packets, in any order: the answers fit in the buffer and the MTU, the table of
    prepared writes stays within its 512 bytes, and only what may be written is. *)
From S2P Require Import Prelude Cbits BleCrypto Ble BleGatt BleTrip.

Section safe.
Context {T : Type} (uuid : bytes) (chars : list (bytes * Z)).
Context (read : Z -> nat -> T -> bytes) (write : Z -> bytes -> T -> T).
Context (Hread : forall a cap s, (length (read a cap s) <= cap)%nat).
Abbreviation gatts_rx := (gatts_rx uuid chars read write).

(** An answer fits in r[ATT_MTU]; in the MTU too, but for the echo of a prepared write *)
Definition fits (m : nat) (a : bytes) : Prop :=
  (length a <= ATT_MTU)%nat /\ (at_ a 0 <> ATT_PREP_WRITE_RSP -> (length a <= m)%nat).
Definition may_write (w : Z * bytes) : Prop :=
  0 <= fst w /\ Z.land (snd (nth (Z.to_nat (fst w)) chars ([], 0))) (Z.lor BLE_PROP_WRITE_NR BLE_PROP_WRITE) <> 0.
Definition mtu_ok (g : gatts T) : Prop := (23 <= g_mtu g <= ATT_MTU)%nat.
Definition prep_ok (g : gatts T) : Prop :=
  length (prep_b g) = VAL_SIZE /\ (prep_n g <= VAL_SIZE)%nat /\ (prep_handle g <> 0 -> writable chars (prep_handle g) false = 0).

Definition writes (l : list (Z * bytes)) (s : T) : T := fold_left (fun s w => write (fst w) (snd w) s) l s.
(** A packet's work: what it sends fits, what it writes may be written *)
Definition step_ok (g g' : gatts T) : Prop :=
  mtu_ok g' /\ prep_ok g' /\
  (exists l, sent g' = sent g ++ l /\ Forall (fits (g_mtu g)) l) /\
  (exists ws, app g' = writes ws (app g) /\ Forall may_write ws).

Lemma step_quiet g g' : mtu_ok g' -> prep_ok g' -> sent g' = sent g -> app g' = app g -> step_ok g g'.
Proof. intros M P S A. split_and!; [done|done|exists []; rewrite S; by rewrite app_nil_r|by exists []]. Qed.
Lemma step_same g : mtu_ok g -> prep_ok g -> step_ok g g.
Proof. intros M P. by apply step_quiet. Qed.
Lemma step_send a g : mtu_ok g -> prep_ok g -> fits (g_mtu g) a -> step_ok g (g_send a g).
Proof. intros M P F. split_and!; [done|done|exists [a]; split; [done|by constructor]|by exists []]. Qed.
Lemma fits_small m a : (23 <= m <= ATT_MTU)%nat -> (length a <= 23)%nat -> fits m a.
Proof. intros H L. split; lia. Qed.
Lemma fits_mtu m a : (m <= ATT_MTU)%nat -> (length a <= m)%nat -> fits m a.
Proof. intros H L. split; lia. Qed.
Lemma step_err code h e g : mtu_ok g -> prep_ok g -> step_ok g (att_err code h e g).
Proof. intros M P. apply step_send; [done|done|]. apply fits_small; [done|]. cbn. lia. Qed.

Lemma find_info_fits mx : forall k h w r, (length r <= mx)%nat -> (length (fst (find_info chars k h mx w r)) <= mx)%nat.
Proof.
  induction k as [|k IH]; intros h w r Hr; [done|]. cbn [find_info]. cbv zeta.
  destruct (_ || _) eqn:D; [done|]. apply orb_false_iff in D as [_ D%Nat.ltb_ge]. apply IH. rewrite !length_app, put16_length. lia.
Qed.
Lemma find_type_fits v g : forall k h r, (length r <= g_mtu g)%nat -> (length (find_type uuid chars read k h v r g) <= g_mtu g)%nat.
Proof.
  induction k as [|k IH]; intros h r Hr; [done|]. cbn [find_type]. destruct (_ <? _)%nat eqn:D; [done|]. apply Nat.ltb_ge in D. apply IH.
  case_match; try lia. case_bool_decide; [|lia]. rewrite !length_app, !put16_length. lia.
Qed.
Lemma read_type_fits e group ty g : forall k h w r s, (6 <= g_mtu g)%nat -> (2 <= length r <= g_mtu g)%nat ->
  read_type uuid chars read k h e group ty w r g = inl s -> (length s <= g_mtu g)%nat.
Proof.
  induction k as [|k IH]; intros h w r s Hg Hr; cbn [read_type]; [intros [= <-]; lia|].
  destruct (e <? h); [intros [= <-]; lia|]. destruct (negb _); [by apply IH|].
  destruct (unreadable _ _); [case_match; [done|intros [= <-]; lia]|]. cbv zeta.
  set (v := take _ (attr_value _ _ _ _ _ _)). set (hd := if group then 4%nat else 2%nat).
  assert (Hhd : (hd = 2 \/ hd = 4)%nat /\ length (if group then put16 (svc_end chars h) else []) = (hd - 2)%nat).
  { unfold hd. destruct group; [rewrite put16_length|]; cbn; lia. }
  destruct Hhd as [Hh Hs]. destruct (length r =? 2)%nat eqn:F.
  - apply Nat.eqb_eq in F. cbn [negb andb]. apply IH; [done|]. rewrite !length_app, Hs, put16_length, length_insert, length_take. lia.
  - cbn [negb andb]. destruct (_ || _) eqn:D; [intros [= <-]; lia|]. apply orb_false_iff in D as [D1 D2].
    apply negb_false_iff, Nat.eqb_eq in D1. apply Nat.ltb_ge in D2. apply IH; [done|]. rewrite !length_app, Hs, put16_length. lia.
Qed.

Lemma step_range p min f g : mtu_ok g -> prep_ok g -> (forall s e, step_ok g (f s e g)) -> step_ok g (with_range chars p min f g).
Proof. intros M P F. unfold with_range. destruct (range chars p min) as [[s e]|[h err]]; [apply F|by apply step_err]. Qed.

(** A write of a value the table lets write *)
Lemma step_write h v cmd g : mtu_ok g -> prep_ok g -> writable chars h cmd = 0 -> step_ok g (write_value write (attr_at chars h) v g).
Proof.
  intros M P W. unfold write_value, writable in *. destruct (_ || _); [done|]. cbv zeta in W. destruct (a_kind (attr_at chars h)); try done.
  - destruct (a_chr (attr_at chars h) <? 0) eqn:A; [done|]. destruct (_ =? 0) eqn:B; [done|]. apply Z.ltb_ge in A. apply Z.eqb_neq in B.
    split_and!; [done|done|exists []; by rewrite app_nil_r|]. exists [(a_chr (attr_at chars h), v)]. split; [done|]. constructor; [|constructor].
    split; [done|]. cbn [fst snd]. unfold attr_props in B. rewrite (proj2 (Z.ltb_ge _ _)) in B by lia. destruct cmd; [done|].
    intros E. apply B. apply Z.bits_inj_0. intros n. apply (f_equal (fun z => Z.testbit z n)) in E. rewrite Z.land_spec, Z.bits_0 in E.
    rewrite Z.land_spec. rewrite Z.lor_spec in E. destruct (Z.testbit (snd _) n); [|done]. by apply orb_false_iff in E as [_ ->].
  - destruct (_ && _); by apply step_quiet.
Qed.
Lemma step_trans g1 g2 g3 : g_mtu g2 = g_mtu g1 -> step_ok g1 g2 -> step_ok g2 g3 -> step_ok g1 g3.
Proof.
  intros E (_ & _ & (l1 & L1 & F1) & (w1 & W1 & X1)) (M & P & (l2 & L2 & F2) & (w2 & W2 & X2)). rewrite E in F2. split_and!; [done|done| |].
  - exists (l1 ++ l2). rewrite L2, L1, app_assoc. split; [done|]. by apply Forall_app.
  - exists (w1 ++ w2). unfold writes in *. rewrite fold_left_app, <- W1. split; [done|]. by apply Forall_app.
Qed.

(** ** Each request *)
Lemma rx_find_info s e g : mtu_ok g -> prep_ok g -> step_ok g (on_find_info chars s e g).
Proof.
  intros M P. unfold on_find_info. pose proof (find_info_fits (g_mtu g) (Z.to_nat (e - s + 1)) s 0 [ATT_FIND_INFO_RSP; 0]) as F.
  destruct (find_info _ _ _ _ _ _) as [r w]. apply step_send; [done|done|]. unfold mtu_ok in M. apply fits_mtu; [lia|]. rewrite length_insert. apply F. cbn. lia.
Qed.
Lemma rx_find_type p s e g : mtu_ok g -> prep_ok g -> step_ok g (on_find_type uuid chars read p s e g).
Proof.
  intros M P. unfold on_find_type. cbv zeta. unfold mtu_ok in M. case_match eqn:D; [by apply step_err|]. apply step_send; [done|done|]. apply fits_mtu; [lia|].
  case_match; [apply find_type_fits|]; cbn; lia.
Qed.
Lemma rx_read_type p s e g : mtu_ok g -> prep_ok g -> step_ok g (on_read_type uuid chars read p s e g).
Proof.
  intros M P. unfold on_read_type. cbv zeta. case_match; [by apply step_err|]. case_match; [by apply step_err|]. unfold mtu_ok in M.
  destruct (read_type _ _ _ _ _ _ _ _ _ _ _) as [r|h] eqn:E; [|by apply step_err]. case_match; [by apply step_err|].
  apply read_type_fits in E; [|lia|cbn; lia]. apply step_send; [done|done|]. apply fits_mtu; lia.
Qed.
Lemma rx_read p g : mtu_ok g -> prep_ok g -> step_ok g (on_read uuid chars read p g).
Proof.
  intros M P. unfold on_read. cbv zeta. generalize (if at_ p 0 =? ATT_READ_BLOB_REQ then 5%nat else 3%nat). intros mn.
  generalize (if at_ p 0 =? ATT_READ_BLOB_REQ then Z.to_nat (get16 p 3) else 0%nat). intros off.
  pose proof M as M'. unfold mtu_ok in M'. do 4 (case_match; [by apply step_err|]). apply step_send; [done|done|].
  apply fits_mtu; [lia|]. cbn [length]. rewrite length_take. lia.
Qed.
Lemma rx_write p g : mtu_ok g -> prep_ok g -> step_ok g (on_write chars write p g).
Proof.
  intros M P. unfold on_write. cbv zeta. case_match; [case_match; [by apply step_err|by apply step_same]|].
  destruct (writable _ _ _ =? 0) eqn:W; cbn [negb]; [|case_match; [by apply step_err|by apply step_same]]. apply Z.eqb_eq in W.
  case_match; [|by eapply step_write]. apply (step_trans g (g_send [ATT_WRITE_RSP] g)); [done| |by eapply step_write].
  apply step_send; [done|done|]. apply fits_small; [done|cbn; lia].
Qed.
Lemma rx_prep p g : mtu_ok g -> prep_ok g -> step_ok g (on_prep chars p g).
Proof.
  intros M P. unfold on_prep. cbv zeta. destruct (length p <? 5)%nat eqn:L; [by apply step_err|]. destruct (writable _ _ _ =? 0) eqn:W; cbn [negb]; [|by apply step_err].
  destruct (_ || _) eqn:D; [by apply step_err|]. apply orb_false_iff in D as [_ D%Nat.ltb_ge]. apply Z.eqb_eq in W. apply Nat.ltb_ge in L.
  destruct P as (P1 & P2 & P3). split_and!; [done| |eexists; split; [reflexivity|]|by exists []].
  - split_and!; [cbn [prep_b g_send]|cbn; lia|by intros _].
    change (length (copy_at (Z.to_nat (get16 p 3)) (drop 5 p) (prep_b g)) = VAL_SIZE). rewrite copy_at_length; lia.
  - constructor; [|constructor]. split; [|intros []; done]. cbn [length]. rewrite length_drop in *. unfold VAL_SIZE, ATT_MTU in *. lia.
Qed.
Lemma rx_exec p g : mtu_ok g -> prep_ok g -> step_ok g (on_exec chars write p g).
Proof.
  intros M P. unfold on_exec. cbv zeta. set (g1 := g_send [ATT_EXEC_WRITE_RSP] g). assert (H1 : step_ok g g1) by (apply step_send; [done|done|]; apply fits_small; [done|cbn; lia]).
  assert (E1 : g_mtu g1 = g_mtu g) by done. pose proof H1 as (M1 & Q1 & _). clearbody g1.
  set (g2 := if _ && _ && _ then _ else g1). assert (H2 : step_ok g1 g2).
  { unfold g2. destruct (_ && _ && _) eqn:D; [|by apply step_same]. bsimp. apply step_write with (cmd := false); [done|done|]. by apply Q1. }
  clearbody g2. pose proof (step_trans _ _ _ E1 H1 H2) as (M3 & (B1 & B2 & B3) & S3 & W3).
  split; [exact M3|]. split; [|split; [exact S3|exact W3]]. split; [exact B1|]. split; [apply Nat.le_0_l|done].
Qed.
Lemma rx_ok p g : mtu_ok g -> prep_ok g -> step_ok g (gatts_rx p g).
Proof.
  intros M P. unfold BleGatt.gatts_rx. cbv zeta. case_match; [by apply step_same|]. case_match.
  { set (g1 := if (3 <=? length p)%nat then _ else g). assert (E : mtu_ok g1 /\ prep_ok g1 /\ sent g1 = sent g /\ app g1 = app g).
    { unfold g1. case_match; [|done]. split_and!; try done. unfold mtu_ok, mtu_of. cbn. unfold ATT_MTU. repeat case_match; bsimp; lia. }
    clearbody g1. destruct E as (M1 & P1 & E1 & E2). split_and!; [done|done| |exists []; by rewrite <- E2].
    exists [ATT_MTU_RSP :: put16 (Z.of_nat ATT_MTU)]. cbn. rewrite E1. split; [done|]. constructor; [|constructor]. apply fits_small; [done|cbn; lia]. }
  case_match; [apply step_range; [done|done|]; intros; by apply rx_find_info|].
  case_match; [apply step_range; [done|done|]; intros; by apply rx_find_type|].
  case_match; [apply step_range; [done|done|]; intros; by apply rx_read_type|].
  case_match; [by apply rx_read|]. case_match; [by apply rx_write|]. case_match; [by apply rx_prep|]. case_match; [by apply rx_exec|].
  case_match; [by apply step_err|by apply step_same].
Qed.

(** Notifications fit too *)
Lemma notify_ok g : mtu_ok g -> prep_ok g -> step_ok g (gatts_notify chars read g).
Proof.
  intros M P. unfold gatts_notify. cbv zeta. set (g0 := g <| notify_due := 0 |>). assert (H0 : step_ok g g0 /\ g_mtu g0 = g_mtu g) by (split; [by apply step_quiet|done]).
  clearbody g0. generalize (Z.land (notify_due g) (cccd_on g)). intros due. revert due g0 H0. induction (seqZ 1 (nattr chars)) as [|h l IH]; intros due g0 [H0 E0]; [done|].
  cbn [fold_left]. pose proof H0 as (M0 & P0 & _). unfold notify_one at 2. cbv zeta.
  destruct (a_kind (attr_at chars h)); try (by apply IH). destruct (_ || _); [by apply IH|]. apply IH. split; [|done].
  eapply step_trans; [exact E0|exact H0|]. apply step_send; [done|done|]. unfold mtu_ok in M0. apply fits_mtu; [lia|]. cbn [length]. rewrite length_app, put16_length.
  specialize (Hread (a_chr (attr_at chars h)) (g_mtu g0 - 3) (app g0)). lia.
Qed.

(** ** A link, from the phone's connection on *)
Inductive gstep := Packet (p : bytes) | Notify (chr : Z) | Upkeep | Reconnect.
Definition gatts_step (g : gatts T) (x : gstep) : gatts T :=
  match x with
  | Packet p => gatts_rx p g
  | Notify chr => ble_server_notify chr g
  | Upkeep => gatts_notify chars read g
  | Reconnect => srv_up (srv_gone g)
  end.
Definition gatts0 (s : T) : gatts T := mk_gatts 23 0 0 (zeros VAL_SIZE) 0 0 s [].

(** C20. The server keeps to its table: whatever packets come, each answer and each notification
    fits in the buffer it is made in and in the MTU of the link (but for the echo of a
    prepared write, which fits in the buffer), the table of prepared writes is never
    left, and what the part that serves is given are values of characteristics that may be
    written, and nothing else. *)
Theorem server_keeps_to_its_table s l :
  let g := fold_left gatts_step l (gatts0 s) in
  mtu_ok g /\ prep_ok g /\ Forall (fits ATT_MTU) (sent g) /\
  (forall x, exists a, sent (gatts_step g x) = sent g ++ a /\ Forall (fits (g_mtu g)) a) /\
  exists ws, app g = writes ws s /\ Forall may_write ws.
Proof.
  cbv zeta. assert (S : forall g x, mtu_ok g -> prep_ok g -> step_ok g (gatts_step g x)).
  { intros g x M P. destruct x; cbn [gatts_step]; [by apply rx_ok| |by apply notify_ok|].
    - unfold ble_server_notify. case_match; by apply step_quiet.
    - apply step_quiet; [unfold mtu_ok, ATT_MTU; cbn; lia| |done|done]. split; [apply P|]. split; [apply Nat.le_0_l|done]. }
  assert (H : step_ok (gatts0 s) (gatts0 s)) by (apply step_same; [unfold mtu_ok, ATT_MTU; cbn; lia|split; [done|]; split; [apply Nat.le_0_l|done]]).
  assert (R : let g := fold_left gatts_step l (gatts0 s) in mtu_ok g /\ prep_ok g /\ Forall (fits ATT_MTU) (sent g) /\ exists ws, app g = writes ws s /\ Forall may_write ws).
  { cbv zeta. induction l as [|x l IH] using rev_ind; [destruct H as (M & P & _); split_and!; [done|done|constructor|by exists []]|].
    rewrite fold_left_app. cbn [fold_left]. destruct IH as (M & P & F & w1 & W1 & X1). destruct (S _ x M P) as (M' & P' & (a & A & FA) & w2 & W2 & X2).
    split_and!; [done|done| |].
    - rewrite A. apply Forall_app. split; [done|]. eapply Forall_impl; [|exact FA]. intros y [Y1 Y2]. by split; [|intros _].
    - exists (w1 ++ w2). unfold writes in *. rewrite fold_left_app, <- W1. split; [done|]. by apply Forall_app. }
  destruct R as (M & P & F & W). split_and!; try done. intros x. by destruct (S _ x M P) as (_ & _ & A & _).
Qed.
End safe.
