(* ===== verification/BleDisc.v ===== *)
(** * Bluetooth LE: discovery ends, and stays in its tables
    Whatever a device answers, a discovery asks at most [disc_bound] times before it hands the
    services over or fails; it never leaves the arrays of struct ble_db, and the slices it
    hands over are slices of them. *)
From S2P Require Import Prelude Cbits BleCrypto BleSpec Ble.

(** ** What holds of the tables *)
Definition svc_ok (nchr : nat) (s : gsvc) : Prop := 0 <= s_start s < 2 ^ 16 /\ (s_first s + s_n s <= nchr)%nat.
Definition chr_ok (nsvc ndsc : nat) (h : gchr) : Prop :=
  0 <= c_handle h < 2 ^ 16 /\ (c_svc h < nsvc)%nat /\ (c_first h + c_n h <= ndsc)%nat.
Definition db_ok (d : gdb) : Prop :=
  (length (svcs d) <= MAX_SVC /\ length (chrs d) <= MAX_CHR /\ length (dscs d) <= MAX_DSC)%nat /\
  Forall (svc_ok (length (chrs d))) (svcs d) /\ Forall (chr_ok (length (svcs d)) (length (dscs d))) (chrs d).
(** What a later turn takes up has nothing in its slice yet *)
Definition todo (d : gdb) (c : conn) : Prop :=
  match phase c with
  | 0%nat => Forall (fun s => s_n s = 0%nat) (svcs d) /\ Forall (fun h => c_n h = 0%nat) (chrs d)
  | 1%nat => Forall (fun s => s_n s = 0%nat) (drop (if next c =? 0 then idx c else S (idx c)) (svcs d)) /\ Forall (fun h => c_n h = 0%nat) (chrs d)
  | _ => Forall (fun h => c_n h = 0%nat) (drop (if next c =? 0 then idx c else S (idx c)) (chrs d))
  end.
Definition in_range (d : gdb) (c : conn) : Prop :=
  0 <= next c <= 2 ^ 16 /\ match phase c with 0%nat => True | 1%nat => (idx c <= length (svcs d))%nat | 2%nat => (idx c <= length (chrs d))%nat | _ => False end.
Definition ready (d : gdb) (c : conn) : Prop :=
  (exists o, cur c = Some o /\ kind o = K_DISCOVER) /\ state c = C_UP /\ db c = Some d /\ db_ok d /\ todo d c /\ in_range d c.
(** The array element a phase works on is there *)
Definition in_table (d : gdb) (c : conn) : Prop :=
  (phase c = 1%nat -> (idx c < length (svcs d))%nat) /\ (phase c = 2%nat -> (idx c < length (chrs d))%nat).
Definition waits (c : conn) : Prop := exists d, ready d c /\ in_table d c.

(** ** What is left to ask, at most *)
Definition K : Z := 65538.
Definition left_to_ask (c : conn) : Z :=
  match phase c with
  | 0%nat => K - 1 - next c + Z.of_nat (MAX_SVC + MAX_CHR + 2) * K
  | 1%nat => Z.of_nat (MAX_SVC - idx c) * K + (K - 1 - next c) + Z.of_nat (MAX_CHR + 1) * K
  | _ => Z.of_nat (MAX_CHR - idx c) * K + (K - 1 - next c)
  end.
Definition disc_bound : Z := Z.of_nat (MAX_SVC + MAX_CHR + 3) * K.

Definition is_end (x : out) : Prop := match x with Services d => db_ok d | Error _ _ => True | _ => False end.
(** Another request, for something not asked yet, or the end *)
Definition goes_on (n : Z) (c c' : conn) : Prop :=
  (exists x l, outs c' = outs c ++ x :: l /\ is_end x) \/
  (waits c' /\ left_to_ask c' <= n /\ exists p, outs c' = outs c ++ [Send CID_ATT p]).

Lemma get16_range p i : are_bytes p -> 0 <= get16 p i < 2 ^ 16.
Proof.
  intros H. pose proof (at_bytes p i H) as A. pose proof (at_bytes p (S i) H) as B. unfold is_byte, get16 in *. lia.
Qed.

Section disc.
Context (now : Z).

Lemma begin_op_outs o c : exists l, outs (begin_op now o c) = outs c ++ l.
Proof.
  unfold begin_op. cbv zeta. destruct (kind o).
  - destruct (db _); by eexists.
  - unfold send_read. case_match; by eexists.
  - case_match; [by eexists|]. case_match; by eexists.
Qed.
Lemma start_loop_outs l : forall c, exists x, outs (start_loop now l c) = outs c ++ x.
Proof.
  induction l as [|o l IH]; intros c; [exists []; by rewrite app_nil_r|]. cbn [start_loop]. case_match; [|exists []; by rewrite app_nil_r].
  destruct (IH (begin_op now o (c <| ops := l |>))) as [x ->]. destruct (begin_op_outs o (c <| ops := l |>)) as [y ->]. exists (y ++ x). by rewrite app_assoc.
Qed.
Lemma op_done_outs c : exists x, outs (op_done now c) = outs c ++ x.
Proof. unfold op_done, start_op. destruct (start_loop_outs (ops (c <| cur := None |>)) (c <| cur := None |>)) as [x ->]. by exists x. Qed.
Lemma disc_done_ends x c n : is_end x -> goes_on n c (op_done now (emit x c)).
Proof.
  intros H. destruct (op_done_outs (emit x c)) as [l E]. left. exists x, l. rewrite E. cbn. rewrite <- app_assoc. by split.
Qed.

(** Turns the loop still takes *)
Definition turns (d : gdb) (c : conn) : nat :=
  match phase c with 0 => 0 | 1 => (length (svcs d) - idx c) + length (chrs d) + 1 | _ => length (chrs d) - idx c end%nat.

Lemma svc_first_ok d i s n : svcs d !! i = Some s -> s_n s = 0%nat -> (n = length (chrs d))%nat -> db_ok d ->
  db_ok (d <| svcs := alter (fun s => s <| s_first := n |>) i (svcs d) |>).
Proof.
  intros Hi Hn -> ((L1 & L2 & L3) & S & C). split_and!; cbn; rewrite ?length_alter; try done.
  apply Forall_alter; [done|]. intros s' E (H1 & H2). simplify_eq. split; [done|]. cbn. lia.
Qed.
Lemma chr_first_ok d i h n : chrs d !! i = Some h -> c_n h = 0%nat -> (n = length (dscs d))%nat -> db_ok d ->
  db_ok (d <| chrs := alter (fun s => s <| c_first := n |>) i (chrs d) |>).
Proof.
  intros Hi Hn -> ((L1 & L2 & L3) & S & C). split_and!; cbn; rewrite ?length_alter; try done.
  apply Forall_alter; [done|]. intros h' E (H1 & H2 & H3). simplify_eq. split_and!; [apply H1|apply H1|done|]. cbn. lia.
Qed.

(** A characteristic, a service taken up: the slice starts here *)
Definition chr_fresh (d : gdb) (c : conn) : conn :=
  if next c =? 0
  then c <| next := c_handle (chrs d !!! idx c) + 1 |> <| db := Some (d <| chrs := alter (fun s => s <| c_first := length (dscs d) |>) (idx c) (chrs d) |>) |>
  else c.
Definition svc_fresh (d : gdb) (c : conn) : conn :=
  if next c =? 0
  then c <| next := s_start (svcs d !!! idx c) |> <| db := Some (d <| svcs := alter (fun s => s <| s_first := length (chrs d) |>) (idx c) (svcs d) |>) |>
  else c.

Lemma chr_fresh_ready d c : ready d c -> phase c = 2%nat -> (idx c < length (chrs d))%nat ->
  exists d', ready d' (chr_fresh d c) /\ length (chrs d') = length (chrs d) /\ next c <= next (chr_fresh d c) /\ next (chr_fresh d c) <> 0 /\
    phase (chr_fresh d c) = 2%nat /\ idx (chr_fresh d c) = idx c /\ outs (chr_fresh d c) = outs c.
Proof.
  intros (Ho & Hs & Hd & Hok & Ht & Hr & Hi) Hp L. unfold chr_fresh. destruct (Z.eqb_spec (next c) 0) as [En|En].
  2: { exists d. by split_and!. }
  destruct (lookup_lt_is_Some_2 _ _ L) as [h Hh]. rewrite (list_lookup_total_correct _ _ _ Hh).
  unfold todo in Ht. rewrite Hp, En in Ht. cbn [Z.eqb] in Ht.
  assert (Hn : c_n h = 0%nat). { rewrite (drop_S _ _ _ Hh) in Ht. by inversion Ht. }
  assert (Hc : 0 <= c_handle h < 2 ^ 16). { destruct Hok as (_ & _ & C). rewrite Forall_lookup in C. by destruct (C _ _ Hh). }
  exists (d <| chrs := alter (fun s => s <| c_first := length (dscs d) |>) (idx c) (chrs d) |>).
  split_and!; cbn; rewrite ?length_alter; try done; try lia.
  split_and!; cbn; rewrite ?length_alter; try done; try lia.
  - by eapply chr_first_ok.
  - unfold todo. cbn. rewrite Hp. rewrite (proj2 (Z.eqb_neq _ _)) by lia. rewrite drop_alter_lt by lia.
    rewrite (drop_S _ _ _ Hh) in Ht. by inversion Ht.
  - split; cbn; [lia|]. rewrite Hp, length_alter. lia.
Qed.
Lemma svc_fresh_ready d c : ready d c -> phase c = 1%nat -> (idx c < length (svcs d))%nat ->
  exists d', ready d' (svc_fresh d c) /\ length (svcs d') = length (svcs d) /\ length (chrs d') = length (chrs d) /\ next c <= next (svc_fresh d c) /\
    phase (svc_fresh d c) = 1%nat /\ idx (svc_fresh d c) = idx c /\ outs (svc_fresh d c) = outs c.
Proof.
  intros (Ho & Hs & Hd & Hok & Ht & Hr & Hi) Hp L. unfold svc_fresh. destruct (Z.eqb_spec (next c) 0) as [En|En].
  2: { exists d. by split_and!. }
  destruct (lookup_lt_is_Some_2 _ _ L) as [s Hh]. rewrite (list_lookup_total_correct _ _ _ Hh).
  unfold todo in Ht. rewrite Hp, En in Ht. cbn [Z.eqb] in Ht. destruct Ht as [Ht Hz].
  assert (Hn : s_n s = 0%nat). { rewrite (drop_S _ _ _ Hh) in Ht. by inversion Ht. }
  assert (Hc : 0 <= s_start s < 2 ^ 16). { destruct Hok as (_ & S & _). rewrite Forall_lookup in S. by destruct (S _ _ Hh). }
  exists (d <| svcs := alter (fun s => s <| s_first := length (chrs d) |>) (idx c) (svcs d) |>).
  split_and!; cbn; rewrite ?length_alter; try done; try lia.
  split_and!; cbn; rewrite ?length_alter; try done; try lia.
  - by eapply svc_first_ok.
  - unfold todo. cbn. rewrite Hp. split; [|done]. destruct (s_start s =? 0).
    + rewrite drop_alter_ge by lia. apply Forall_alter; [done|]. intros s' _ H'. exact H'.
    + rewrite drop_alter_lt by lia. rewrite (drop_S _ _ _ Hh) in Ht. by inversion Ht.
  - split; cbn; [lia|]. rewrite Hp, length_alter. lia.
Qed.
Lemma next_item_ready d c : ready d c -> in_table d c -> phase c <> 0%nat -> ready d (next_item c).
Proof.
  intros (Ho & Hs & Hd & Hok & Ht & Hr & Hi) [T1 T2] Hp. split_and!; try done.
  - unfold todo in *. cbn. destruct (phase c) as [|[|]] eqn:E; [done| |].
    + destruct Ht as [Ht Hz]. split; [|done]. case_match; [|done]. specialize (T1 eq_refl).
      destruct (lookup_lt_is_Some_2 _ _ T1) as [s Hh]. rewrite (drop_S _ _ _ Hh) in Ht. by inversion Ht.
    + destruct n; [|done]. case_match; [|done]. specialize (T2 eq_refl).
      destruct (lookup_lt_is_Some_2 _ _ T2) as [s Hh]. rewrite (drop_S _ _ _ Hh) in Ht. by inversion Ht.
  - split; cbn; [lia|]. destruct (phase c) as [|[|[|]]]; try done; [specialize (T1 eq_refl)|specialize (T2 eq_refl)]; lia.
Qed.
Lemma goes_on_le n m c c1 c' : goes_on n c1 c' -> outs c1 = outs c -> n <= m -> goes_on m c c'.
Proof. intros H E Hn. unfold goes_on in *. rewrite E in H. destruct H as [H|(W & L & H)]; [by left|right]. split_and!; [done|lia|done]. Qed.
Lemma send_goes_on d c p : ready d c -> in_table d c -> goes_on (left_to_ask c) c (att_send p c).
Proof. intros R T. right. split; [exists d; split; [exact R|exact T]|]. split; [done|]. by exists p. Qed.

Lemma disc_next_2 fuel : forall d c, ready d c -> phase c = 2%nat -> (turns d c < fuel)%nat ->
  goes_on (left_to_ask c) c (disc_next now fuel c).
Proof.
  induction fuel as [|fuel IH]; intros d c R Hp Hf; [lia|]. pose proof R as (Ho & Hs & Hd & Hok & Ht & Hr & Hi).
  cbn [disc_next]. rewrite Hd, Hp. cbn [Nat.eqb]. unfold turns in Hf. rewrite Hp in Hf.
  destruct (Nat.leb_spec (length (chrs d)) (idx c)) as [El|El]; [by apply disc_done_ends|]. fold (chr_fresh d c).
  destruct (chr_fresh_ready d c R Hp El) as (d' & R' & Ln & Hle & Hnz & Hp' & Hi' & Eo). cbv zeta.
  assert (T' : in_table d' (chr_fresh d c)). { split; rewrite Hp', Hi'; [done|lia]. }
  assert (Hlen : (length (chrs d) <= MAX_CHR)%nat) by (by destruct Hok as ((_ & ? & _) & _)).
  assert (Hl : left_to_ask (chr_fresh d c) <= left_to_ask c). { unfold left_to_ask. rewrite Hp, Hp', Hi'. lia. }
  set (c1 := chr_fresh d c) in *. clearbody c1. destruct (_ <? next c1).
  - assert (R2 := next_item_ready d' c1 R' T' ltac:(congruence)).
    apply (goes_on_le (left_to_ask (next_item c1)) _ c (next_item c1)); [|done|].
    + apply (IH d'); [done|done|]. unfold turns. cbn. rewrite Hp', Hi', Ln. lia.
    + etrans; [|exact Hl]. unfold left_to_ask. cbn. rewrite Hp'.
      destruct R' as (_ & _ & _ & _ & _ & Hr' & _). unfold K, MAX_SVC, MAX_CHR in *. lia.
  - by apply (goes_on_le (left_to_ask c1) _ c c1); [eapply send_goes_on|..].
Qed.
Lemma disc_next_goes_on fuel : forall d c, ready d c -> (turns d c < fuel)%nat ->
  goes_on (left_to_ask c) c (disc_next now fuel c).
Proof.
  induction fuel as [|fuel IH]; intros d c R Hf; [lia|]. pose proof R as (Ho & Hs & Hd & Hok & Ht & Hr & Hi).
  destruct (phase c) as [|[|[|]]] eqn:Hp; [| |by apply (disc_next_2 _ d)|done].
  { cbn [disc_next]. rewrite Hd, Hp. cbn. by apply (send_goes_on d); [|split; rewrite Hp]. }
  cbn [disc_next]. rewrite Hd, Hp. cbn [Nat.eqb]. unfold turns in Hf. rewrite Hp in Hf.
  assert (Hlen : (length (chrs d) <= MAX_CHR)%nat) by (by destruct Hok as ((_ & ? & _) & _)).
  destruct (Nat.leb_spec (length (svcs d)) (idx c)) as [El|El].
  { unfold todo in Ht. rewrite Hp in Ht. destruct Ht as [_ Ht].
    eapply goes_on_le; [apply (IH d)|done|].
    - split_and!; try done. split; cbn; lia.
    - cbn. lia.
    - unfold left_to_ask. cbn. rewrite Hp. unfold K, MAX_SVC, MAX_CHR in *. lia. }
  fold (svc_fresh d c).
  destruct (svc_fresh_ready d c R Hp El) as (d' & R' & Ls & Lc & Hle & Hp' & Hi' & Eo). cbv zeta.
  assert (T' : in_table d' (svc_fresh d c)). { split; rewrite Hp', Hi'; [lia|done]. }
  assert (Hls : (length (svcs d) <= MAX_SVC)%nat) by (by destruct Hok as ((? & _) & _)).
  assert (Hl : left_to_ask (svc_fresh d c) <= left_to_ask c). { unfold left_to_ask. rewrite Hp, Hp', Hi'. lia. }
  set (c1 := svc_fresh d c) in *. clearbody c1. destruct (_ <? next c1).
  - assert (R2 := next_item_ready d' c1 R' T' ltac:(congruence)).
    apply (goes_on_le (left_to_ask (next_item c1)) _ c (next_item c1)); [|done|].
    + apply (IH d'); [done|]. unfold turns. cbn. rewrite Hp', Hi', Ls, Lc. lia.
    + etrans; [|exact Hl]. unfold left_to_ask. cbn. rewrite Hp'.
      destruct R' as (_ & _ & _ & _ & _ & Hr' & _). unfold K, MAX_SVC, MAX_CHR in *. lia.
  - by apply (goes_on_le (left_to_ask c1) _ c c1); [eapply send_goes_on|..].
Qed.
Lemma disc_go_goes_on d c n : ready d c -> left_to_ask c <= n -> goes_on n c (disc_go now c).
Proof.
  intros R Hn. eapply goes_on_le; [apply (disc_next_goes_on _ d c R)|done|done].
  pose proof R as (_ & _ & Hd & _). unfold disc_fuel, turns. rewrite Hd. destruct (phase c) as [|[|]]; lia.
Qed.

(** ** An answer read into the tables *)
Lemma add_svc_ok l n : forall L, (length L <= MAX_SVC)%nat -> Forall are_bytes l -> Forall (svc_ok n) L -> Forall (fun s => s_n s = 0%nat) L ->
  let L' := fold_left add_svc l L in
  (length L <= length L' <= MAX_SVC)%nat /\ Forall (svc_ok n) L' /\ Forall (fun s => s_n s = 0%nat) L'.
Proof.
  induction l as [|b l IH]; intros L HL Hb H Hn; [done|]. inversion_clear Hb. cbn [fold_left].
  assert (S : (length L <= length (add_svc L b) <= MAX_SVC)%nat /\ Forall (svc_ok n) (add_svc L b) /\ Forall (fun s => s_n s = 0%nat) (add_svc L b)).
  { unfold add_svc. destruct (Nat.eqb_spec (length L) MAX_SVC) as [E|E]; [by rewrite E|]. rewrite length_app. cbn. split_and!; [lia..| |].
    - apply Forall_app. split; [done|]. repeat constructor; cbn; try lia; by apply get16_range.
    - apply Forall_app. by repeat constructor. }
  destruct S as (S1 & S2 & S3). destruct (IH (add_svc L b)) as (I1 & I2 & I3); try done; [lia|]. split_and!; [lia..|done|done].
Qed.
Lemma add_chr_ok i l : forall d, db_ok d -> (i < length (svcs d))%nat -> Forall are_bytes l -> Forall (fun h => c_n h = 0%nat) (chrs d) ->
  let d' := fold_left (add_chr i) l d in
  db_ok d' /\ length (svcs d') = length (svcs d) /\ drop (S i) (svcs d') = drop (S i) (svcs d) /\ Forall (fun h => c_n h = 0%nat) (chrs d').
Proof.
  induction l as [|b l IH]; intros d Hok Hi Hb Hn; [done|]. inversion_clear Hb. cbn [fold_left].
  assert (S : db_ok (add_chr i d b) /\ length (svcs (add_chr i d b)) = length (svcs d) /\ drop (S i) (svcs (add_chr i d b)) = drop (S i) (svcs d) /\
    Forall (fun h => c_n h = 0%nat) (chrs (add_chr i d b))).
  { unfold add_chr. destruct (Nat.eqb_spec (length (chrs d)) MAX_CHR) as [E|E]; [done|]. cbn.
    destruct Hok as ((L1 & L2 & L3) & Hs & Hc). rewrite length_alter, drop_alter_lt by lia. split; [unfold db_ok; cbn; rewrite length_alter, length_app|]; split_and!; try done; cbn; try lia.
    - apply Forall_alter; [eapply List.Forall_impl; [|exact Hs]; intros s [? ?]; split; [done|lia]|].
      intros s E' _. rewrite Forall_lookup in Hs. destruct (Hs _ _ E'). split; cbn; [done|lia].
    - apply Forall_app. split; [done|]. repeat constructor; cbn; try lia; by apply get16_range.
    - apply Forall_app. by repeat constructor. }
  destruct S as (S1 & S2 & S3 & S4). destruct (IH _ S1) as (I1 & I2 & I3 & I4); [lia|done|done|]. split_and!; congruence.
Qed.
Lemma add_dsc_ok i l : forall d, db_ok d -> (i < length (chrs d))%nat -> Forall are_bytes l ->
  let d' := fold_left (add_dsc i) l d in
  db_ok d' /\ length (chrs d') = length (chrs d) /\ drop (S i) (chrs d') = drop (S i) (chrs d).
Proof.
  induction l as [|b l IH]; intros d Hok Hi Hb; [done|]. inversion_clear Hb. cbn [fold_left].
  assert (S : db_ok (add_dsc i d b) /\ length (chrs (add_dsc i d b)) = length (chrs d) /\ drop (S i) (chrs (add_dsc i d b)) = drop (S i) (chrs d)).
  { unfold add_dsc. destruct (Nat.eqb_spec (length (dscs d)) MAX_DSC) as [E|E]; [done|]. cbn.
    destruct Hok as ((L1 & L2 & L3) & Hs & Hc). rewrite length_alter, drop_alter_lt by lia. split; [unfold db_ok; cbn; rewrite length_alter, length_app|]; split_and!; try done; cbn; try lia.
    apply Forall_alter; [eapply List.Forall_impl; [|exact Hc]; intros s ([? ?] & ? & ?); split_and!; [lia..|lia]|].
    intros h E' _. rewrite Forall_lookup in Hc. destruct (Hc _ _ E') as ([? ?] & ? & ?). split_and!; cbn; [lia..|lia]. }
  destruct S as (S1 & S2 & S3). destruct (IH _ S1) as (I1 & I2 & I3); [lia|done|]. split_and!; congruence.
Qed.
Lemma chunks_bytes w fuel : forall l, are_bytes l -> Forall are_bytes (chunks fuel w l).
Proof.
  induction fuel as [|fuel IH]; intros l H; cbn; [done|]. case_match; [|done].
  constructor; [by apply Forall_take|apply IH; by apply Forall_drop].
Qed.
Lemma last_of_range i l : Forall are_bytes l -> 0 <= last_of (fun b => get16 b i) l < 2 ^ 16.
Proof.
  intros H. unfold last_of. destruct (list.last l) as [b|] eqn:E; cbn; [|lia].
  apply get16_range. rewrite last_lookup in E. by eapply Forall_lookup_1 in H.
Qed.
(** On in the same service or characteristic, past what was told, or to the next *)
Lemma onward_goes_on d c last : ready d (c <| next := 1 |>) -> in_table d c -> phase c <> 0%nat -> 0 <= last < 2 ^ 16 -> 0 <= next c <= 2 ^ 16 ->
  goes_on (left_to_ask c - 1) c (disc_go now (onward last c)).
Proof.
  intros R T Hp Hl Hr. unfold onward. pose proof R as (Ho & Hs & Hd & Hok & Ht & _ & Hi).
  assert (Hlen : (length (svcs d) <= MAX_SVC /\ length (chrs d) <= MAX_CHR)%nat) by (by destruct Hok as ((? & ? & _) & _)).
  destruct T as [T1 T2]. destruct (Z.ltb_spec last (next c)).
  - eapply goes_on_le; [apply (disc_go_goes_on d)|done|].
    + apply (next_item_ready d (c <| next := 1 |>) R); [by split|done].
    + done.
    + cbn in Hi. unfold left_to_ask. cbn -[MAX_SVC MAX_CHR]. destruct (phase c) as [|[|[|]]] eqn:E; try done; [specialize (T1 eq_refl)|specialize (T2 eq_refl)]; unfold K, MAX_SVC, MAX_CHR in *; lia.
  - eapply goes_on_le; [apply (disc_go_goes_on d)|done|].
    + split_and!; try done; [|split; [cbn; lia|exact Hi]]. unfold todo in *. cbn in *. by rewrite (proj2 (Z.eqb_neq _ _)) by lia.
    + done.
    + cbn in Hi. unfold left_to_ask. cbn -[MAX_SVC MAX_CHR]. destruct (phase c) as [|[|[|]]] eqn:E; try done; unfold K; lia.
Qed.

(** ** An answer: one thing less to ask *)
Lemma disc_rx_goes_on c p : waits c -> are_bytes p -> goes_on (left_to_ask c - 1) c (disc_rx now p c).
Proof.
  intros (d & R & T) Hb. pose proof R as (Ho & Hs & Hd & Hok & Ht & Hr & Hi). unfold disc_rx. rewrite Hd. cbv zeta.
  assert (Hlen : (length (svcs d) <= MAX_SVC /\ length (chrs d) <= MAX_CHR)%nat) by (by destruct Hok as ((? & ? & _) & _)).
  assert (F : forall h e, goes_on (left_to_ask c - 1) c (op_fail now h e c)) by (intros; by apply disc_done_ends).
  destruct (at_ p 0 =? ATT_ERROR).
  { destruct (_ || _); [apply F|]. destruct (Nat.eqb_spec (phase c) 0) as [Hp|Hp].
    - unfold todo in Ht. rewrite Hp in Ht. eapply goes_on_le; [apply (disc_go_goes_on d)|done|].
      + split_and!; try done. split; cbn; lia.
      + done.
      + unfold left_to_ask. cbn -[MAX_SVC MAX_CHR]. rewrite Hp. unfold K, MAX_SVC, MAX_CHR in *. lia.
    - eapply goes_on_le; [apply (disc_go_goes_on d); [by apply next_item_ready|done]|done|].
      destruct T as [T1 T2]. unfold left_to_ask. cbn -[MAX_SVC MAX_CHR].
      destruct (phase c) as [|[|[|]]] eqn:E; try done; [specialize (T1 eq_refl)|specialize (T2 eq_refl)]; unfold K, MAX_SVC, MAX_CHR in *; lia. }
  assert (Hch : forall w, Forall are_bytes (chunks (length p) w (drop 2 p))) by (intros; by apply chunks_bytes, Forall_drop).
  destruct (_ && _ && _ && _) eqn:E1 in |- *.
  { rewrite !andb_true_iff, Nat.eqb_eq in E1. destruct E1 as (((Hp & _) & _) & _).
    specialize (Hch (Z.to_nat (at_ p 1))). set (l := chunks _ _ _) in *. clearbody l. pose proof (last_of_range 2 l Hch) as Hl.
    set (last := last_of _ l) in *. clearbody last. unfold todo in Ht. rewrite Hp in Ht. destruct Ht as [Hn Hz].
    destruct Hok as ((L1 & L2 & L3) & S & C). destruct (add_svc_ok l _ (svcs d) L1 Hch S Hn) as (A1 & A2 & A3).
    set (L := fold_left add_svc l (svcs d)) in *. clearbody L.
    assert (Hok' : db_ok (d <| svcs := L |>)).
    { split_and!; cbn; [lia|lia|lia|done|]. eapply List.Forall_impl; [|exact C]. intros h (? & ? & ?). split_and!; [lia..|lia|lia]. }
    destruct (_ || _) eqn:E.
    - eapply goes_on_le; [apply (disc_go_goes_on (d <| svcs := L |>))|done|].
      + split_and!; try done. split; cbn; lia.
      + done.
      + unfold left_to_ask. cbn -[MAX_SVC MAX_CHR]. rewrite Hp. unfold K, MAX_SVC, MAX_CHR in *. lia.
    - apply orb_false_iff in E. destruct E as [E1 E2]. apply Z.leb_gt in E1. apply Z.ltb_ge in E2. cbn in E2.
      eapply goes_on_le; [apply (disc_go_goes_on (d <| svcs := L |>))|done|].
      + split_and!; try done; [unfold todo; cbn; by rewrite Hp|]. split; cbn; [lia|by rewrite Hp].
      + done.
      + unfold left_to_ask. cbn -[MAX_SVC MAX_CHR]. rewrite Hp.
        unfold K. lia. }
  clear E1. destruct (_ && _ && _ && _) eqn:E1 in |- *.
  { rewrite !andb_true_iff, Nat.eqb_eq in E1. destruct E1 as (((Hp & _) & _) & _). specialize (Hch (Z.to_nat (at_ p 1))).
    set (l := chunks _ _ _) in *. clearbody l. unfold todo in Ht. rewrite Hp in Ht. destruct Ht as [Hn Hz]. destruct T as [T1 _]. specialize (T1 Hp).
    destruct (add_chr_ok (idx c) l d Hok T1 Hch Hz) as (A1 & A2 & A3 & A4). set (d' := fold_left _ l d) in *. clearbody d'.
    set (c1 := c <| db := Some d' |>). change (left_to_ask c) with (left_to_ask c1).
    eapply goes_on_le; [apply (onward_goes_on d' c1)|done|done].
    - split_and!; try done; [|split; cbn; [lia|rewrite Hp; lia]]. unfold todo. cbn. rewrite Hp, A3. split; [|done].
      destruct (next c =? 0); [|done]. destruct (lookup_lt_is_Some_2 _ _ T1) as [s Hh]. rewrite (drop_S _ _ _ Hh) in Hn. by inversion Hn.
    - split; cbn; rewrite Hp; [lia|done].
    - cbn. by rewrite Hp.
    - by apply last_of_range.
    - done. }
  clear E1. destruct (_ && _ && _) eqn:E1 in |- *; [|apply F].
  rewrite !andb_true_iff, Nat.eqb_eq in E1. destruct E1 as ((Hp & _) & _). specialize (Hch (if (at_ p 1 =? 1)%Z then 4 else 18)%nat).
  set (l := chunks _ _ _) in *. clearbody l. unfold todo in Ht. rewrite Hp in Ht. destruct T as [_ T2]. specialize (T2 Hp).
  destruct (add_dsc_ok (idx c) l d Hok T2 Hch) as (A1 & A2 & A3). set (d' := fold_left _ l d) in *. clearbody d'.
  set (c1 := c <| db := Some d' |>). change (left_to_ask c) with (left_to_ask c1).
  eapply goes_on_le; [apply (onward_goes_on d' c1)|done|done].
  - split_and!; try done; [|split; cbn; [lia|rewrite Hp; lia]]. unfold todo. cbn. rewrite Hp, A3.
    destruct (next c =? 0); [|done]. destruct (lookup_lt_is_Some_2 _ _ T2) as [s Hh]. rewrite (drop_S _ _ _ Hh) in Ht. by inversion Ht.
  - split; cbn; rewrite Hp; [done|lia].
  - cbn. by rewrite Hp.
  - by apply last_of_range.
  - done.
Qed.

(** ** The whole of it *)
(** What att_rx takes as an answer to a request of ours *)
Definition is_answer (p : bytes) : Prop :=
  are_bytes p /\ p <> [] /\
  let code := at_ p 0 in code <> ATT_NOTIFY /\ code <> ATT_INDICATE /\ code <> ATT_MTU_REQ /\ (Z.land code 1 <> 0 \/ code = ATT_CONFIRM).
Lemma att_rx_answers c p : waits c -> is_answer p -> att_rx now p c = disc_rx now p c.
Proof.
  intros (d & ((o & Ho & Hk) & Hs & _) & _) (_ & Hp & H1 & H2 & H3 & H4). unfold att_rx. destruct p as [|x p]; [done|].
  cbn [length Nat.eqb]. set (b := x :: p) in *. cbv zeta. rewrite Hs, (bool_decide_eq_false_2 (C_UP = C_MTU)) by done.
  rewrite !(proj2 (Z.eqb_neq _ _)) by done. cbn [orb andb].
  assert (E : (Z.land (at_ b 0) 1 =? 0) && negb (at_ b 0 =? ATT_CONFIRM) = false).
  { destruct H4 as [H4| ->]; [|by rewrite andb_false_r]. by rewrite (proj2 (Z.eqb_neq _ _)). }
  rewrite E. unfold answer_rx. by rewrite Ho, Hk.
Qed.
Lemma att_rx_goes_on c p : waits c -> is_answer p -> goes_on (left_to_ask c - 1) c (att_rx now p c).
Proof. intros W A. rewrite att_rx_answers by done. apply disc_rx_goes_on; [done|]. by destruct A. Qed.
Lemma begin_op_discover o c : kind o = K_DISCOVER -> db c = None ->
  begin_op now o c = send_group (c <| cur := Some o |> <| t := now |> <| val := [] |> <| off := 0%nat |>
    <| db := Some (mk_gdb [] [] []) |> <| phase := 0%nat |> <| idx := 0%nat |> <| next := 1 |>).
Proof. intros Hk Hd. unfold begin_op. rewrite Hk. destruct c. cbn in Hd. by subst. Qed.
Lemma begin_waits o c : kind o = K_DISCOVER -> db c = None -> state c = C_UP ->
  waits (begin_op now o c) /\ left_to_ask (begin_op now o c) < disc_bound /\ exists p, outs (begin_op now o c) = outs c ++ [Send CID_ATT p].
Proof.
  intros Hk Hd Hs. rewrite begin_op_discover by done. split_and!.
  - exists (mk_gdb [] [] []). split; [|done].
    assert (D : db_ok (mk_gdb [] [] [])) by (split_and!; cbn; try done; lia).
    split; [by exists o|]. split; [done|]. split; [done|]. split; [done|]. by repeat split.
  - change (K - 1 - 1 + Z.of_nat (MAX_SVC + MAX_CHR + 2) * K < disc_bound). unfold disc_bound, K, MAX_SVC, MAX_CHR. lia.
  - by eexists.
Qed.
Lemma left_nonneg c : waits c -> 0 <= left_to_ask c.
Proof.
  intros (d & (_ & _ & _ & _ & _ & Hr & Hi) & _). unfold left_to_ask. destruct (phase c) as [|[|[|]]]; try done; unfold K; lia.
Qed.
Lemma answers_end ps : forall c, waits c -> Forall is_answer ps -> left_to_ask c < Z.of_nat (length ps) ->
  exists qs rest ls x l, ps = qs ++ rest /\
    outs (fold_left (fun c p => att_rx now p c) qs c) = outs c ++ map (Send CID_ATT) ls ++ x :: l /\ length qs = S (length ls) /\ is_end x.
Proof.
  induction ps as [|p ps IH]; intros c W H L.
  { pose proof (left_nonneg c W). cbn in L. lia. }
  inversion_clear H as [|? ? Hp Hps]. destruct (att_rx_goes_on c p W Hp) as [(x & l & E & Hx)|(W' & L' & q & E)].
  - exists [p], ps, [], x, l. by split_and!.
  - destruct (IH _ W' Hps) as (qs & rest & ls & x & l & -> & E' & Hn & Hx).
    { cbn [length] in L. lia. }
    exists (p :: qs), rest, (q :: ls), x, l. split_and!; [done| |cbn; lia|done].
    cbn [fold_left]. rewrite E', E. cbn. by rewrite <- app_assoc.
Qed.

(** C21. Discovery ends: whatever a device answers, the discovery a connection begins asks one
    request at a time and, after less than [disc_bound] answers, hands the services over or
    fails; what it hands over fits struct ble_db, its slices of characteristics and of
    descriptors included. *)
Theorem discovery_ends o c ps : kind o = K_DISCOVER -> db c = None -> state c = C_UP ->
  Forall is_answer ps -> disc_bound <= Z.of_nat (length ps) ->
  exists qs rest ls x l, ps = qs ++ rest /\
    outs (fold_left (fun c p => att_rx now p c) qs (begin_op now o c)) = outs c ++ map (Send CID_ATT) ls ++ x :: l /\
    length ls = length qs /\ is_end x.
Proof.
  intros Hk Hd Hs Ha Hn. destruct (begin_waits o c Hk Hd Hs) as (W & L & q & E).
  destruct (answers_end ps _ W Ha ltac:(lia)) as (qs & rest & ls & x & l & -> & E' & Hl & Hx).
  exists qs, rest, (q :: ls), x, l. split_and!; [done| |by rewrite Hl|done]. rewrite E', E. cbn. by rewrite <- app_assoc.
Qed.
End disc.
