(* ===== verification/BleBonds.v ===== *)
(** * Bluetooth LE: bonds and the file they are kept in (ble.c)
    The list of paired devices, how a device is recognised in it, and state/ble_bonds as it is
    written and read.  The numbers of a line are read as sscanf reads them.  Then what
    is written is read back, and what is forgotten is gone and nothing else with it. *)
From S2P Require Import Prelude Cbits BleCrypto BleSpec Wyoming Ble.

(** [b_irk]: [None] without has_irk *)
Record bond := mk_bond { b_addr : Z; b_type : Z; b_sc : Z; b_keysize : Z; b_ediv : Z; b_ltk : bytes; b_rand : bytes; b_irk : option bytes }.
#[export] Instance bond_eq_dec : EqDecision bond.
Proof. solve_decision. Defined.
#[export] Instance bond_inhabited : Inhabited bond := populate (mk_bond 0 0 0 0 0 [] [] None).
Definition MAX_BONDS : nat := 16.

Definition addr_bytes (a : Z) : bytes := le_bytes 6 a.

(** ** The list *)
Definition same_addr (addr type : Z) (b : bond) : bool := (b_addr b =? addr) && (b_type b =? type).
Definition by_irk (addr : Z) (b : bond) : bool :=
  match b_irk b with Some irk => smp_ah_match irk (addr_bytes addr) | None => false end.
(** Which bond is for this address: [None] for NULL *)
Definition bond_for (addr type : Z) (bs : list bond) : option nat :=
  match find_index (same_addr addr type) bs with
  | Some i => Some i
  | None => if type =? 1 then find_index (by_irk addr) bs else None
  end.
(** [bonds[i] = bonds[--nbonds]] *)
Definition bond_forget (i : nat) (bs : list bond) : list bond :=
  let n := (length bs - 1)%nat in take n (<[i := bs !!! n]> bs).
(** The loop of R_UNPAIR, from the last bond to the first *)
Definition to_forget (addr : Z) (b : bond) : bool := (b_addr b =? addr) || by_irk addr b.
Fixpoint unpair_loop (addr : Z) (i : nat) (bs : list bond) : list bond :=
  match i with
  | O => bs
  | S i => unpair_loop addr i (if to_forget addr (bs !!! i) then bond_forget i bs else bs)
  end.
Definition unpair (addr : Z) (bs : list bond) : list bond := unpair_loop addr (length bs) bs.
(** smp_finish's: the bond of this address anew, or a new one; with all of them taken the first goes *)
Definition remember (addr type : Z) (b : bond) (bs : list bond) : list bond :=
  match bond_for addr type bs with
  | Some i => <[i := b]> bs
  | None => (if (length bs =? MAX_BONDS)%nat then bond_forget 0 bs else bs) ++ [b]
  end.

(** ** The file *)
Definition hexout (l : bytes) : bytes := hex_of l ++ [32].
(** [%012llx] of a device address *)
Definition hex12 (v : Z) : bytes := hex_of (be_bytes 6 v).
Definition bond_line (b : bond) : bytes :=
  hex12 (b_addr b) ++ [32] ++ dec (b_type b) ++ [32] ++ dec (b_sc b) ++ [32] ++ dec (b_keysize b) ++ [32] ++ dec (b_ediv b) ++ [32] ++
  hexout (b_ltk b) ++ hexout (b_rand b) ++ (match b_irk b with Some irk => hexout irk | None => str "- " end) ++ [10].
Definition bonds_text (bs : list bond) : bytes := bs ≫= bond_line.

(** A hexadecimal digit's value *)
Definition hexval (c : Z) : option Z :=
  if isdigit c then Some (c - 48) else if (97 <=? c) && (c <=? 102) then Some (c - 87) else if (65 <=? c) && (c <=? 70) then Some (c - 55) else None.
Definition decval (c : Z) : option Z := if isdigit c then Some (c - 48) else None.
Fixpoint skip_ws (s : bytes) : bytes := match s with c :: r => if isspace c then skip_ws r else s | [] => [] end.
(** The digits of a number: its value, what follows, and whether there were any *)
Fixpoint num (val : Z -> option Z) (base acc : Z) (some : bool) (s : bytes) : option (Z * bytes) :=
  match s with
  | c :: r => match val c with
              | Some d => num val base (acc * base + d) true r
              | None => if some then Some (acc, s) else None
              end
  | [] => if some then Some (acc, []) else None
  end.
(** strtoull's, for [%llx] and [%u]: a sign, 0x in base 16; more than 64 bits: all ones *)
Definition sign (s : bytes) : bool * bytes :=
  match s with c :: r => if c =? 45 then (true, r) else if c =? 43 then (false, r) else (false, s) | [] => (false, s) end.
Definition is_xdigit (c : Z) : bool := match hexval c with Some _ => true | None => false end.
Definition prefix_0x (s : bytes) : bytes :=
  match s with
  | z :: x :: c :: r => if (z =? 48) && ((x =? 120) || (x =? 88)) && is_xdigit c then c :: r else s
  | _ => s
  end.
Definition strtoull (hex : bool) (s : bytes) : option (Z * bytes) :=
  let '(neg, s) := sign (skip_ws s) in
  match (if hex then num hexval 16 0 false (prefix_0x s) else num decval 10 0 false s) with
  | Some (v, r) => Some (if 2 ^ 64 <=? v then 2 ^ 64 - 1 else if neg then u64 (- v) else v, r)
  | None => None
  end.
Definition scan_llx (s : bytes) : option (Z * bytes) := strtoull true s.
Definition scan_u (s : bytes) : option (Z * bytes) := '(v, r) ← strtoull false s; Some (u32 v, r).
(** [%39s]: white space skipped, at least one character, at most so many *)
Fixpoint word (k : nat) (s : bytes) : bytes * bytes :=
  match k, s with
  | S k, c :: r => if isspace c then ([], s) else let '(w, r) := word k r in (c :: w, r)
  | _, _ => ([], s)
  end.
Definition scan_s (k : nat) (s : bytes) : option (bytes * bytes) :=
  match word k (skip_ws s) with ([], _) => None | wr => Some wr end.
(** [%2hhx] *)
Definition scan_hhx (s : bytes) : option Z :=
  match s with
  | [] => None
  | c :: r =>
      let next := match r with d :: _ => hexval d | [] => None end in
      if c =? 45 then (fun v => u8 (- v)) <$> next else if c =? 43 then next else
      match hexval c with Some h => Some (match next with Some l => h * 16 + l | None => h end) | None => None end
  end.
(** A word too short for [n] bytes is refused *)
Fixpoint hexin (n : nat) (s : bytes) : option bytes :=
  match n with
  | O => Some []
  | S n => v ← scan_hhx s; l ← hexin n (drop 2 s); Some (v :: l)
  end.
(** [None]: a line that is passed over *)
Definition bond_of (l : bytes) : option bond :=
  '(a, s) ← scan_llx l;
  '(type, s) ← scan_u s;
  '(sc, s) ← scan_u s;
  '(keysize, s) ← scan_u s;
  '(ediv, s) ← scan_u s;
  '(ltk, s) ← scan_s 39 s;
  '(rnd, s) ← scan_s 23 s;
  '(irk, s) ← scan_s 39 s;
  ltk ← hexin 16 ltk;
  rnd ← hexin 8 rnd;
  Some (mk_bond a type sc keysize ediv ltk rnd (hexin 16 irk)).

(** fgets of a buffer of [cap]: up to [cap - 1] bytes, up to the first line's end *)
Fixpoint gets (k : nat) (s : bytes) : bytes * bytes :=
  match k, s with
  | S k, c :: r => if c =? 10 then ([c], r) else let '(w, r) := gets k r in (c :: w, r)
  | _, _ => ([], s)
  end.
(** [fuel]: a turn reads a byte at least *)
Fixpoint bonds_read (fuel : nat) (f : bytes) (bs : list bond) : list bond :=
  match fuel with
  | O => bs
  | S fuel =>
      if (MAX_BONDS <=? length bs)%nat then bs else
      match f with
      | [] => bs
      | _ => let '(l, f) := gets 255 f in bonds_read fuel f (match bond_of l with Some b => bs ++ [b] | None => bs end)
      end
  end.
(** [None]: no file *)
Definition bonds_load (f : option bytes) : list bond :=
  match f with Some f => bonds_read (length f) f [] | None => [] end.

(** ** Bluetooth LE: the bonds kept
    What is written is what is read back; a bond is for one address, what is forgotten is gone
    and nothing else with it. *)
Definition bond_ok (b : bond) : Prop :=
  0 <= b_addr b < 2 ^ 48 /\ (0 <= b_type b < 2 ^ 32 /\ 0 <= b_sc b < 2 ^ 32 /\ 0 <= b_keysize b < 2 ^ 32 /\ 0 <= b_ediv b < 2 ^ 32) /\
  (are_bytes (b_ltk b) /\ length (b_ltk b) = 16%nat) /\ (are_bytes (b_rand b) /\ length (b_rand b) = 8%nat) /\
  match b_irk b with Some irk => are_bytes irk /\ length irk = 16%nat | None => True end.

(** ** Numbers and words of a line *)
Lemma hexval_digit n : 0 <= n < 16 -> hexval (hexdigit n) = Some n.
Proof. intros H. unfold hexval, hexdigit, isdigit. destruct (Z.ltb_spec n 10); repeat case_match; bsimp; f_equal; lia. Qed.
Lemma hexdigit_range n : 0 <= n < 16 -> 48 <= hexdigit n <= 57 \/ 97 <= hexdigit n <= 102.
Proof. intros H. unfold hexdigit. destruct (Z.ltb_spec n 10); lia. Qed.
Lemma nibbles b : is_byte b -> 0 <= b / 16 < 16 /\ 0 <= b mod 16 < 16.
Proof. intros H. split; [split; [apply Z.div_pos|apply Z.div_lt_upper_bound]; unfold is_byte in H; lia|apply Z.mod_pos_bound; lia]. Qed.
(** Where a number ends *)
Definition stops (val : Z -> option Z) (r : bytes) : Prop := match r with [] => True | c :: _ => val c = None end.
Lemma num_end val base acc r : stops val r -> num val base acc true r = Some (acc, r).
Proof. intros H. destruct r as [|c r]; [done|]. cbn in *. by rewrite H. Qed.
Lemma num_hex l r : are_bytes l -> stops hexval r -> forall acc any, l <> [] \/ any = true ->
  num hexval 16 acc any (hex_of l ++ r) = Some (fold_left (fun v b => v * 256 + b) l acc, r).
Proof.
  intros Hl Hr. induction Hl as [|b l Hb Hl IH]; intros acc any Ha.
  - destruct Ha as [Ha|Ha]; [done|]. rewrite Ha. by apply num_end.
  - destruct (nibbles b Hb) as [H1 H2]. change (hex_of (b :: l)) with (hexdigit (b / 16) :: hexdigit (b mod 16) :: hex_of l). cbn [app num].
    rewrite !hexval_digit by done. rewrite IH by (by right). cbn [fold_left]. do 3 f_equal.
    pose proof (Z.div_mod b 16). lia.
Qed.
Lemma num_dec fuel x acc v any r : 0 <= x < 10 ^ Z.of_nat fuel -> (0 < fuel)%nat ->
  exists k, num decval 10 v any (digits fuel x acc ++ r) = num decval 10 (v * 10 ^ k + x) true (acc ++ r) /\ 0 <= k.
Proof.
  revert x acc. induction fuel as [|fuel IH]; intros x acc Hx Hf; [lia|]. cbn [digits].
  pose proof (Z.mod_pos_bound x 10). pose proof (Z.div_mod x 10).
  assert (Hd : forall w b, num decval 10 w b (((48 + x mod 10) :: acc) ++ r) = num decval 10 (w * 10 + x mod 10) true (acc ++ r)).
  { intros w b. cbn [num app]. unfold decval, isdigit. assert ((48 <=? 48 + x mod 10) && (48 + x mod 10 <=? 57) = true) as -> by lia. f_equal. lia. }
  destruct (Z.eqb_spec (x / 10) 0) as [E|E].
  - exists 1. split; [|lia]. rewrite Hd. f_equal. lia.
  - replace (Z.of_nat (S fuel)) with (Z.of_nat fuel + 1) in Hx by lia. rewrite Z.pow_add_r in Hx by lia.
    destruct fuel as [|fuel]; [change (10 ^ Z.of_nat 0) with 1 in Hx; lia|].
    destruct (IH (x / 10) ((48 + x mod 10) :: acc)) as (k & Hk & Hk0); [split; [lia|apply Z.div_lt_upper_bound; lia]|lia|].
    exists (k + 1). split; [|lia]. rewrite Hk, Hd. f_equal. rewrite Z.pow_add_r by lia. lia.
Qed.
Lemma skip_ws_plain c s : isspace c = false -> skip_ws (c :: s) = c :: s.
Proof. intros H. cbn. by rewrite H. Qed.
Lemma prefix_hex d1 d2 s : 0 <= d1 < 16 -> 0 <= d2 < 16 -> prefix_0x (hexdigit d1 :: hexdigit d2 :: s) = hexdigit d1 :: hexdigit d2 :: s.
Proof.
  intros H1 H2. pose proof (hexdigit_range d2 H2) as R. unfold prefix_0x.
  assert (E : (hexdigit d2 =? 120) || (hexdigit d2 =? 88) = false) by lia. destruct s; [done|]. by rewrite E, andb_false_r.
Qed.
Lemma sign_plain c s : c <> 45 -> c <> 43 -> sign (c :: s) = (false, c :: s).
Proof. intros H1 H2. unfold sign. by rewrite !(proj2 (Z.eqb_neq _ _)). Qed.
Lemma scan_llx_hex12 v c r : 0 <= v < 2 ^ 48 -> hexval c = None -> scan_llx (hex12 v ++ c :: r) = Some (v, c :: r).
Proof.
  intros Hv Hc. unfold scan_llx, strtoull, hex12. assert (Hb : are_bytes (be_bytes 6 v)) by (apply Forall_rev, le_bytes_are_bytes).
  pose proof (be_value_bytes 6 v) as Ev. change (2 ^ (8 * Z.of_nat 6)) with (2 ^ 48) in Ev. rewrite Z.mod_small in Ev by done.
  destruct (be_bytes 6 v) as [|b l] eqn:E; [by apply (f_equal length) in E|]. rewrite <- E in *. pose proof Hb as Hb2. rewrite E in Hb2. inversion_clear Hb2 as [|? ? B _].
  destruct (nibbles b B) as [B1 B2]. pose proof (hexdigit_range _ B1) as R.
  assert (Eh : hex_of (be_bytes 6 v) ++ c :: r = hexdigit (b / 16) :: hexdigit (b mod 16) :: hex_of l ++ c :: r) by (by rewrite E).
  rewrite Eh. rewrite skip_ws_plain by (unfold isspace; lia). rewrite sign_plain by lia. rewrite prefix_hex by done. rewrite <- Eh.
  rewrite (num_hex _ (c :: r) Hb Hc) by (left; by rewrite E). change (fold_left _ _ 0) with (be_value (be_bytes 6 v)). rewrite Ev.
  by rewrite (proj2 (Z.leb_gt _ _)) by lia.
Qed.
Lemma scan_u_dec v c r : 0 <= v < 2 ^ 32 -> decval c = None -> scan_u (32 :: dec v ++ c :: r) = Some (v, c :: r).
Proof.
  intros Hv Hc. unfold scan_u, strtoull, dec. change (skip_ws (32 :: ?x)) with (skip_ws x). rewrite (proj2 (Z.ltb_ge _ _)) by lia.
  destruct (digits_cons 20 v []) as (d & l & E & Hd); [lia|]. destruct (num_dec 20 v [] 0 false (c :: r)) as (k & Hk & _); [lia|lia|].
  rewrite E in *. cbn [app] in *. rewrite skip_ws_plain by (unfold isspace; lia). rewrite sign_plain by lia. rewrite Hk, num_end by done.
  rewrite (proj2 (Z.leb_gt _ _)) by lia. cbn. unfold u32. by rewrite Z.mod_small.
Qed.
Lemma word_plain w : forall k r, Forall (fun c => isspace c = false) w -> (length w <= k)%nat -> word k (w ++ 32 :: r) = (w, 32 :: r).
Proof.
  induction w as [|c w IH]; intros k r Hw Hk; cbn [app].
  - by destruct k.
  - inversion_clear Hw as [|? ? Hc Hw']. destruct k as [|k]; [cbn in Hk; lia|]. cbn [word]. rewrite Hc. by rewrite IH by (try done; cbn in Hk; lia).
Qed.
Lemma hex_of_plain l : are_bytes l -> Forall (fun c => isspace c = false) (hex_of l).
Proof.
  induction 1 as [|b l Hb _ IH]; [done|]. destruct (nibbles b Hb) as [B1 B2]. pose proof (hexdigit_range _ B1). pose proof (hexdigit_range _ B2).
  change (hex_of (b :: l)) with (hexdigit (b / 16) :: hexdigit (b mod 16) :: hex_of l). repeat constructor; [unfold isspace; lia|unfold isspace; lia|done].
Qed.
Lemma hex_of_length l : length (hex_of l) = (2 * length l)%nat.
Proof. induction l as [|b l IH]; [done|]. change (hex_of (b :: l)) with (hexdigit (b / 16) :: hexdigit (b mod 16) :: hex_of l). cbn [length]. rewrite IH. lia. Qed.
Lemma scan_s_word w k r : w <> [] -> Forall (fun c => isspace c = false) w -> (length w <= k)%nat -> scan_s k (32 :: w ++ 32 :: r) = Some (w, 32 :: r).
Proof.
  intros Hn Hw Hk. unfold scan_s. cbn [skip_ws]. change (isspace 32) with true. cbv iota.
  destruct w as [|c w]; [done|]. inversion Hw; subst. cbn [app]. rewrite skip_ws_plain by done.
  change (c :: w ++ 32 :: r) with ((c :: w) ++ 32 :: r). by rewrite word_plain.
Qed.
Lemma hexin_hex_of l : are_bytes l -> hexin (length l) (hex_of l) = Some l.
Proof.
  induction 1 as [|b l Hb _ IH]; [done|]. destruct (nibbles b Hb) as [B1 B2]. pose proof (hexdigit_range _ B1) as R.
  change (hex_of (b :: l)) with (hexdigit (b / 16) :: hexdigit (b mod 16) :: hex_of l). cbn [length hexin].
  assert (E : scan_hhx (hexdigit (b / 16) :: hexdigit (b mod 16) :: hex_of l) = Some b).
  { unfold scan_hhx. rewrite !hexval_digit by done. rewrite !(proj2 (Z.eqb_neq _ _)) by lia. f_equal. pose proof (Z.div_mod b 16). lia. }
  rewrite E. cbn [mbind option_bind drop]. 
  by rewrite drop_0, IH.
Qed.

(** ** Lines *)
Lemma gets_line w : forall k r, Forall (fun c => c <> 10) w -> (length w < k)%nat -> gets k (w ++ 10 :: r) = (w ++ [10], r).
Proof.
  induction w as [|c w IH]; intros k r Hw Hk; (destruct k as [|k]; [cbn in Hk; lia|]); [done|].
  inversion_clear Hw as [|? ? Hc Hw']. cbn [app gets]. rewrite (proj2 (Z.eqb_neq _ _)) by done. rewrite IH by (try done; cbn in Hk; lia). done.
Qed.
(** A line but for its end *)
Definition bond_words (b : bond) : bytes :=
  hex12 (b_addr b) ++ [32] ++ dec (b_type b) ++ [32] ++ dec (b_sc b) ++ [32] ++ dec (b_keysize b) ++ [32] ++ dec (b_ediv b) ++ [32] ++
  hexout (b_ltk b) ++ hexout (b_rand b) ++ (match b_irk b with Some irk => hexout irk | None => str "- " end).
Lemma bond_line_words b : bond_line b = bond_words b ++ [10].
Proof. unfold bond_line, bond_words. by rewrite <- !app_assoc. Qed.
Lemma dec_length v : (length (dec v) <= 21)%nat.
Proof.
  assert (D : forall fuel x acc, (length (digits fuel x acc) <= fuel + length acc)%nat).
  { induction fuel as [|fuel IH]; intros x acc; [cbn; lia|]. cbn [digits]. case_match; [cbn; lia|]. etrans; [apply IH|]. cbn. lia. }
  unfold dec. case_match; [cbn [length]; apply le_n_S|apply Nat.le_le_succ_r]; apply D.
Qed.
Lemma no_lf_digits l : Forall (fun c => 48 <= c <= 57) l -> Forall (fun c => c <> 10) l.
Proof. intros H. eapply list.Forall_impl; [exact H|]. intros c Hc. cbn in *. lia. Qed.
Lemma no_lf_hex l : are_bytes l -> Forall (fun c => c <> 10) (hex_of l).
Proof. intros H. eapply list.Forall_impl; [by apply hex_of_plain|]. intros c Hc ->. done. Qed.
Lemma bond_words_fit b : bond_ok b -> Forall (fun c => c <> 10) (bond_words b) /\ (length (bond_words b) < 254)%nat.
Proof.
  intros (Ha & (H1 & H2 & H3 & H4) & (L1 & L2) & (R1 & R2) & I). unfold bond_words, hexout, hex12. split.
  - rewrite !Forall_app. split_and!; try (by repeat constructor); try (apply no_lf_digits, dec_digits; lia); try (by apply no_lf_hex).
    + apply no_lf_hex, Forall_rev, le_bytes_are_bytes.
    + destruct (b_irk b) as [irk|]; [destruct I; rewrite Forall_app; split; [by apply no_lf_hex|by repeat constructor]|by repeat constructor].
  - pose proof (dec_length (b_type b)). pose proof (dec_length (b_sc b)). pose proof (dec_length (b_keysize b)). pose proof (dec_length (b_ediv b)).
    assert (Hi : (length (match b_irk b with Some irk => hex_of irk ++ [32%Z] | None => str "- " end) <= 33)%nat).
    { destruct (b_irk b) as [irk|]; [destruct I as [_ I]; rewrite length_app, hex_of_length, I|]; cbn; lia. }
    rewrite !length_app, !hex_of_length, L2, R2, be_bytes_length. cbn [length]. lia.
Qed.
Lemma bond_of_line b : bond_ok b -> bond_of (bond_words b ++ [10]) = Some b.
Proof.
  intros (Ha & (H1 & H2 & H3 & H4) & (L1 & L2) & (R1 & R2) & I). unfold bond_of, bond_words, hexout. rewrite <- !app_assoc. cbn [app].
  rewrite scan_llx_hex12 by done. cbn [mbind option_bind].
  do 4 (rewrite scan_u_dec by done; cbn [mbind option_bind]).
  rewrite scan_s_word; [|intros E; apply (f_equal length) in E; rewrite hex_of_length, L2 in E; done|by apply hex_of_plain|rewrite hex_of_length, L2; lia].
  cbn [mbind option_bind].
  rewrite scan_s_word; [|intros E; apply (f_equal length) in E; rewrite hex_of_length, R2 in E; done|by apply hex_of_plain|rewrite hex_of_length, R2; lia].
  cbn [mbind option_bind].
  pose proof (hexin_hex_of _ L1) as X1. pose proof (hexin_hex_of _ R1) as X2. rewrite L2 in X1. rewrite R2 in X2.
  destruct b as [a ty sc ks ed ltk rnd [irk|]]; cbn [b_addr b_type b_sc b_keysize b_ediv b_ltk b_rand b_irk] in *.
  - destruct I as [I1 I2]. pose proof (hexin_hex_of _ I1) as X3. rewrite I2 in X3. rewrite <- app_assoc. cbn [app].
    rewrite scan_s_word; [|intros E; apply (f_equal length) in E; rewrite hex_of_length, I2 in E; done|by apply hex_of_plain|rewrite hex_of_length, I2; lia].
    cbn [mbind option_bind]. by rewrite X1; cbn [mbind option_bind]; rewrite X2, X3.
  - cbn [mbind option_bind app str]. by rewrite X1; cbn [mbind option_bind]; rewrite X2.
Qed.
Lemma bonds_read_lines bs : forall fuel done, Forall bond_ok bs -> (length done + length bs <= MAX_BONDS)%nat -> (length (bonds_text bs) <= fuel)%nat ->
  bonds_read fuel (bonds_text bs) done = done ++ bs.
Proof.
  induction bs as [|b bs IH]; intros fuel done Hb Hn Hf.
  - rewrite app_nil_r. destruct fuel as [|fuel]; [done|]. cbn. by case_match.
  - inversion_clear Hb as [|? ? B Bs]. destruct (bond_words_fit b B) as [W1 W2].
    assert (Et : bonds_text (b :: bs) = bond_words b ++ 10 :: bonds_text bs).
    { unfold bonds_text. rewrite bind_cons, bond_line_words. by rewrite <- app_assoc. }
    rewrite Et, length_app in Hf. cbn [length] in *. destruct fuel as [|fuel]; [lia|]. cbn [bonds_read].
    rewrite (proj2 (Nat.leb_gt _ _)) by lia. rewrite Et.
    destruct (bond_words b ++ 10 :: bonds_text bs) as [|x y] eqn:E; [by destruct (bond_words b)|]. rewrite <- E.
    rewrite gets_line by (try done; lia). rewrite bond_of_line by done. rewrite IH; [by rewrite <- app_assoc|done| |lia].
    rewrite length_app. cbn [length]. lia.
Qed.

(** The bonds survive a restart: what bonds_save writes, bonds_load reads back, every key of
    every device, whether it has an IRK or not. *)
Theorem bonds_survive_restart bs : Forall bond_ok bs -> (length bs <= MAX_BONDS)%nat -> bonds_load (Some (bonds_text bs)) = bs.
Proof. intros Hb Hn. unfold bonds_load. by apply (bonds_read_lines bs (length (bonds_text bs)) []). Qed.

(** ** Forgetting *)
Lemma bond_forget_last bs x : bond_forget (length bs) (bs ++ [x]) = bs.
Proof.
  unfold bond_forget. rewrite length_app. cbn [length]. replace (length bs + 1 - 1)%nat with (length bs) by lia.
  rewrite take_insert, decide_False by lia. apply take_app_length.
Qed.
Lemma bond_forget_inner bs i b x : bs !! i = Some b -> bond_forget i (bs ++ [x]) = <[i := x]> bs.
Proof.
  intros Hi. pose proof (lookup_lt_Some _ _ _ Hi). unfold bond_forget. rewrite length_app. cbn [length]. replace (length bs + 1 - 1)%nat with (length bs) by lia.
  rewrite (list_lookup_total_correct (bs ++ [x]) (length bs) x) by (rewrite lookup_app_r, Nat.sub_diag by lia; done).
  rewrite insert_app_l by lia. rewrite take_app_length'; [done|]. by rewrite length_insert.
Qed.
(** One bond goes, the others stay *)
Lemma bond_forget_perm bs i b : bs !! i = Some b -> bs ≡ₚ b :: bond_forget i bs.
Proof.
  intros Hi. pose proof (lookup_lt_Some _ _ _ Hi) as L. destruct (exists_last (l := bs)) as (cs & x & ->); [intros ->; cbn in L; lia|].
  rewrite length_app in L. cbn in L. destruct (decide (i = length cs)) as [->|Hne].
  - rewrite bond_forget_last. rewrite lookup_app_r, Nat.sub_diag in Hi by lia. cbn in Hi. simplify_eq. by rewrite Permutation_app_comm.
  - rewrite lookup_app_l in Hi by lia. rewrite (bond_forget_inner _ _ b) by done. rewrite Permutation_app_comm. cbn [app].
    rewrite <- (take_drop_middle _ _ _ Hi) at 1. rewrite (insert_take_drop cs i x) by lia. solve_Permutation.
Qed.
Lemma bond_forget_length bs i : (i < length bs)%nat -> length (bond_forget i bs) = (length bs - 1)%nat.
Proof. intros H. destruct (lookup_lt_is_Some_2 _ _ H) as [b Hb]. rewrite (Permutation_length (bond_forget_perm _ _ _ Hb)). cbn. lia. Qed.

Lemma bond_forget_from bs i j b : (i < length bs)%nat -> (i <= j)%nat -> bond_forget i bs !! j = Some b -> exists k, (S i <= k)%nat /\ bs !! k = Some b.
Proof.
  intros L Hj. destruct (exists_last (l := bs)) as (cs & x & ->); [intros ->; cbn in L; lia|]. rewrite length_app in L. cbn in L.
  destruct (decide (i = length cs)) as [->|Hne].
  - rewrite bond_forget_last. intros Hb. apply lookup_lt_Some in Hb. lia.
  - destruct (lookup_lt_is_Some_2 cs i) as [y Hy]; [lia|]. rewrite (bond_forget_inner _ _ y) by done. intros Hb.
    apply list_lookup_insert_Some in Hb. destruct Hb as [(-> & -> & _)|(Hij & Hb)].
    + exists (length cs). split; [lia|]. by rewrite lookup_app_r, Nat.sub_diag by lia.
    + exists j. split; [lia|]. by apply lookup_app_l_Some.
Qed.
Lemma filter_all (P : bond -> Prop) `{!forall b, Decision (P b)} (bs : list bond) : (forall b, b ∈ bs -> P b) -> filter P bs = bs.
Proof. induction bs as [|b bs IH]; intros Hb; [done|]. rewrite filter_cons_True by (apply Hb; left). rewrite IH; [done|]. intros x Hx. apply Hb. by right. Qed.
Lemma unpair_loop_keeps addr : forall i bs, (i <= length bs)%nat -> (forall j b, (i <= j)%nat -> bs !! j = Some b -> to_forget addr b = false) ->
  unpair_loop addr i bs ≡ₚ filter (fun b => to_forget addr b = false) bs.
Proof.
  induction i as [|i IH]; intros bs L H; cbn [unpair_loop].
  - rewrite filter_all; [done|]. intros b (j & Hb)%list_elem_of_lookup. apply (H j); [lia|done].
  - destruct (lookup_lt_is_Some_2 bs i) as [b Hb]; [lia|]. rewrite (list_lookup_total_correct _ _ _ Hb).
    destruct (to_forget addr b) eqn:E.
    + rewrite IH; [|rewrite bond_forget_length by lia; lia|].
      * rewrite (bond_forget_perm _ _ _ Hb) at 2. by rewrite filter_cons_False by congruence.
      * intros j b' Hj Hb'. destruct (bond_forget_from bs i j b') as (k & Hk & Hk'); [lia|done|done|]. by apply (H k).
    + apply IH; [lia|]. intros j b' Hj Hb'. destruct (decide (j = i)) as [->|]; [congruence|]. apply (H j); [lia|done].
Qed.
(** Unpairing forgets a device and no other: of the bonds, those for its address or made with
    the identity key its private address resolves with are gone, all of them, and every other
    bond stays. *)
Theorem unpair_forgets addr bs : unpair addr bs ≡ₚ filter (fun b => to_forget addr b = false) bs.
Proof. apply unpair_loop_keeps; [done|]. intros j b Hj Hb. apply lookup_lt_Some in Hb. lia. Qed.

(** ** Remembering *)
Definition bond_key (b : bond) : Z * Z := (b_addr b, b_type b).
Definition keys_ok (bs : list bond) : Prop := (length bs <= MAX_BONDS)%nat /\ NoDup (map bond_key bs).
Lemma same_addr_key addr type b : same_addr addr type b = true <-> bond_key b = (addr, type).
Proof. unfold same_addr, bond_key. rewrite andb_true_iff, !Z.eqb_eq. split; [by intros [-> ->]|by intros [= -> ->]]. Qed.

Lemma bond_for_lookup addr type bs i : bond_for addr type bs = Some i -> exists b, bs !! i = Some b /\
  (bond_key b = (addr, type) \/ (by_irk addr b = true /\ forall x, x ∈ bs -> bond_key x <> (addr, type))).
Proof.
  unfold bond_for. destruct (find_index (same_addr addr type) bs) as [k|] eqn:E.
  - intros [= <-]. destruct (find_index_Some _ _ _ E) as (b & Hb & Hs & _). exists b. split; [done|]. left. by apply same_addr_key.
  - case_match; [|done]. intros H'. destruct (find_index_Some _ _ _ H') as (b & Hb & Hs & _). exists b. split; [done|]. right. split; [done|].
    intros x Hx Hk. apply same_addr_key in Hk. rewrite find_index_None in E. by rewrite E in Hk.
Qed.
Lemma bond_for_none addr type bs : bond_for addr type bs = None -> forall x, x ∈ bs -> bond_key x <> (addr, type).
Proof.
  unfold bond_for. destruct (find_index (same_addr addr type) bs) as [k|] eqn:E; [done|]. intros _ x Hx Hk. apply same_addr_key in Hk.
  rewrite find_index_None in E. by rewrite E in Hk.
Qed.
Lemma bond_for_key addr type bs b : b ∈ bs -> NoDup (map bond_key bs) -> bond_key b = (addr, type) ->
  exists i, bond_for addr type bs = Some i /\ bs !! i = Some b.
Proof.
  intros Hb Hn Hk. unfold bond_for. destruct (find_index (same_addr addr type) bs) as [k|] eqn:E.
  - exists k. split; [done|]. destruct (find_index_Some _ _ _ E) as (b' & Hb' & Hs & _). apply same_addr_key in Hs.
    apply list_elem_of_lookup in Hb. destruct Hb as [j Hj]. assert (j = k) as ->; [|done].
    eapply (NoDup_lookup (map bond_key bs)); [done|rewrite list_lookup_fmap, Hj; cbn; by rewrite Hk|rewrite list_lookup_fmap, Hb'; cbn; by rewrite Hs].
  - rewrite find_index_None in E. apply same_addr_key in Hk. by rewrite E in Hk.
Qed.
Lemma replaced_perm (bs : list bond) i old b : bs !! i = Some old -> old :: <[i := b]> bs ≡ₚ b :: bs.
Proof.
  intros Hi. pose proof (lookup_lt_Some _ _ _ Hi). rewrite insert_take_drop by done. rewrite <- (take_drop_middle _ _ _ Hi) at 3. solve_Permutation.
Qed.

Lemma replaced_keys (bs : list bond) i old b : bs !! i = Some old -> NoDup (map bond_key bs) ->
  (forall x, x ∈ bs -> bond_key old = bond_key b \/ bond_key x <> bond_key b) -> NoDup (map bond_key (<[i := b]> bs)).
Proof.
  intros Ho Hn H. pose proof (lookup_lt_Some _ _ _ Ho). set (rest := take i bs ++ drop (S i) bs).
  assert (P1 : bs ≡ₚ old :: rest) by (rewrite <- (take_drop_middle _ _ _ Ho) at 1; unfold rest; solve_Permutation).
  assert (P2 : <[i := b]> bs ≡ₚ b :: rest) by (rewrite insert_take_drop by done; unfold rest; solve_Permutation).
  rewrite (Permutation_map bond_key P2). rewrite (Permutation_map bond_key P1) in Hn. cbn [map] in *. inversion_clear Hn as [|? ? N1 N2].
  constructor; [|done]. intros (x & Hk & Hx)%list_elem_of_fmap. destruct (H x) as [E|E]; [rewrite P1; by right| |by rewrite Hk in E].
  apply N1. rewrite E, Hk. apply list_elem_of_fmap. by exists x.
Qed.
Lemma new_keys b (bs : list bond) : NoDup (map bond_key bs) -> (forall x, x ∈ bs -> bond_key x <> bond_key b) -> NoDup (map bond_key (bs ++ [b])).
Proof.
  intros Hn H. rewrite map_app. apply list.NoDup_app. split_and!; [done| |apply NoDup_singleton].
  intros k (x & -> & Hx)%list_elem_of_fmap. cbn. intros Hk. apply list_elem_of_singleton in Hk. by apply (H x).
Qed.

(** A bond made is kept, once: a device that was paired is found again with the keys of the
    last pairing; there are at most sixteen bonds, one for an address; and no other bond
    goes but the device's old one or, with all sixteen taken, one. *)
Theorem remember_keeps b bs : keys_ok bs ->
  let bs' := remember (b_addr b) (b_type b) b bs in
  keys_ok bs' /\
  (exists i, bond_for (b_addr b) (b_type b) bs' = Some i /\ bs' !! i = Some b) /\
  (bs' ≡ₚ b :: bs /\ bond_for (b_addr b) (b_type b) bs = None \/
   exists old, old :: bs' ≡ₚ b :: bs /\
     ((exists i, bond_for (b_addr b) (b_type b) bs = Some i /\ bs !! i = Some old) \/ length bs = MAX_BONDS)).
Proof.
  intros [Hl Hn] bs'. assert (P : keys_ok bs' /\
    (bs' ≡ₚ b :: bs /\ bond_for (b_addr b) (b_type b) bs = None \/
     exists old, old :: bs' ≡ₚ b :: bs /\ ((exists i, bond_for (b_addr b) (b_type b) bs = Some i /\ bs !! i = Some old) \/ length bs = MAX_BONDS))).
  { unfold bs', remember. destruct (bond_for (b_addr b) (b_type b) bs) as [i|] eqn:E.
    - destruct (bond_for_lookup _ _ _ _ E) as (old & Ho & Hk). split; [|right; exists old; split; [by apply replaced_perm|left; by exists i]].
      split; [by rewrite length_insert|]. apply (replaced_keys _ _ old); [done|done|]. intros x Hx. destruct Hk as [Hk|[_ Hk]]; [by left; rewrite Hk|right].
      by apply Hk.
    - pose proof (bond_for_none _ _ _ E) as Hk. destruct (Nat.eqb_spec (length bs) MAX_BONDS) as [Ef|Ef].
      + destruct bs as [|old bs]; [done|]. pose proof (bond_forget_perm (old :: bs) 0 old eq_refl) as Pm. set (cs := bond_forget 0 (old :: bs)) in *. clearbody cs.
        assert (Lc : length cs = length bs) by (apply Permutation_length in Pm; cbn in Pm; lia).
        split; [split|right; exists old; split; [|by right]].
        * rewrite length_app, Lc. cbn in *. lia.
        * apply (new_keys b cs).
          -- rewrite (Permutation_map bond_key Pm) in Hn. by inversion Hn.
          -- intros x Hx. apply Hk. rewrite Pm. by right.
        * rewrite Pm. solve_Permutation.
      + split; [split|left; split; [by rewrite Permutation_app_comm|done]]; [rewrite length_app; cbn; lia|by apply new_keys]. }
  destruct P as [K P]. split; [done|]. split; [|done].
  apply bond_for_key; [|apply K|done]. unfold bs', remember. destruct (bond_for _ _ bs) as [i|] eqn:E.
  - destruct (bond_for_lookup _ _ _ _ E) as (old & Ho & _). apply list_elem_of_lookup. exists i. apply list_lookup_insert_eq. by apply lookup_lt_Some in Ho.
  - apply elem_of_app. right. left.
Qed.
