(* ===== verification/BleFrame.v ===== *)
(** * Bluetooth LE: the GATT client leaves the rest of a connection alone
    What the pairing of a connection is made of, its packets at the controller and whether it is
    one ([keyed], [held]) are the same after every packet of ATT and every request begun. *)
From S2P Require Import Prelude Cbits BleCrypto Ble.

Definition held (c : conn) : Z * bool := (unacked c, bool_decide (state c = C_FREE)).
Definition keyed (c : conn) : smp * bytes * bool * (Z * Z) * (Z * bool) := (pairing c, enc_ltk c, enc c, (addr c, addr_type c), held c).

Section frame.
Context (now : Z).
Ltac branches := repeat (case_match; try reflexivity).

Lemma begin_op_keyed o c : keyed (begin_op now o c) = keyed c.
Proof. unfold begin_op, send_read. cbv zeta. destruct (kind o); [destruct (db _); reflexivity|destruct (_ =? _)%nat; reflexivity|]. destruct (negb _); [reflexivity|]. by destruct (_ <=? _)%nat. Qed.
Lemma start_loop_keyed l : forall c, keyed (start_loop now l c) = keyed c.
Proof. induction l as [|o l IH]; intros c; [done|]. cbn [start_loop]. case_match; [|done]. by rewrite IH, begin_op_keyed. Qed.
Lemma start_op_keyed c : keyed (start_op now c) = keyed c.
Proof. apply start_loop_keyed. Qed.
Lemma op_done_keyed c : keyed (op_done now c) = keyed c.
Proof. unfold op_done. by rewrite start_op_keyed. Qed.
Lemma op_fail_keyed h e c : keyed (op_fail now h e c) = keyed c.
Proof. unfold op_fail. by rewrite op_done_keyed. Qed.
Lemma disc_next_keyed fuel : forall c, keyed (disc_next now fuel c) = keyed c.
Proof.
  induction fuel as [|fuel IH]; intros c; [done|]. cbn [disc_next]. destruct (db c) as [d|]; [|done].
  destruct (phase c =? 0)%nat; [done|]. destruct (phase c =? 1)%nat.
  - destruct (_ <=? _)%nat; [by rewrite IH|]. destruct (next c =? 0); destruct (_ <? _); try (by rewrite IH); done.
  - destruct (_ <=? _)%nat; [by rewrite op_done_keyed|]. destruct (next c =? 0); destruct (_ <? _); try (by rewrite IH); done.
Qed.
Lemma onward_keyed last c : keyed (onward last c) = keyed c.
Proof. unfold onward. by destruct (_ <? _). Qed.
Lemma disc_rx_keyed p c : keyed (disc_rx now p c) = keyed c.
Proof.
  unfold disc_rx, disc_go. destruct (db c) as [d|]; [|done]. cbv zeta. destruct (at_ p 0 =? ATT_ERROR).
  { destruct (_ || _); [apply op_fail_keyed|]. rewrite disc_next_keyed. by destruct (_ =? _)%nat. }
  destruct (_ && _ && _ && _); [rewrite disc_next_keyed; by destruct (_ || _)|].
  destruct (_ && _ && _ && _); [by rewrite disc_next_keyed, onward_keyed|].
  destruct (_ && _ && _); [by rewrite disc_next_keyed, onward_keyed|apply op_fail_keyed].
Qed.
Lemma read_rx_keyed o p c : keyed (read_rx now o p c) = keyed c.
Proof.
  unfold read_rx. destruct (_ && _); [done|]. cbv zeta. destruct (_ && _); [|by rewrite op_done_keyed]. unfold send_read. by destruct (_ =? _)%nat.
Qed.
Lemma write_rx_keyed o p c : keyed (write_rx now o p c) = keyed c.
Proof.
  unfold write_rx. destruct (_ =? _); [cbv zeta; by destruct (_ <? _)%nat|]. destruct (_ && _); [done|]. by rewrite op_done_keyed.
Qed.
Lemma answer_rx_keyed p c : keyed (answer_rx now p c) = keyed c.
Proof.
  unfold answer_rx. destruct (cur c) as [o|]; [|done]. destruct (kind o); [apply disc_rx_keyed|..]; (destruct (_ =? _); [cbv zeta|apply read_rx_keyed || apply write_rx_keyed]).
  - destruct (_ && _); [by rewrite op_done_keyed|apply op_fail_keyed].
  - apply op_fail_keyed.
Qed.
Lemma att_rx_keyed p c : keyed (att_rx now p c) = keyed c.
Proof.
  unfold att_rx. destruct (_ =? _)%nat; [done|]. cbv zeta. destruct (_ || _); [destruct (_ =? ATT_INDICATE); by destruct (_ <=? _)%nat|].
  destruct (_ =? _); [by destruct (_ <=? _)%nat|]. destruct (_ && _); [by destruct (negb _)|]. destruct (_ && _ && _); [done|].
  destruct (bool_decide_reflect (state c = C_MTU)) as [Hs|Hs]; [|apply answer_rx_keyed]. cbn [andb]. destruct (_ || _); [|apply answer_rx_keyed].
  unfold mtu_agreed. rewrite start_op_keyed. unfold keyed, held. destruct (_ && _); [cbn; by rewrite Hs|]. destruct (peer_mtu c); cbn; by rewrite Hs.
Qed.
Lemma keyed_eq c c' : keyed c' = keyed c ->
  pairing c' = pairing c /\ enc_ltk c' = enc_ltk c /\ enc c' = enc c /\ addr c' = addr c /\ addr_type c' = addr_type c.
Proof. intros H. pose proof (f_equal fst H) as E. unfold keyed in E. cbn in E. by injection E. Qed.
Lemma keyed_held c c' : keyed c' = keyed c -> held c' = held c.
Proof. intros H. exact (f_equal snd H). Qed.
End frame.
