(* ===== verification/BlePair.v ===== *)
(** * Bluetooth LE: pairing (ble.c)
    The Security Manager's initiator, legacy and LE Secure Connections, over one connection
    and the list of bonds.  [pst] is both; [have_sc], [local_pk] and [own_addr] are the
    controller's, set before any connection.  What random_bytes reads is given with the packet
    it is read for. *)
From S2P Require Import Prelude Cbits BleCrypto BleSpec Ble BleBonds.

Record pst := mk_pst { pc : conn; bonds : list bond }.
Definition HCI_E_UNKNOWN_CONN : Z := 0x02.

(** bytes_reverse() into a buffer of the same size, which it fills *)
Definition reversed (l : bytes) : bytes := bytes_reverse l (zeros (length l)).
Definition addr_a (type : Z) (ab : bytes) : bytes := type :: reversed ab.
(** x and y of a P-256 point, each the other way round *)
Definition swap_coords (k : bytes) : bytes := reversed (take 32 k) ++ reversed (take 32 (drop 32 k)).
(** [memset(k + keysize, 0, 16 - keysize)] *)
Definition shorten (keysize : Z) (k : bytes) : bytes := take (Z.to_nat keysize) k ++ zeros (16 - Z.to_nat keysize).
Definition on_c (f : conn -> conn) (s : pst) : pst := s <| pc := f (pc s) |>.
Definition upd_smp (f : smp -> smp) (c : conn) : conn := c <| pairing := f (pairing c) |>.
Definition to (st : sstate) : conn -> conn := upd_smp (fun m => m <| s_state := st |>).

Section pair.
Context (now : Z) (have_sc : bool) (local_pk own_addr : bytes).

Definition pair_done (ok : bool) (err : Z) (c : conn) : conn :=
  let was := asked (pairing c) in
  let c := upd_smp (fun m => m <| s_state := S_IDLE |>) c in
  upd_smp (fun m => m <| asked := false |>) (if was then emit (Paired ok err) c else c).
Definition smp_fail (reason : Z) (c : conn) : conn := pair_done false reason (smp_send [0x05; reason] c).
Definition encrypt_with (ltk rand : bytes) (ediv : Z) (c : conn) : conn :=
  c <| enc_ltk := ltk |> <| enc_rand := rand |> <| enc_ediv := ediv |> <| need_enc := true |> <| enc_pending := true |>.
Definition encrypt_bond (b : bond) : conn -> conn := encrypt_with (b_ltk b) (b_rand b) (b_ediv b).
Definition smp_start (c : conn) : conn :=
  let p := [0x01; 0x03; 0x00; if have_sc then 0x09 else 0x01; 16; 0x00; 0x03] in
  let m := smp0 <| asked := asked (pairing c) |> <| preq := p |> <| s_state := S_RSP |> <| s_t := now |> in
  smp_send p (c <| pairing := m |>).
(** The bond for the connection's device *)
Definition bond_of_conn (s : pst) : option bond :=
  i ← bond_for (addr (pc s)) (addr_type (pc s)) (bonds s); bonds s !! i.
Definition has_key (m : smp) : bool := sc m || (Z.land (got m) 3 =? 3).
Definition bond_made (c : conn) : bond :=
  let m := pairing c in
  mk_bond (addr c) (addr_type c) (if sc m then 1 else 0) (keysize m) (if sc m then 0 else s_ediv m)
    (if sc m then enc_ltk c else s_ltk m) (if sc m then zeros 8 else s_rand m) (if Z.land (got m) 4 =? 0 then None else Some (s_irk m)).
Definition save (s : pst) : pst := on_c (emit BondsSaved) s.
Definition smp_finish (s : pst) : pst :=
  let c := pc s in
  let full := match bond_for (addr c) (addr_type c) (bonds s) with None => (length (bonds s) =? MAX_BONDS)%nat | Some _ => false end in
  let s := if has_key (pairing c)
           then save ((if full then save s else s) <| bonds := remember (addr c) (addr_type c) (bond_made c) (bonds s) |>)
           else s in
  on_c (pair_done true 0) s.

(** ** What the device sends *)
Definition rx_rsp (p r : bytes) (c : conn) : conn :=
  let ra := addr_bytes (addr c) in
  let m := pairing c in
  let sc_ := have_sc && negb (Z.land (Z.land (at_ (preq m) 3) (at_ p 3)) 0x08 =? 0) in
  let ks := if at_ p 4 <? 16 then at_ p 4 else 16 in
  let c := upd_smp (fun m => m <| pres := take 7 p |> <| sc := sc_ |> <| keysize := ks |>) c in
  if ks <? 7 then smp_fail 0x06 c else
  let dist := Z.land (at_ (preq m) 6) (at_ p 6) in
  let w := Z.lor (if negb sc_ && negb (Z.land dist 1 =? 0) then 0x03 else 0) (if Z.land dist 2 =? 0 then 0 else 0x0c) in
  let c := upd_smp (fun m => m <| want := w |>) c in
  if sc_ then to S_PK (smp_send (0x0c :: local_pk) c) else
  let c := upd_smp (fun m => m <| rnd := r |>) c in
  to S_CONFIRM (smp_send (0x03 :: smp_c1 (zeros 16) r (preq m) (take 7 p) 0 own_addr (addr_type c) ra) c).
Definition rx_random (p : bytes) (c : conn) : conn :=
  let ra := addr_bytes (addr c) in
  let c := upd_smp (fun m => m <| peer_rnd := take 16 (drop 1 p) |>) c in
  let m := pairing c in
  if negb (bool_decide (smp_c1 (zeros 16) (peer_rnd m) (preq m) (pres m) 0 own_addr (addr_type c) ra = conf m)) then smp_fail 0x04 c else
  to S_ENC (encrypt_with (shorten (keysize m) (smp_s1 (zeros 16) (peer_rnd m) (rnd m))) (zeros 8) 0 c).
Definition rx_pk (p : bytes) (c : conn) : conn :=
  let c := upd_smp (fun m => m <| pkb := take 64 (drop 1 p) |>) c in
  if bool_decide (take 32 (pkb (pairing c)) = take 32 local_pk) then smp_fail 0x08 c else to S_CB c.
Definition rx_nb (p : bytes) (c : conn) : conn :=
  let c := upd_smp (fun m => m <| peer_rnd := take 16 (drop 1 p) |>) c in
  let m := pairing c in
  let o := smp_f4 (reversed (take 32 (pkb m))) (reversed (take 32 local_pk)) (reversed (peer_rnd m)) 0 in
  if negb (bool_decide (reversed o = conf m)) then smp_fail 0x04 c
  else to S_DHKEY (c <| need_dhkey := true |>).
(** The capabilities, method and key sizes of a pairing request or response, as f6 wants them *)
Definition iocap (p : bytes) : bytes := [at_ p 3; at_ p 2; at_ p 1].
Definition peer_check (c : conn) : bytes :=
  let m := pairing c in
  reversed (smp_f6 (mackey m) (reversed (peer_rnd m)) (reversed (rnd m)) (zeros 16) (iocap (pres m))
              (addr_a (addr_type c) (addr_bytes (addr c))) (addr_a 0 own_addr)).
Definition rx_eb (p : bytes) (c : conn) : conn :=
  if negb (bool_decide (peer_check c = take 16 (drop 1 p))) then smp_fail 0x0b c
  else to S_ENC (encrypt_with (enc_ltk c) (zeros 8) 0 c).
(** A key the device hands over; [None]: not one *)
Definition key_rx (p : bytes) (m : smp) : option smp :=
  let n := length p in
  if (at_ p 0 =? 0x06) && (17 <=? n)%nat then Some (m <| s_ltk := take 16 (drop 1 p) |> <| got := Z.lor (got m) 1 |>)
  else if (at_ p 0 =? 0x07) && (11 <=? n)%nat then Some (m <| s_ediv := get16 p 1 |> <| s_rand := take 8 (drop 3 p) |> <| got := Z.lor (got m) 2 |>)
  else if (at_ p 0 =? 0x08) && (17 <=? n)%nat then Some (m <| s_irk := take 16 (drop 1 p) |> <| got := Z.lor (got m) 4 |>)
  else if (at_ p 0 =? 0x09) && (8 <=? n)%nat then Some (m <| s_id := take 7 (drop 1 p) |> <| got := Z.lor (got m) 8 |>)
  else None.
Definition rx_keys (p : bytes) (s : pst) : pst :=
  match key_rx p (pairing (pc s)) with
  | Some m =>
      let s := on_c (fun c => c <| pairing := m |>) s in
      if Z.land (got m) (want m) =? want m then smp_finish s else s
  | None => if at_ p 0 =? 0x0a then s else on_c (smp_fail 0x08) s
  end.
(** [r]: 16 random bytes, where they are read *)
Definition smp_step (p r : bytes) (s : pst) : pst :=
  let n := length p in
  let got_pdu code min := (at_ p 0 =? code) && (min <=? n)%nat in
  let unexpected := on_c (smp_fail 0x08) s in
  match s_state (pairing (pc s)) with
  | S_RSP => if got_pdu 0x02 7%nat then on_c (rx_rsp p r) s else unexpected
  | S_CONFIRM =>
      if got_pdu 0x03 17%nat then
        on_c (fun c => to S_RANDOM (smp_send (0x04 :: rnd (pairing c)) (upd_smp (fun m => m <| conf := take 16 (drop 1 p) |>) c))) s
      else unexpected
  | S_RANDOM => if got_pdu 0x04 17%nat then on_c (rx_random p) s else unexpected
  | S_PK => if got_pdu 0x0c 65%nat then on_c (rx_pk p) s else unexpected
  | S_CB =>
      if got_pdu 0x03 17%nat then
        on_c (fun c => to S_NB (smp_send (0x04 :: r) (upd_smp (fun m => m <| conf := take 16 (drop 1 p) |> <| rnd := r |>) c))) s
      else unexpected
  | S_NB => if got_pdu 0x04 17%nat then on_c (rx_nb p) s else unexpected
  | S_EB => if got_pdu 0x0d 17%nat then on_c (rx_eb p) s else unexpected
  | S_KEYS => rx_keys p s
  | S_IDLE | S_DHKEY | S_ENC => unexpected
  end.
Definition smp_rx (p r : bytes) (s : pst) : pst :=
  let c := pc s in
  let idle := bool_decide (s_state (pairing c) = S_IDLE) in
  if (length p =? 0)%nat then s
  else if at_ p 0 =? 0x0b then
    if negb idle || enc_pending c then s else
    match bond_of_conn s with
    | Some b => if enc c then s else on_c (encrypt_bond b) s
    | None => on_c smp_start s
    end
  else if at_ p 0 =? 0x05 then if idle then s else on_c (pair_done false (if (2 <=? length p)%nat then at_ p 1 else 0x08)) s
  else if at_ p 0 =? 0x01 then on_c (smp_send [0x05; 0x05]) s
  else if idle then s
  else smp_step p r (on_c (upd_smp (fun m => m <| s_t := now |>)) s).

(** ** What the controller says *)
(** LE Generate DHKey Complete, for this connection *)
Definition own_check (mk : bytes) (c : conn) : bytes :=
  let m := pairing c in
  reversed (smp_f6 mk (reversed (rnd m)) (reversed (peer_rnd m)) (zeros 16) (iocap (preq m))
              (addr_a 0 own_addr) (addr_a (addr_type c) (addr_bytes (addr c)))).
Definition dhkey_done (status : Z) (dh : bytes) (c : conn) : conn :=
  if negb (bool_decide (s_state (pairing c) = S_DHKEY)) then c
  else if negb (status =? 0) then smp_fail 0x0b c
  else
    let m := pairing c in
    let '(mk, ltk) := smp_f5 (take 32 dh) (reversed (rnd m)) (reversed (peer_rnd m)) (addr_a 0 own_addr) (addr_a (addr_type c) (addr_bytes (addr c))) in
    let c := upd_smp (fun m => m <| mackey := mk |>) c in
    let c := c <| enc_ltk := shorten (keysize m) (reversed ltk) |> in
    let c := smp_send (0x0d :: own_check mk c) c in
    upd_smp (fun m => m <| s_state := S_EB |> <| s_t := now |>) c.
(** Encryption Change, Encryption Key Refresh: 0 or what went wrong *)
Definition encrypted (status : Z) (s : pst) : pst :=
  let s := on_c (fun c => c <| enc_pending := false |>) s in
  let s := if mtu_retry (pc s) && bool_decide (state (pc s) = C_MTU)
           then on_c (fun c => att_send (ATT_MTU_REQ :: put16 (Z.of_nat ATT_MTU)) (c <| mtu_retry := false |> <| t := now |>)) s else s in
  let m := pairing (pc s) in
  let s :=
    if status =? 0 then
      let s := on_c (fun c => c <| enc := true |>) s in
      if bool_decide (s_state m = S_ENC) then
        if want m =? 0 then smp_finish s else on_c (upd_smp (fun m => m <| s_state := S_KEYS |> <| s_t := now |>)) s
      else if asked m && bool_decide (s_state m = S_IDLE) then on_c (pair_done true 0) s else s
    else if bool_decide (s_state m = S_ENC) then on_c (pair_done false status) s
    else
      let s := match bond_for (addr (pc s)) (addr_type (pc s)) (bonds s) with
               | Some i => if status =? 0x06 then save (s <| bonds := bond_forget i (bonds s) |>) else s
               | None => s
               end in
      if asked m then on_c (pair_done false status) s else s in
  on_c (start_op now) s.

(** ** What Home Assistant asks (R_PAIR), the timer of upkeep() *)
Definition ask_pair (s : pst) : pst :=
  let c := pc s in
  if negb (bool_decide (state c = C_MTU) || bool_decide (state c = C_UP)) then on_c (emit (Paired false HCI_E_UNKNOWN_CONN)) s else
  let s := on_c (upd_smp (fun m => m <| asked := true |>)) s in
  if negb (bool_decide (s_state (pairing c) = S_IDLE)) then s else
  match bond_of_conn s with
  | Some b => if enc c then on_c (pair_done true 0) s else if enc_pending c then s else on_c (encrypt_bond b) s
  | None => on_c smp_start s
  end.
Definition SMP_MS : Z := 30000.
Definition OP_LE_START_ENC : Z := 0x2019.
Definition OP_LE_DHKEY : Z := 0x2026.
Definition smp_upkeep (c : conn) : conn :=
  if negb (bool_decide (s_state (pairing c) = S_IDLE)) && (SMP_MS <? now - s_t (pairing c)) then smp_fail 0x08 c else c.
(** [c->state >= C_MTU] *)
Definition linked (c : conn) : bool := bool_decide (state c = C_MTU) || bool_decide (state c = C_UP) || bool_decide (state c = C_CLOSING).
(** The controller's part of the DHKey and the start of encryption, when they are due; [dh_free]: no
    DHKey is being computed; [dh_st], [enc_st]: what the controller answers *)
Definition upkeep_dhkey (dh_free : bool) (dh_st : Z) (c : conn) : conn :=
  if need_dhkey c && dh_free && linked c then
    let c := emit (Cmd OP_LE_DHKEY (swap_coords (pkb (pairing c)))) (c <| need_dhkey := false |>) in
    if dh_st =? 0 then c else smp_fail 0x08 c
  else c.
Definition upkeep_enc (enc_st : Z) (s : pst) : pst :=
  let c := pc s in
  if need_enc c && heard c && linked c && negb (bool_decide (state c = C_CLOSING)) then
    let s := on_c (fun c => emit (Cmd OP_LE_START_ENC (put16 (handle c) ++ enc_rand c ++ put16 (enc_ediv c) ++ enc_ltk c)) (c <| need_enc := false |>)) s in
    if enc_st =? 0 then s else encrypted enc_st s
  else s.
Definition upkeep_pair (dh_free : bool) (dh_st enc_st : Z) (s : pst) : pst :=
  on_c smp_upkeep (upkeep_enc enc_st (on_c (upkeep_dhkey dh_free dh_st) s)).

(** ** The connection comes up (conn_complete): encrypted at once where there is a bond *)
Definition came_up (h : Z) (s : pst) : pst :=
  let s := on_c (fun c => c <| handle := Z.land h 0x0fff |> <| state := C_MTU |> <| mtu := ATT_MTU |> <| t := now |>) s in
  if negb (cancel (pc s) =? 0) then on_c (fun c => c <| close_now := true |>) s else
  let s := match bond_of_conn s with Some b => on_c (encrypt_bond b) s | None => s end in
  on_c (att_send (ATT_MTU_REQ :: put16 (Z.of_nat ATT_MTU))) s.
End pair.
