(* ===== verification/BleAgree.v ===== *)
(** * Bluetooth LE: both ends of a pairing get the same key
    LE Secure Connections' Just Works with a device that follows the specification (Vol 3
    Part H 2.3.5.6): the initiator of BlePair and the device, message by message.  The P-256
    arithmetic is the controllers': [Dh]. *)
From S2P Require Import Prelude Cbits BleCrypto BleSpec Ble BleFrame BleBonds BlePair.

(** The public key of a secret, x then y, least significant byte first; the shared x, most significant first *)
Class Dh := { dh_pub : bytes -> bytes; dh : bytes -> bytes -> bytes }.
Class DhLaws (D : Dh) := {
  dh_agrees : forall a b, dh a (dh_pub b) = dh b (dh_pub a);
  dh_pub_length : forall a, length (dh_pub a) = 64%nat;
  dh_length : forall a p, length (dh a p) = 32%nat }.

(** ** The device, as the specification has it *)
Record device := mk_device {
  d_secret : bytes; d_addr : bytes; d_type : Z; d_rsp : bytes; d_nonce : bytes;
  d_req : bytes; d_pka : bytes; d_na : bytes; d_ltk : option bytes }.

Section agree.
Context {D : Dh} {L : DhLaws D}.
(** The initiator's address, least significant byte first *)
Context (own_addr : bytes).

Definition A1 : bytes := 0 :: rev own_addr.
Definition A2 (d : device) : bytes := d_type d :: rev (d_addr d).
Definition respond (p : bytes) (d : device) : device * list bytes :=
  let v := drop 1 p in
  if at_ p 0 =? 0x01 then (d <| d_req := p |>, [d_rsp d])
  else if at_ p 0 =? 0x0c then
    let pk := dh_pub (d_secret d) in
    (d <| d_pka := v |>, [0x0c :: pk; 0x03 :: rev (smp_f4 (rev (take 32 pk)) (rev (take 32 v)) (rev (d_nonce d)) 0)])
  else if at_ p 0 =? 0x04 then (d <| d_na := v |>, [0x04 :: d_nonce d])
  else if at_ p 0 =? 0x0d then
    let '(mk, ltk) := smp_f5 (dh (d_secret d) (d_pka d)) (rev (d_na d)) (rev (d_nonce d)) A1 (A2 d) in
    let check n1 n2 p a b := rev (smp_f6 mk n1 n2 (replicate 16 0) (iocap p) a b) in
    if bool_decide (v = check (rev (d_na d)) (rev (d_nonce d)) (d_req d) A1 (A2 d))
    then (d <| d_ltk := Some ltk |>, [0x0d :: check (rev (d_nonce d)) (rev (d_na d)) (d_rsp d) (A2 d) A1])
    else (d, [[0x05; 0x0b]])
  else (d, []).
Fixpoint respond_all (ps : list bytes) (d : device) : device * list bytes :=
  match ps with
  | [] => (d, [])
  | p :: ps => let '(d, l) := respond p d in let '(d, l') := respond_all ps d in (d, l ++ l')
  end.

(** ** The conversation *)
Context (now : Z) (secret na : bytes).
Abbreviation smp_rx := (smp_rx now true (dh_pub secret) own_addr).
Definition smp_sent (l : list out) : list bytes :=
  omap (fun x => match x with Send cid p => if cid =? CID_SMP then Some p else None | _ => None end) l.
(** [inbox]: what the device has sent.  Nothing there: the controller's answer, if one is asked for *)
Fixpoint talk (fuel : nat) (inbox : list bytes) (s : pst) (d : device) : pst * device :=
  match fuel with
  | O => (s, d)
  | S fuel =>
      match inbox with
      | p :: inbox =>
          let s' := smp_rx p na s in
          let '(d, l) := respond_all (smp_sent (drop (length (outs (pc s))) (outs (pc s')))) d in
          talk fuel (inbox ++ l) s' d
      | [] =>
          if need_dhkey (pc s) then
            let s' := on_c (fun c => dhkey_done now own_addr 0 (dh secret (pkb (pairing c))) (c <| need_dhkey := false |>)) s in
            let '(d, l) := respond_all (smp_sent (drop (length (outs (pc s))) (outs (pc s')))) d in
            talk fuel l s' d
          else (s, d)
      end
  end.

#[local] Opaque smp_f4 smp_f5 smp_f6 smp_c1 smp_s1.
(** ** A message at a time *)
Definition touch (s : pst) : pst := on_c (upd_smp (fun m => m <| s_t := now |>)) s.
Lemma smp_rx_step p r s : p <> [] -> at_ p 0 <> 0x0b -> at_ p 0 <> 0x05 -> at_ p 0 <> 0x01 -> s_state (pairing (pc s)) <> S_IDLE ->
  BlePair.smp_rx now true (dh_pub secret) own_addr p r s = smp_step true (dh_pub secret) own_addr p r (touch s).
Proof.
  intros Hp H1 H2 H3 Hs. unfold BlePair.smp_rx. rewrite (proj2 (Nat.eqb_neq _ _)) by (by destruct p). cbv zeta.
  rewrite !(proj2 (Z.eqb_neq _ _)) by done. by rewrite bool_decide_false.
Qed.
Lemma reversed_rev l : reversed l = rev l.
Proof. apply bytes_reverse_spec. unfold zeros; by rewrite length_replicate. Qed.
Lemma length_geb {A} (l : list A) n : length l = n -> (n <=? length l)%nat = true.
Proof. intros <-. apply Nat.leb_refl. Qed.

(** What no later message changes *)
Definition kept (c c' : conn) : Prop :=
  let m := pairing c in let m' := pairing c' in
  sc m' = sc m /\ preq m' = preq m /\ pres m' = pres m /\ keysize m' = keysize m /\ want m' = want m /\ got m' = got m /\ asked m' = asked m /\
  addr c' = addr c /\ addr_type c' = addr_type c.
Lemma kept_trans c1 c2 c3 : kept c1 c2 -> kept c2 c3 -> kept c1 c3.
Proof.
  intros (X1 & X2 & X3 & X4 & X5 & X6 & X7 & X8 & X9) (Y1 & Y2 & Y3 & Y4 & Y5 & Y6 & Y7 & Y8 & Y9).
  unfold kept. cbv zeta. rewrite Y1, Y2, Y3, Y4, Y5, Y6, Y7, Y8, Y9. by rewrite X1, X2, X3, X4, X5, X6, X7, X8, X9.
Qed.
(** A message in its state: the step it is given to *)
Ltac in_state s Hs Hl :=
  rewrite smp_rx_step by (rewrite ?Hs; done); unfold smp_step; change (s_state (pairing (pc (touch _)))) with (s_state (pairing (pc s)));
  rewrite Hs; cbn [length]; rewrite Hl; unfold on_c, rx_pk, rx_nb, rx_eb; cbv zeta; cbn [drop at_ nth Z.eqb Pos.eqb andb Nat.leb].

Lemma got_rsp p s : s_state (pairing (pc s)) = S_RSP -> preq (pairing (pc s)) = [0x01; 0x03; 0x00; 0x09; 16; 0x00; 0x03] ->
  length p = 7%nat -> at_ p 0 = 0x02 -> Z.land (at_ p 3) 0x08 <> 0 -> 7 <= at_ p 4 ->
  exists c, smp_rx p na s = s <| pc := c |> /\ s_state (pairing c) = S_PK /\ sc (pairing c) = true /\ preq (pairing c) = preq (pairing (pc s)) /\
    pres (pairing c) = p /\ keysize (pairing c) = Z.min 16 (at_ p 4) /\ want (pairing c) = (if Z.land (at_ p 6) 2 =? 0 then 0 else 0x0c) /\
    got (pairing c) = got (pairing (pc s)) /\ asked (pairing c) = asked (pairing (pc s)) /\
    addr c = addr (pc s) /\ addr_type c = addr_type (pc s) /\ need_dhkey c = need_dhkey (pc s) /\
    outs c = outs (pc s) ++ [Send CID_SMP (0x0c :: dh_pub secret)].
Proof.
  intros Hs Hq Hl H0 H3 H4. rewrite smp_rx_step by (rewrite ?H0, ?Hs; try done; by destruct p).
  unfold smp_step. change (s_state (pairing (pc (touch s)))) with (s_state (pairing (pc s))). rewrite Hs, H0, (length_geb p 7 Hl). cbn [Z.eqb Pos.eqb andb].
  set (c0 := pc (touch s)). assert (Ek : (if at_ p 4 <? 16 then at_ p 4 else 16) = Z.min 16 (at_ p 4)) by (case_match; lia).
  assert (Es : negb (Z.land (Z.land (at_ (preq (pairing c0)) 3) (at_ p 3)) 0x08 =? 0) = true).
  { change (preq (pairing c0)) with (preq (pairing (pc s))). rewrite Hq. change (at_ _ 3) with 9 at 1.
    rewrite (Z.land_comm 9), <- Z.land_assoc. change (Z.land 9 8) with 8. by rewrite (proj2 (Z.eqb_neq _ _)). }
  assert (Ed : Z.land (Z.land (at_ (preq (pairing c0)) 6) (at_ p 6)) 2 = Z.land (at_ p 6) 2).
  { change (preq (pairing c0)) with (preq (pairing (pc s))). rewrite Hq. change (at_ [_; _; _; _; _; _; 3] 6) with 3.
    rewrite (Z.land_comm 3), <- Z.land_assoc. reflexivity. }
  assert (Et : take 7 p = p) by (apply take_ge; lia).
  eexists. split; [|].
  { unfold on_c. change (pc (touch s)) with c0. unfold rx_rsp. cbv zeta. rewrite Ek, Es, Ed, Et. cbn [andb negb].
    rewrite (proj2 (Z.ltb_ge _ _)) by lia. reflexivity. }
  split_and!; try reflexivity.
Qed.
Lemma got_pk k s : s_state (pairing (pc s)) = S_PK -> length k = 64%nat -> take 32 k <> take 32 (dh_pub secret) ->
  exists c, smp_rx (0x0c :: k) na s = s <| pc := c |> /\ s_state (pairing c) = S_CB /\ pkb (pairing c) = k /\ kept (pc s) c /\
    need_dhkey c = need_dhkey (pc s) /\ outs c = outs (pc s).
Proof.
  intros Hs Hl Hn. eexists. split; [in_state s Hs Hl; rewrite (take_ge k) by lia; rewrite bool_decide_false by exact Hn; reflexivity|].
  by repeat split.
Qed.
Lemma got_cb v s : s_state (pairing (pc s)) = S_CB -> length v = 16%nat ->
  exists c, smp_rx (0x03 :: v) na s = s <| pc := c |> /\ s_state (pairing c) = S_NB /\ pkb (pairing c) = pkb (pairing (pc s)) /\ conf (pairing c) = v /\
    rnd (pairing c) = na /\ kept (pc s) c /\ need_dhkey c = need_dhkey (pc s) /\ outs c = outs (pc s) ++ [Send CID_SMP (0x04 :: na)].
Proof. intros Hs Hl. eexists. split; [in_state s Hs Hl; rewrite (take_ge v) by lia; reflexivity|]. by repeat split. Qed.
Lemma got_nb v s : s_state (pairing (pc s)) = S_NB -> length v = 16%nat ->
  conf (pairing (pc s)) = rev (smp_f4 (rev (take 32 (pkb (pairing (pc s))))) (rev (take 32 (dh_pub secret))) (rev v) 0) ->
  exists c, smp_rx (0x04 :: v) na s = s <| pc := c |> /\ s_state (pairing c) = S_DHKEY /\ pkb (pairing c) = pkb (pairing (pc s)) /\
    rnd (pairing c) = rnd (pairing (pc s)) /\ peer_rnd (pairing c) = v /\ kept (pc s) c /\ need_dhkey c = true /\ outs c = outs (pc s).
Proof.
  intros Hs Hl Hc. eexists. split.
  - in_state s Hs Hl. rewrite (take_ge v) by lia. rewrite !reversed_rev. rewrite bool_decide_true by (symmetry; exact Hc). reflexivity.
  - by repeat split.
Qed.
Lemma got_eb v s : s_state (pairing (pc s)) = S_EB -> length v = 16%nat -> v = peer_check own_addr (pc s) ->
  exists c, smp_rx (0x0d :: v) na s = s <| pc := c |> /\ s_state (pairing c) = S_ENC /\ enc_ltk c = enc_ltk (pc s) /\ kept (pc s) c /\
    need_enc c = true /\ enc_pending c = true /\ need_dhkey c = need_dhkey (pc s) /\ outs c = outs (pc s).
Proof.
  intros Hs Hl Hc. eexists. split; [in_state s Hs Hl; rewrite (take_ge v) by lia; rewrite bool_decide_true by (symmetry; exact Hc); reflexivity|].
  by repeat split.
Qed.

Lemma aes_cmac_length k m : length (aes_cmac k m) = 16%nat.
Proof. unfold aes_cmac. cbv zeta. apply aes128_length. Qed.
Definition asks_nothing (l : list bytes) (d : device) : Prop := respond_all l d = (d, []).
Lemma talk_pdu fuel p inbox s s' qs d d' l : smp_rx p na s = s' -> outs (pc s') = outs (pc s) ++ map (Send CID_SMP) qs ->
  respond_all qs d = (d', l) -> talk (S fuel) (p :: inbox) s d = talk fuel (inbox ++ l) s' d'.
Proof.
  intros E O R. cbn [talk]. rewrite E, O, drop_app_length. assert (X : smp_sent (map (Send CID_SMP) qs) = qs) by (clear; induction qs as [|q qs IH]; [done|]; cbn; f_equal; exact IH).
  by rewrite X, R.
Qed.
Lemma talk_dhkey fuel s s' q d d' l : need_dhkey (pc s) = true ->
  on_c (fun c => dhkey_done now own_addr 0 (dh secret (pkb (pairing c))) (c <| need_dhkey := false |>)) s = s' -> outs (pc s') = outs (pc s) ++ [Send CID_SMP q] ->
  respond q d = (d', l) -> talk (S fuel) [] s d = talk fuel l s' d'.
Proof. intros N E O R. cbn [talk]. rewrite N, E, O, drop_app_length. cbn. rewrite R. by rewrite app_nil_r. Qed.
Lemma dhkey_sent v s : s_state (pairing (pc s)) = S_DHKEY -> length v = 32%nat ->
  let m := pairing (pc s) in
  let a2 := addr_type (pc s) :: rev (addr_bytes (addr (pc s))) in
  let k := smp_f5 v (rev (rnd m)) (rev (peer_rnd m)) A1 a2 in
  exists c, on_c (fun c => dhkey_done now own_addr 0 v (c <| need_dhkey := false |>)) s = s <| pc := c |> /\
    s_state (pairing c) = S_EB /\ mackey (pairing c) = fst k /\ enc_ltk c = shorten (keysize m) (rev (snd k)) /\
    rnd (pairing c) = rnd m /\ peer_rnd (pairing c) = peer_rnd m /\ kept (pc s) c /\ need_dhkey c = false /\
    outs c = outs (pc s) ++ [Send CID_SMP (0x0d :: rev (smp_f6 (fst k) (rev (rnd m)) (rev (peer_rnd m)) (zeros 16) (iocap (preq m)) A1 a2))].
Proof.
  intros Hs Hv m a2 k. eexists. split; [reflexivity|]. unfold dhkey_done. rewrite bool_decide_true by done. cbn [negb Z.eqb]. cbv zeta.
  rewrite (take_ge v) by lia. unfold own_check, addr_a. rewrite !reversed_rev. fold A1.
  change (smp_f5 v _ _ _ _) with k. destruct k as [mk ltk] eqn:Ek. cbn [fst snd].
  split_and!; try reflexivity; [by rewrite <- (reversed_rev ltk)|by repeat split|rewrite <- !reversed_rev; reflexivity].
Qed.
(** The device takes our check and answers with its own *)
Lemma device_checks d mk ltk : smp_f5 (dh (d_secret d) (d_pka d)) (rev (d_na d)) (rev (d_nonce d)) A1 (A2 d) = (mk, ltk) ->
  respond (0x0d :: rev (smp_f6 mk (rev (d_na d)) (rev (d_nonce d)) (replicate 16 0) (iocap (d_req d)) A1 (A2 d))) d =
  (d <| d_ltk := Some ltk |>, [0x0d :: rev (smp_f6 mk (rev (d_nonce d)) (rev (d_na d)) (replicate 16 0) (iocap (d_rsp d)) (A2 d) A1)]).
Proof. intros E. unfold respond. cbn [at_ nth Z.eqb Pos.eqb drop]. cbv zeta. rewrite E. by rewrite bool_decide_true. Qed.

(** ** The whole of it *)
Definition rsp_ok (d : device) : Prop :=
  length (d_rsp d) = 7%nat /\ at_ (d_rsp d) 0 = 0x02 /\ Z.land (at_ (d_rsp d) 3) 0x08 <> 0 /\ 7 <= at_ (d_rsp d) 4.
(** The same pairing under way at both ends: encryption asked for, with the key both have *)
Definition agreed (d : device) (c : conn) (s : pst) (d' : device) : Prop :=
  let m := pairing (pc s) in
  exists ltk, d_ltk d' = Some ltk /\ enc_ltk (pc s) = shorten (Z.min 16 (at_ (d_rsp d) 4)) (rev ltk) /\
    s_state m = S_ENC /\ sc m = true /\ asked m = true /\ keysize m = Z.min 16 (at_ (d_rsp d) 4) /\
    want m = (if Z.land (at_ (d_rsp d) 6) 2 =? 0 then 0 else 0x0c) /\ got m = 0 /\
    need_enc (pc s) = true /\ enc_pending (pc s) = true /\ addr (pc s) = addr c /\ addr_type (pc s) = addr_type c.
Lemma outs_no_dhkey c : outs (c <| need_dhkey := false |>) = outs c.
Proof. reflexivity. Qed.
Lemma talk_agrees d c bs :
  rsp_ok d -> state c = C_MTU \/ state c = C_UP -> s_state (pairing c) = S_IDLE -> bond_for (addr c) (addr_type c) bs = None -> need_dhkey c = false ->
  d_addr d = addr_bytes (addr c) -> d_type d = addr_type c -> length na = 16%nat -> length (d_nonce d) = 16%nat ->
  take 32 (dh_pub (d_secret d)) <> take 32 (dh_pub secret) ->
  let s0 := ask_pair now true (mk_pst c bs) in
  let '(d1, l) := respond_all (smp_sent (drop (length (outs c)) (outs (pc s0)))) d in
  let '(s, d') := talk 8 l s0 d1 in
  bonds s = bs /\ agreed d c s d'.
Proof.
  intros (R7 & R0 & R3 & R4) Hst Hidle Hb Hdh Ea Et Hna Hnb Hne s0.
  assert (E0 : s0 = on_c (smp_start now true) (mk_pst (upd_smp (fun m => m <| asked := true |>) c) bs)).
  { unfold s0, ask_pair. cbv zeta. cbn [pc]. rewrite Hidle, (bool_decide_eq_true_2 (S_IDLE = S_IDLE)) by done. cbn [negb].
    assert (X : negb (bool_decide (state c = C_MTU) || bool_decide (state c = C_UP)) = false) by (destruct Hst as [-> | ->]; reflexivity).
    rewrite X. unfold bond_of_conn. change (addr (pc (on_c _ _))) with (addr c). change (addr_type (pc (on_c _ _))) with (addr_type c).
    change (bonds (on_c _ _)) with bs. by rewrite Hb. }
  clearbody s0. set (q := [0x01; 0x03; 0x00; 0x09; 16; 0x00; 0x03]) in *.
  assert (F0 : s_state (pairing (pc s0)) = S_RSP /\ preq (pairing (pc s0)) = q /\ asked (pairing (pc s0)) = true /\ got (pairing (pc s0)) = 0 /\
    addr (pc s0) = addr c /\ addr_type (pc s0) = addr_type c /\ need_dhkey (pc s0) = false /\ outs (pc s0) = outs c ++ [Send CID_SMP q] /\ bonds s0 = bs) by (by rewrite E0).
  clear E0. destruct F0 as (S0 & Q0 & K0 & G0 & A0 & T0 & N0 & O0 & B0). rewrite O0, drop_app_length. cbn [smp_sent omap list_omap Z.eqb Pos.eqb CID_SMP].
  cbn [respond_all respond at_ nth q drop app Z.eqb Pos.eqb]. set (d1 := d <| d_req := q |>).
  (* the device's response *)
  destruct (got_rsp (d_rsp d) s0) as (c1 & E1 & S1 & C1 & Q1 & P1 & Z1 & W1 & G1 & K1 & A1' & T1 & N1 & O1); [done..|].
  rewrite (talk_pdu 7 (d_rsp d) [] s0 _ [0x0c :: dh_pub secret] d1 _ _ E1 O1 eq_refl).
  cbn [app at_ nth drop]. set (s1 := s0 <| pc := c1 |>).
  rewrite !drop_0. set (pkA := dh_pub secret) in *. change (d_secret d1) with (d_secret d). set (pkB := dh_pub (d_secret d)) in *.
  assert (LB : length pkB = 64%nat) by apply dh_pub_length. set (d2 := d1 <| d_pka := pkA |>).
  (* its key, its commitment, its nonce *)
  destruct (got_pk pkB s1 S1 LB Hne) as (c2 & E2 & S2 & P2 & X2 & N2 & O2). set (s2 := s1 <| pc := c2 |>) in *.
  rewrite (talk_pdu 6 _ _ s1 s2 [] d2 d2 [] E2 (eq_trans O2 (eq_sym (app_nil_r _))) eq_refl), app_nil_r.
  set (cb := rev (smp_f4 (rev (take 32 pkB)) _ _ _)). assert (Lcb : length cb = 16%nat) by (unfold cb; rewrite length_rev; apply aes_cmac_length).
  destruct (got_cb cb s2 S2 Lcb) as (c3 & E3 & S3 & P3 & F3 & R3' & X3 & N3 & O3). set (s3 := s2 <| pc := c3 |>) in *.
  rewrite (talk_pdu 5 _ _ s2 s3 [0x04 :: na] d2 (d2 <| d_na := na |>) [0x04 :: d_nonce d] E3 O3 eq_refl). cbn [app].
  destruct (got_nb (d_nonce d) s3 S3 Hnb) as (c4 & E4 & S4 & P4 & R4' & V4 & X4 & N4 & O4).
  { change (pc s3) with c3. rewrite F3, P3. change (pc s2) with c2. by rewrite P2. }
  set (s4 := s3 <| pc := c4 |>) in *. set (d3 := d2 <| d_na := na |>).
  rewrite (talk_pdu 4 _ _ s3 s4 [] d3 d3 [] E4 (eq_trans O4 (eq_sym (app_nil_r _))) eq_refl), app_nil_r.
  (* the shared secret, both checks *)
  pose proof (kept_trans _ _ _ X2 (kept_trans _ _ _ X3 X4)) as X14. change (pc s1) with c1 in *. change (pc s2) with c2 in *. change (pc s3) with c3 in *.
  destruct X14 as (C4 & Q4 & Pr4 & Z4 & W4 & G4 & K4 & A4 & T4).
  destruct (dhkey_sent (dh secret pkB) s4 S4 (dh_length _ _)) as (c5 & E5 & S5 & M5 & L5 & R5 & P5 & X5 & N5 & O5).
  change (pc s4) with c4 in *. rewrite V4, R4', R3', Z4, Q4, A4, T4, A1', T1, A0, T0, Q1, Q0 in *.
  change (addr_type c :: rev (addr_bytes (addr c))) with (addr_type c :: rev (addr_bytes (addr c))) in *.
  assert (Ea2 : A2 d3 = addr_type c :: rev (addr_bytes (addr c))) by (unfold A2; cbn; by rewrite Ea, Et). rewrite <- Ea2 in *.
  destruct (smp_f5 (dh secret pkB) (rev na) (rev (d_nonce d)) A1 (A2 d3)) as [mk ltk] eqn:Ek. cbn [fst snd] in *.
  pose proof (device_checks d3 mk ltk) as R. change (d_pka d3) with (dh_pub secret) in R. change (d_na d3) with na in R. change (d_nonce d3) with (d_nonce d) in R.
  change (d_secret d3) with (d_secret d) in R. change (d_req d3) with q in R. change (d_rsp d3) with (d_rsp d) in R.
  rewrite <- (dh_agrees secret (d_secret d)) in R. fold pkB in R. specialize (R Ek).
  set (ea := rev (smp_f6 mk (rev na) _ _ _ _ _)) in *. set (eb := rev (smp_f6 mk (rev (d_nonce d)) _ _ _ _ _)) in *.
  set (s5 := s4 <| pc := c5 |>) in *. set (d4 := d3 <| d_ltk := Some ltk |>) in *.
  assert (E5' : on_c (fun c => dhkey_done now own_addr 0 (dh secret (pkb (pairing c))) (c <| need_dhkey := false |>)) s4 = s5).
  { rewrite <- E5. unfold on_c. change (pc s4) with c4. change (pairing (c4 <| need_dhkey := false |>)) with (pairing c4). by rewrite P4, P3, P2. }
  rewrite (talk_dhkey 3 s4 s5 (0x0d :: ea) d3 d4 [0x0d :: eb] N4 E5' O5 R).
  assert (Leb : length eb = 16%nat) by (unfold eb; rewrite length_rev; apply aes_cmac_length).
  destruct X5 as (C5 & Q5 & Pr5 & Z5 & W5 & G5 & K5 & A5 & T5).
  assert (Ec : eb = peer_check own_addr (pc s5)).
  { unfold peer_check, addr_a. rewrite !reversed_rev. change (pc s5) with c5. rewrite M5, P5, R5, Pr5, Pr4, A5, T5, P1, A4, T4.
    unfold eb. rewrite Ea2. reflexivity. }
  destruct (got_eb eb s5 S5 Leb Ec) as (c6 & E6 & S6 & L6 & (C6 & Q6 & Pr6 & Z6 & W6 & G6 & K6 & A6 & T6) & N6 & H6 & D6 & O6).
  rewrite (talk_pdu 2 _ _ s5 (s5 <| pc := c6 |>) [] d4 d4 [] E6 (eq_trans O6 (eq_sym (app_nil_r _))) eq_refl). cbn [app talk].
  set (s6 := s5 <| pc := c6 |>). change (pc s5) with c5 in *. assert (N7 : need_dhkey (pc s6) = false) by (change (need_dhkey c6 = false); congruence).
  rewrite N7. split; [exact B0|]. exists ltk. change (pc s6) with c6. split_and!; [done| |done|..|done|done| |]; congruence.
Qed.

(** ** The bond *)
Lemma finish_bonds s : has_key (pairing (pc s)) = true ->
  bonds (smp_finish s) = remember (addr (pc s)) (addr_type (pc s)) (bond_made (pc s)) (bonds s).
Proof. intros H. unfold smp_finish. cbv zeta. rewrite H. by destruct (match bond_for _ _ _ with Some _ => false | None => _ end). Qed.
Definition made (c : conn) (ks : Z) (ltk : bytes) (irk : option bytes) : bond := mk_bond (addr c) (addr_type c) 1 ks 0 ltk (zeros 8) irk.
Lemma encrypted_ok s : s_state (pairing (pc s)) = S_ENC ->
  exists c, keyed c = keyed ((pc s) <| enc := true |>) /\
    encrypted now 0 s = on_c (start_op now) (if want (pairing (pc s)) =? 0 then smp_finish (s <| pc := c |>)
      else s <| pc := upd_smp (fun m => m <| s_state := S_KEYS |> <| s_t := now |>) c |>).
Proof.
  intros Hs. unfold encrypted. cbv zeta. change (mtu_retry (pc (on_c _ s))) with (mtu_retry (pc s)). change (state (pc (on_c _ s))) with (state (pc s)).
  destruct (mtu_retry (pc s) && bool_decide (state (pc s) = C_MTU)); cbn [Z.eqb].
  - exists ((att_send (ATT_MTU_REQ :: put16 (Z.of_nat ATT_MTU)) ((pc s) <| enc_pending := false |> <| mtu_retry := false |> <| t := now |>)) <| enc := true |>).
    split; [reflexivity|]. change (s_state (pairing (pc (on_c _ _)))) with (s_state (pairing (pc s))). rewrite Hs. reflexivity.
  - exists ((pc s) <| enc_pending := false |> <| enc := true |>). split; [reflexivity|].
    change (s_state (pairing (pc (on_c _ _)))) with (s_state (pairing (pc s))). rewrite Hs. reflexivity.
Qed.
Lemma got_irk irk s : s_state (pairing (pc s)) = S_KEYS -> length irk = 16%nat -> got (pairing (pc s)) = 0 -> want (pairing (pc s)) = 0x0c ->
  smp_rx (0x08 :: irk) na s = on_c (upd_smp (fun m => m <| s_irk := irk |> <| got := 4 |>)) (touch s).
Proof.
  intros Hs Hl Hg Hw. rewrite smp_rx_step by (rewrite ?Hs; done). unfold smp_step. change (s_state (pairing (pc (touch s)))) with (s_state (pairing (pc s))).
  rewrite Hs. unfold rx_keys, key_rx. cbv zeta. cbn [length at_ nth Z.eqb Pos.eqb andb drop]. rewrite Hl. cbn [Nat.leb andb].
  rewrite (take_ge irk) by lia. change (got (pairing (pc (touch s)))) with (got (pairing (pc s))). rewrite Hg. change (Z.lor 0 4) with 4. cbn [got].
  change (want (_ <| got := 4 |>)) with (want (pairing (pc s))). rewrite Hw. reflexivity.
Qed.
Lemma got_id ida s : s_state (pairing (pc s)) = S_KEYS -> length ida = 7%nat -> got (pairing (pc s)) = 4 -> want (pairing (pc s)) = 0x0c ->
  smp_rx (0x09 :: ida) na s = smp_finish (on_c (upd_smp (fun m => m <| s_id := ida |> <| got := 12 |>)) (touch s)).
Proof.
  intros Hs Hl Hg Hw. rewrite smp_rx_step by (rewrite ?Hs; done). unfold smp_step. change (s_state (pairing (pc (touch s)))) with (s_state (pairing (pc s))).
  rewrite Hs. unfold rx_keys, key_rx. cbv zeta. cbn [length at_ nth Z.eqb Pos.eqb andb drop]. rewrite Hl. cbn [Nat.leb andb].
  rewrite (take_ge ida) by lia. change (got (pairing (pc (touch s)))) with (got (pairing (pc s))). rewrite Hg. change (Z.lor 4 8) with 12. cbn [got].
  change (want (_ <| got := 12 |>)) with (want (pairing (pc s))). rewrite Hw. reflexivity.
Qed.

(** C18. Both ends of a pairing get the same key, and it is the one kept: when Home Assistant asks
    to pair with a device that follows the specification, whatever the two secrets, nonces,
    addresses and options, LE Secure Connections' exchange passes both its checks, the link
    is encrypted with the key the device derived, cut to the size agreed, and once it is, with
    the device's identity key if it gives one, the bond that key is kept in is the device's. *)
Theorem pairing_agrees d c bs irk ida :
  rsp_ok d -> state c = C_MTU \/ state c = C_UP -> s_state (pairing c) = S_IDLE -> bond_for (addr c) (addr_type c) bs = None -> need_dhkey c = false ->
  d_addr d = addr_bytes (addr c) -> d_type d = addr_type c -> length na = 16%nat -> length (d_nonce d) = 16%nat ->
  take 32 (dh_pub (d_secret d)) <> take 32 (dh_pub secret) -> length irk = 16%nat -> length ida = 7%nat ->
  let s0 := ask_pair now true (mk_pst c bs) in
  let '(d1, l) := respond_all (smp_sent (drop (length (outs c)) (outs (pc s0)))) d in
  let '(s, d') := talk 8 l s0 d1 in
  let s1 := encrypted now 0 s in
  let no_id := Z.land (at_ (d_rsp d) 6) 2 =? 0 in
  let s2 := if no_id then s1 else smp_rx (0x09 :: ida) na (smp_rx (0x08 :: irk) na s1) in
  exists ltk, d_ltk d' = Some ltk /\
    let ks := Z.min 16 (at_ (d_rsp d) 4) in
    enc_ltk (pc s) = shorten ks (rev ltk) /\ need_enc (pc s) = true /\ enc_pending (pc s) = true /\ bonds s = bs /\
    bonds s2 = remember (addr c) (addr_type c) (made c ks (shorten ks (rev ltk)) (if no_id then None else Some irk)) bs.
Proof.
  intros Hd Hst Hidle Hb Hdh Ea Et Hna Hnb Hne Hirk Hida s0.
  pose proof (talk_agrees d c bs Hd Hst Hidle Hb Hdh Ea Et Hna Hnb Hne) as T. cbv zeta in T. fold s0 in T.
  destruct (respond_all _ d) as [d1 l]. destruct (talk 8 l s0 d1) as [s d']. destruct T as (B & ltk & D1 & K & S & C & _ & Z & W & G & E1 & E2 & A & Ty).
  cbv zeta. exists ltk. split_and!; try done. destruct (encrypted_ok s S) as (c' & Kc & ->). apply keyed_eq in Kc. cbn in Kc. destruct Kc as (K1 & K2 & _ & K4 & K5).
  rewrite W. set (no_id := Z.land (at_ (d_rsp d) 6) 2 =? 0) in *. destruct no_id; cbn [Z.eqb].
  - change (bonds (on_c (start_op now) ?x)) with (bonds x). rewrite finish_bonds by (cbn; rewrite K1; unfold has_key; by rewrite C).
    change (pc (s <| pc := c' |>)) with c'. change (bonds (s <| pc := c' |>)) with (bonds s). rewrite K4, K5, A, Ty, B. f_equal. unfold bond_made, made. rewrite K1, K2, K4, K5, C, Z, G, K, A, Ty. reflexivity.
  - set (cx := start_op now (upd_smp (fun m => m <| s_state := S_KEYS |> <| s_t := now |>) c')).
    assert (Kx : keyed cx = keyed (upd_smp (fun m => m <| s_state := S_KEYS |> <| s_t := now |>) c')) by apply start_op_keyed.
    apply keyed_eq in Kx. cbn in Kx. rewrite K1, K2, K4, K5 in Kx. destruct Kx as (X1 & X2 & _ & X4 & X5).
    change (on_c (start_op now) _) with (s <| pc := cx |>). rewrite got_irk by (cbn; rewrite ?X1; cbn; done).
    rewrite got_id by (cbn; rewrite ?X1; cbn; done). rewrite finish_bonds by (cbn; rewrite X1; unfold has_key; cbn; by rewrite C).
    cbn. rewrite X4, X5, A, Ty, B. f_equal. unfold bond_made, made. cbn. rewrite X1, X2, X4, X5. cbn. rewrite C, Z, K, A, Ty. reflexivity.
Qed.
End agree.
