(* ===== verification/BlePairSafe.v ===== *)
(** * Bluetooth LE: no bond without its checks
    Whatever a device, the controller and Home Assistant do, in whatever order: a bond is kept
    only of a pairing whose values were checked, once the link is encrypted. *)
From S2P Require Import Prelude Cbits BleCrypto BleSpec Ble BleFrame BleBonds BlePair.

(** What happens to a connection, with the clock *)
Inductive pev :=
  | Pdu (p r : bytes) | DhKey (st : Z) (v : bytes) | Enc (st : Z) | Ask | Tick (dh_free : bool) (dh_st enc_st : Z)
  | Att (p : bytes) | Unpair (a : Z) | Link (a type h : Z).

Section safe.
Context (have_sc : bool) (local_pk own_addr : bytes).

(** ** What has been checked *)
Definition sc_commit (c : conn) : Prop :=
  let m := pairing c in
  take 32 (pkb m) <> take 32 local_pk /\
  reversed (smp_f4 (reversed (take 32 (pkb m))) (reversed (take 32 local_pk)) (reversed (peer_rnd m)) 0) = conf m.
Definition sc_key (l : list (Z * pev)) (c : conn) : Prop :=
  let m := pairing c in
  exists t v, (t, DhKey 0 v) ∈ l /\
    let k := smp_f5 (take 32 v) (reversed (rnd m)) (reversed (peer_rnd m)) (addr_a 0 own_addr) (addr_a (addr_type c) (addr_bytes (addr c))) in
    mackey m = fst k /\ enc_ltk c = shorten (keysize m) (reversed (snd k)).
Definition sc_proved (l : list (Z * pev)) (c : conn) : Prop :=
  exists t p r, (t, Pdu p r) ∈ l /\ at_ p 0 = 0x0d /\ take 16 (drop 1 p) = peer_check own_addr c.
Definition legacy_confirm (c : conn) : Prop :=
  let m := pairing c in
  smp_c1 (zeros 16) (peer_rnd m) (preq m) (pres m) 0 own_addr (addr_type c) (addr_bytes (addr c)) = conf m.
Definition checked (l : list (Z * pev)) (c : conn) : Prop :=
  if sc (pairing c) then sc_commit c /\ sc_key l c /\ sc_proved l c else legacy_confirm c.

Lemma checked_keyed l c c' : keyed c' = keyed c -> checked l c -> checked l c'.
Proof.
  intros (K1 & K2 & _ & K4 & K5)%keyed_eq. unfold checked, sc_commit, sc_key, sc_proved, legacy_confirm, peer_check. cbv zeta. by rewrite K1, K2, K4, K5.
Qed.


#[local] Opaque smp_f4 smp_f5 smp_f6 smp_c1 smp_s1.



End safe.
