(* ===== verification/BleLink.v ===== *)
(** * Bluetooth LE: the connections on the controller (ble.c)
    All the connections there are, the queue of ACL packets and the controller's buffers, the
    reassembly of L2CAP frames, events, the requests of other threads and the upkeep.  [T] is
    the state of the part behind the GATT server.  What a connection's handlers send and tell
    is in its [outs]; [settle] hands it on, packets to the queue and from there to the wire, the
    rest to [calls].  Writes to the controller succeed; commands are answered before anything
    else happens, where the code handles events that come first; the speaker's events and
    packets (a2dp.c), scanning and advertising are not here. *)
From S2P Require Import Prelude Cbits BleCrypto BleSpec Ble BleGatt BleBonds BlePair.

Definition BLE_MAX_CONN : nat := 3.
Definition SRV : nat := 3.
Definition CONNECT_MS : Z := 20000.
Definition ATT_MS : Z := 30000.
Definition H4_ACL : Z := 2.
Definition HCI_E_TIMEOUT : Z := 0x08.
Definition HCI_E_LIMIT : Z := 0x09.
Definition HCI_E_USER_ENDED : Z := 0x13.
Definition EV_ENC_CHANGE : Z := 0x08.
Definition OP_DISCONNECT : Z := 0x0406.
Definition OP_LE_CONNECT : Z := 0x200d.
Definition OP_LE_CONNECT_CANCEL : Z := 0x200e.
Definition OP_LE_CONN_UPDATE : Z := 0x2013.
Definition OP_LE_LTK_NEG : Z := 0x201b.

Record frag := mk_frag { f_handle : Z; f_b : bytes }.
Record host (T : Type) := mk_host {
  conns : list conn; h_bonds : list bond; dh_owner : option nat;
  frags : list frag; credits : Z; wire : list bytes;
  gs : gatts T; calls : list (Z * out) }.
Arguments mk_host {T}. Arguments conns {T}. Arguments h_bonds {T}. Arguments dh_owner {T}. Arguments frags {T}.
Arguments credits {T}. Arguments wire {T}. Arguments gs {T}. Arguments calls {T}.

Section link.
Context {T : Type} (have_sc : bool) (local_pk own_addr : bytes).
Context (uuid : bytes) (chars : list (bytes * Z)) (read : Z -> nat -> T -> bytes) (write : Z -> bytes -> T -> T).
(** S->connection; the controller's packets: length and number *)
Context (connection : bool -> T -> T) (acl_len : nat) (acl_num : Z).
(** a2dp_completed: the handle is of the speaker *)
Context (of_a2dp : Z -> bool).
Abbreviation hostT := (host T).

Definition conn_of (i : nat) (h : hostT) : conn := conns h !!! i.
Definition upd_conn (i : nat) (f : conn -> conn) (h : hostT) : hostT := h <| conns := alter f i (conns h) |>.
Definition by_addr (a : Z) (h : hostT) : option nat :=
  find_index (fun c => negb (bool_decide (state c = C_FREE)) && (addr c =? a)) (take BLE_MAX_CONN (conns h)).
Definition by_handle (hd : Z) (h : hostT) : option nat := find_index (fun c => linked c && (handle c =? hd)) (conns h).
Definition in_state (st : cstate) (h : hostT) : option nat := find_index (fun c => bool_decide (state c = st)) (take BLE_MAX_CONN (conns h)).
Definition tell (a : Z) (o : out) (h : hostT) : hostT := h <| calls := calls h ++ [(a, o)] |>.

(** ** Out: packets as the controller takes them, as many as it has room for *)
Fixpoint flush_loop (fs : list frag) (h : hostT) : hostT :=
  match fs with
  | [] => h <| frags := [] |>
  | f :: fs' =>
      if credits h <=? 0 then h <| frags := fs |> else
      flush_loop fs'
        match by_handle (f_handle f) h with
        | Some i => upd_conn i (fun c => c <| unacked := unacked c + 1 |>) (h <| wire := wire h ++ [f_b f] |> <| credits := credits h - 1 |>)
        | None => h
        end
  end.
Definition acl_flush (h : hostT) : hostT := flush_loop (frags h) h.
(** The pieces of a frame, the first marked as such *)
Definition acl_frag (hd : Z) (first : bool) (piece : bytes) : frag :=
  mk_frag hd ([H4_ACL; u8 hd; Z.lor (Z.land (Z.shiftr hd 8) 0x0f) (if first then 0x00 else 0x10)] ++ put16 (Z.of_nat (length piece)) ++ piece).
Fixpoint acl_frags (fuel : nat) (hd : Z) (first : bool) (fr : bytes) : list frag :=
  match fuel, fr with
  | S fuel, _ :: _ => acl_frag hd first (take acl_len fr) :: acl_frags fuel hd false (drop acl_len fr)
  | _, _ => []
  end.
Definition l2cap_frame (cid : Z) (pdu : bytes) : bytes := put16 (Z.of_nat (length pdu)) ++ put16 cid ++ pdu.
Definition l2cap_send (i : nat) (cid : Z) (pdu : bytes) (h : hostT) : hostT :=
  if (ATT_MTU + 16 <? length pdu)%nat then h else
  let fr := l2cap_frame cid pdu in
  acl_flush (h <| frags := frags h ++ acl_frags (length fr) (handle (conn_of i h)) true fr |>).
Definition settle_one (i : nat) (h : hostT) (o : out) : hostT :=
  match o with Send cid pdu => l2cap_send i cid pdu h | _ => tell (addr (conn_of i h)) o h end.
Definition settle (i : nat) (h : hostT) : hostT :=
  fold_left (settle_one i) (outs (conn_of i h)) (upd_conn i (fun c => c <| outs := [] |>) h).
(** A handler of connection [i] *)
Definition on_pst (i : nat) (f : pst -> pst) (h : hostT) : hostT :=
  let s := f (mk_pst (conn_of i h) (h_bonds h)) in settle i (h <| conns := <[i := pc s]> (conns h) |> <| h_bonds := bonds s |>).
Definition on_conn (i : nat) (f : conn -> conn) : hostT -> hostT := on_pst i (on_c f).
(** A request for the GATT server, and what it sends *)
Definition on_gatts (f : gatts T -> gatts T) (h : hostT) : hostT :=
  let g := f (gs h) in
  fold_left (fun h p => l2cap_send SRV CID_ATT p h) (sent g) (h <| gs := g <| sent := [] |> |>).

Definition free_conn (i : nat) (h : hostT) : hostT :=
  let c := conn_of i h in
  let h := if asked (pairing c) then tell (addr c) (Paired false HCI_E_UNKNOWN_CONN) h else h in
  let h := if bool_decide (dh_owner h = Some i) then h <| dh_owner := None |> else h in
  h <| frags := filter (fun f => f_handle f <> handle c) (frags h) |> <| credits := credits h + unacked c |> <| conns := <[i := conn0]> (conns h) |>.
(** free_conn and the handler's connection(addr, 0, 0, err) *)
Definition lose (i : nat) (err : Z) (h : hostT) : hostT := tell (addr (conn_of i h)) (Connection false 0 err) (free_conn i h).
Definition srv_lost (h : hostT) : hostT :=
  let h := free_conn SRV h in h <| gs := srv_gone (gs h) <| app := connection false (app (gs h)) |> |>.

(** ** In: frames put together again, and who gets them.  [r]: random bytes *)
Definition RX_SIZE : nat := 4 + ATT_MTU + 64.
Definition dispatch (now : Z) (r : bytes) (i : nat) (cid : Z) (pdu : bytes) (h : hostT) : hostT :=
  if srv (conn_of i h) then
    if cid =? CID_ATT then on_gatts (gatts_rx uuid chars read write pdu) h
    else if cid =? CID_SIG then on_conn i (sig_rx pdu) h
    else if (cid =? CID_SMP) && (1 <=? length pdu)%nat && (at_ pdu 0 =? 0x01) then on_conn i (smp_send [0x05; 0x05]) h
    else h
  else if cid =? CID_ATT then on_conn i (att_rx now pdu) h
  else if cid =? CID_SIG then on_conn i (sig_rx pdu) h
  else if cid =? CID_SMP then on_pst i (smp_rx now have_sc local_pk own_addr pdu r) h
  else h.
Definition l2cap_rx (now : Z) (r : bytes) (i : nat) (h : hostT) : hostT :=
  let b := rx (conn_of i h) in dispatch now r i (get16 b 2) (take (Z.to_nat (get16 b 0)) (drop 4 b)) h.
Definition acl_rx (now : Z) (r p : bytes) (h : hostT) : hostT :=
  let n := length p in
  if (n <? 4)%nat then h else
  let len := Z.to_nat (get16 p 2) in
  match by_handle (Z.land (get16 p 0) 0x0fff) h with
  | None => h
  | Some i =>
      if (n - 4 <? len)%nat then h else
      let d := take len (drop 4 p) in
      let first := negb (Z.land (Z.shiftr (at_ p 1) 4) 3 =? 1) in
      let c := conn_of i h in
      if (if first then (len <? 4)%nat else (rxwant c =? 0)%nat) then h else
      let h := if first then upd_conn i (fun c => c <| rxwant := (4 + Z.to_nat (get16 d 0))%nat |> <| rx := [] |>) h else h in
      let c := conn_of i h in
      if (RX_SIZE <? length (rx c) + len)%nat then upd_conn i (fun c => c <| rxwant := 0%nat |>) h else
      let h := upd_conn i (fun c => c <| rx := rx c ++ d |>) h in
      let c := conn_of i h in
      if (length (rx c) <? rxwant c)%nat then h else
      l2cap_rx now r i (upd_conn i (fun c => c <| rxwant := 0%nat |> <| heard := true |>) h)
  end.

(** ** Events.  [q]: the parameters *)
Definition ev_handle (q : bytes) (i : nat) : Z := Z.land (get16 q i) 0x0fff.
Definition phone_up (now : Z) (q : bytes) (h : hostT) : hostT :=
  if negb (bool_decide (state (conn_of SRV h) = C_FREE)) then tell 0 (Cmd OP_DISCONNECT (put16 (ev_handle q 1) ++ [HCI_E_USER_ENDED])) h else
  let c := conn0 <| srv := true |> <| state := C_UP |> <| handle := ev_handle q 1 |> <| mtu := 23%nat |> <| addr_type := at_ q 4 |> <| t := now |>
             <| addr := le_value (take 6 (drop 5 q)) |> in
  h <| conns := <[SRV := c]> (conns h) |> <| gs := srv_up (gs h) <| app := connection true (app (gs h)) |> |>.
Definition conn_complete (now : Z) (q : bytes) (h : hostT) : hostT :=
  let n := length q in
  if (18 <=? n)%nat && (at_ q 0 =? 0) && (at_ q 3 =? 1) then phone_up now q h else
  match in_state C_CONNECTING h with
  | None => h
  | Some i =>
      if (n <? 18)%nat then h
      else if negb (at_ q 0 =? 0) then
        let c := conn_of i h in
        lose i (if cancel c =? 1 then 0 else if cancel c =? 2 then HCI_E_TIMEOUT else at_ q 0) h
      else on_pst i (came_up now (get16 q 1)) h
  end.
Definition disconnected (q : bytes) (h : hostT) : hostT :=
  if (length q <? 4)%nat || negb (at_ q 0 =? 0) then h else
  match by_handle (ev_handle q 1) h with
  | None => h
  | Some i =>
      let c := conn_of i h in
      if srv c then srv_lost h else lose i (if bool_decide (state c = C_CLOSING) then 0 else at_ q 3) h
  end.
Definition enc_changed (now code : Z) (q : bytes) (h : hostT) : hostT :=
  if (length q <? 3)%nat then h else
  match by_handle (ev_handle q 1) h with
  | None => h
  | Some i =>
      let st := if negb (at_ q 0 =? 0) then at_ q 0
                else if (code =? EV_ENC_CHANGE) && (4 <=? length q)%nat && (at_ q 3 =? 0) then 0x06 else 0 in
      on_pst i (encrypted now st) h
  end.
Definition completed_one (h : hostT) (x : Z * Z) : hostT :=
  let '(hd, k) := x in
  if of_a2dp hd then h else
  let h := h <| credits := Z.min (credits h + k) acl_num |> in
  match by_handle hd h with
  | Some i => upd_conn i (fun c => c <| unacked := Z.max 0 (unacked c - k) |>) h
  | None => h
  end.
(** The pairs of handle and count an event of [n] bytes holds *)
Definition completed_list (q : bytes) : list (Z * Z) :=
  map (fun i => (ev_handle q (1 + 4 * i), get16 q (3 + 4 * i))) (seq 0 (Nat.min (Z.to_nat (at_ q 0)) ((length q - 1) / 4))).
Definition num_completed (q : bytes) (h : hostT) : hostT := acl_flush (fold_left completed_one (completed_list q) h).
Definition ltk_request (q : bytes) (h : hostT) : hostT :=
  if (length q <? 3)%nat then h else
  match by_handle (ev_handle q 1) h with Some i => upd_conn i (fun c => c <| ltk_neg := true |>) h | None => h end.
Definition dhkey_complete (now : Z) (q : bytes) (h : hostT) : hostT :=
  if (length q <? 34)%nat then h else
  match dh_owner h with
  | Some i => on_conn i (dhkey_done now own_addr (at_ q 1) (drop 2 q)) (h <| dh_owner := None |>)
  | None => h
  end.

(** ** Requests *)
Inductive req_kind := R_CONNECT | R_DISCONNECT | R_SERVICES | R_READ | R_WRITE | R_PAIR | R_UNPAIR.
Record req := mk_req { r_kind : req_kind; r_addr : Z; r_type : Z; r_handle : Z; r_response : bool; r_data : bytes }.
Definition op_queue (now : Z) (o : op) (c : conn) : conn := start_op now (c <| ops := ops c ++ [o] |>).
Definition handle_request (now : Z) (r : req) (h : hostT) : hostT :=
  let a := r_addr r in
  let oi := by_addr a h in
  match r_kind r with
  | R_CONNECT =>
      match oi with
      | Some i => let c := conn_of i h in if bool_decide (state c = C_UP) then tell a (Connection true (mtu c) 0) h else h
      | None =>
          match in_state C_FREE h with
          | None => tell a (Connection false 0 HCI_E_LIMIT) h
          | Some i => upd_conn i (fun c => c <| state := C_WAIT |> <| addr := a |> <| addr_type := r_type r |> <| t := now |>) h
          end
      end
  | R_DISCONNECT =>
      match oi with
      | None => tell a (Connection false 0 0) h
      | Some i =>
          let c := conn_of i h in
          if bool_decide (state c = C_WAIT) then tell a (Connection false 0 0) (free_conn i h)
          else if bool_decide (state c = C_CONNECTING) then
            if cancel c =? 0 then tell a (Cmd OP_LE_CONNECT_CANCEL []) (upd_conn i (fun c => c <| cancel := 1 |>) h) else h
          else if bool_decide (state c = C_CLOSING) then h
          else upd_conn i (fun c => c <| close_now := true |>) h
      end
  | R_PAIR =>
      match oi with
      | None => tell a (Paired false HCI_E_UNKNOWN_CONN) h
      | Some i => on_pst i (ask_pair now have_sc) h
      end
  | R_UNPAIR =>
      let n := length (h_bonds h) in
      let h := h <| h_bonds := unpair a (h_bonds h) |> in
      let h := Nat.iter (n - length (h_bonds h)) (tell a BondsSaved) h in
      tell a (Unpaired true 0)
        match oi with
        | Some i => if linked (conn_of i h) then upd_conn i (fun c => c <| close_now := true |>) h else h
        | None => h
        end
  | R_SERVICES | R_READ | R_WRITE =>
      let fail := tell a (Error (r_handle r) GATT_E_FAILED) h in
      match oi with
      | None => fail
      | Some i =>
          if negb (bool_decide (state (conn_of i h) = C_UP)) then fail else
          let k := match r_kind r with R_SERVICES => K_DISCOVER | R_READ => K_READ | _ => K_WRITE end in
          on_conn i (op_queue now (mk_op k (r_handle r) (r_response r) (r_data r))) h
      end
  end.

(** ** Upkeep of a connection; [dh_st], [enc_st]: what the controller answers to the two commands
    of pairing *)
Definition upkeep_cmds (now : Z) (c : conn) : conn :=
  let c := if ltk_neg c then emit (Cmd OP_LE_LTK_NEG (put16 (handle c))) (c <| ltk_neg := false |>) else c in
  let c := match upd c with
           | Some par => if linked c then emit (Cmd OP_LE_CONN_UPDATE (put16 (handle c) ++ par ++ put16 0 ++ put16 0)) (c <| upd := None |>) else c
           | None => c
           end in
  let c := if bool_decide (state c = C_CONNECTING) && (cancel c =? 0) && (CONNECT_MS <? now - t c)
           then emit (Cmd OP_LE_CONNECT_CANCEL []) (c <| cancel := 2 |>) else c in
  let c := if bool_decide (state c = C_MTU) && (10000 <? now - t c) then att_rx now [ATT_ERROR; ATT_MTU_REQ; 0; 0; 0] c else c in
  let c := match cur c with
           | Some o => if bool_decide (state c = C_UP) && (ATT_MS <? now - t c) then op_fail now (o_handle o) GATT_E_FAILED (c <| close_now := true |>) else c
           | None => c
           end in
  if close_now c && linked c && negb (bool_decide (state c = C_CLOSING))
  then emit (Cmd OP_DISCONNECT (put16 (handle c) ++ [HCI_E_USER_ENDED])) (c <| close_now := false |> <| state := C_CLOSING |> <| t := now |>) else c.
Definition upkeep_conn (now dh_st enc_st : Z) (i : nat) (h : hostT) : hostT :=
  if bool_decide (state (conn_of i h) = C_FREE) then h else
  let dh_free := bool_decide (dh_owner h = None) in
  let c := conn_of i h in
  let h := if need_dhkey c && dh_free && linked c && (dh_st =? 0) then h <| dh_owner := Some i |> else h in
  let h := on_conn i (upkeep_cmds now) (on_pst i (upkeep_pair now dh_free dh_st enc_st) h) in
  let c := conn_of i h in
  if bool_decide (state c = C_CLOSING) && (5000 <? now - t c) then if srv c then srv_lost h else lose i 0 h else h.
Definition server_upkeep (drop_srv : bool) (h : hostT) : hostT :=
  if bool_decide (state (conn_of SRV h) = C_UP) then
    on_gatts (gatts_notify chars read) (if drop_srv then upd_conn SRV (fun c => c <| close_now := true |>) h else h)
  else h.
Definition upkeep (now dh_st enc_st : Z) (drop_srv : bool) (h : hostT) : hostT :=
  fold_left (fun h i => upkeep_conn now dh_st enc_st i h) (seq 0 (S BLE_MAX_CONN)) (server_upkeep drop_srv h).
(** [st]: what the controller answers *)
Definition connect_next (now st : Z) (h : hostT) : hostT :=
  match in_state C_WAIT h, in_state C_CONNECTING h with
  | Some i, None =>
      let c := conn_of i h in
      let par := [0x60; 0; 0x60; 0; 0; u8 (addr_type c)] ++ addr_bytes (addr c) ++ [0] ++ put16 24 ++ put16 40 ++ put16 0 ++ put16 500 ++ put16 0 ++ put16 0 in
      let h := tell (addr c) (Cmd OP_LE_CONNECT par) (upd_conn i (fun c => c <| state := C_CONNECTING |> <| t := now |>) h) in
      if st =? 0 then h else lose i st h
  | _, _ => h
  end.
(** The controller lost, and every connection with it *)
Definition drop_all (h : hostT) : hostT :=
  let h := if bool_decide (state (conn_of SRV h) = C_FREE) then h else srv_lost h in
  let h := fold_left (fun h i => if bool_decide (state (conn_of i h) = C_FREE) then h else lose i HCI_E_TIMEOUT h) (seq 0 BLE_MAX_CONN) h in
  h <| frags := [] |>.
End link.
