(* ===== verification/BleLinkSafe.v ===== *)
(** * Bluetooth LE: frames cross whole, the controller's buffers are kept count of
    A frame cut into ACL packets is put together again as it was, and handed on once; and
    whatever happens, the packets the controller holds are never more than it has room for. *)
From S2P Require Import Prelude Cbits BleCrypto BleSpec Ble BleFrame BleGatt BleTrip BleBonds BlePair BleLink.

Section frames.
Context {T : Type} (have_sc : bool) (local_pk own_addr : bytes).
Context (uuid : bytes) (chars : list (bytes * Z)) (read : Z -> nat -> T -> bytes) (write : Z -> bytes -> T -> T).
Context (acl_len : nat) (acl_num : Z).
Abbreviation host := (host T).
Abbreviation acl_rx := (acl_rx have_sc local_pk own_addr uuid chars read write acl_len).
Abbreviation dispatch := (dispatch have_sc local_pk own_addr uuid chars read write acl_len).
Context (Hlen : (27 <= acl_len)%nat) (Hlen16 : Z.of_nat acl_len < 2 ^ 16).

Lemma find_index_alter {A} (p : A -> bool) (f : A -> A) l i : (forall x, p (f x) = p x) -> find_index p (alter f i l) = find_index p l.
Proof.
  intros H. revert i. induction l as [|x l IH]; intros [|i]; cbn; [done..| |].
  - by rewrite H.
  - by rewrite IH.
Qed.
Lemma by_handle_upd hd i f (h : host) : (forall c, state (f c) = state c /\ handle (f c) = handle c) -> by_handle hd (upd_conn i f h) = by_handle hd h.
Proof. intros H. apply find_index_alter. intros c. destruct (H c) as [E1 E2]. unfold linked. by rewrite E1, E2. Qed.
Lemma by_handle_lt hd (h : host) i : by_handle hd h = Some i -> (i < length (conns h))%nat.
Proof. apply find_index_lt. Qed.
Lemma conn_upd i f (h : host) : (i < length (conns h))%nat -> conn_of i (upd_conn i f h) = f (conn_of i h).
Proof.
  intros H. destruct (lookup_lt_is_Some_2 _ _ H) as [c Hc]. unfold conn_of, upd_conn. cbn. rewrite (list_lookup_total_correct _ _ _ Hc).
  apply list_lookup_total_correct. by rewrite list_lookup_alter_eq, Hc.
Qed.
Lemma upd_upd i f g (h : host) : upd_conn i f (upd_conn i g h) = upd_conn i (fun c => f (g c)) h.
Proof. unfold upd_conn, set. cbn. f_equal. apply (list_alter_alter_eq f g). Qed.

(** ** The head of a packet *)
Lemma frag_head hd first d : 0 <= hd < 2 ^ 12 -> (length d <= acl_len)%nat ->
  let p := drop 1 (f_b (acl_frag hd first d)) in
  length p = (4 + length d)%nat /\ Z.land (get16 p 0) 0x0fff = hd /\ Z.to_nat (get16 p 2) = length d /\ drop 4 p = d /\
  negb (Z.land (Z.shiftr (at_ p 1) 4) 3 =? 1) = first.
Proof.
  intros Hh Hd p. assert (E : p = u8 hd :: Z.lor (Z.land (Z.shiftr hd 8) 0x0f) (if first then 0x00 else 0x10) :: put16 (Z.of_nat (length d)) ++ d) by done.
  rewrite E. clear p E. set (x := Z.lor _ _). pose proof (Z.div_mod hd 256) as Dm. pose proof (Z.mod_pos_bound hd 256) as Mb.
  assert (Hq : 0 <= hd / 256 < 16) by (split; [apply Z.div_pos|apply Z.div_lt_upper_bound]; lia).
  assert (Ex : x = hd / 256 + (if first then 0 else 16)).
  { unfold x. rewrite shiftr_div by lia. change (2 ^ 8) with 256. change 0x0f with (Z.ones 4). rewrite land_mask by lia. rewrite Z.mod_small by (change (2 ^ 4) with 16; lia).
    destruct first; [by rewrite Z.lor_0_r, Z.add_0_r|]. rewrite Z.lor_comm. change (Z.lor 16 ?q) with (Z.lor (Z.shiftl 1 4) q). rewrite lor_shiftl_add by (change (2 ^ 4) with 16; lia). change (2 ^ 4) with 16. lia. }
  clearbody x. split_and!.
  - cbn [length]. rewrite length_app, put16_length. lia.
  - unfold get16. cbn [at_ nth]. change 0x0fff with (Z.ones 12). rewrite land_mask by lia. change (2 ^ 12) with 4096. unfold u8. change (2 ^ 8) with 256. rewrite Ex.
    destruct first; [rewrite Z.mod_small; lia|]. replace (hd mod 256 + 256 * (hd / 256 + 16)) with (hd + 1 * 4096) by lia. rewrite Z.mod_add by lia. apply Z.mod_small. lia.
  - change (get16 (u8 hd :: x :: put16 (Z.of_nat (length d)) ++ d) 2) with (get16 (x :: put16 (Z.of_nat (length d)) ++ d) 1). rewrite get16_put16, Z.mod_small; lia.
  - done.
  - cbn [at_ nth]. rewrite shiftr_div by lia. change (2 ^ 4) with 16. change 3 with (Z.ones 2). rewrite land_mask by lia. change (2 ^ 2) with 4. rewrite Ex.
    destruct first; [by rewrite Z.div_small by lia|]. replace (hd / 256 + 16) with (hd / 256 + 1 * 16) by lia. rewrite Z.div_add by lia. by rewrite Z.div_small by lia.
Qed.

(** ** The packets of a frame, one after the other *)
Definition feed (now : Z) (r : bytes) (fs : list frag) (h : host) : host := fold_left (fun h f => acl_rx now r (drop 1 (f_b f)) h) fs h.
(** Waiting for the rest of a frame of [w] bytes, [x] of them there *)
Definition part_of (w : nat) (x : bytes) (c : conn) : conn := c <| rxwant := w |> <| rx := x |>.
Definition whole (x : bytes) (c : conn) : conn := c <| rxwant := 0%nat |> <| rx := x |> <| heard := true |>.

Lemma acl_rx_first now r hd d h i : 0 <= hd < 2 ^ 12 -> by_handle hd h = Some i -> (4 <= length d <= acl_len)%nat -> (length d <= RX_SIZE)%nat ->
  let w := (4 + Z.to_nat (get16 d 0))%nat in
  acl_rx now r (drop 1 (f_b (acl_frag hd true d))) h =
    if (length d <? w)%nat then upd_conn i (part_of w d) h else l2cap_rx have_sc local_pk own_addr uuid chars read write acl_len now r i (upd_conn i (whole d) h).
Proof.
  intros Hh Hb Hd Hr w. destruct (frag_head hd true d Hh) as (E1 & E2 & E3 & E4 & E5); [lia|]. set (p := drop 1 _) in *. clearbody p.
  unfold BleLink.acl_rx. rewrite E1, E2, E3, E4, E5, Hb. cbv zeta. rewrite (proj2 (Nat.ltb_ge _ _)) by lia. rewrite (proj2 (Nat.ltb_ge _ _)) by lia.
  rewrite (take_ge d) by lia. rewrite (proj2 (Nat.ltb_ge _ _)) by lia.
  pose proof (by_handle_lt _ _ _ Hb) as L. rewrite !conn_upd by (unfold upd_conn; cbn; rewrite ?length_alter; done).
  match goal with |- (if ?b then _ else (if ?b2 then _ else _)) = _ => change b with (RX_SIZE <? length d)%nat; change b2 with (length d <? w)%nat end.
  rewrite (proj2 (Nat.ltb_ge _ _)) by lia. rewrite !upd_upd. reflexivity.
Qed.
Lemma acl_rx_next now r hd d h0 i w x : 0 <= hd < 2 ^ 12 -> by_handle hd h0 = Some i -> (length d <= acl_len)%nat -> (0 < w)%nat -> (length x + length d <= RX_SIZE)%nat ->
  acl_rx now r (drop 1 (f_b (acl_frag hd false d))) (upd_conn i (part_of w x) h0) =
    if (length (x ++ d) <? w)%nat then upd_conn i (part_of w (x ++ d)) h0
    else l2cap_rx have_sc local_pk own_addr uuid chars read write acl_len now r i (upd_conn i (whole (x ++ d)) h0).
Proof.
  intros Hh Hb Hd Hw Hr. destruct (frag_head hd false d Hh Hd) as (E1 & E2 & E3 & E4 & E5). set (p := drop 1 _) in *. clearbody p.
  pose proof (by_handle_lt _ _ _ Hb) as L. unfold BleLink.acl_rx. rewrite E1, E2, E3, E4, E5. rewrite by_handle_upd by done. rewrite Hb. cbv zeta.
  rewrite (proj2 (Nat.ltb_ge _ _)) by lia. rewrite (proj2 (Nat.ltb_ge _ _)) by lia. rewrite (take_ge d) by lia.
  rewrite !conn_upd by (unfold upd_conn; cbn; rewrite ?length_alter; done).
  match goal with |- (if ?b then _ else (if ?b2 then _ else (if ?b3 then _ else _))) = _ =>
    change b with (w =? 0)%nat; change b2 with (RX_SIZE <? length x + length d)%nat; change b3 with (length (x ++ d) <? w)%nat end.
  rewrite (proj2 (Nat.eqb_neq _ _)) by lia. rewrite (proj2 (Nat.ltb_ge _ _)) by lia. rewrite !upd_upd. reflexivity.
Qed.
Lemma feed_rest now r hd i w h0 : 0 <= hd < 2 ^ 12 -> by_handle hd h0 = Some i -> forall fuel rest x,
  (length rest <= fuel)%nat -> rest <> [] -> (length x + length rest = w)%nat -> (w <= RX_SIZE)%nat ->
  feed now r (acl_frags acl_len fuel hd false rest) (upd_conn i (part_of w x) h0) =
  l2cap_rx have_sc local_pk own_addr uuid chars read write acl_len now r i (upd_conn i (whole (x ++ rest)) h0).
Proof.
  intros Hh Hb. induction fuel as [|fuel IH]; intros rest x Hf Hn Hw Hr; [by destruct rest; cbn in Hf; try lia|].
  destruct rest as [|b rest0] eqn:Er; [done|]. cbn [acl_frags]. rewrite <- Er in *.
  assert (Hpos : (0 < length rest)%nat) by (rewrite Er; cbn; lia). clear Er. unfold feed. cbn [fold_left].
  assert (Lt : length (take acl_len rest) = Nat.min acl_len (length rest)) by apply length_take.
  rewrite acl_rx_next by (try done; rewrite ?Lt; lia).
  rewrite length_app, Lt. destruct (Nat.ltb_spec (length x + Nat.min acl_len (length rest)) w) as [H|H].
  - fold (feed now r (acl_frags acl_len fuel hd false (drop acl_len rest)) (upd_conn i (part_of w (x ++ take acl_len rest)) h0)).
    rewrite IH; [by rewrite <- app_assoc, take_drop|rewrite length_drop; lia| |rewrite length_app, Lt, length_drop; lia|done].
    intros E. apply (f_equal length) in E. rewrite length_drop in E. cbn in E. lia.
  - rewrite (take_ge rest), (drop_ge rest) by lia. by destruct fuel.
Qed.

Lemma get16_front v l : get16 (put16 v ++ l) 0 = v mod 2 ^ 16.
Proof. exact (get16_put16 0 v l). Qed.
Lemma get16_front2 a b v l : get16 (a :: b :: put16 v ++ l) 2 = v mod 2 ^ 16.
Proof. exact (get16_put16 0 v l). Qed.
(** C23. Frames cross the link whole: cut into ACL packets of whatever size the controller takes,
    each marked as the first or one that goes on, a frame is put together again at the other
    end, nothing of it before its last packet, and handed on once, the same channel, the same
    bytes. *)
Theorem frames_cross_whole now r hd cid pdu h i :
  0 <= hd < 2 ^ 12 -> by_handle hd h = Some i -> 0 <= cid < 2 ^ 16 -> (length pdu <= ATT_MTU + 16)%nat ->
  let fr := l2cap_frame cid pdu in
  feed now r (acl_frags acl_len (length fr) hd true fr) h = dispatch now r i cid pdu (upd_conn i (whole fr) h).
Proof.
  intros Hh Hb Hc Hp fr. assert (Lf : length fr = (4 + length pdu)%nat) by (unfold fr, l2cap_frame; rewrite !length_app, !put16_length; lia).
  assert (F : l2cap_rx have_sc local_pk own_addr uuid chars read write acl_len now r i (upd_conn i (whole fr) h) = dispatch now r i cid pdu (upd_conn i (whole fr) h)).
  { unfold l2cap_rx. rewrite conn_upd by (by eapply by_handle_lt). change (rx (whole fr ?c)) with fr. cbv zeta. unfold fr, l2cap_frame. rewrite get16_front.
    change (put16 (Z.of_nat (length pdu)) ++ put16 cid ++ pdu) with (at_ (put16 (Z.of_nat (length pdu))) 0 :: at_ (put16 (Z.of_nat (length pdu))) 1 :: put16 cid ++ pdu) at 1.
    rewrite get16_front2, !Z.mod_small by (unfold ATT_MTU in Hp; lia). rewrite Nat2Z.id. f_equal. apply take_ge. cbn. lia. }
  destruct fr as [|b fr0] eqn:Er; [done|]. cbn [acl_frags length]. rewrite <- Er in *. unfold feed. cbn [fold_left].
  assert (Lt : length (take acl_len fr) = Nat.min acl_len (length fr)) by apply length_take.
  rewrite (acl_rx_first now r hd _ h i) by (try done; rewrite ?Lt; unfold RX_SIZE, ATT_MTU in *; lia).
  assert (G : get16 (take acl_len fr) 0 = Z.of_nat (length pdu)).
  { unfold fr, l2cap_frame. rewrite take_app_ge by (rewrite put16_length; lia). rewrite get16_front. apply Z.mod_small. unfold ATT_MTU in Hp. lia. }
  rewrite G, Nat2Z.id, Lt, <- Lf. destruct (Nat.ltb_spec (Nat.min acl_len (length fr)) (length fr)) as [H|H].
  - rewrite <- F. rewrite <- (take_drop acl_len fr) at 4. apply feed_rest; try done.
    + rewrite length_drop, Er. cbn. lia.
    + intros E. apply (f_equal length) in E. rewrite length_drop in E. cbn in E. lia.
    + rewrite Lt, length_drop. lia.
    + unfold RX_SIZE, ATT_MTU in *. lia.
  - rewrite (take_ge fr), (drop_ge fr) by lia. rewrite <- F. by destruct fr0.
Qed.
End frames.

(** ** The controller's buffers *)
Section buffers.
Context {T : Type} (have_sc : bool) (local_pk own_addr : bytes).
Context (uuid : bytes) (chars : list (bytes * Z)) (read : Z -> nat -> T -> bytes) (write : Z -> bytes -> T -> T).
Context (connection : bool -> T -> T) (acl_len : nat) (acl_num : Z) (of_a2dp : Z -> bool).
Abbreviation host := (host T).

(** Packets of the connections the controller has *)
Definition at_controller (cs : list conn) : Z := foldr (fun c n => unacked c + n) 0 cs.
Definition buf_ok (h : host) : Prop :=
  length (conns h) = S BLE_MAX_CONN /\ credits h + at_controller (conns h) = acl_num /\ 0 <= credits h /\
  Forall (fun c => 0 <= unacked c /\ (state c = C_FREE -> unacked c = 0)) (conns h).
(** No packet more or less, and no connection left without being freed *)
Definition calm (c c' : conn) : Prop := unacked c' = unacked c /\ (state c' = C_FREE -> state c = C_FREE).
Lemma held_calm c c' : held c' = held c -> calm c c'.
Proof.
  unfold held. intros H. pose proof (f_equal fst H) as E1. pose proof (f_equal snd H) as E2. cbn in *. split; [done|]. intros S.
  rewrite (bool_decide_eq_true_2 _ S) in E2. symmetry in E2. by apply bool_decide_eq_true_1 in E2.
Qed.
Lemma calm_trans c1 c2 c3 : calm c1 c2 -> calm c2 c3 -> calm c1 c3.
Proof. intros [A1 B1] [A2 B2]. split; [congruence|]. intros H. by apply B1, B2. Qed.
Lemma at_controller_insert cs i c c' : cs !! i = Some c -> at_controller (<[i := c']> cs) = at_controller cs - unacked c + unacked c'.
Proof.
  unfold at_controller. revert i. induction cs as [|x cs IH]; intros [|i] H; cbn in H; simplify_eq; [cbn; lia|].
  specialize (IH i H). change (<[S i := c']> (x :: cs)) with (x :: <[i := c']> cs). cbn [foldr]. lia.
Qed.
Lemma at_controller_le cs i c : Forall (fun c => 0 <= unacked c /\ (state c = C_FREE -> unacked c = 0)) cs -> cs !! i = Some c -> unacked c <= at_controller cs.
Proof.
  intros H. revert i. induction H as [|x cs [Hx _] H IH]; intros [|i] Hi; cbn in Hi; simplify_eq; cbn.
  - assert (0 <= foldr (fun c n => unacked c + n) 0 cs); [|lia]. clear -H. induction H as [|x cs [? _] _ IH]; cbn; lia.
  - specialize (IH _ Hi). unfold at_controller in IH. lia.
Qed.
(** A connection set, with its share of the buffers *)
Lemma buf_set h i c c' k : buf_ok h -> conns h !! i = Some c -> unacked c' = unacked c + k -> 0 <= unacked c' -> (state c' = C_FREE -> unacked c' = 0) ->
  0 <= credits h - k -> buf_ok (h <| conns := <[i := c']> (conns h) |> <| credits := credits h - k |>).
Proof.
  intros (L & S & C & F) Hi Hk H0 Hf Hc. split_and!; cbn.
  - by rewrite length_insert.
  - rewrite (at_controller_insert _ _ _ _ Hi). lia.
  - done.
  - by apply Forall_insert.
Qed.
Lemma buf_same h h' : buf_ok h -> conns h' = conns h -> credits h' = credits h -> buf_ok h'.
Proof. unfold buf_ok. by intros H -> ->. Qed.
Lemma buf_insert h i c' : buf_ok h -> calm (conn_of i h) c' -> buf_ok (h <| conns := <[i := c']> (conns h) |>).
Proof.
  intros B [E1 E2]. destruct (conns h !! i) as [c|] eqn:Hi.
  - unfold conn_of in *. rewrite (list_lookup_total_correct _ _ _ Hi) in *. pose proof B as (L & S & C & F). rewrite Forall_lookup in F. destruct (F _ _ Hi) as [F1 F2].
    eapply buf_same; [apply (buf_set h i c c' 0 B Hi)|reflexivity|cbn; lia]; try lia. intros H. rewrite E1. auto.
  - eapply buf_same; [exact B| |reflexivity]. cbn. apply list_insert_ge. by apply lookup_ge_None.
Qed.
Lemma upd_insert i f (h : host) : upd_conn i f h = h <| conns := <[i := f (conn_of i h)]> (conns h) |>.
Proof.
  unfold upd_conn, conn_of, set. cbn. f_equal. destruct (conns h !! i) as [c|] eqn:Hi.
  - rewrite (list_lookup_total_correct _ _ _ Hi). apply list_eq. intros j. destruct (decide (i = j)) as [<-|].
    + rewrite list_lookup_alter_eq, Hi, list_lookup_insert_eq; [done|by eapply lookup_lt_Some].
    + by rewrite list_lookup_alter_ne, list_lookup_insert_ne.
  - pose proof (proj1 (lookup_ge_None _ _) Hi). rewrite list_insert_ge by done. apply list_eq. intros j. destruct (decide (i = j)) as [<-|].
    + by rewrite list_lookup_alter_eq, Hi.
    + by rewrite list_lookup_alter_ne.
Qed.
Lemma buf_upd h i f : buf_ok h -> (forall c, calm c (f c)) -> buf_ok (upd_conn i f h).
Proof. intros B H. rewrite upd_insert. by apply buf_insert. Qed.
Lemma linked_up c : linked c = true -> state c <> C_FREE.
Proof. unfold linked. intros H E. by rewrite E in H. Qed.
Lemma by_handle_conn hd (h : host) i : by_handle hd h = Some i -> exists c, conns h !! i = Some c /\ linked c = true /\ handle c = hd.
Proof. intros H. destruct (find_index_Some _ _ _ H) as (c & Hc & Hp & _). exists c. apply andb_true_iff in Hp. rewrite Z.eqb_eq in Hp. tauto. Qed.

(** ** Out *)
Lemma flush_ok fs : forall h, buf_ok h -> buf_ok (flush_loop fs h).
Proof.
  induction fs as [|f fs IH]; intros h B; cbn [flush_loop]; [by eapply buf_same|].
  destruct (Z.leb_spec (credits h) 0); [by eapply buf_same|]. apply IH. destruct (by_handle (f_handle f) h) as [i|] eqn:E; [|done].
  destruct (by_handle_conn _ _ _ E) as (c & Hc & Hl & _). rewrite upd_insert. cbn. pose proof B as (_ & _ & _ & F). rewrite Forall_lookup in F. destruct (F _ _ Hc) as [F1 F2].
  eapply buf_same; [apply (buf_set h i c (c <| unacked := unacked c + 1 |>) 1 B Hc)| |]; try done; try lia; cbn; [lia|intros S; by destruct (linked_up c Hl)|].
  unfold conn_of. cbn. by rewrite (list_lookup_total_correct _ _ _ Hc).
Qed.
Lemma send_ok i cid pdu h : buf_ok h -> buf_ok (l2cap_send acl_len i cid pdu h).
Proof. intros B. unfold l2cap_send. destruct (_ <? _)%nat; [done|]. cbv zeta. apply flush_ok. by eapply buf_same. Qed.
Lemma tell_ok a o h : buf_ok h -> buf_ok (tell a o h).
Proof. intros B. by eapply buf_same. Qed.
Lemma settle_ok i h : buf_ok h -> buf_ok (settle acl_len i h).
Proof.
  intros B. unfold settle. assert (B' : buf_ok (upd_conn i (fun c => c <| outs := [] |>) h)) by (by apply buf_upd). revert B'. generalize (upd_conn i (fun c => c <| outs := [] |>) h).
  clear B. induction (outs (conn_of i h)) as [|o l IH]; intros h' B; [done|]. cbn [fold_left]. apply IH. destruct o; cbn; try (by apply tell_ok). by apply send_ok.
Qed.
Lemma on_pst_ok i f h : buf_ok h -> (forall s, calm (pc s) (pc (f s))) -> buf_ok (on_pst acl_len i f h).
Proof.
  intros B H. unfold on_pst. apply settle_ok. eapply buf_same; [apply (buf_insert h i (pc (f (mk_pst (conn_of i h) (h_bonds h)))) B)|done|done]. apply H.
Qed.
Lemma on_gatts_ok f h : buf_ok h -> buf_ok (on_gatts acl_len f h).
Proof.
  intros B. unfold on_gatts. cbv zeta. assert (B' : buf_ok (h <| gs := (f (gs h)) <| sent := [] |> |>)) by (by eapply buf_same). revert B'.
  generalize (h <| gs := (f (gs h)) <| sent := [] |> |>). induction (sent (f (gs h))) as [|p l IH]; intros h' B'; [done|]. cbn [fold_left]. apply IH. by apply send_ok.
Qed.
Lemma free_ok i h : buf_ok h -> buf_ok (free_conn i h).
Proof.
  intros B. unfold free_conn. cbv zeta. set (h1 := if asked _ then _ else h).
  assert (B1 : buf_ok h1 /\ conns h1 = conns h) by (unfold h1; destruct (asked _); [split; [by apply tell_ok|done]|done]).
  set (h2 := if bool_decide (dh_owner h1 = Some i) then _ else h1).
  assert (B2 : buf_ok h2 /\ conns h2 = conns h) by (unfold h2; destruct (bool_decide _); [split; [eapply buf_same; [apply B1|done|done]|apply B1]|done]).
  clearbody h2. clear h1 B1. destruct B2 as [B2 E2]. destruct (conns h !! i) as [c|] eqn:Hi.
  - pose proof Hi as Hi2. rewrite <- E2 in Hi2. pose proof B2 as (_ & _ & C & F). rewrite Forall_lookup in F. destruct (F _ _ Hi2) as [F1 F2].
    eapply buf_same; [apply (buf_set h2 i c conn0 (- unacked c) B2 Hi2)|done|]; cbn; try lia; try done. unfold conn_of. rewrite (list_lookup_total_correct _ _ _ Hi). lia.
  - assert (E0 : conn_of i h = conn0) by (unfold conn_of; by rewrite list_lookup_total_alt, Hi). rewrite E0.
    eapply buf_same; [exact B2| |]; cbn; [|lia]. apply list_insert_ge. rewrite E2. by apply lookup_ge_None.
Qed.
Lemma lose_ok i err h : buf_ok h -> buf_ok (lose i err h).
Proof. intros B. by apply tell_ok, free_ok. Qed.
Lemma srv_lost_ok h : buf_ok h -> buf_ok (srv_lost connection h).
Proof. intros B. eapply buf_same; [by apply (free_ok SRV)|done|done]. Qed.

(** ** Handlers leave the count alone *)
Lemma done_held ok err c : held (pair_done ok err c) = held c.
Proof. unfold pair_done. by destruct (asked _). Qed.
Lemma fail_held r c : held (smp_fail r c) = held c.
Proof. unfold smp_fail. by rewrite done_held. Qed.
Lemma finish_held s : held (pc (smp_finish s)) = held (pc s).
Proof.
  unfold smp_finish. cbv zeta. destruct (has_key _); [|apply done_held].
  destruct (match bond_for _ _ _ with Some _ => false | None => _ end); (etrans; [apply done_held|done]).
Qed.
Lemma step_held p r s : held (pc (smp_step have_sc local_pk own_addr p r s)) = held (pc s).
Proof.
  unfold smp_step. cbv zeta. assert (U : forall e, held (pc (on_c (smp_fail e) s)) = held (pc s)) by (intros; etrans; [apply fail_held|done]).
  destruct (s_state _); try apply U; try (destruct (_ && _); [|apply U]); try reflexivity.
  - change (held (rx_rsp have_sc local_pk own_addr p r (pc s)) = held (pc s)). unfold rx_rsp. cbv zeta. destruct (_ <? 7); [etrans; [apply fail_held|done]|]. by destruct (have_sc && _).
  - change (held (rx_random own_addr p (pc s)) = held (pc s)). unfold rx_random. cbv zeta. destruct (negb _); [etrans; [apply fail_held|done]|done].
  - change (held (rx_pk local_pk p (pc s)) = held (pc s)). unfold rx_pk. cbv zeta. destruct (bool_decide _); [etrans; [apply fail_held|done]|done].
  - change (held (rx_nb local_pk p (pc s)) = held (pc s)). unfold rx_nb. cbv zeta. destruct (negb _); [etrans; [apply fail_held|done]|done].
  - change (held (rx_eb own_addr p (pc s)) = held (pc s)). unfold rx_eb. cbv zeta. destruct (negb _); [etrans; [apply fail_held|done]|done].
  - unfold rx_keys. destruct (key_rx _ _) as [m|]; [destruct (_ =? _); [by rewrite finish_held|done]|]. destruct (_ =? 0x0a); [done|apply U].
Qed.
Lemma smp_rx_held now p r s : held (pc (smp_rx now have_sc local_pk own_addr p r s)) = held (pc s).
Proof.
  unfold smp_rx. cbv zeta. destruct (_ =? 0)%nat; [done|]. destruct (_ =? 0x0b); [destruct (_ || _); [done|]; destruct (bond_of_conn s); [by destruct (enc _)|done]|].
  destruct (_ =? 0x05); [destruct (bool_decide _); [done|etrans; [apply done_held|done]]|]. destruct (_ =? 0x01); [done|]. destruct (bool_decide _); [done|]. by rewrite step_held.
Qed.
Lemma dhkey_held now st v c : held (dhkey_done now own_addr st v c) = held c.
Proof. unfold dhkey_done. destruct (negb _); [done|]. destruct (negb _); [etrans; [apply fail_held|done]|]. by destruct (smp_f5 _ _ _ _ _). Qed.
Lemma start_op_held now c : held (start_op now c) = held c.
Proof. apply keyed_held, start_op_keyed. Qed.
Lemma encrypted_held now st s : held (pc (encrypted now st s)) = held (pc s).
Proof.
  unfold encrypted. cbv zeta. change (pc (on_c ?f ?x)) with (f (pc x)). rewrite start_op_held.
  match goal with |- held (pc ?e) = _ => set (x := e) end.
  match goal with x := context [if mtu_retry _ && _ then ?a else ?b] |- _ => set (s2 := if mtu_retry (pc b) && bool_decide (state (pc b) = C_MTU) then a else b) in x end.
  assert (E2 : held (pc s2) = held (pc s)) by (unfold s2; by destruct (_ && _)). rewrite <- E2. unfold x. clearbody s2. clear x E2.
  destruct (st =? 0).
  - destruct (bool_decide _); [destruct (_ =? 0); [by rewrite finish_held|done]|]. destruct (_ && _); [etrans; [apply done_held|done]|done].
  - destruct (bool_decide _); [etrans; [apply done_held|done]|]. destruct (bond_for _ _ _); [destruct (_ =? 6)|]; (destruct (asked _); [etrans; [apply done_held|done]|done]).
Qed.
Lemma ask_held now s : held (pc (ask_pair now have_sc s)) = held (pc s).
Proof.
  unfold ask_pair. cbv zeta. destruct (negb _); [done|]. destruct (negb _); [done|]. destruct (bond_of_conn _); [|done].
  destruct (enc _); [etrans; [apply done_held|done]|]. by destruct (enc_pending _).
Qed.
Lemma upkeep_pair_held now free dh_st enc_st s : held (pc (upkeep_pair now free dh_st enc_st s)) = held (pc s).
Proof.
  unfold upkeep_pair. set (s1 := on_c (upkeep_dhkey free dh_st) s). assert (E1 : held (pc s1) = held (pc s)).
  { change (held (upkeep_dhkey free dh_st (pc s)) = held (pc s)). unfold upkeep_dhkey. destruct (_ && _); [|done]. cbv zeta. destruct (_ =? 0); [done|etrans; [apply fail_held|done]]. }
  rewrite <- E1. clearbody s1. assert (E2 : held (pc (upkeep_enc now enc_st s1)) = held (pc s1)).
  { unfold upkeep_enc. cbv zeta. destruct (_ && _); [|done]. destruct (_ =? 0); [done|by rewrite encrypted_held]. }
  rewrite <- E2. change (pc (on_c ?f ?x)) with (f (pc x)). unfold smp_upkeep. destruct (_ && _); [etrans; [apply fail_held|done]|done].
Qed.
Lemma came_up_calm now h s : calm (pc s) (pc (came_up now h s)).
Proof. unfold came_up. cbv zeta. destruct (negb _); [by split|]. destruct (bond_of_conn _); by split. Qed.
Lemma att_rx_calm now p c : calm c (att_rx now p c).
Proof. apply held_calm, keyed_held, att_rx_keyed. Qed.
Lemma upkeep_cmds_calm now c : calm c (upkeep_cmds now c).
Proof.
  unfold upkeep_cmds. cbv zeta.
  set (c1 := if ltk_neg c then _ else c). assert (H1 : calm c c1) by (unfold c1; destruct (ltk_neg c); by split). clearbody c1.
  set (c2 := match upd c1 with Some par => _ | None => c1 end). assert (H2 : calm c1 c2) by (unfold c2; destruct (upd c1); [destruct (linked c1)|]; by split). clearbody c2.
  set (c3 := if bool_decide (state c2 = C_CONNECTING) && _ && _ then _ else c2). assert (H3 : calm c2 c3) by (unfold c3; destruct (_ && _); by split). clearbody c3.
  set (c4 := if bool_decide (state c3 = C_MTU) && _ then _ else c3). assert (H4 : calm c3 c4) by (unfold c4; destruct (_ && _); [apply att_rx_calm|by split]). clearbody c4.
  set (c5 := match cur c4 with Some o => _ | None => c4 end). assert (H5 : calm c4 c5).
  { unfold c5. destruct (cur c4); [|by split]. destruct (_ && _); [|by split]. apply held_calm. pose proof (keyed_held _ _ (op_fail_keyed now (o_handle o) GATT_E_FAILED (c4 <| close_now := true |>))) as K. exact K. }
  clearbody c5. assert (H6 : calm c5 (if close_now c5 && linked c5 && negb (bool_decide (state c5 = C_CLOSING))
    then emit (Cmd OP_DISCONNECT (put16 (handle c5) ++ [HCI_E_USER_ENDED])) (c5 <| close_now := false |> <| state := C_CLOSING |> <| t := now |>) else c5)) by (destruct (_ && _); by split).
  exact (calm_trans _ _ _ H1 (calm_trans _ _ _ H2 (calm_trans _ _ _ H3 (calm_trans _ _ _ H4 (calm_trans _ _ _ H5 H6))))).
Qed.

(** ** Everything that happens *)
Inductive hstep :=
  | Acl (now : Z) (r p : bytes) | Complete (now : Z) (q : bytes) | Gone (q : bytes) | EncChange (now code : Z) (q : bytes)
  | Completed (q : bytes) | LtkRequest (q : bytes) | DhKeyComplete (now : Z) (q : bytes) | Request (now : Z) (r : req)
  | Keep (now dh_st enc_st : Z) (drop_srv : bool) | Next (now st : Z) | Lost.
Definition hrun (h : host) (x : hstep) : host :=
  match x with
  | Acl now r p => acl_rx have_sc local_pk own_addr uuid chars read write acl_len now r p h
  | Complete now q => conn_complete connection acl_len now q h
  | Gone q => disconnected connection q h
  | EncChange now code q => enc_changed acl_len now code q h
  | Completed q => num_completed acl_num of_a2dp q h
  | LtkRequest q => ltk_request q h
  | DhKeyComplete now q => dhkey_complete own_addr acl_len now q h
  | Request now r => handle_request have_sc acl_len now r h
  | Keep now dh_st enc_st d => upkeep chars read connection acl_len now dh_st enc_st d h
  | Next now st => connect_next now st h
  | Lost => drop_all connection h
  end.
(** The controller reports packets it was sent, of a connection there is, and no others *)
Fixpoint honest_list (l : list (Z * Z)) (h : host) : Prop :=
  match l with
  | [] => True
  | (hd, k) :: l =>
      (of_a2dp hd = false -> exists i, by_handle hd h = Some i /\ 0 <= k <= unacked (conn_of i h)) /\ honest_list l (completed_one acl_num of_a2dp h (hd, k))
  end.
Definition honest (h : host) (x : hstep) : Prop := match x with Completed q => honest_list (completed_list q) h | _ => True end.

Lemma completed_ok hd k h : (of_a2dp hd = false -> exists i, by_handle hd h = Some i /\ 0 <= k <= unacked (conn_of i h)) -> buf_ok h ->
  buf_ok (completed_one acl_num of_a2dp h (hd, k)).
Proof.
  intros H B. unfold completed_one. destruct (of_a2dp hd); [done|]. destruct (H eq_refl) as (i & E & Hk). cbv zeta.
  destruct (by_handle_conn _ _ _ E) as (c & Hc & Hl & _). unfold conn_of in Hk. rewrite (list_lookup_total_correct _ _ _ Hc) in Hk.
  change (by_handle hd (h <| credits := _ |>)) with (by_handle hd h). rewrite E, upd_insert. pose proof B as (_ & S & _ & F). pose proof (at_controller_le _ _ _ F Hc) as Hle.
  pose proof B as (_ & _ & C & _).
  eapply buf_same; [apply (buf_set h i c (c <| unacked := Z.max 0 (unacked c - k) |>) (- k) B Hc)| |]; cbn; try lia.
  - intros X. by destruct (linked_up c Hl).
  - unfold conn_of. cbn. by rewrite (list_lookup_total_correct _ _ _ Hc).
Qed.
Lemma completed_all_ok l : forall h, honest_list l h -> buf_ok h -> buf_ok (fold_left (completed_one acl_num of_a2dp) l h).
Proof. induction l as [|[hd k] l IH]; intros h H B; [done|]. destruct H as [H1 H2]. cbn [fold_left]. apply IH; [done|]. by apply completed_ok. Qed.
Lemma on_conn_ok i f h : buf_ok h -> (forall c, calm c (f c)) -> buf_ok (on_conn acl_len i f h).
Proof. intros B H. apply on_pst_ok; [done|]. intros s. apply H. Qed.
Lemma dispatch_ok now r i cid pdu h : buf_ok h -> buf_ok (dispatch have_sc local_pk own_addr uuid chars read write acl_len now r i cid pdu h).
Proof.
  intros B. unfold dispatch. assert (S : forall p c, calm c (sig_rx p c)) by (intros; unfold sig_rx; cbv zeta; repeat (case_match; try by split)).
  destruct (srv _).
  - destruct (_ =? _); [by apply on_gatts_ok|]. destruct (_ =? _); [by apply on_conn_ok|]. destruct (_ && _); [|done]. apply on_conn_ok; [done|]. by split.
  - destruct (_ =? _); [apply on_conn_ok; [done|]; intros; apply att_rx_calm|]. destruct (_ =? _); [by apply on_conn_ok|]. destruct (_ =? _); [|done].
    apply on_pst_ok; [done|]. intros s. apply held_calm, smp_rx_held.
Qed.
Lemma acl_ok now r p h : buf_ok h -> buf_ok (acl_rx have_sc local_pk own_addr uuid chars read write acl_len now r p h).
Proof.
  intros B. unfold acl_rx. cbv zeta. destruct (_ <? _)%nat; [done|]. destruct (by_handle _ h) as [i|]; [|done]. destruct (_ <? _)%nat; [done|].
  destruct (if negb _ then _ else _)%nat; [done|].
  set (h1 := if negb _ then _ else h). assert (B1 : buf_ok h1) by (unfold h1; destruct (negb _); [by apply buf_upd|done]). clearbody h1.
  destruct (_ <? _)%nat; [by apply buf_upd|]. assert (B2 : buf_ok (upd_conn i (fun c => c <| rx := rx c ++ take (Z.to_nat (get16 p 2)) (drop 4 p) |>) h1)) by (by apply buf_upd).
  destruct (_ <? _)%nat; [done|]. apply dispatch_ok. by apply buf_upd.
Qed.

Lemma phone_up_ok now q h : buf_ok h -> buf_ok (phone_up connection now q h).
Proof.
  intros B. unfold phone_up. destruct (bool_decide_reflect (state (conn_of SRV h) = C_FREE)) as [E|E]; cbn [negb]; [|by apply tell_ok]. cbv zeta.
  match goal with |- buf_ok (set gs _ ?x) => apply (buf_same x); [|done|done] end. apply buf_insert; [done|].
  pose proof B as (L & _ & _ & F). destruct (lookup_lt_is_Some_2 (conns h) SRV) as [c Hc]; [rewrite L; unfold SRV, BLE_MAX_CONN; lia|].
  rewrite Forall_lookup in F. destruct (F _ _ Hc) as [_ F2]. unfold conn_of in *. rewrite (list_lookup_total_correct _ _ _ Hc) in *. split; [cbn; by rewrite F2|done].
Qed.
Lemma complete_ok now q h : buf_ok h -> buf_ok (conn_complete connection acl_len now q h).
Proof.
  intros B. unfold conn_complete. cbv zeta. destruct (_ && _ && _); [by apply phone_up_ok|]. destruct (in_state _ _) as [i|]; [|done].
  destruct (_ <? _)%nat; [done|]. destruct (negb _); [by apply lose_ok|]. apply on_pst_ok; [done|]. intros; apply came_up_calm.
Qed.
Lemma gone_ok q h : buf_ok h -> buf_ok (disconnected connection q h).
Proof.
  intros B. unfold disconnected. destruct (_ || _); [done|]. destruct (by_handle _ _) as [i|]; [|done]. cbv zeta. destruct (srv _); [by apply srv_lost_ok|by apply lose_ok].
Qed.
Lemma request_ok now r h : buf_ok h -> buf_ok (handle_request have_sc acl_len now r h).
Proof.
  intros B. unfold handle_request. cbv zeta. assert (F : forall e, buf_ok (tell (r_addr r) e h)) by (intros; by apply tell_ok).
  assert (Q : forall k, buf_ok (match by_addr (r_addr r) h with None => tell (r_addr r) (Error (r_handle r) GATT_E_FAILED) h | Some i =>
    if negb (bool_decide (state (conn_of i h) = C_UP)) then tell (r_addr r) (Error (r_handle r) GATT_E_FAILED) h else
    on_conn acl_len i (op_queue now (mk_op k (r_handle r) (r_response r) (r_data r))) h end)).
  { intros k. destruct (by_addr _ _) as [i|]; [|apply F]. destruct (negb _); [apply F|]. apply on_conn_ok; [done|]. intros c. apply held_calm. unfold op_queue.
    etrans; [apply start_op_held|done]. }
  destruct (r_kind r); try apply Q.
  - destruct (by_addr _ _) as [i|]; [destruct (bool_decide _); [apply F|done]|]. destruct (in_state _ _) as [i|]; [|apply F]. apply buf_upd; [done|]. by split.
  - destruct (by_addr _ _) as [i|]; [|apply F]. destruct (bool_decide (state (conn_of i h) = C_WAIT)); [by apply tell_ok, free_ok|].
    destruct (bool_decide (state (conn_of i h) = C_CONNECTING)); [destruct (_ =? _); [apply tell_ok; by apply buf_upd|done]|].
    destruct (bool_decide (state (conn_of i h) = C_CLOSING)); [done|by apply buf_upd].
  - destruct (by_addr _ _) as [i|]; [|apply F]. apply on_pst_ok; [done|]. intros s. apply held_calm, ask_held.
  - apply tell_ok. set (h1 := h <| h_bonds := _ |>). assert (B1 : buf_ok h1) by (by eapply buf_same).
    assert (B2 : forall n, buf_ok (Nat.iter n (tell (r_addr r) BondsSaved) h1)) by (induction n as [|n IH]; [done|by apply tell_ok]).
    destruct (by_addr _ _) as [i|]; [|apply B2]. destruct (linked _); [|apply B2]. apply buf_upd; [apply B2|]. by split.
Qed.
Lemma keep_ok now dh_st enc_st i h : buf_ok h -> buf_ok (upkeep_conn connection acl_len now dh_st enc_st i h).
Proof.
  intros B. unfold upkeep_conn. cbv zeta. destruct (bool_decide _); [done|]. set (h1 := if need_dhkey _ && _ && _ && _ then _ else h).
  assert (B1 : buf_ok h1) by (unfold h1; destruct (_ && _ && _ && _); [by eapply buf_same|done]). clearbody h1.
  match goal with |- buf_ok (if _ then _ else ?x) => set (h2 := x) end.
  assert (B2 : buf_ok h2).
  { unfold h2. apply on_conn_ok; [|apply upkeep_cmds_calm]. apply on_pst_ok; [done|]. intros s. apply held_calm, upkeep_pair_held. }
  clearbody h2. destruct (_ && _); [|done]. destruct (srv _); [by apply srv_lost_ok|by apply lose_ok].
Qed.
Lemma upkeep_ok now dh_st enc_st d h : buf_ok h -> buf_ok (upkeep chars read connection acl_len now dh_st enc_st d h).
Proof.
  intros B. unfold upkeep. assert (B1 : buf_ok (server_upkeep chars read acl_len d h)).
  { unfold server_upkeep. destruct (bool_decide _); [|done]. apply on_gatts_ok. destruct d; [|done]. apply buf_upd; [done|]. by split. }
  revert B1. generalize (server_upkeep chars read acl_len d h). induction (seq 0 _) as [|i l IH]; intros h1 B1; [done|]. cbn [fold_left]. apply IH. by apply keep_ok.
Qed.
Lemma next_ok now st h : buf_ok h -> buf_ok (connect_next now st h).
Proof.
  intros B. unfold connect_next. destruct (in_state C_WAIT h) as [i|]; [|done]. destruct (in_state C_CONNECTING h); [done|]. cbv zeta.
  match goal with |- buf_ok (if _ then ?x else _) => assert (B1 : buf_ok x) by (apply tell_ok, buf_upd; [done|by split]) end.
  destruct (st =? 0); [done|by apply lose_ok].
Qed.
Lemma lost_ok h : buf_ok h -> buf_ok (drop_all connection h).
Proof.
  intros B. unfold drop_all. cbv zeta. match goal with |- buf_ok (set frags _ ?x) => apply (buf_same x); [|done|done] end.
  set (h1 := if bool_decide _ then h else _). assert (B1 : buf_ok h1) by (unfold h1; destruct (bool_decide _); [done|by apply srv_lost_ok]). clearbody h1. revert h1 B1.
  induction (seq 0 BLE_MAX_CONN) as [|i l IH]; intros h1 B1; [done|]. cbn [fold_left]. apply IH. destruct (bool_decide _); [done|by apply lose_ok].
Qed.
Lemma hrun_ok h x : honest h x -> buf_ok h -> buf_ok (hrun h x).
Proof.
  intros H B. destruct x; cbn [hrun].
  - by apply acl_ok.
  - by apply complete_ok.
  - by apply gone_ok.
  - unfold enc_changed. destruct (_ <? _)%nat; [done|]. destruct (by_handle _ _) as [i|]; [|done]. cbv zeta. apply on_pst_ok; [done|]. intros s. apply held_calm, encrypted_held.
  - unfold num_completed, acl_flush. apply flush_ok. by apply completed_all_ok.
  - unfold ltk_request. destruct (_ <? _)%nat; [done|]. destruct (by_handle _ _) as [i|]; [|done]. apply buf_upd; [done|]. by split.
  - unfold dhkey_complete. destruct (_ <? _)%nat; [done|]. destruct (dh_owner h) as [i|]; [|done]. apply on_conn_ok; [by eapply buf_same|]. intros c. apply held_calm, dhkey_held.
  - by apply request_ok.
  - by apply upkeep_ok.
  - by apply next_ok.
  - by apply lost_ok.
Qed.
Fixpoint honest_run (l : list hstep) (h : host) : Prop := match l with [] => True | x :: l => honest h x /\ honest_run l (hrun h x) end.
(** The thread's state when the controller has been set up *)
Definition host0 (bs : list bond) (g : gatts T) : host := mk_host (replicate (S BLE_MAX_CONN) conn0) bs None [] acl_num [] g [].

(** C22. The controller is never overrun: packets, events, requests, timeouts and connections lost,
    in whatever order, the packets of all connections the controller has and the room it has
    left add up to what it takes, and the room is never less than none; so as long as the
    controller reports only packets it was sent, there are never more of them than it takes
    and none of the room is lost. *)
Theorem controller_not_overrun bs g l : 0 <= acl_num -> honest_run l (host0 bs g) ->
  let h := fold_left hrun l (host0 bs g) in
  credits h + at_controller (conns h) = acl_num /\ 0 <= credits h /\ Forall (fun c => 0 <= unacked c) (conns h).
Proof.
  intros Ha H h. assert (B : buf_ok h).
  { unfold h. assert (B0 : buf_ok (host0 bs g)) by (split_and!; cbn; try lia; by repeat constructor). revert B0 H. generalize (host0 bs g).
    clear h. induction l as [|x l IH]; intros h B H; [done|]. destruct H as [H1 H2]. cbn [fold_left]. apply IH; [by apply hrun_ok|done]. }
  destruct B as (_ & S & C & F). split_and!; [done|done|]. eapply list.Forall_impl; [exact F|]. by intros c [? _].
Qed.
End buffers.
