(* ===== verification/BleDemo.v ===== *)
(** * Bluetooth LE: concrete runs
    The service improv.c serves, on the server of ble.c, with a phone's commands and its
    discovery; a pairing from end to end; a connection on the controller.  The theorems of
    the parts are applied to them. *)
From S2P Require Import Prelude Cbits Improv BleCrypto BleSpec Ble BleGatt BleTrip BleSafe BleDisc BleBonds BleFrame BlePair BleAgree BlePairSafe BleLink BleLinkSafe.

(** ** Improv's service over GATT *)
Definition IMPROV_UUID (x : Z) : bytes := [x; 0x80; 0x26; 0x78; 0x74; 0x27; 0x63; 0x46; 0x72; 0x22; 0x28; 0x62; 0x68; 0x77; 0x46; 0x00].
Definition server_uuid : bytes := IMPROV_UUID 0x00.
Definition server_chars : list (bytes * Z) :=
  [(IMPROV_UUID 0x01, Z.lor BLE_PROP_READ BLE_PROP_NOTIFY); (IMPROV_UUID 0x02, Z.lor BLE_PROP_READ BLE_PROP_NOTIFY);
   (IMPROV_UUID 0x03, Z.lor BLE_PROP_WRITE BLE_PROP_WRITE_NR); (IMPROV_UUID 0x04, Z.lor BLE_PROP_READ BLE_PROP_NOTIFY);
   (IMPROV_UUID 0x05, BLE_PROP_READ)].

Section demo.
Context (name : bytes).
Abbreviation rd := (Improv.on_read name).
Abbreviation wr := Improv.on_write.

Lemma improv_read_fits a cap s : (length (rd a cap s) <= cap)%nat.
Proof.
  unfold rd. destruct (Nat.eqb_spec cap 0) as [->|E]; [cbn; lia|].
  repeat case_match; cbn [length]; rewrite ?length_take; lia.
Qed.
Definition link (m : nat) (s : improv) : gatts improv := (gatts0 s) <| g_mtu := m |>.
Definition phone (m : nat) : conn := conn0 <| state := C_UP |> <| mtu := m |>.
(** The handles of the command and of its result *)
Definition h_rpc : Z := 14.
Definition h_result : Z := 16.
Definition ask_write (d : bytes) : Ble.op := mk_op K_WRITE h_rpc true d.
Definition ask_read : Ble.op := mk_op K_READ h_result false [].
End demo.

Definition demo_name : bytes := str "Echo Dot".
(** A command that needs three pieces at an MTU of 23 *)
Definition demo_command : bytes := [1; 40] ++ replicate 40 65 ++ [0x51].
Definition demo_improv : improv := (improv0 0) <| Improv.result := replicate 60 7 |>.

Lemma values_cross_whole_witness :
  let g := link 23 demo_improv in
  let c1 := begin_op 0 (ask_write demo_command) (phone 23) in
  let c2 := begin_op 0 ask_read (phone 23) in
  (exists p c' g', att_sent (drop 0 (outs c1)) = [p] /\ converse server_uuid server_chars (Improv.on_read demo_name) Improv.on_write 0 514 p c1 g = (c', g') /\
     list.last (outs c') = Some (Written h_rpc) /\ app g' = Improv.on_write C_RPC demo_command demo_improv /\ cur c' = None) /\
  (exists p c' g', att_sent (drop 0 (outs c2)) = [p] /\ converse server_uuid server_chars (Improv.on_read demo_name) Improv.on_write 0 514 p c2 g = (c', g') /\
     list.last (outs c') = Some (Read h_result (replicate 60 7)) /\ app g' = demo_improv /\ cur c' = None).
Proof.
  cbv zeta. split.
  - refine (proj2 (values_cross_whole server_uuid server_chars (Improv.on_read demo_name) Improv.on_write 0 (ask_write demo_command) (phone 23) (link 23 demo_improv) 23
      _ _ _ _ _ _ _ _ _) _ _ _ _ _); vm_compute; try done; lia.
  - refine (proj1 (values_cross_whole server_uuid server_chars (Improv.on_read demo_name) Improv.on_write 0 ask_read (phone 23) (link 23 demo_improv) 23
      _ _ _ _ _ _ _ _ _) _ _ _); vm_compute; try done; lia.
Defined.

Lemma server_keeps_to_its_table_witness :
  let l := [Packet (ATT_MTU_REQ :: put16 185); Packet (ATT_WRITE_REQ :: put16 9 ++ put16 1); Packet (ATT_WRITE_REQ :: put16 h_rpc ++ demo_command);
            Notify 0; Upkeep; Packet [0xff]; Reconnect] in
  let g := fold_left (gatts_step server_uuid server_chars (Improv.on_read demo_name) Improv.on_write) l (gatts0 demo_improv) in
  Forall (fits ATT_MTU) (sent g) /\ length (sent g) = 4%nat.
Proof.
  cbv zeta. split; [|reflexivity].
  exact (proj1 (proj2 (proj2 (server_keeps_to_its_table server_uuid server_chars (Improv.on_read demo_name) Improv.on_write
    (improv_read_fits demo_name) demo_improv _)))).
Defined.

(** A device that says only a confirmation, whatever it is asked: nothing of a discovery *)
Lemma discovery_ends_witness :
  let ps := replicate (Z.to_nat disc_bound) [ATT_CONFIRM] in
  exists qs rest ls x l, ps = qs ++ rest /\
    outs (fold_left (fun c p => att_rx 0 p c) qs (begin_op 0 (mk_op K_DISCOVER 0 false []) (phone 23))) = [] ++ map (Send CID_ATT) ls ++ x :: l /\
    length ls = length qs /\ is_end x.
Proof.
  cbv zeta. apply (discovery_ends 0 (mk_op K_DISCOVER 0 false []) (phone 23)); [reflexivity..| |].
  - apply Forall_replicate. split; [by repeat constructor|]. split; [done|]. split_and!; [done..|by right].
  - rewrite length_replicate, Z2Nat.id; [done|by vm_compute].
Defined.

(** The phone's discovery of Improv's service: 9 questions and what they gave *)
Example phone_discovers :
  let c := begin_op 0 (mk_op K_DISCOVER 0 false []) (phone 185) in
  let p := ATT_READ_GROUP_REQ :: put16 1 ++ put16 0xffff ++ put16 0x2800 in
  let c' := fst (converse server_uuid server_chars (Improv.on_read demo_name) Improv.on_write 0 40 p c (link 185 demo_improv)) in
  match list.last (outs c') with
  | Some (Services d) =>
      map (fun s => (s_start s, s_end s, s_first s, s_n s)) (svcs d) = [(1, 5, 0%nat, 2%nat); (6, 19, 2%nat, 5%nat)] /\
      map (fun ch => (c_handle ch, c_props ch, c_n ch)) (chrs d) =
        [(3, 2, 0%nat); (5, 2, 0%nat); (8, 18, 1%nat); (11, 18, 1%nat); (14, 12, 0%nat); (16, 18, 1%nat); (19, 2, 0%nat)] /\
      map d_handle (dscs d) = [9; 12; 17]
  | _ => False
  end.
Proof. vm_compute. done. Qed.

(** A discovery that failed leaves its tables: the next one asks nothing and hands them over,
    as if what was found until then were all there is. *)
Example half_discovered :
  let discover := mk_op K_DISCOVER 0 false [] in
  let one := [ATT_READ_GROUP_RSP; 6] ++ put16 1 ++ put16 5 ++ put16 0x1800 in
  let fails := [ATT_ERROR; ATT_READ_GROUP_REQ] ++ put16 6 ++ [0x0e] in
  let c := att_rx 0 fails (att_rx 0 one (begin_op 0 discover (phone 23))) in
  list.last (outs c) = Some (Error 0 0x0e) /\
  match drop (length (outs c)) (outs (begin_op 0 discover c)) with
  | [Services d] => map (fun s => (s_start s, s_end s)) (svcs d) = [(1, 5)] /\ chrs d = []
  | _ => False
  end.
Proof. vm_compute. done. Qed.

(** ** Bluetooth LE: a pairing, from end to end
    A device that follows the specification, with a key agreement simple enough to evaluate in
    place of P-256, and the theorems about bonds and pairing applied to it. *)
Definition fit (l : bytes) : bytes := take 32 (l ++ zeros 32).
#[local] Instance demo_dh : Dh := {
  dh_pub a := fit a ++ zeros 32;
  dh a p := zip_with (fun x y => (x + y) mod 256) (fit a) (fit p) }.
Lemma fit_length l : length (fit l) = 32%nat.
Proof. unfold fit, zeros. rewrite length_take, length_app, length_replicate. lia. Qed.
Lemma fit_pub a : fit (fit a ++ zeros 32) = fit a.
Proof. unfold fit at 1. rewrite <- app_assoc. by rewrite take_app_length' by (by rewrite fit_length). Qed.
#[local] Instance demo_dh_laws : DhLaws demo_dh.
Proof.
  constructor.
  - intros a b. cbn [dh dh_pub demo_dh]. rewrite !fit_pub. revert a b. intros a b. generalize (fit a) (fit b). intros x. induction x as [|u x IH]; intros [|v y]; cbn; [done..|]. by rewrite IH, Z.add_comm.
  - intros a. cbn [dh_pub demo_dh]. unfold zeros. rewrite length_app, length_replicate. by rewrite fit_length.
  - intros a p. cbn [dh demo_dh]. rewrite length_zip_with, !fit_length. lia.
Qed.

Definition own : bytes := [9; 8; 7; 6; 5; 4].
Definition dev : device := mk_device (replicate 32 7) [1; 2; 3; 4; 5; 6] 1 [2; 3; 0; 9; 16; 0; 3] (replicate 16 5) [] [] [] None.
Definition up : conn := conn0 <| state := C_UP |> <| addr := le_value [1; 2; 3; 4; 5; 6] |> <| addr_type := 1 |>.

Definition demo_secret : bytes := replicate 32 3.
Definition demo_na : bytes := replicate 16 8.
Lemma pairing_agrees_witness :
  rsp_ok dev /\
  let s0 := ask_pair 0 true (mk_pst up []) in
  let '(d1, l) := respond_all own (smp_sent (drop (length (outs up)) (outs (pc s0)))) dev in
  let '(s, d') := talk own 0 demo_secret demo_na 8 l s0 d1 in
  let s1 := encrypted 0 0 s in
  let no_id := Z.land (at_ (d_rsp dev) 6) 2 =? 0 in
  let s2 := if no_id then s1 else smp_rx 0 true (dh_pub demo_secret) own (0x09 :: replicate 7 2) demo_na (smp_rx 0 true (dh_pub demo_secret) own (0x08 :: replicate 16 4) demo_na s1) in
  exists ltk, d_ltk d' = Some ltk /\
    let ks := Z.min 16 (at_ (d_rsp dev) 4) in
    enc_ltk (pc s) = shorten ks (rev ltk) /\ need_enc (pc s) = true /\ enc_pending (pc s) = true /\ bonds s = [] /\
    bonds s2 = remember (addr up) (addr_type up) (made up ks (shorten ks (rev ltk)) (if no_id then None else Some (replicate 16 4))) [].
Proof.
  assert (R : rsp_ok dev) by (repeat split; vm_compute; done). split; [exact R|].
  apply (pairing_agrees own 0 demo_secret demo_na dev up [] (replicate 16 4) (replicate 7 2) R); try reflexivity; [by right|by vm_compute].
Defined.


(** ** Bonds *)
Definition bond1 : bond := mk_bond 0xaabbccddeeff 1 1 16 0 (replicate 16 171) (zeros 8) (Some (replicate 16 205)).
Definition bond2 : bond := mk_bond 0x0000ccddeeff 0 0 7 513 (replicate 16 255) (replicate 8 3) None.
Lemma demo_bonds_ok : Forall bond_ok [bond1; bond2].
Proof. repeat constructor; cbn; try lia; unfold is_byte; lia. Qed.
Lemma bonds_survive_restart_witness : bonds_load (Some (bonds_text [bond1; bond2])) = [bond1; bond2].
Proof. apply (bonds_survive_restart [bond1; bond2]); [exact demo_bonds_ok|cbn; unfold MAX_BONDS; lia]. Defined.
Lemma remember_keeps_witness :
  let bs' := remember (b_addr bond2) (b_type bond2) bond2 [bond1] in
  keys_ok bs' /\
  (exists i, bond_for (b_addr bond2) (b_type bond2) bs' = Some i /\ bs' !! i = Some bond2) /\
  (bs' ≡ₚ [bond2; bond1] /\ bond_for (b_addr bond2) (b_type bond2) [bond1] = None \/
   exists old, old :: bs' ≡ₚ [bond2; bond1] /\
     ((exists i, bond_for (b_addr bond2) (b_type bond2) [bond1] = Some i /\ [bond1] !! i = Some old) \/ length [bond1] = MAX_BONDS)).
Proof. apply (remember_keeps bond2 [bond1]). split; [unfold MAX_BONDS; cbn; lia|apply NoDup_singleton]. Defined.

(** ** Bluetooth LE: a connection on the controller
    The theorems of BleLinkSafe applied to a connection that Home Assistant asks for. *)
(** A device at the controller, with room for two packets of 27 bytes *)
Definition demo_q : bytes := [0; 64; 0; 0; 1; 1; 2; 3; 4; 5; 6; 24; 0; 0; 0; 244; 1; 0].
Definition demo_steps : list hstep :=
  [Request 0 (mk_req R_CONNECT (le_value [1; 2; 3; 4; 5; 6]) 1 0 false []); Next 1 0; Complete 2 demo_q; Completed [1; 64; 0; 1; 0];
   Acl 3 [] ([64; 32; 7; 0; 3; 0; 4; 0] ++ [ATT_MTU_RSP; 185; 0]);
   Request 4 (mk_req R_WRITE (le_value [1; 2; 3; 4; 5; 6]) 0 14 true (replicate 100 65)); Keep 5 0 0 false; Completed [1; 64; 0; 2; 0]].
Definition demo_gatts : gatts unit := gatts0 tt.
Definition demo_run (l : list hstep) : host unit :=
  fold_left (hrun true [] [] [] [] (fun _ _ _ => []) (fun _ _ t => t) (fun _ t => t) 27 2 (fun _ => false)) l (host0 2 [] demo_gatts).

(** 107 bytes with their heads are four packets: two at first, the other two when the controller has room again *)
Example written_as_room_allows :
  let h := demo_run demo_steps in
  length (wire h) = 5%nat /\ length (frags h) = 0%nat /\ credits h = 0 /\ map unacked (conns h) = [2; 0; 0; 0].
Proof. by vm_compute. Qed.

Lemma controller_not_overrun_witness :
  let h := demo_run demo_steps in credits h + at_controller (conns h) = 2 /\ 0 <= credits h /\ Forall (fun c => 0 <= unacked c) (conns h).
Proof.
  apply (controller_not_overrun true [] [] [] [] (fun _ _ _ => []) (fun _ _ t => t) (fun _ t => t) 27 2 (fun _ => false) [] demo_gatts demo_steps); [done|].
  repeat split; intros _; exists 0%nat; vm_compute; done.
Defined.

Definition linked_host : host unit := demo_run (take 3 demo_steps).
Lemma frames_cross_whole_witness :
  by_handle 64 linked_host = Some 0%nat /\
  let pdu := ATT_NOTIFY :: 14 :: 0 :: replicate 60 7 in
  let fr := l2cap_frame CID_ATT pdu in
  length (acl_frags 27 (length fr) 64 true fr) = 3%nat /\
  feed true [] [] [] [] (fun _ _ _ => []) (fun _ _ t => t) 27 9 [] (acl_frags 27 (length fr) 64 true fr) linked_host =
    dispatch true [] [] [] [] (fun _ _ _ => []) (fun _ _ t => t) 27 9 [] 0 CID_ATT pdu (upd_conn 0 (whole fr) linked_host).
Proof.
  split; [reflexivity|]. cbv zeta. split; [reflexivity|].
  apply (frames_cross_whole true [] [] [] [] (fun _ _ _ => []) (fun _ _ t => t) 27 ltac:(lia) ltac:(lia) 9 [] 64 CID_ATT (ATT_NOTIFY :: 14 :: 0 :: replicate 60 7) linked_host 0);
    [lia|reflexivity|unfold CID_ATT; lia|vm_compute; lia].
Defined.
